(** * Order matching engine: a shallow embedding of [internal/engine]

    The Go package keeps one [OrderBook] per symbol.  A book has two ladders
    of price levels ([Bids], best first; [Asks], best first), each level a
    FIFO queue of pointers to [Order] records, and a map from order id to the
    same pointers.  Orders are shared: the matcher updates a resting order
    through the ladder and [GetOrder] sees the update through the id map.  The
    embedding therefore has an explicit store of order records ([mem]); a
    pointer is an index into it and [NewOrder] allocates at the end.

    [uuid.New()] and [time.Now()] are inputs of the environment ([Env]); the
    order in which Go's [range] visits the book map is an input of
    [CancelOrder] and [GetOrder]. *)

From Stdlib Require Import ZArith Lia.
From stdpp Require Import gmap strings list fin_maps sorting pretty.

Open Scope Z_scope.

(** ** int64 arithmetic *)

Definition wrap64 (z : Z) : Z := (z + 2 ^ 63) `mod` 2 ^ 64 - 2 ^ 63.
Definition add64 (a b : Z) : Z := wrap64 (a + b).
Definition sub64 (a b : Z) : Z := wrap64 (a - b).
Definition int64 (z : Z) : Prop := - 2 ^ 63 ≤ z < 2 ^ 63.

(** [func min(a, b int64) int64] of matcher.go. *)
Definition min (a b : Z) : Z := if a <? b then a else b.

(** ** Data model (types file of the package) *)

Inductive OrderSide := BUY | SELL.
Inductive OrderType := LIMIT | MARKET.
Inductive OrderStatus := ACCEPTED | PARTIAL_FILL | FILLED | CANCELLED.

#[global] Instance OrderSide_eq_dec : EqDecision OrderSide.
Proof. solve_decision. Defined.
#[global] Instance OrderType_eq_dec : EqDecision OrderType.
Proof. solve_decision. Defined.
#[global] Instance OrderStatus_eq_dec : EqDecision OrderStatus.
Proof. solve_decision. Defined.

Record Order := mkOrder {
  ID : string;
  Symbol : string;
  Side : OrderSide;
  Typ : OrderType;
  Price : Z;
  Quantity : Z;
  FilledQuantity : Z;
  Status : OrderStatus;
  Timestamp : Z
}.

Record Trade := mkTrade {
  TradeID : string;
  TradePrice : Z;
  TradeQuantity : Z;
  TradeTimestamp : Z;
  BuyerID : string;
  SellerID : string
}.

(** A pointer [*Order] is an index into the store. *)
Abbreviation ptr := nat.

Record PriceLevel := mkLevel {
  LevelPrice : Z;
  LevelOrders : list ptr
}.

Record OrderBook := mkBook {
  BookSymbol : string;
  Bids : list PriceLevel;
  Asks : list PriceLevel;
  BookOrders : gmap string ptr
}.

Record MatchingEngine := mkEngine {
  books : gmap string OrderBook;
  mem : list Order
}.

Record OrderResult := mkResult {
  OrderID : string;
  ResStatus : OrderStatus;
  ResFilledQuantity : Z;
  RemainingQuantity : Z;
  Trades : list Trade;
  Message : string
}.

(** The errors built with [fmt.Errorf]. *)
Inductive EngineError :=
  | ErrQuantity
  | ErrPrice
  | ErrInsufficientLiquidity (available requested : Z)
  | ErrAlreadyFilled
  | ErrNotFound.

Inductive result (A : Type) :=
  | Ok (a : A)
  | Err (e : EngineError).
Arguments Ok {A} a.
Arguments Err {A} e.

(** What the environment hands to one call of [SubmitOrder]: call [0] of
    [uuid.New]/[time.Now] makes the order, call [k+1] the [k]-th trade. *)
Record Env := mkEnv {
  uuid_New : nat → string;
  time_Now : nat → Z
}.

(** Field updates through a pointer. *)
Definition addFilled (q : Z) (o : Order) : Order :=
  mkOrder (ID o) (Symbol o) (Side o) (Typ o) (Price o) (Quantity o)
          (add64 (FilledQuantity o) q) (Status o) (Timestamp o).

Definition setStatus (s : OrderStatus) (o : Order) : Order :=
  mkOrder (ID o) (Symbol o) (Side o) (Typ o) (Price o) (Quantity o)
          (FilledQuantity o) s (Timestamp o).

Definition setOrders (q : list ptr) (l : PriceLevel) : PriceLevel :=
  mkLevel (LevelPrice l) q.

Definition setBids (ls : list PriceLevel) (b : OrderBook) : OrderBook :=
  mkBook (BookSymbol b) ls (Asks b) (BookOrders b).

Definition setAsks (ls : list PriceLevel) (b : OrderBook) : OrderBook :=
  mkBook (BookSymbol b) (Bids b) ls (BookOrders b).

Definition remaining (o : Order) : Z := sub64 (Quantity o) (FilledQuantity o).

(** ** Order book *)

Definition NewOrderBook (symbol : string) : OrderBook :=
  mkBook symbol [] [] ∅.

Definition NewMatchingEngine : MatchingEngine := mkEngine ∅ [].

(** [NewOrder]: the record [&Order{...}] at a fresh address. *)
Definition NewOrder (env : Env) (symbol : string) (side : OrderSide)
    (orderType : OrderType) (price quantity : Z) : Order :=
  mkOrder (uuid_New env 0%nat) symbol side orderType price quantity 0 ACCEPTED
          (time_Now env 0%nat).

(** [sort.Slice(s, less)].  Go promises a permutation ordered by [less] and
    no stability; the ladders have pairwise distinct prices, for which that
    permutation is unique (see [sortSlice_unique]). *)
Fixpoint insertSorted (less : PriceLevel → PriceLevel → bool) (a : PriceLevel)
    (l : list PriceLevel) : list PriceLevel :=
  match l with
  | [] => [a]
  | b :: l' => if less a b then a :: l else b :: insertSorted less a l'
  end.

Definition sortSlice (less : PriceLevel → PriceLevel → bool)
    (l : list PriceLevel) : list PriceLevel :=
  foldr (insertSorted less) [] l.

(** The scan of [addToBids]/[addToAsks]: append to the first level at the
    order's price, [None] when no level has it. *)
Fixpoint appendAtPrice (price : Z) (x : ptr) (levels : list PriceLevel)
    : option (list PriceLevel) :=
  match levels with
  | [] => None
  | level :: rest =>
      if LevelPrice level =? price
      then Some (setOrders (LevelOrders level ++ [x]) level :: rest)
      else cons level <$> appendAtPrice price x rest
  end.

Definition addToBids (o : Order) (x : ptr) (bids : list PriceLevel)
    : list PriceLevel :=
  match appendAtPrice (Price o) x bids with
  | Some bids' => bids'
  | None =>
      sortSlice (λ a b, LevelPrice b <? LevelPrice a)
                (bids ++ [mkLevel (Price o) [x]])
  end.

Definition addToAsks (o : Order) (x : ptr) (asks : list PriceLevel)
    : list PriceLevel :=
  match appendAtPrice (Price o) x asks with
  | Some asks' => asks'
  | None =>
      sortSlice (λ a b, LevelPrice a <? LevelPrice b)
                (asks ++ [mkLevel (Price o) [x]])
  end.

(** [AddOrder]: register under the id, then queue on the order's side. *)
Definition AddOrder (h : list Order) (x : ptr) (ob : OrderBook)
    : option OrderBook :=
  o ← h !! x;
  let orders := <[ID o := x]> (BookOrders ob) in
  Some match Side o with
       | BUY => mkBook (BookSymbol ob) (addToBids o x (Bids ob)) (Asks ob) orders
       | SELL => mkBook (BookSymbol ob) (Bids ob) (addToAsks o x (Asks ob)) orders
       end.

(** Inner loop of [removeFromBids]/[removeFromAsks]: drop the first queued
    order with the given id. *)
Fixpoint removeById (h : list Order) (id : string) (q : list ptr)
    : option (list ptr) :=
  match q with
  | [] => Some []
  | p :: q' =>
      o ← h !! p;
      if String.eqb (ID o) id then Some q'
      else cons p <$> removeById h id q'
  end.

(** Outer loop: only the first level at the order's price is visited; it is
    dropped when its queue is empty afterwards. *)
Fixpoint removeFromLevels (h : list Order) (o : Order)
    (levels : list PriceLevel) : option (list PriceLevel) :=
  match levels with
  | [] => Some []
  | level :: rest =>
      if LevelPrice level =? Price o then
        q ← removeById h (ID o) (LevelOrders level);
        Some match q with
             | [] => rest
             | _ => setOrders q level :: rest
             end
      else cons level <$> removeFromLevels h o rest
  end.

Definition removeFromBids := removeFromLevels.
Definition removeFromAsks := removeFromLevels.

Definition RemoveOrder (h : list Order) (orderID : string) (ob : OrderBook)
    : option (OrderBook * result unit) :=
  match BookOrders ob !! orderID with
  | None => Some (ob, Err ErrNotFound)
  | Some p =>
      o ← h !! p;
      match Side o with
      | BUY => bids ← removeFromBids h o (Bids ob); Some (setBids bids ob, Ok ())
      | SELL => asks ← removeFromAsks h o (Asks ob); Some (setAsks asks ob, Ok ())
      end
  end.

Definition GetBestBid (ob : OrderBook) : Z :=
  match Bids ob with [] => 0 | l :: _ => LevelPrice l end.

Definition GetBestAsk (ob : OrderBook) : Z :=
  match Asks ob with [] => 0 | l :: _ => LevelPrice l end.

(** ** Matcher *)

(** The price test that ends the walk: [buyOrder.Type == LIMIT &&
    buyOrder.Price < bestAsk.Price] in [matchBuyOrder], [sellOrder.Type ==
    LIMIT && sellOrder.Price > bestBid.Price] in [matchSellOrder]. *)
Definition stops (side : OrderSide) (xo : Order) (best : PriceLevel) : bool :=
  match Typ xo, side with
  | LIMIT, BUY => Price xo <? LevelPrice best
  | LIMIT, SELL => LevelPrice best <? Price xo
  | MARKET, _ => false
  end.

(** The trade record: priced at the resting order, the buyer is whichever of
    the two orders buys.  [n] trades were emitted before it in this call. *)
Definition newTrade (env : Env) (n : nat) (side : OrderSide)
    (xo ro : Order) (tradeQty : Z) : Trade :=
  match side with
  | BUY => mkTrade (uuid_New env (S n)) (Price ro) tradeQty
                   (time_Now env (S n)) (ID xo) (ID ro)
  | SELL => mkTrade (uuid_New env (S n)) (Price ro) tradeQty
                    (time_Now env (S n)) (ID ro) (ID xo)
  end.

(** Inner loop of [matchBuyOrder]/[matchSellOrder] over one level's queue.
    [x] points to the incoming order, the head [r] of the queue to the resting
    one.  The result is [None] when a pointer is dangling, or when the loop
    would go round again on a head it has just left in place: the model does
    not follow it there ([matchQueue_total] shows it never happens when the
    incoming order is not itself queued). *)
Fixpoint matchQueue (env : Env) (side : OrderSide) (x : ptr) (h : list Order)
    (q : list ptr) (trades : list Trade)
    : option (list Order * list ptr * list Trade) :=
  match q with
  | [] => Some (h, [], trades)
  | r :: rest =>
      xo ← h !! x;
      if FilledQuantity xo <? Quantity xo then
        ro ← h !! r;
        let tradeQty := min (remaining xo) (remaining ro) in
        let trades' := trades ++ [newTrade env (length trades) side xo ro tradeQty] in
        let h1 := alter (addFilled tradeQty) x h in
        let h2 := alter (addFilled tradeQty) r h1 in
        ro' ← h2 !! r;
        if FilledQuantity ro' =? Quantity ro' then
          matchQueue env side x (alter (setStatus FILLED) r h2) rest trades'
        else
          let h3 := alter (setStatus PARTIAL_FILL) r h2 in
          xo' ← h3 !! x;
          if FilledQuantity xo' <? Quantity xo' then None
          else Some (h3, q, trades')
      else Some (h, q, trades)
  end.

(** Outer loop: walk the opposing ladder from its best level. *)
Fixpoint matchLadder (env : Env) (side : OrderSide) (x : ptr) (h : list Order)
    (levels : list PriceLevel) (trades : list Trade)
    : option (list Order * list PriceLevel * list Trade) :=
  match levels with
  | [] => Some (h, [], trades)
  | best :: rest =>
      xo ← h !! x;
      if FilledQuantity xo <? Quantity xo then
        if stops side xo best then Some (h, levels, trades)
        else
          '(h', q', trades') ← matchQueue env side x h (LevelOrders best) trades;
          match q' with
          | [] => matchLadder env side x h' rest trades'
          | _ =>
              xo' ← h' !! x;
              if FilledQuantity xo' <? Quantity xo' then None
              else Some (h', setOrders q' best :: rest, trades')
          end
      else Some (h, levels, trades)
  end.

Definition matchBuyOrder (env : Env) (x : ptr) (h : list Order) (book : OrderBook)
    : option (list Order * OrderBook * list Trade) :=
  '(h', asks, trades) ← matchLadder env BUY x h (Asks book) [];
  Some (h', setAsks asks book, trades).

Definition matchSellOrder (env : Env) (x : ptr) (h : list Order) (book : OrderBook)
    : option (list Order * OrderBook * list Trade) :=
  '(h', bids, trades) ← matchLadder env SELL x h (Bids book) [];
  Some (h', setBids bids book, trades).

Definition matchLimitOrder (env : Env) (x : ptr) (h : list Order) (book : OrderBook)
    : option (list Order * OrderBook * list Trade) :=
  o ← h !! x;
  match Side o with
  | BUY => matchBuyOrder env x h book
  | SELL => matchSellOrder env x h book
  end.

(** The liquidity scan of [matchMarketOrder]: [availableLiquidity +=
    o.Quantity - o.FilledQuantity] over every queued order, in int64. *)
Fixpoint queueLiquidity (h : list Order) (q : list ptr) (acc : Z) : option Z :=
  match q with
  | [] => Some acc
  | p :: q' => o ← h !! p; queueLiquidity h q' (add64 acc (remaining o))
  end.

Fixpoint availableLiquidity (h : list Order) (levels : list PriceLevel) (acc : Z)
    : option Z :=
  match levels with
  | [] => Some acc
  | level :: rest =>
      acc' ← queueLiquidity h (LevelOrders level) acc;
      availableLiquidity h rest acc'
  end.

Definition matchMarketOrder (env : Env) (x : ptr) (h : list Order) (book : OrderBook)
    : option (list Order * OrderBook * result (list Trade)) :=
  o ← h !! x;
  avail ← availableLiquidity h (match Side o with BUY => Asks book | SELL => Bids book end) 0;
  if avail <? Quantity o then
    Some (h, book, Err (ErrInsufficientLiquidity avail (Quantity o)))
  else
    '(h', book', trades) ← match Side o with
                           | BUY => matchBuyOrder env x h book
                           | SELL => matchSellOrder env x h book
                           end;
    Some (h', book', Ok trades).

Definition matchOrder (env : Env) (x : ptr) (h : list Order) (book : OrderBook)
    : option (list Order * OrderBook * result (list Trade)) :=
  o ← h !! x;
  match Typ o with
  | MARKET => matchMarketOrder env x h book
  | LIMIT =>
      '(h', book', trades) ← matchLimitOrder env x h book;
      Some (h', book', Ok trades)
  end.

(** ** Engine registry *)

Definition GetOrCreateBook (bs : gmap string OrderBook) (symbol : string)
    : gmap string OrderBook * OrderBook :=
  match bs !! symbol with
  | Some book => (bs, book)
  | None => (<[symbol := NewOrderBook symbol]> bs, NewOrderBook symbol)
  end.

(** [SubmitOrder].  The book is held by pointer in the map, so what the
    matcher and [AddOrder] did to it is what the map holds afterwards. *)
Definition SubmitOrder (env : Env) (me : MatchingEngine) (symbol : string)
    (side : OrderSide) (orderType : OrderType) (price quantity : Z)
    : option (MatchingEngine * result OrderResult) :=
  if quantity <=? 0 then Some (me, Err ErrQuantity)
  else if bool_decide (orderType = LIMIT) && (price <=? 0) then Some (me, Err ErrPrice)
  else
    let '(bs, book) := GetOrCreateBook (books me) symbol in
    let x := length (mem me) in
    let h := mem me ++ [NewOrder env symbol side orderType price quantity] in
    '(h', book', r) ← matchOrder env x h book;
    match r with
    | Err e => Some (mkEngine (<[symbol := book']> bs) h', Err e)
    | Ok trades =>
        order ← h' !! x;
        if (FilledQuantity order <? Quantity order) && bool_decide (orderType = LIMIT) then
          book'' ← AddOrder h' x book';
          Some (mkEngine (<[symbol := book'']> bs) h',
                Ok (if 0 <? FilledQuantity order
                    then mkResult (ID order) PARTIAL_FILL (FilledQuantity order)
                           (remaining order) trades
                           "Order partially filled and added to book"
                    else mkResult (ID order) ACCEPTED (FilledQuantity order)
                           (remaining order) trades "Order added to book"))
        else if FilledQuantity order =? Quantity order then
          Some (mkEngine (<[symbol := book']> bs) h',
                Ok (mkResult (ID order) FILLED (FilledQuantity order) 0 trades
                      "Order fully filled"))
        else
          Some (mkEngine (<[symbol := book']> bs) h',
                Ok (mkResult (ID order) (Status order) (FilledQuantity order) 0
                      trades ""))
    end.

(** The scan [for _, book := range me.books] of [CancelOrder] and [GetOrder]:
    [ks] is the order in which this [range] visits the symbols; the first book
    that knows the id wins. *)
Fixpoint findOrder (bs : gmap string OrderBook) (orderID : string)
    (ks : list string) : option (string * OrderBook * ptr) :=
  match ks with
  | [] => None
  | k :: ks' =>
      match bs !! k with
      | Some book =>
          match BookOrders book !! orderID with
          | Some p => Some (k, book, p)
          | None => findOrder bs orderID ks'
          end
      | None => findOrder bs orderID ks'
      end
  end.

(** [ks] is a legal visiting order for [range] over the books of [me]. *)
Definition visits (me : MatchingEngine) (ks : list string) : Prop :=
  ks ≡ₚ (map_to_list (books me)).*1.

Definition CancelOrder (ks : list string) (me : MatchingEngine)
    (orderID : string) : option (MatchingEngine * result unit) :=
  match findOrder (books me) orderID ks with
  | None => Some (me, Err ErrNotFound)
  | Some (k, book, p) =>
      order ← mem me !! p;
      if bool_decide (Status order = FILLED) then Some (me, Err ErrAlreadyFilled)
      else
        let h := alter (setStatus CANCELLED) p (mem me) in
        '(book', r) ← RemoveOrder h orderID book;
        Some (mkEngine (<[k := book']> (books me)) h, r)
  end.

Definition GetOrder (ks : list string) (me : MatchingEngine) (orderID : string)
    : option (result Order) :=
  match findOrder (books me) orderID ks with
  | None => Some (Err ErrNotFound)
  | Some (_, _, p) => order ← mem me !! p; Some (Ok order)
  end.

(** [GetOrderBook]: at most [depth] levels per side, each with the int64 sum
    of what remains in its queue; levels whose sum is not positive are
    skipped.  An unknown symbol gets an empty book. *)
Record PriceLevelSnapshot := mkLevelSnapshot {
  SnapPrice : Z;
  SnapQuantity : Z
}.

Record OrderBookSnapshot := mkSnapshot {
  SnapSymbol : string;
  SnapTimestamp : Z;
  SnapBids : list PriceLevelSnapshot;
  SnapAsks : list PriceLevelSnapshot
}.

Fixpoint snapshotLevels (h : list Order) (levels : list PriceLevel)
    : option (list PriceLevelSnapshot) :=
  match levels with
  | [] => Some []
  | level :: rest =>
      totalQty ← queueLiquidity h (LevelOrders level) 0;
      tl ← snapshotLevels h rest;
      Some (if 0 <? totalQty
            then mkLevelSnapshot (LevelPrice level) totalQty :: tl
            else tl)
  end.

Definition GetOrderBook (now : Z) (me : MatchingEngine) (symbol : string)
    (depth : Z) : option (MatchingEngine * OrderBookSnapshot) :=
  let '(bs, book) := GetOrCreateBook (books me) symbol in
  bids ← snapshotLevels (mem me) (take (Z.to_nat depth) (Bids book));
  asks ← snapshotLevels (mem me) (take (Z.to_nat depth) (Asks book));
  Some (mkEngine bs (mem me), mkSnapshot symbol now bids asks).

(** * Properties *)

(** ** int64 arithmetic without overflow *)

Lemma wrap64_id z : int64 z → wrap64 z = z.
Proof.
  unfold int64, wrap64. intros Hz.
  rewrite Z.mod_small; lia.
Qed.

Lemma wrap64_int64 z : int64 (wrap64 z).
Proof.
  unfold int64, wrap64.
  pose proof (Z.mod_pos_bound (z + 2 ^ 63) (2 ^ 64)). lia.
Qed.

Lemma min_spec a b : min a b = Z.min a b.
Proof. unfold min. destruct (Z.ltb_spec a b); lia. Qed.

(** A resting order: strictly less filled than its size, which fits int64. *)
Definition live (o : Order) : Prop :=
  0 ≤ FilledQuantity o ∧ FilledQuantity o < Quantity o ∧ Quantity o < 2 ^ 63.

Lemma remaining_live o :
  0 ≤ FilledQuantity o → FilledQuantity o ≤ Quantity o → Quantity o < 2 ^ 63 →
  remaining o = Quantity o - FilledQuantity o.
Proof. intros. unfold remaining, sub64. apply wrap64_id. unfold int64. lia. Qed.

Lemma alter_insert {A} (f : A → A) (l : list A) i a :
  l !! i = Some a → alter f i l = <[i := f a]> l.
Proof.
  intros Hi. apply list_eq. intros j.
  destruct (decide (i = j)) as [->|Hne].
  - rewrite list_lookup_alter_eq, Hi. simpl.
    rewrite list_lookup_insert_eq; [done|]. by eapply lookup_lt_Some.
  - by rewrite list_lookup_alter_ne, list_lookup_insert_ne.
Qed.

(** ** The match loop as a step relation

    One step is one pass through the body of the inner loop (a trade against
    the head of the best level) or the removal of an emptied best level. *)

Definition mstate : Type := list Order * list PriceLevel * list Trade.

Inductive mstep (env : Env) (side : OrderSide) (x : ptr) : mstate → mstate → Prop :=
  | mstep_fill h pr r q rest trades xo ro :
      x ≠ r → h !! x = Some xo → h !! r = Some ro →
      FilledQuantity xo < Quantity xo →
      stops side xo (mkLevel pr (r :: q)) = false →
      add64 (FilledQuantity ro) (min (remaining xo) (remaining ro)) = Quantity ro →
      mstep env side x
        (h, mkLevel pr (r :: q) :: rest, trades)
        (<[r := setStatus FILLED (addFilled (min (remaining xo) (remaining ro)) ro)]>
           (<[x := addFilled (min (remaining xo) (remaining ro)) xo]> h),
         mkLevel pr q :: rest,
         trades ++ [newTrade env (length trades) side xo ro
                      (min (remaining xo) (remaining ro))])
  | mstep_part h pr r q rest trades xo ro :
      x ≠ r → h !! x = Some xo → h !! r = Some ro →
      FilledQuantity xo < Quantity xo →
      stops side xo (mkLevel pr (r :: q)) = false →
      add64 (FilledQuantity ro) (min (remaining xo) (remaining ro)) ≠ Quantity ro →
      ¬ add64 (FilledQuantity xo) (min (remaining xo) (remaining ro)) < Quantity xo →
      mstep env side x
        (h, mkLevel pr (r :: q) :: rest, trades)
        (<[r := setStatus PARTIAL_FILL (addFilled (min (remaining xo) (remaining ro)) ro)]>
           (<[x := addFilled (min (remaining xo) (remaining ro)) xo]> h),
         mkLevel pr (r :: q) :: rest,
         trades ++ [newTrade env (length trades) side xo ro
                      (min (remaining xo) (remaining ro))])
  | mstep_pop h pr rest trades :
      mstep env side x (h, mkLevel pr [] :: rest, trades) (h, rest, trades).

(** The queued orders of a ladder, best level first, each queue in order. *)
Definition flat (levels : list PriceLevel) : list ptr :=
  foldr (λ l acc, LevelOrders l ++ acc) [] levels.

Lemma flat_cons l ls : flat (l :: ls) = LevelOrders l ++ flat ls.
Proof. done. Qed.

Lemma flat_app ls1 ls2 : flat (ls1 ++ ls2) = flat ls1 ++ flat ls2.
Proof.
  induction ls1 as [|l ls1 IH]; [done|].
  rewrite <-app_comm_cons, !flat_cons, IH. by rewrite app_assoc.
Qed.

Lemma stops_addFilled side t xo l :
  stops side (addFilled t xo) l = stops side xo l.
Proof. done. Qed.

Lemma matchQueue_steps env side x pr rest q : ∀ h trades h' q' trades',
  x ∉ q →
  (∀ xo, h !! x = Some xo → stops side xo (mkLevel pr q) = false) →
  matchQueue env side x h q trades = Some (h', q', trades') →
  rtc (mstep env side x) (h, mkLevel pr q :: rest, trades)
                         (h', mkLevel pr q' :: rest, trades').
Proof.
  induction q as [|r q IH]; intros h trades h' q' trades' Hx Hstop Hm.
  - simpl in Hm. by simplify_eq.
  - apply not_elem_of_cons in Hx as [Hxr Hxq].
    simpl in Hm.
    destruct (h !! x) as [xo|] eqn:Hxo; [|done]. simpl in Hm.
    destruct (Z.ltb_spec (FilledQuantity xo) (Quantity xo)) as [Hlt|Hge];
      [|by simplify_eq].
    destruct (h !! r) as [ro|] eqn:Hro; [|done]. simpl in Hm.
    set (t := min (remaining xo) (remaining ro)) in *.
    rewrite (alter_insert _ h x xo) in Hm by done.
    assert (<[x:=addFilled t xo]> h !! r = Some ro) as Hro1
      by by rewrite list_lookup_insert_ne.
    rewrite (alter_insert (addFilled t) _ r ro) in Hm by done.
    assert (r < length (<[x:=addFilled t xo]> h))%nat as Hlen
      by by eapply lookup_lt_Some.
    rewrite list_lookup_insert_eq in Hm by done. simpl in Hm.
    assert (x < length h)%nat as Hxlen by by eapply lookup_lt_Some.
    destruct (Z.eqb_spec (add64 (FilledQuantity ro) t) (Quantity ro)) as [Heq|Hne].
    + rewrite (alter_insert _ _ r (addFilled t ro)) in Hm
        by by rewrite list_lookup_insert_eq.
      rewrite list_insert_insert_eq in Hm.
      eapply rtc_l; [apply mstep_fill; eauto|].
      apply IH; [done| |done].
      intros xo'. rewrite list_lookup_insert_ne by done.
      rewrite list_lookup_insert_eq by done.
      intros [= <-]. rewrite stops_addFilled. by apply (Hstop xo).
    + rewrite (alter_insert _ _ r (addFilled t ro)) in Hm
        by by rewrite list_lookup_insert_eq.
      rewrite list_insert_insert_eq in Hm.
      rewrite list_lookup_insert_ne in Hm by done.
      rewrite list_lookup_insert_eq in Hm by done. simpl in Hm.
      destruct (Z.ltb_spec (add64 (FilledQuantity xo) t) (Quantity xo)); [done|].
      simplify_eq. apply rtc_once. apply mstep_part; eauto.
      fold t. lia.
Qed.

Lemma matchLadder_steps env side x levels : ∀ h trades h' levels' trades',
  x ∉ flat levels →
  matchLadder env side x h levels trades = Some (h', levels', trades') →
  rtc (mstep env side x) (h, levels, trades) (h', levels', trades').
Proof.
  induction levels as [|[pr q] rest IH]; intros h trades h' levels' trades' Hx Hm.
  - simpl in Hm. by simplify_eq.
  - unfold flat in Hx. simpl in Hx. apply not_elem_of_app in Hx as [Hxq Hxrest].
    simpl in Hm.
    destruct (h !! x) as [xo|] eqn:Hxo; [|done]. simpl in Hm.
    destruct (Z.ltb_spec (FilledQuantity xo) (Quantity xo)) as [Hlt|Hge];
      [|by simplify_eq].
    destruct (stops side xo (mkLevel pr q)) eqn:Hstop; [by simplify_eq|].
    destruct (matchQueue env side x h q trades) as [[[h1 q1] trades1]|] eqn:Hq;
      [|done]. simpl in Hm.
    eapply rtc_trans.
    { eapply (matchQueue_steps _ _ _ pr rest); [done| |done].
      intros xo'. rewrite Hxo. by intros [= <-]. }
    destruct q1 as [|r1 q1].
    + eapply rtc_l; [apply mstep_pop|]. by apply IH.
    + destruct (h1 !! x) as [xo1|]; [|done]. simpl in Hm.
      destruct (FilledQuantity xo1 <? Quantity xo1); [done|].
      by simplify_eq.
Qed.

(** ** What a run of the match loop does

    [rests h s pr p]: [p] points to a live order of symbol [s] priced [pr]. *)
Definition rests (h : list Order) (s : string) (pr : Z) (p : ptr) : Prop :=
  ∃ o, h !! p = Some o ∧ Symbol o = s ∧ Price o = pr ∧ live o.

(** A level's queue: live orders of the level's price, in the order of their
    creation (a pointer is the order's position in the store). *)
Definition wf_level (h : list Order) (s : string) (l : PriceLevel) : Prop :=
  Forall (rests h s (LevelPrice l)) (LevelOrders l) ∧
  StronglySorted lt (LevelOrders l).

Definition wf_ladder (h : list Order) (s : string) (ls : list PriceLevel) : Prop :=
  Forall (wf_level h s) ls.

Definition withFill (v : Z) (st : OrderStatus) (o : Order) : Order :=
  mkOrder (ID o) (Symbol o) (Side o) (Typ o) (Price o) (Quantity o) v st
          (Timestamp o).

Definition sumQty (tr : list Trade) : Z :=
  foldr (λ t acc, TradeQuantity t + acc) 0 tr.

Lemma sumQty_app tr1 tr2 : sumQty (tr1 ++ tr2) = sumQty tr1 + sumQty tr2.
Proof. induction tr1 as [|t tr1 IH]; simpl; [done|]. rewrite IH. lia. Qed.

(** [trade_of side xo ro t n]: [t] trades [n] units between the incoming order
    [xo] and the resting order [ro], at the resting order's price, which the
    incoming order's limit admits. *)
Definition trade_of (side : OrderSide) (xo ro : Order) (t : Trade) (n : Z) : Prop :=
  TradePrice t = Price ro ∧ TradeQuantity t = n ∧
  stops side xo (mkLevel (Price ro) []) = false ∧
  match side with
  | BUY => BuyerID t = ID xo ∧ SellerID t = ID ro
  | SELL => BuyerID t = ID ro ∧ SellerID t = ID xo
  end.

Lemma newTrade_trade_of env k side xo ro n v st :
  stops side xo (mkLevel (Price ro) []) = false →
  trade_of side xo ro (newTrade env k side (withFill v st xo) ro n) n.
Proof. intros Hs. unfold trade_of, newTrade. by destruct side. Qed.

Lemma elem_of_flat p ls :
  p ∈ flat ls ↔ ∃ l, l ∈ ls ∧ p ∈ LevelOrders l.
Proof.
  induction ls as [|l0 ls IH].
  - split; [by intros ?%elem_of_nil|]. by intros (l & ?%elem_of_nil & _).
  - rewrite flat_cons, elem_of_app, IH. split.
    + intros [Hp|(l & Hl & Hp)]; [exists l0|exists l]; set_solver.
    + intros (l & Hl & Hp). apply elem_of_cons in Hl as [->|Hl]; eauto.
Qed.

(** A ladder stays well formed when its orders keep symbol and price and
    stay live. *)
Lemma wf_ladder_ext h h' s ls :
  (∀ p o, p ∈ flat ls → h !! p = Some o → live o →
          ∃ o', h' !! p = Some o' ∧ Symbol o' = Symbol o ∧
                Price o' = Price o ∧ live o') →
  wf_ladder h s ls → wf_ladder h' s ls.
Proof.
  intros Hext Hwf. unfold wf_ladder in *.
  rewrite Forall_forall in *. intros l Hl.
  destruct (Hwf l Hl) as [Hr Hs]. split; [|done].
  rewrite Forall_forall in *. intros p Hp.
  destruct (Hr p Hp) as (o & Ho & Hsym & Hpr & Hlive).
  destruct (Hext p o) as (o' & Ho' & Hs1 & Hs2 & Hs3); [|done|done|].
  { apply elem_of_flat. eauto. }
  exists o'. rewrite Hs1, Hs2. done.
Qed.

Lemma wf_ladder_frame h h' s ls :
  (∀ p, p ∈ flat ls → h' !! p = h !! p) →
  wf_ladder h s ls → wf_ladder h' s ls.
Proof.
  intros Hsame. apply wf_ladder_ext. intros p o Hp Ho Hlive.
  exists o. rewrite Hsame by done. done.
Qed.

Lemma wf_ladder_lt h s ls p :
  wf_ladder h s ls → p ∈ flat ls → (p < length h)%nat.
Proof.
  intros Hwf Hp. apply elem_of_flat in Hp as (l & Hl & Hp).
  unfold wf_ladder in Hwf. rewrite Forall_forall in Hwf.
  destruct (Hwf l Hl) as [Hr _]. rewrite Forall_forall in Hr.
  destruct (Hr p Hp) as (o & Ho & _). by eapply lookup_lt_Some.
Qed.

Lemma wf_ladder_symbol h s ls p o :
  wf_ladder h s ls → p ∈ flat ls → h !! p = Some o → Symbol o = s ∧ live o.
Proof.
  intros Hwf Hp Ho. apply elem_of_flat in Hp as (l & Hl & Hp).
  unfold wf_ladder in Hwf. rewrite Forall_forall in Hwf.
  destruct (Hwf l Hl) as [Hr _]. rewrite Forall_forall in Hr.
  destruct (Hr p Hp) as (o' & Ho' & ? & ? & ?). by simplify_eq.
Qed.

(** What is left of the order at [p], and of all orders queued on a ladder
    (a sum of integers, not of int64). *)
Definition leftAt (h : list Order) (p : ptr) : Z :=
  match h !! p with
  | Some o => Quantity o - FilledQuantity o
  | None => 0
  end.

Definition sumLeft (h : list Order) (q : list ptr) : Z :=
  foldr (λ p acc, leftAt h p + acc) 0 q.

Definition restingQty (h : list Order) (ls : list PriceLevel) : Z :=
  sumLeft h (flat ls).

Lemma sumLeft_app h q1 q2 : sumLeft h (q1 ++ q2) = sumLeft h q1 + sumLeft h q2.
Proof. induction q1 as [|p q1 IH]; simpl; [done|]. rewrite IH. lia. Qed.

Lemma sumLeft_ext h h' q :
  (∀ p, p ∈ q → h' !! p = h !! p) → sumLeft h' q = sumLeft h q.
Proof.
  induction q as [|p q IH]; intros Hq; simpl; [done|].
  rewrite IH by (intros; apply Hq; set_solver).
  unfold leftAt. rewrite Hq by set_solver. done.
Qed.

Lemma sumLeft_perm h q1 q2 : q1 ≡ₚ q2 → sumLeft h q1 = sumLeft h q2.
Proof. induction 1; simpl; lia. Qed.

Section match_invariant.
Context (env : Env) (side : OrderSide) (s : string) (x : ptr).
Context (h0 : list Order) (ls0 : list PriceLevel) (tr0 : list Trade).
Context (xo0 : Order).
Hypothesis Hx0 : h0 !! x = Some xo0.
Hypothesis Hxfill : 0 ≤ FilledQuantity xo0 ≤ Quantity xo0.
Hypothesis Hxq : Quantity xo0 < 2 ^ 63.
Hypothesis Hxfresh : x ∉ flat ls0.
Hypothesis Hnodup : NoDup (flat ls0).
Hypothesis Hwf : wf_ladder h0 s ls0.

(** [p], consumed entirely by trade [t]. *)
Definition consumed (t : Trade) (p : ptr) : Prop :=
  ∃ o0, h0 !! p = Some o0 ∧
        trade_of side xo0 o0 t (Quantity o0 - FilledQuantity o0).

(** The head of the queue, left in place by the last trade [t] with [n]
    units taken. *)
Definition nibbled (h : list Order) (ls : list PriceLevel)
    (part : list Trade) (v : Z) : Prop :=
  ∃ t pr r q rest o0 n,
    part = [t] ∧ ls = mkLevel pr (r :: q) :: rest ∧ v = Quantity xo0 ∧
    h0 !! r = Some o0 ∧ 0 < n < Quantity o0 - FilledQuantity o0 ∧
    h !! r = Some (withFill (FilledQuantity o0 + n) PARTIAL_FILL o0) ∧
    trade_of side xo0 o0 t n ∧
    ∀ p, p ∈ q ++ flat rest → h !! p = h0 !! p.

Definition minv (st : mstate) : Prop :=
  let '(h, ls, tr) := st in
  ∃ (v : Z) (done : list ptr) (full part : list Trade),
    h !! x = Some (withFill v (Status xo0) xo0) ∧
    FilledQuantity xo0 ≤ v ≤ Quantity xo0 ∧
    v = FilledQuantity xo0 + sumQty (full ++ part) ∧
    length h = length h0 ∧
    flat ls0 = done ++ flat ls ∧
    (LevelPrice <$> ls) `suffix_of` (LevelPrice <$> ls0) ∧
    wf_ladder h0 s ls ∧
    tr = tr0 ++ full ++ part ∧
    Forall2 consumed full done ∧
    (∀ p o0, p ∈ done → h0 !! p = Some o0 →
             h !! p = Some (withFill (Quantity o0) FILLED o0)) ∧
    (∀ p, p ≠ x → p ∉ flat ls0 → h !! p = h0 !! p) ∧
    ((part = [] ∧ ∀ p, p ∈ flat ls → h !! p = h0 !! p) ∨ nibbled h ls part v).

Lemma minv_init : minv (h0, ls0, tr0).
Proof.
  exists (FilledQuantity xo0), [], [], []. simpl.
  split_and!; try done.
  - rewrite Hx0. by destruct xo0.
  - lia.
  - lia.
  - by rewrite app_nil_r.
  - intros p o0 Hp. by apply elem_of_nil in Hp.
  - by left.
Qed.

Lemma withFill_setStatus_addFilled st n v st' o :
  setStatus st (addFilled n (withFill v st' o)) = withFill (add64 v n) st o.
Proof. done. Qed.

Lemma minv_step st st' :
  minv st → mstep env side x st st' → minv st'.
Proof.
  intros Hinv Hstep. destruct Hstep as
    [h pr r q rest tr xo ro Hxr Hxo Hro Hlt Hstop Hfull
    |h pr r q rest tr xo ro Hxr Hxo Hro Hlt Hstop Hnfull Hxfull
    |h pr rest tr].
  - (* the head is filled and leaves the queue *)
    destruct Hinv as (v & done & full & part & Hx & Hv & Hsum & Hlen & Hflat
                      & Hpr & Hwf0 & Htr & Hcons & Hdone & Hframe & Hphase).
    rewrite Hx in Hxo. injection Hxo as <-. simpl in Hlt.
    destruct Hphase as [[-> Hsame]|Hnib]; cycle 1.
    { destruct Hnib as (?&?&?&?&?&?&?&_&_&->&_). lia. }
    assert (r ∈ flat (mkLevel pr (r :: q) :: rest)) as Hrin
      by (unfold flat; simpl; set_solver).
    rewrite (Hsame r Hrin) in Hro.
    apply Forall_cons in Hwf0 as [[Hlvl Hfifo] Hwfrest]. simpl in Hlvl, Hfifo.
    apply Forall_cons in Hlvl as [(o & Ho & Hsym & Hprice & Hf0 & Hfq & Hq63) Hq].
    rewrite Hro in Ho. injection Ho as <-.
    assert (remaining (withFill v (Status xo0) xo0) = Quantity xo0 - v) as Hrx
      by (apply remaining_live; simpl; lia).
    assert (remaining ro = Quantity ro - FilledQuantity ro) as Hrr
      by (apply remaining_live; lia).
    rewrite Hrx, Hrr, min_spec in *.
    set (n := Z.min (Quantity xo0 - v) (Quantity ro - FilledQuantity ro)) in *.
    assert (add64 (FilledQuantity ro) n = FilledQuantity ro + n) as Hadd
      by (apply wrap64_id; unfold int64; lia).
    rewrite Hadd in Hfull.
    assert (n = Quantity ro - FilledQuantity ro) as Hn by lia.
    assert (add64 v n = v + n) as Haddx
      by (apply wrap64_id; unfold int64; lia).
    assert (NoDup (done ++ r :: q ++ flat rest)) as Hnd
      by (by rewrite Hflat in Hnodup).
    assert (x ∉ done ++ r :: q ++ flat rest) as Hxn
      by (by rewrite Hflat in Hxfresh).
    assert (x < length h)%nat as Hxlen by by eapply lookup_lt_Some.
    assert (r < length h)%nat as Hrlen.
    { rewrite Hlen. by eapply lookup_lt_Some. }
    exists (v + n), (done ++ [r]), (full ++ [newTrade env (length tr) side
               (withFill v (Status xo0) xo0) ro n]), [].
    split_and!.
    + rewrite list_lookup_insert_ne by done.
      rewrite list_lookup_insert_eq by done.
      unfold addFilled. simpl. by rewrite Haddx.
    + lia.
    + lia.
    + rewrite app_nil_r in *. rewrite sumQty_app. simpl.
      destruct side; simpl; lia.
    + by rewrite !length_insert.
    + rewrite Hflat. unfold flat. simpl. by rewrite <-app_assoc.
    + done.
    + constructor; [|done]. split; [done|]. simpl.
      by apply StronglySorted_inv in Hfifo as [? _].
    + rewrite Htr. by rewrite !app_nil_r, app_assoc.
    + apply Forall2_app; [done|]. constructor; [|done].
      exists ro. split; [done|]. rewrite <-Hn.
      apply newTrade_trade_of. rewrite Hprice. exact Hstop.
    + intros p o0 Hp Ho0.
      apply elem_of_app in Hp as [Hp|Hp].
      * rewrite !list_lookup_insert_ne; [by apply Hdone| |].
        -- intros <-. apply Hxn. set_solver.
        -- intros <-. apply NoDup_app in Hnd as (_ & Hnd & _).
           apply (Hnd r Hp). set_solver.
      * apply list_elem_of_singleton in Hp as ->.
        rewrite Hro in Ho0. injection Ho0 as <-.
        rewrite list_lookup_insert_eq by by rewrite length_insert.
        unfold setStatus, addFilled, withFill. simpl.
        by rewrite Hadd, Hfull.
    + intros p Hpx Hp. rewrite !list_lookup_insert_ne; [by apply Hframe|done|].
      intros <-. apply Hp. rewrite Hflat. set_solver.
    + left. split; [done|]. intros p Hp.
      unfold flat in Hp. simpl in Hp.
      rewrite !list_lookup_insert_ne.
      * apply Hsame. unfold flat. simpl. set_solver.
      * intros <-. apply Hxn. set_solver.
      * intros <-. apply NoDup_app in Hnd as (_ & _ & Hnd).
        apply NoDup_cons in Hnd as [Hnd _]. done.
  - (* the head stays: the incoming order is used up *)
    destruct Hinv as (v & done & full & part & Hx & Hv & Hsum & Hlen & Hflat
                      & Hpr & Hwf0 & Htr & Hcons & Hdone & Hframe & Hphase).
    rewrite Hx in Hxo. injection Hxo as <-. simpl in Hlt, Hxfull.
    destruct Hphase as [[-> Hsame]|Hnib]; cycle 1.
    { destruct Hnib as (?&?&?&?&?&?&?&_&_&->&_). lia. }
    assert (r ∈ flat (mkLevel pr (r :: q) :: rest)) as Hrin
      by (unfold flat; simpl; set_solver).
    rewrite (Hsame r Hrin) in Hro.
    pose proof Hwf0 as Hwf0'.
    apply Forall_cons in Hwf0' as [[Hlvl Hfifo] Hwfrest]. simpl in Hlvl.
    apply Forall_cons in Hlvl as [(o & Ho & Hsym & Hprice & Hf0 & Hfq & Hq63) Hq].
    rewrite Hro in Ho. injection Ho as <-.
    assert (remaining (withFill v (Status xo0) xo0) = Quantity xo0 - v) as Hrx
      by (apply remaining_live; simpl; lia).
    assert (remaining ro = Quantity ro - FilledQuantity ro) as Hrr
      by (apply remaining_live; lia).
    rewrite Hrx, Hrr, min_spec in *.
    set (n := Z.min (Quantity xo0 - v) (Quantity ro - FilledQuantity ro)) in *.
    assert (add64 (FilledQuantity ro) n = FilledQuantity ro + n) as Hadd
      by (apply wrap64_id; unfold int64; lia).
    rewrite Hadd in Hnfull.
    assert (add64 v n = v + n) as Haddx
      by (apply wrap64_id; unfold int64; lia).
    rewrite Haddx in Hxfull.
    assert (n = Quantity xo0 - v) as Hn by lia.
    assert (NoDup (done ++ r :: q ++ flat rest)) as Hnd
      by (by rewrite Hflat in Hnodup).
    assert (x ∉ done ++ r :: q ++ flat rest) as Hxn
      by (by rewrite Hflat in Hxfresh).
    assert (x < length h)%nat as Hxlen by by eapply lookup_lt_Some.
    assert (r < length h)%nat as Hrlen.
    { rewrite Hlen. by eapply lookup_lt_Some. }
    exists (v + n), done, full, [newTrade env (length tr) side
               (withFill v (Status xo0) xo0) ro n].
    split_and!.
    + rewrite list_lookup_insert_ne by done.
      rewrite list_lookup_insert_eq by done.
      unfold addFilled. simpl. by rewrite Haddx.
    + lia.
    + lia.
    + rewrite app_nil_r in *. rewrite sumQty_app. simpl.
      destruct side; simpl; lia.
    + by rewrite !length_insert.
    + done.
    + done.
    + done.
    + rewrite Htr. by rewrite !app_nil_r, app_assoc.
    + done.
    + intros p o0 Hp Ho0.
      rewrite !list_lookup_insert_ne; [by apply Hdone| |].
      * intros <-. apply Hxn. set_solver.
      * intros <-. apply NoDup_app in Hnd as (_ & Hnd & _).
        apply (Hnd r Hp). set_solver.
    + intros p Hpx Hp. rewrite !list_lookup_insert_ne; [by apply Hframe|done|].
      intros <-. apply Hp. rewrite Hflat. set_solver.
    + right. exists (newTrade env (length tr) side
               (withFill v (Status xo0) xo0) ro n), pr, r, q, rest, ro, n.
      split_and!; try done; try lia.
      * rewrite list_lookup_insert_eq by by rewrite length_insert.
        unfold setStatus, addFilled, withFill. simpl. by rewrite Hadd.
      * apply newTrade_trade_of. rewrite Hprice. exact Hstop.
      * intros p Hp. rewrite !list_lookup_insert_ne.
        -- apply Hsame. unfold flat. simpl. set_solver.
        -- intros <-. apply Hxn. set_solver.
        -- intros <-. apply NoDup_app in Hnd as (_ & _ & Hnd).
           apply NoDup_cons in Hnd as [Hnd _]. done.
  - (* an emptied level leaves the ladder *)
    destruct Hinv as (v & done & full & part & Hx & Hv & Hsum & Hlen & Hflat
                      & Hpr & Hwf0 & Htr & Hcons & Hdone & Hframe & Hphase).
    exists v, done, full, part. split_and!; try done; try lia.
    + rewrite fmap_cons in Hpr. by eapply suffix_cons_l.
    + by apply Forall_cons in Hwf0 as [_ ?].
    + destruct Hphase as [[-> Hsame]|Hnib].
      * left. split; [done|]. intros p Hp. apply Hsame.
        unfold flat in *. simpl. done.
      * destruct Hnib as (?&?&?&?&?&?&?&_&Heq&_). done.
Qed.

Lemma minv_rtc st :
  rtc (mstep env side x) (h0, ls0, tr0) st → minv st.
Proof.
  intros Hrtc. eapply (rtc_ind_r (λ st, minv st)); [|by eauto using minv_step|done].
  apply minv_init.
Qed.
(** *** What the invariant says about the state the loop ends in *)

Lemma minv_aggressor h ls tr :
  minv (h, ls, tr) →
  ∃ v new, h !! x = Some (withFill v (Status xo0) xo0) ∧
           FilledQuantity xo0 ≤ v ≤ Quantity xo0 ∧
           tr = tr0 ++ new ∧ v = FilledQuantity xo0 + sumQty new.
Proof.
  intros (v & done & full & part & Hx & Hv & Hsum & _ & _ & _ & _ & Htr & _).
  exists v, (full ++ part). done.
Qed.

Lemma minv_shape h ls tr :
  minv (h, ls, tr) →
  (LevelPrice <$> ls) `suffix_of` (LevelPrice <$> ls0) ∧
  flat ls `suffix_of` flat ls0 ∧ length h = length h0.
Proof.
  intros (v & done & full & part & _ & _ & _ & Hlen & Hflat & Hpr & _).
  split_and!; [done| |done]. by exists done.
Qed.

Lemma minv_frame h ls tr p :
  minv (h, ls, tr) → p ≠ x → p ∉ flat ls0 → h !! p = h0 !! p.
Proof.
  intros (v & done & full & part & _ & _ & _ & _ & _ & _ & _ & _ & _ & _ & Hf & _).
  apply Hf.
Qed.

Lemma minv_wf h ls tr : minv (h, ls, tr) → wf_ladder h s ls.
Proof.
  intros (v & done & full & part & _ & _ & _ & _ & _ & _ & Hwf0 & _ & _ & _ & _
          & Hphase).
  eapply wf_ladder_ext; [|done]. intros p o Hp Ho Hlive.
  destruct Hphase as [[_ Hsame]|Hnib].
  { exists o. by rewrite Hsame. }
  destruct Hnib as (t & pr & r & q & rest & o0 & n & _ & -> & _ & Ho0 & Hn & Hr
                    & _ & Hsame).
  rewrite flat_cons in Hp. simpl in Hp.
  apply elem_of_cons in Hp as [->|Hp].
  - rewrite Ho0 in Ho. injection Ho as ->. eexists. split; [done|].
    unfold live in *. simpl. split_and!; try done; lia.
  - exists o. by rewrite Hsame.
Qed.

Lemma consumed_sum full done :
  Forall2 consumed full done → sumQty full = sumLeft h0 done.
Proof.
  induction 1 as [|t p full done (o0 & Ho0 & _ & Hq & _) _ IH]; simpl; [done|].
  unfold leftAt. rewrite Ho0, Hq, IH. done.
Qed.

(** Conservation on the ladder walked: the trades took what the queued
    orders lost. *)
Lemma minv_conserve h ls tr new :
  minv (h, ls, tr) → tr = tr0 ++ new →
  sumQty new = restingQty h0 ls0 - restingQty h ls.
Proof.
  intros (v & done & full & part & _ & _ & _ & _ & Hflat & _ & _ & Htr & Hcons
          & _ & _ & Hphase) Hnew.
  rewrite Htr in Hnew. apply app_inv_head in Hnew as <-.
  unfold restingQty. rewrite Hflat, sumLeft_app, sumQty_app.
  rewrite (consumed_sum _ _ Hcons).
  destruct Hphase as [[-> Hsame]|Hnib].
  { rewrite (sumLeft_ext h0 h) by done. simpl. lia. }
  destruct Hnib as (t & pr & r & q & rest & o0 & n & -> & -> & _ & Ho0 & Hn & Hr
                    & (_ & Hq & _) & Hsame).
  rewrite flat_cons. simpl.
  rewrite (sumLeft_ext h0 h) by done.
  unfold leftAt. rewrite Ho0, Hr, Hq. simpl. lia.
Qed.

(** Price-time priority: the [k]-th trade is against the [k]-th queued
    order, which every trade but the last uses up. *)
Lemma minv_trades h ls tr new k t :
  minv (h, ls, tr) → tr = tr0 ++ new → new !! k = Some t →
  ∃ p o0 n,
    flat ls0 !! k = Some p ∧ h0 !! p = Some o0 ∧
    trade_of side xo0 o0 t n ∧
    0 < n ≤ Quantity o0 - FilledQuantity o0 ∧
    ((S k < length new)%nat → n = Quantity o0 - FilledQuantity o0) ∧
    h !! p = Some (withFill (FilledQuantity o0 + n)
                     (if decide (n = Quantity o0 - FilledQuantity o0)
                      then FILLED else PARTIAL_FILL) o0).
Proof.
  intros (v & done & full & part & _ & _ & _ & _ & Hflat & _ & _ & Htr & Hcons
          & Hdone & _ & Hphase) Hnew Hk.
  rewrite Htr in Hnew. apply app_inv_head in Hnew as <-.
  pose proof (Forall2_length _ _ _ Hcons) as Hlen.
  apply lookup_app_Some in Hk as [Hk|[Hge Hk]].
  - destruct (Forall2_lookup_l _ _ _ _ _ Hcons Hk) as (p & Hp & o0 & Ho0 & Ht).
    exists p, o0, (Quantity o0 - FilledQuantity o0).
    assert (p ∈ flat ls0) as Hin.
    { rewrite Hflat. apply elem_of_app. left. by eapply list_elem_of_lookup_2. }
    destruct (wf_ladder_symbol _ _ _ _ _ Hwf Hin Ho0) as [_ (? & ? & ?)].
    split_and!; try done; try lia.
    + rewrite Hflat. by apply lookup_app_l_Some.
    + rewrite decide_True by done.
      replace (FilledQuantity o0 + (Quantity o0 - FilledQuantity o0))
        with (Quantity o0) by lia.
      apply Hdone; [by eapply list_elem_of_lookup_2|done].
  - destruct Hphase as [[-> _]|Hnib]; [by rewrite lookup_nil in Hk|].
    destruct Hnib as (t' & pr & r & q & rest & o0 & n & -> & -> & _ & Ho0 & Hn
                      & Hr & Ht & _).
    apply list_lookup_singleton_Some in Hk as [Hk0 ->].
    exists r, o0, n. split_and!; try done; try lia.
    + rewrite Hflat, flat_cons. simpl.
      rewrite lookup_app_r by lia.
      replace (k - length done)%nat with 0%nat by lia. done.
    + rewrite length_app. simpl. lia.
    + rewrite decide_False by lia. done.
Qed.

(** Orders beyond the ones traded with are as they were. *)
Lemma minv_untouched h ls tr new k p :
  minv (h, ls, tr) → tr = tr0 ++ new →
  flat ls0 !! k = Some p → (length new ≤ k)%nat → h !! p = h0 !! p.
Proof.
  intros (v & done & full & part & _ & _ & _ & _ & Hflat & _ & _ & Htr & Hcons
          & _ & _ & Hphase) Hnew Hk Hlen.
  rewrite Htr in Hnew. apply app_inv_head in Hnew as <-.
  pose proof (Forall2_length _ _ _ Hcons) as Hlen'.
  rewrite length_app in Hlen.
  rewrite Hflat in Hk. rewrite lookup_app_r in Hk by lia.
  destruct Hphase as [[-> Hsame]|Hnib].
  { apply Hsame. by eapply list_elem_of_lookup_2. }
  destruct Hnib as (t' & pr & r & q & rest & o0 & n & -> & -> & _ & _ & _
                    & _ & _ & Hsame).
  simpl in Hlen. rewrite flat_cons in Hk. simpl in Hk.
  destruct (k - length done)%nat as [|k'] eqn:Hk'; [lia|].
  simpl in Hk. apply Hsame. by eapply list_elem_of_lookup_2.
Qed.
End match_invariant.

Arguments minv : simpl never.

(** ** The outcomes of [SubmitOrder] *)

Definition bookOf (me : MatchingEngine) (symbol : string) : OrderBook :=
  default (NewOrderBook symbol) (books me !! symbol).

Definition opposing (side : OrderSide) (book : OrderBook) : list PriceLevel :=
  match side with BUY => Asks book | SELL => Bids book end.

Definition ownSide (side : OrderSide) (book : OrderBook) : list PriceLevel :=
  match side with BUY => Bids book | SELL => Asks book end.

Definition setOpposing (side : OrderSide) (ls : list PriceLevel)
    (book : OrderBook) : OrderBook :=
  match side with BUY => setAsks ls book | SELL => setBids ls book end.

Definition alloc (env : Env) (me : MatchingEngine) (symbol : string)
    (side : OrderSide) (typ : OrderType) (price quantity : Z) : list Order :=
  mem me ++ [NewOrder env symbol side typ price quantity].

Inductive submitted (env : Env) (me : MatchingEngine) (symbol : string)
    (side : OrderSide) (typ : OrderType) (price quantity : Z)
    : MatchingEngine → result OrderResult → Prop :=
  | sub_quantity :
      quantity ≤ 0 →
      submitted env me symbol side typ price quantity me (Err ErrQuantity)
  | sub_price :
      0 < quantity → typ = LIMIT → price ≤ 0 →
      submitted env me symbol side typ price quantity me (Err ErrPrice)
  | sub_liquidity avail :
      0 < quantity → typ = MARKET →
      availableLiquidity (alloc env me symbol side typ price quantity)
        (opposing side (bookOf me symbol)) 0 = Some avail →
      avail < quantity →
      submitted env me symbol side typ price quantity
        (mkEngine (<[symbol := bookOf me symbol]> (books me))
                  (alloc env me symbol side typ price quantity))
        (Err (ErrInsufficientLiquidity avail quantity))
  | sub_rest h' opp' trades xo' book'' :
      0 < quantity → typ = LIMIT → 0 < price →
      matchLadder env side (length (mem me))
        (alloc env me symbol side typ price quantity)
        (opposing side (bookOf me symbol)) [] = Some (h', opp', trades) →
      h' !! length (mem me) = Some xo' →
      FilledQuantity xo' < Quantity xo' →
      AddOrder h' (length (mem me)) (setOpposing side opp' (bookOf me symbol))
        = Some book'' →
      submitted env me symbol side typ price quantity
        (mkEngine (<[symbol := book'']> (books me)) h')
        (Ok (mkResult (ID xo')
               (if 0 <? FilledQuantity xo' then PARTIAL_FILL else ACCEPTED)
               (FilledQuantity xo') (remaining xo') trades
               (if 0 <? FilledQuantity xo'
                then "Order partially filled and added to book"
                else "Order added to book")))
  | sub_done h' opp' trades xo' :
      0 < quantity → (typ = LIMIT → 0 < price) →
      (typ = MARKET → ∃ avail,
         availableLiquidity (alloc env me symbol side typ price quantity)
           (opposing side (bookOf me symbol)) 0 = Some avail ∧
         quantity ≤ avail) →
      matchLadder env side (length (mem me))
        (alloc env me symbol side typ price quantity)
        (opposing side (bookOf me symbol)) [] = Some (h', opp', trades) →
      h' !! length (mem me) = Some xo' →
      ¬ (FilledQuantity xo' < Quantity xo' ∧ typ = LIMIT) →
      submitted env me symbol side typ price quantity
        (mkEngine (<[symbol := setOpposing side opp' (bookOf me symbol)]> (books me)) h')
        (Ok (mkResult (ID xo')
               (if FilledQuantity xo' =? Quantity xo' then FILLED else Status xo')
               (FilledQuantity xo') 0 trades
               (if FilledQuantity xo' =? Quantity xo'
                then "Order fully filled" else ""))).

Lemma GetOrCreateBook_spec bs symbol :
  ∃ bs', GetOrCreateBook bs symbol = (bs', default (NewOrderBook symbol) (bs !! symbol)) ∧
         ∀ b, <[symbol := b]> bs' = <[symbol := b]> bs.
Proof.
  unfold GetOrCreateBook. destruct (bs !! symbol) as [b0|]; simpl.
  - by exists bs.
  - eexists. split; [done|]. intros b. apply insert_insert_eq.
Qed.

Lemma alloc_lookup env me symbol side typ price quantity :
  alloc env me symbol side typ price quantity !! length (mem me)
  = Some (NewOrder env symbol side typ price quantity).
Proof. unfold alloc. by rewrite list_lookup_middle. Qed.

Lemma SubmitOrder_submitted env me symbol side typ price quantity me' r :
  SubmitOrder env me symbol side typ price quantity = Some (me', r) →
  submitted env me symbol side typ price quantity me' r.
Proof.
  unfold SubmitOrder. intros H.
  destruct (Z.leb_spec quantity 0) as [Hq|Hq].
  { simplify_eq. by constructor. }
  destruct (bool_decide (typ = LIMIT) && (price <=? 0)) eqn:Hp.
  { apply andb_true_iff in Hp as [Ht Hp]. apply bool_decide_eq_true in Ht.
    apply Z.leb_le in Hp. simplify_eq. by constructor. }
  assert (typ = LIMIT → 0 < price) as Hprice.
  { intros ->. rewrite bool_decide_eq_true_2 in Hp by done.
    simpl in Hp. by apply Z.leb_gt in Hp. }
  destruct (GetOrCreateBook_spec (books me) symbol) as (bs & Hg & Hbs).
  rewrite Hg in H. clear Hg.
  fold (bookOf me symbol) in H.
  fold (alloc env me symbol side typ price quantity) in H.
  unfold matchOrder in H. rewrite alloc_lookup in H. simpl in H.
  destruct typ.
  - (* LIMIT *)
    unfold matchLimitOrder in H. rewrite alloc_lookup in H. simpl in H.
    destruct (matchLadder env side (length (mem me))
                (alloc env me symbol side LIMIT price quantity)
                (opposing side (bookOf me symbol)) [])
      as [[[h' opp'] trades]|] eqn:Hm; cycle 1.
    { destruct side; simpl in *; unfold matchBuyOrder, matchSellOrder in H;
        by rewrite Hm in H. }
    assert (∀ k : _ → option (MatchingEngine * result OrderResult),
              (match side with
               | BUY => matchBuyOrder env (length (mem me))
                          (alloc env me symbol side LIMIT price quantity)
                          (bookOf me symbol)
               | SELL => matchSellOrder env (length (mem me))
                           (alloc env me symbol side LIMIT price quantity)
                           (bookOf me symbol)
               end ≫= k) = k (h', setOpposing side opp' (bookOf me symbol), trades))
      as Hk.
    { intros k. destruct side; simpl in *; unfold matchBuyOrder, matchSellOrder;
        by rewrite Hm. }
    rewrite option_bind_assoc, Hk in H. simpl in H. clear Hk.
    destruct (h' !! length (mem me)) as [xo'|] eqn:Hxo'; [|done]. simpl in H.
    destruct (Z.ltb_spec (FilledQuantity xo') (Quantity xo')) as [Hlt|Hge]; simpl in H.
    + destruct (AddOrder h' (length (mem me)) _) as [book''|] eqn:Hadd; [|done].
      simpl in H. injection H as <- <-. rewrite Hbs.
      replace (Ok (if 0 <? FilledQuantity xo' then _ else _))
        with (Ok (mkResult (ID xo')
               (if 0 <? FilledQuantity xo' then PARTIAL_FILL else ACCEPTED)
               (FilledQuantity xo') (remaining xo') trades
               (if 0 <? FilledQuantity xo'
                then "Order partially filled and added to book"
                else "Order added to book")))
        by by destruct (0 <? FilledQuantity xo').
      eapply sub_rest; eauto.
    + replace me' with
        (mkEngine (<[symbol := setOpposing side opp' (bookOf me symbol)]> (books me)) h')
        by (destruct (FilledQuantity xo' =? Quantity xo'); simplify_eq;
            by rewrite Hbs).
      replace r with (Ok (mkResult (ID xo')
               (if FilledQuantity xo' =? Quantity xo' then FILLED else Status xo')
               (FilledQuantity xo') 0 trades
               (if FilledQuantity xo' =? Quantity xo'
                then "Order fully filled" else "")))
        by (by destruct (FilledQuantity xo' =? Quantity xo'); simplify_eq).
      eapply sub_done; eauto; [done|]. intros [? _]. lia.
  - (* MARKET *)
    unfold matchMarketOrder in H. rewrite alloc_lookup in H. simpl in H.
    fold (opposing side (bookOf me symbol)) in H.
    destruct (availableLiquidity _ _ _) as [avail|] eqn:Hav; [|done]. simpl in H.
    destruct (Z.ltb_spec avail quantity) as [Hlt|Hge]; simpl in H.
    { injection H as <- <-. rewrite Hbs. by eapply sub_liquidity. }
    destruct (matchLadder env side (length (mem me))
                (alloc env me symbol side MARKET price quantity)
                (opposing side (bookOf me symbol)) [])
      as [[[h' opp'] trades]|] eqn:Hm; cycle 1.
    { destruct side; simpl in *; unfold matchBuyOrder, matchSellOrder in H;
        by rewrite Hm in H. }
    assert (∀ k : _ → option (list Order * OrderBook * result (list Trade)),
              (match side with
               | BUY => matchBuyOrder env (length (mem me))
                          (alloc env me symbol side MARKET price quantity)
                          (bookOf me symbol)
               | SELL => matchSellOrder env (length (mem me))
                           (alloc env me symbol side MARKET price quantity)
                           (bookOf me symbol)
               end ≫= k) = k (h', setOpposing side opp' (bookOf me symbol), trades))
      as Hk.
    { intros k. destruct side; simpl in *; unfold matchBuyOrder, matchSellOrder;
        by rewrite Hm. }
    rewrite Hk in H. simpl in H. clear Hk.
    destruct (h' !! length (mem me)) as [xo'|] eqn:Hxo'; [|done]. simpl in H.
    rewrite andb_false_r in H.
    replace me' with
      (mkEngine (<[symbol := setOpposing side opp' (bookOf me symbol)]> (books me)) h')
      by (destruct (FilledQuantity xo' =? Quantity xo'); simplify_eq;
          by rewrite Hbs).
    replace r with (Ok (mkResult (ID xo')
             (if FilledQuantity xo' =? Quantity xo' then FILLED else Status xo')
             (FilledQuantity xo') 0 trades
             (if FilledQuantity xo' =? Quantity xo'
              then "Order fully filled" else "")))
      by (by destruct (FilledQuantity xo' =? Quantity xo'); simplify_eq).
    eapply sub_done; eauto. by intros [_ ?].
Qed.

(** ** Well-formed books *)

(** On the ladder of [side], a level priced [p] stands before one priced [q]:
    bids fall, asks rise. *)
Definition priced (side : OrderSide) (p q : Z) : Prop :=
  match side with BUY => q < p | SELL => p < q end.

Definition flipSide (side : OrderSide) : OrderSide :=
  match side with BUY => SELL | SELL => BUY end.

Definition sorted_for (side : OrderSide) (ls : list PriceLevel) : Prop :=
  StronglySorted (priced side) (LevelPrice <$> ls).

(** No level of [own] (the ladder of [side]) crosses a level of [opp]. *)
Definition apart (side : OrderSide) (own opp : list PriceLevel) : Prop :=
  ∀ lo lp, lo ∈ own → lp ∈ opp → priced side (LevelPrice lp) (LevelPrice lo).

Record wf_sides (side : OrderSide) (h : list Order) (s : string)
    (own opp : list PriceLevel) : Prop := mkWfSides {
  ws_own_sorted : sorted_for side own;
  ws_opp_sorted : sorted_for (flipSide side) opp;
  ws_apart : apart side own opp;
  ws_nodup : NoDup (flat own ++ flat opp);
  ws_own_wf : wf_ladder h s own;
  ws_opp_wf : wf_ladder h s opp
}.

Definition wf_book (h : list Order) (s : string) (b : OrderBook) : Prop :=
  wf_sides BUY h s (Bids b) (Asks b).

Definition wf_engine (me : MatchingEngine) : Prop :=
  ∀ s b, books me !! s = Some b → wf_book (mem me) s b.

Lemma wf_sides_flip side h s own opp :
  wf_sides side h s own opp → wf_sides (flipSide side) h s opp own.
Proof.
  intros [H1 H2 H3 H4 H5 H6]. split; try done.
  - by destruct side.
  - intros lo lp Hlo Hlp. specialize (H3 lp lo Hlp Hlo). by destruct side.
  - by rewrite (comm (++)).
Qed.

Lemma wf_book_sides side h s b :
  wf_book h s b ↔ wf_sides side h s (ownSide side b) (opposing side b).
Proof.
  unfold wf_book. destruct side; simpl; [done|].
  split; intros H; by apply wf_sides_flip in H.
Qed.

Lemma wf_book_new h s : wf_book h s (NewOrderBook s).
Proof.
  split; simpl; try by constructor.
  intros lo lp Hlo. by apply elem_of_nil in Hlo.
Qed.

Lemma wf_bookOf me symbol :
  wf_engine me → wf_book (mem me) symbol (bookOf me symbol).
Proof.
  intros Hwf. unfold bookOf.
  destruct (books me !! symbol) as [b|] eqn:Hb; simpl; [by apply Hwf|].
  apply wf_book_new.
Qed.

(** ** How the match loop ends *)

Lemma stops_spec side xo best :
  stops side xo best = true ↔
  Typ xo = LIMIT ∧ priced side (LevelPrice best) (Price xo).
Proof.
  unfold stops, priced. destruct (Typ xo), side; rewrite ?Z.ltb_lt; naive_solver.
Qed.

Lemma matchLadder_exit env side x levels : ∀ h trades h' levels' trades',
  matchLadder env side x h levels trades = Some (h', levels', trades') →
  levels' = [] ∨
  ∃ xo', h' !! x = Some xo' ∧
    (¬ FilledQuantity xo' < Quantity xo' ∨
     ∃ best rest, levels' = best :: rest ∧ stops side xo' best = true).
Proof.
  induction levels as [|[pr q] rest IH]; intros h trades h' levels' trades' Hm.
  - simpl in Hm. simplify_eq. by left.
  - simpl in Hm.
    destruct (h !! x) as [xo|] eqn:Hxo; [|done]. simpl in Hm.
    destruct (Z.ltb_spec (FilledQuantity xo) (Quantity xo)) as [Hlt|Hge]; cycle 1.
    { simplify_eq. right. exists xo. split; [done|]. left. lia. }
    destruct (stops side xo (mkLevel pr q)) eqn:Hstop.
    { simplify_eq. right. exists xo. split; [done|]. right. eauto. }
    destruct (matchQueue env side x h q trades) as [[[h1 q1] trades1]|] eqn:Hq;
      [|done]. simpl in Hm.
    destruct q1 as [|r1 q1]; [by eapply IH|].
    destruct (h1 !! x) as [xo1|] eqn:Hxo1; [|done]. simpl in Hm.
    destruct (Z.ltb_spec (FilledQuantity xo1) (Quantity xo1)); [done|].
    simplify_eq. right. exists xo1. split; [done|]. left. lia.
Qed.

(** ** Ladders under insertion and removal *)

Lemma StronglySorted_sublist {A} (R : relation A) (l1 l2 : list A) :
  l1 `sublist_of` l2 → StronglySorted R l2 → StronglySorted R l1.
Proof.
  induction 1 as [|a l1 l2 Hsub IH|a l1 l2 Hsub IH]; intros Hs; [done|..].
  - apply StronglySorted_inv in Hs as [Hs Ha]. constructor; [by apply IH|].
    rewrite Forall_forall in *. intros b Hb. apply Ha.
    by eapply elem_of_sublist.
  - apply StronglySorted_inv in Hs as [Hs _]. by apply IH.
Qed.

Lemma suffix_sublist {A} (l1 l2 : list A) :
  l1 `suffix_of` l2 → l1 `sublist_of` l2.
Proof. intros [k ->]. by apply sublist_inserts_l. Qed.

Lemma flat_perm ls ls' : ls ≡ₚ ls' → flat ls ≡ₚ flat ls'.
Proof.
  induction 1 as [|l ls ls' _ IH|l1 l2 ls|ls1 ls2 ls3 _ IH1 _ IH2].
  - done.
  - rewrite !flat_cons. by rewrite IH.
  - rewrite !flat_cons. rewrite !app_assoc. by rewrite (comm (++) (LevelOrders l2)).
  - by rewrite IH1.
Qed.

(** The comparison handed to [sort.Slice] for the ladder of [side]. *)
Definition lessFor (side : OrderSide) (a b : PriceLevel) : bool :=
  match side with
  | BUY => LevelPrice b <? LevelPrice a
  | SELL => LevelPrice a <? LevelPrice b
  end.

Lemma lessFor_priced side a b :
  lessFor side a b = true ↔ priced side (LevelPrice a) (LevelPrice b).
Proof. destruct side; simpl; by rewrite Z.ltb_lt. Qed.

Lemma priced_trans side p q r : priced side p q → priced side q r → priced side p r.
Proof. destruct side; simpl; lia. Qed.

Lemma priced_total side p q : p ≠ q → priced side p q ∨ priced side q p.
Proof. destruct side; simpl; lia. Qed.

Lemma priced_asym side p q : priced side p q → priced side q p → False.
Proof. destruct side; simpl; lia. Qed.

Lemma insertSorted_perm less a l : insertSorted less a l ≡ₚ a :: l.
Proof.
  induction l as [|b l IH]; simpl; [done|].
  destruct (less a b); [done|]. rewrite IH. apply Permutation_swap.
Qed.

Lemma sortSlice_perm less l : sortSlice less l ≡ₚ l.
Proof.
  induction l as [|a l IH]; simpl; [done|].
  rewrite insertSorted_perm. by rewrite IH.
Qed.

Lemma insertSorted_sorted side a l :
  sorted_for side l → LevelPrice a ∉ LevelPrice <$> l →
  sorted_for side (insertSorted (lessFor side) a l).
Proof.
  unfold sorted_for. induction l as [|b l IH]; intros Hs Ha; simpl.
  { repeat constructor. }
  rewrite fmap_cons in Hs, Ha.
  apply StronglySorted_inv in Hs as [Hs Hb].
  apply not_elem_of_cons in Ha as [Hab Ha].
  destruct (lessFor side a b) eqn:Hless.
  - apply lessFor_priced in Hless. rewrite !fmap_cons.
    constructor; [by constructor|].
    constructor; [done|]. eapply Forall_impl; [done|].
    intros r Hr. by eapply priced_trans.
  - rewrite fmap_cons. constructor; [by apply IH|].
    assert (priced side (LevelPrice b) (LevelPrice a)) as Hba.
    { destruct (priced_total side (LevelPrice a) (LevelPrice b) Hab) as [H|H];
        [|done]. apply lessFor_priced in H. congruence. }
    rewrite Forall_forall in *. intros r Hr.
    rewrite insertSorted_perm, fmap_cons in Hr.
    apply elem_of_cons in Hr as [->|Hr]; auto.
Qed.

Lemma sortSlice_sorted side l :
  NoDup (LevelPrice <$> l) → sorted_for side (sortSlice (lessFor side) l).
Proof.
  induction l as [|a l IH]; intros Hnd; simpl.
  { constructor. }
  rewrite fmap_cons in Hnd. apply NoDup_cons in Hnd as [Ha Hnd].
  apply insertSorted_sorted; [by apply IH|].
  by rewrite sortSlice_perm.
Qed.

(** On a ladder, whose prices are pairwise distinct, what [sort.Slice] may
    return is determined: any ordered permutation is the one of the model. *)
Lemma sortSlice_unique side l l' :
  NoDup (LevelPrice <$> l) → l' ≡ₚ l → sorted_for side l' →
  l' = sortSlice (lessFor side) l.
Proof.
  intros Hnd Hperm Hs.
  assert (StronglySorted (λ a b, priced side (LevelPrice a) (LevelPrice b)) l')
    as Hs'.
  { unfold sorted_for in Hs. clear Hperm. induction l' as [|a l' IH]; [constructor|].
    rewrite fmap_cons in Hs. apply StronglySorted_inv in Hs as [Hs Ha].
    constructor; [by apply IH|]. by rewrite Forall_fmap in Ha. }
  pose proof (sortSlice_sorted side l Hnd) as Hs2.
  assert (StronglySorted (λ a b, priced side (LevelPrice a) (LevelPrice b))
            (sortSlice (lessFor side) l)) as Hs2'.
  { unfold sorted_for in Hs2. induction (sortSlice (lessFor side) l) as [|a k IH];
      [constructor|].
    rewrite fmap_cons in Hs2. apply StronglySorted_inv in Hs2 as [Hs2 Ha].
    constructor; [by apply IH|]. by rewrite Forall_fmap in Ha. }
  eapply StronglySorted_unique_strong; [|done|done|by rewrite sortSlice_perm].
  intros a b _ _ Hab Hba. by destruct (priced_asym _ _ _ Hab Hba).
Qed.

Lemma sorted_for_NoDup side ls : sorted_for side ls → NoDup (LevelPrice <$> ls).
Proof.
  unfold sorted_for. induction (LevelPrice <$> ls) as [|p l IH]; intros Hs.
  { constructor. }
  apply StronglySorted_inv in Hs as [Hs Hp]. constructor; [|by apply IH].
  intros Hin. rewrite Forall_forall in Hp. specialize (Hp p Hin).
  by destruct (priced_asym _ _ _ Hp Hp).
Qed.

Definition addTo (side : OrderSide) (o : Order) (x : ptr)
    (ls : list PriceLevel) : list PriceLevel :=
  match side with BUY => addToBids o x ls | SELL => addToAsks o x ls end.

Lemma addTo_unfold side o x ls :
  addTo side o x ls =
  match appendAtPrice (Price o) x ls with
  | Some ls' => ls'
  | None => sortSlice (lessFor side) (ls ++ [mkLevel (Price o) [x]])
  end.
Proof. by destruct side. Qed.

Lemma appendAtPrice_Some price x ls ls' :
  appendAtPrice price x ls = Some ls' →
  ∃ l1 q l2, ls = l1 ++ mkLevel price q :: l2 ∧
             ls' = l1 ++ mkLevel price (q ++ [x]) :: l2.
Proof.
  revert ls'. induction ls as [|[pr q] ls IH]; intros ls' H; simpl in H; [done|].
  destruct (Z.eqb_spec pr price) as [->|Hne].
  - injection H as <-. by exists [], q, ls.
  - destruct (appendAtPrice price x ls) as [ls1|]; [|done].
    injection H as <-. destruct (IH _ eq_refl) as (l1 & q' & l2 & -> & ->).
    by exists (mkLevel pr q :: l1), q', l2.
Qed.

Lemma appendAtPrice_None price x ls :
  appendAtPrice price x ls = None → price ∉ LevelPrice <$> ls.
Proof.
  induction ls as [|[pr q] ls IH]; intros H; simpl in *.
  { apply not_elem_of_nil. }
  destruct (Z.eqb_spec pr price) as [->|Hne]; [done|].
  destruct (appendAtPrice price x ls); [done|].
  apply not_elem_of_cons. split; [done|]. by apply IH.
Qed.

(** Insertion: the order joins the tail of the queue at its price, or a new
    level with it alone takes its place in the ladder. *)
Lemma addTo_spec side o x ls :
  sorted_for side ls →
  sorted_for side (addTo side o x ls) ∧
  ∃ q rest,
    addTo side o x ls ≡ₚ mkLevel (Price o) (q ++ [x]) :: rest ∧
    (ls ≡ₚ mkLevel (Price o) q :: rest ∨ (q = [] ∧ ls = rest)).
Proof.
  intros Hs. rewrite addTo_unfold.
  destruct (appendAtPrice (Price o) x ls) as [ls'|] eqn:Happ.
  - apply appendAtPrice_Some in Happ as (l1 & q & l2 & -> & ->). split.
    + unfold sorted_for in *. by rewrite fmap_app, fmap_cons in *.
    + exists q, (l1 ++ l2). split; [by rewrite Permutation_middle|].
      left. by rewrite Permutation_middle.
  - apply appendAtPrice_None in Happ. split.
    + apply sortSlice_sorted. rewrite fmap_app. simpl.
      apply NoDup_app. split_and!.
      * by eapply sorted_for_NoDup.
      * intros p Hp Hin. apply list_elem_of_singleton in Hin as ->. done.
      * apply NoDup_singleton.
    + exists [], ls. split; [|by right].
      rewrite sortSlice_perm. simpl. by rewrite <-Permutation_cons_append.
Qed.

(** Removal only drops queued orders and levels. *)
Lemma removeById_sublist h id q q' :
  removeById h id q = Some q' → q' `sublist_of` q.
Proof.
  revert q'. induction q as [|p q IH]; intros q' H; simpl in H.
  { by simplify_eq. }
  destruct (h !! p) as [o|]; [|done]. simpl in H.
  destruct (String.eqb (ID o) id).
  - simplify_eq. by apply sublist_cons.
  - destruct (removeById h id q) as [q1|]; [|done]. simpl in H. simplify_eq.
    apply sublist_skip. by apply IH.
Qed.

Lemma wf_level_sublist h s pr q q' :
  q' `sublist_of` q → wf_level h s (mkLevel pr q) → wf_level h s (mkLevel pr q').
Proof.
  intros Hsub [Hr Hs]. simpl in *. split; simpl.
  - rewrite Forall_forall in *. intros p Hp. apply Hr. by eapply elem_of_sublist.
  - by eapply StronglySorted_sublist.
Qed.

Lemma removeFromLevels_shrinks h o ls ls' :
  removeFromLevels h o ls = Some ls' →
  (LevelPrice <$> ls') `sublist_of` (LevelPrice <$> ls) ∧
  flat ls' `sublist_of` flat ls ∧
  ∀ h' s, wf_ladder h' s ls → wf_ladder h' s ls'.
Proof.
  revert ls'. induction ls as [|[pr q] ls IH]; intros ls' H; simpl in H.
  { simplify_eq. split_and!; done. }
  destruct (Z.eqb_spec pr (Price o)) as [Heq|Hne].
  - destruct (removeById h (ID o) q) as [q'|] eqn:Hq; [|done]. simpl in H.
    apply removeById_sublist in Hq.
    destruct q' as [|p q']; simplify_eq.
    + split_and!.
      * rewrite fmap_cons. by apply sublist_cons.
      * rewrite flat_cons. by apply sublist_inserts_l.
      * intros h' s Hwf. by apply Forall_cons in Hwf as [_ ?].
    + split_and!.
      * done.
      * rewrite !flat_cons. simpl. by apply (sublist_app (p :: q') q).
      * intros h' s Hwf. apply Forall_cons in Hwf as [Hl Hwf].
        constructor; [|done]. by eapply wf_level_sublist.
  - destruct (removeFromLevels h o ls) as [ls1|]; [|done]. simpl in H.
    simplify_eq. destruct (IH _ eq_refl) as (H1 & H2 & H3).
    split_and!.
    + rewrite !fmap_cons. by apply sublist_skip.
    + rewrite !flat_cons. by apply sublist_app.
    + intros h' s Hwf. apply Forall_cons in Hwf as [Hl Hwf].
      constructor; [done|]. by apply H3.
Qed.

(** A book stays well formed when one of its ladders shrinks. *)
Lemma wf_sides_shrink side h s own own' opp :
  (LevelPrice <$> own') `sublist_of` (LevelPrice <$> own) →
  flat own' `sublist_of` flat own →
  wf_ladder h s own' →
  wf_sides side h s own opp → wf_sides side h s own' opp.
Proof.
  intros Hpr Hflat Hwf' [H1 H2 H3 H4 H5 H6]. split; try done.
  - unfold sorted_for in *. by eapply StronglySorted_sublist.
  - intros lo lp Hlo Hlp.
    assert (LevelPrice lo ∈ LevelPrice <$> own) as Hin.
    { eapply elem_of_sublist; [|done]. by apply list_elem_of_fmap_2. }
    apply list_elem_of_fmap in Hin as (lo' & -> & Hlo'). by apply H3.
  - eapply (sublist_NoDup _ (flat own ++ flat opp)); [done|].
    by apply sublist_app.
Qed.

(** ** [SubmitOrder] on a well-formed engine *)

Lemma alloc_old env me symbol side typ price quantity p :
  (p < length (mem me))%nat →
  alloc env me symbol side typ price quantity !! p = mem me !! p.
Proof. intros Hp. unfold alloc. by rewrite lookup_app_l. Qed.

Lemma wf_sides_lt side h s own opp p :
  wf_sides side h s own opp → p ∈ flat own ++ flat opp → (p < length h)%nat.
Proof.
  intros [_ _ _ _ H5 H6] Hp. apply elem_of_app in Hp as [Hp|Hp].
  - by apply (wf_ladder_lt h s own).
  - by apply (wf_ladder_lt h s opp).
Qed.

Lemma wf_sides_frame side h h' s own opp :
  (∀ p, p ∈ flat own ++ flat opp → h' !! p = h !! p) →
  wf_sides side h s own opp → wf_sides side h' s own opp.
Proof.
  intros Hsame [H1 H2 H3 H4 H5 H6]. split; try done.
  - eapply wf_ladder_frame; [|done]. intros p Hp. apply Hsame. set_solver.
  - eapply wf_ladder_frame; [|done]. intros p Hp. apply Hsame. set_solver.
Qed.

(** The situation [matchLadder] starts from inside [SubmitOrder]. *)
Lemma submit_sides env me symbol side' side typ price quantity :
  wf_engine me →
  wf_sides side' (alloc env me symbol side typ price quantity) symbol
    (ownSide side' (bookOf me symbol)) (opposing side' (bookOf me symbol)).
Proof.
  intros Hwf. pose proof (wf_bookOf me symbol Hwf) as Hb.
  apply (wf_book_sides side') in Hb.
  eapply wf_sides_frame; [|done]. intros p Hp.
  apply alloc_old. by eapply wf_sides_lt.
Qed.

Lemma submit_minv env me symbol side typ price quantity st :
  wf_engine me → 0 < quantity < 2 ^ 63 →
  matchLadder env side (length (mem me))
    (alloc env me symbol side typ price quantity)
    (opposing side (bookOf me symbol)) [] = Some st →
  minv side symbol (length (mem me))
    (alloc env me symbol side typ price quantity)
    (opposing side (bookOf me symbol)) []
    (NewOrder env symbol side typ price quantity) st.
Proof.
  intros Hwf Hq Hm.
  pose proof (wf_bookOf me symbol Hwf) as Hb.
  apply (wf_book_sides side) in Hb.
  pose proof (submit_sides env me symbol side side typ price quantity Hwf)
    as [_ _ _ Hnd _ Hopp].
  assert (length (mem me) ∉ flat (opposing side (bookOf me symbol))) as Hx.
  { intros Hin. assert (length (mem me) < length (mem me))%nat; [|lia].
    eapply wf_sides_lt; [done|]. set_solver. }
  destruct st as [[h' opp'] trades].
  eapply (minv_rtc env); try done.
  - apply alloc_lookup.
  - simpl. lia.
  - simpl. lia.
  - by apply NoDup_app in Hnd as (_ & _ & ?).
  - by apply matchLadder_steps.
Qed.

Lemma priced_flip side a b c :
  priced (flipSide side) a b → priced side a c → priced side b c.
Proof. destruct side; simpl; lia. Qed.

(** When the walk ends with the incoming limit order still short, no level
    left on the opposing ladder is within its price. *)
Lemma matchLadder_short_apart env side x h levels trades h' levels' trades' xo' :
  matchLadder env side x h levels trades = Some (h', levels', trades') →
  h' !! x = Some xo' → FilledQuantity xo' < Quantity xo' →
  sorted_for (flipSide side) levels' →
  ∀ lp, lp ∈ levels' → Typ xo' = LIMIT ∧ priced side (LevelPrice lp) (Price xo').
Proof.
  intros Hm Hxo Hlt Hs lp Hlp.
  destruct (matchLadder_exit _ _ _ _ _ _ _ _ _ Hm) as [->|(xo & Hxo2 & Hex)].
  { by apply elem_of_nil in Hlp. }
  rewrite Hxo in Hxo2. injection Hxo2 as <-.
  destruct Hex as [?|(best & rest & -> & Hstop)]; [done|].
  apply stops_spec in Hstop as [Ht Hp]. split; [done|].
  apply elem_of_cons in Hlp as [->|Hlp]; [done|].
  unfold sorted_for in Hs. rewrite fmap_cons in Hs.
  apply StronglySorted_inv in Hs as [_ Hs]. rewrite Forall_forall in Hs.
  eapply priced_flip; [|done]. apply Hs. by apply list_elem_of_fmap_2.
Qed.

(** The two ladders once the loop is done, before the remainder is queued. *)
Lemma wf_sides_matched side s x h0 own opp tr0 xo0 h' opp' tr' :
  wf_sides side h0 s own opp → (length h0 ≤ S x)%nat → h0 !! x = Some xo0 →
  (∀ p, p ∈ flat own ++ flat opp → (p < x)%nat) →
  minv side s x h0 opp tr0 xo0 (h', opp', tr') →
  wf_sides side h' s own opp'.
Proof.
  intros [H1 H2 H3 H4 H5 H6] Hlen Hx0 Hlt Hinv.
  destruct (minv_shape _ _ _ _ _ _ _ _ _ _ Hinv) as (Hpr & Hflat & Hlen').
  apply suffix_sublist in Hpr, Hflat.
  split.
  - done.
  - unfold sorted_for in *. by eapply StronglySorted_sublist.
  - intros lo lp Hlo Hlp.
    assert (LevelPrice lp ∈ LevelPrice <$> opp) as Hin.
    { eapply elem_of_sublist; [|done]. by apply list_elem_of_fmap_2. }
    apply list_elem_of_fmap in Hin as (lp' & -> & Hlp'). by apply H3.
  - eapply (sublist_NoDup _ (flat own ++ flat opp)); [done|].
    by apply sublist_app.
  - eapply wf_ladder_frame; [|done]. intros p Hp.
    eapply minv_frame; [done| |].
    + assert (p < x)%nat by (apply Hlt; set_solver). lia.
    + apply NoDup_app in H4 as (_ & H4 & _). by apply H4.
  - by eapply minv_wf.
Qed.

(** Queuing the remainder of the incoming order. *)
Lemma wf_sides_added side s x h own opp xo :
  wf_sides side h s own opp →
  h !! x = Some xo → Symbol xo = s → live xo →
  (∀ p, p ∈ flat own ++ flat opp → (p < x)%nat) →
  (∀ lp, lp ∈ opp → priced side (LevelPrice lp) (Price xo)) →
  wf_sides side h s (addTo side xo x own) opp.
Proof.
  intros [H1 H2 H3 H4 H5 H6] Hx Hsym Hlive Hlt Hap.
  destruct (addTo_spec side xo x own H1) as (Hs & q & rest & Hperm & Hold).
  assert (rest ⊆ own ∧ ∀ p, p ∈ q → p ∈ flat own ∧
          wf_level h s (mkLevel (Price xo) q)) as [Hrest Hq].
  { destruct Hold as [Hold|[-> ->]].
    - split.
      + intros l Hl. rewrite Hold. set_solver.
      + intros p Hp. split.
        * apply elem_of_flat. exists (mkLevel (Price xo) q).
          split; [rewrite Hold; set_solver|done].
        * unfold wf_ladder in H5. rewrite Forall_forall in H5. apply H5.
          rewrite Hold. set_solver.
    - split; [done|]. intros p Hp. by apply elem_of_nil in Hp. }
  assert (wf_level h s (mkLevel (Price xo) (q ++ [x]))) as Hnew.
  { split; simpl.
    - apply Forall_app. split.
      + rewrite Forall_forall. intros p Hp.
        destruct (Hq p Hp) as [_ [Hr _]]. simpl in Hr.
        rewrite Forall_forall in Hr. by apply Hr.
      + constructor; [|done]. by exists xo.
    - apply StronglySorted_app. split_and!.
      + intros p1 p2 Hp1 Hp2. apply list_elem_of_singleton in Hp2 as ->.
        apply Hlt. destruct (Hq p1 Hp1) as [? _]. set_solver.
      + destruct q as [|p q]; [constructor|].
        destruct (Hq p) as [_ [_ ?]]; [set_solver|done].
      + repeat constructor. }
  assert (flat (addTo side xo x own) ≡ₚ x :: flat own) as Hflat.
  { rewrite (flat_perm _ _ Hperm), flat_cons. simpl.
    destruct Hold as [Hold|[-> ->]].
    - rewrite (flat_perm _ _ Hold), flat_cons. simpl.
      rewrite <-app_assoc. simpl.
      by rewrite <-Permutation_middle.
    - done. }
  split.
  - done.
  - done.
  - intros lo lp Hlo Hlp. rewrite Hperm in Hlo.
    apply elem_of_cons in Hlo as [->|Hlo]; simpl; [by apply Hap|].
    apply H3; [by apply Hrest|done].
  - rewrite Hflat. simpl. constructor; [|done].
    intros Hin. specialize (Hlt x Hin). lia.
  - unfold wf_ladder. rewrite Hperm. constructor; [done|].
    unfold wf_ladder in H5. rewrite Forall_forall in *.
    intros l Hl. apply H5. by apply Hrest.
  - done.
Qed.

Lemma wf_engine_insert me s b h' :
  (∀ s' b', s' ≠ s → books me !! s' = Some b' → wf_book h' s' b') →
  wf_book h' s b →
  wf_engine (mkEngine (<[s := b]> (books me)) h').
Proof.
  intros Hothers Hb s' b' Hl. simpl in *.
  destruct (decide (s = s')) as [<-|Hne].
  - rewrite lookup_insert_eq in Hl. by simplify_eq.
  - rewrite lookup_insert_ne in Hl by done. by eapply Hothers.
Qed.

(** Books of different symbols share no order. *)
Lemma wf_books_disjoint me s s' b' side p :
  wf_engine me → s' ≠ s → books me !! s' = Some b' →
  p ∈ flat (Bids b') ++ flat (Asks b') →
  p ∉ flat (opposing side (bookOf me s)).
Proof.
  intros Hwf Hne Hb' Hp Hin.
  pose proof (Hwf s' b' Hb') as [_ _ _ _ Hbids Hasks].
  pose proof (wf_bookOf me s Hwf) as Hb.
  apply (wf_book_sides side) in Hb. destruct Hb as [_ _ _ _ _ Hopp].
  pose proof (wf_ladder_lt _ _ _ _ Hopp Hin) as Hlt.
  apply lookup_lt_is_Some_2 in Hlt as [o Ho].
  destruct (wf_ladder_symbol _ _ _ _ _ Hopp Hin Ho) as [Hs _].
  apply elem_of_app in Hp as [Hp|Hp].
  - destruct (wf_ladder_symbol _ _ _ _ _ Hbids Hp Ho) as [Hs' _]. congruence.
  - destruct (wf_ladder_symbol _ _ _ _ _ Hasks Hp Ho) as [Hs' _]. congruence.
Qed.

Lemma wf_book_setOpposing side h s b own opp :
  ownSide side b = own →
  wf_sides side h s own opp → wf_book h s (setOpposing side opp b).
Proof.
  intros <- Hs. apply (wf_book_sides side). by destruct side.
Qed.

Lemma AddOrder_sides side h x b xo b' :
  h !! x = Some xo → Side xo = side → AddOrder h x b = Some b' →
  ownSide side b' = addTo side xo x (ownSide side b) ∧
  opposing side b' = opposing side b ∧
  BookOrders b' = <[ID xo := x]> (BookOrders b) ∧
  BookSymbol b' = BookSymbol b.
Proof.
  intros Hx <- H. unfold AddOrder in H. rewrite Hx in H. simpl in H.
  injection H as <-. by destruct (Side xo).
Qed.

(** What [SubmitOrder] leaves behind the matcher in the store: the incoming
    order with its fill, every other order outside the opposing ladder as it
    was. *)
Lemma submit_aggressor env me symbol side typ price quantity h' opp' trades :
  wf_engine me → 0 < quantity < 2 ^ 63 →
  matchLadder env side (length (mem me))
    (alloc env me symbol side typ price quantity)
    (opposing side (bookOf me symbol)) [] = Some (h', opp', trades) →
  ∃ v, h' !! length (mem me) =
         Some (withFill v ACCEPTED (NewOrder env symbol side typ price quantity)) ∧
       0 ≤ v ≤ quantity ∧ v = sumQty trades.
Proof.
  intros Hwf Hq Hm.
  pose proof (submit_minv _ _ _ _ _ _ _ _ Hwf Hq Hm) as Hinv.
  destruct (minv_aggressor _ _ _ _ _ _ _ _ _ _ Hinv) as (v & new & Hx & Hv & Hnew & Hsum).
  simpl in *. subst new. exists v. split_and!; [done|lia|lia|lia].
Qed.

Theorem submitted_wf env me symbol side typ price quantity me' r :
  wf_engine me → quantity < 2 ^ 63 →
  submitted env me symbol side typ price quantity me' r →
  wf_engine me'.
Proof.
  intros Hwf Hq63 Hsub.
  assert (∀ p, p ∈ flat (ownSide side (bookOf me symbol)) ++
                   flat (opposing side (bookOf me symbol)) →
               (p < length (mem me))%nat) as Hlt.
  { intros p Hp. eapply wf_sides_lt; [|done].
    apply wf_book_sides. by apply wf_bookOf. }
  destruct Hsub as [?|?|avail Hq Ht Hav Hlow
                   |h' opp' trades xo' book'' Hq Ht Hp Hm Hxo' Hshort Hadd
                   |h' opp' trades xo' Hq Hp Hmk Hm Hxo' Hfull]; try done.
  - (* rejected for liquidity: the book, created if need be, is as it was *)
    apply wf_engine_insert.
    + intros s' b' Hne Hb'. eapply wf_sides_frame; [|by apply Hwf].
      intros p Hp. apply alloc_old. eapply wf_sides_lt; [by apply Hwf|done].
    + apply (submit_sides env me symbol BUY side typ price quantity Hwf).
  - (* a limit order that rests *)
    pose proof (submit_minv _ _ _ _ _ _ _ _ Hwf (conj Hq Hq63) Hm) as Hinv.
    pose proof (submit_sides env me symbol side side typ price quantity Hwf) as Hsides.
    destruct (submit_aggressor _ _ _ _ _ _ _ _ _ _ Hwf (conj Hq Hq63) Hm)
      as (v & Hx & Hv & Hsum).
    rewrite Hx in Hxo'. injection Hxo' as <-. simpl in Hshort.
    assert (wf_sides side h' symbol (ownSide side (bookOf me symbol)) opp') as Hs1.
    { eapply wf_sides_matched; try done.
      - unfold alloc. rewrite length_app. simpl. lia.
      - apply alloc_lookup. }
    assert (flat opp' ⊆ flat (opposing side (bookOf me symbol))) as Hsubset.
    { destruct (minv_shape _ _ _ _ _ _ _ _ _ _ Hinv) as (_ & [k ->] & _).
      set_solver. }
    apply wf_engine_insert.
    + intros s' b' Hne Hb'. eapply wf_sides_frame; [|by apply Hwf].
      intros p Hp'.
      assert (p < length (mem me))%nat
        by (eapply wf_sides_lt; [by apply Hwf|done]).
      rewrite <-(alloc_old env me symbol side typ price quantity p) by done.
      eapply minv_frame; [done|lia|]. by eapply wf_books_disjoint.
    + destruct (AddOrder_sides side _ _ _ _ _ Hx eq_refl Hadd) as (Hown & Hopp & _).
      apply (wf_book_sides side). rewrite Hown, Hopp.
      replace (ownSide side (setOpposing side opp' (bookOf me symbol)))
        with (ownSide side (bookOf me symbol)) by by destruct side.
      replace (opposing side (setOpposing side opp' (bookOf me symbol)))
        with opp' by by destruct side.
      eapply wf_sides_added; try done.
      * unfold live. simpl. lia.
      * intros p Hp'. apply Hlt. set_solver.
      * intros lp Hlp.
        eapply (matchLadder_short_apart _ _ _ _ _ _ _ _ _ _ Hm Hx); try done.
        by destruct Hs1.
  - (* the order is filled, or a market order is through *)
    pose proof (submit_minv _ _ _ _ _ _ _ _ Hwf (conj Hq Hq63) Hm) as Hinv.
    pose proof (submit_sides env me symbol side side typ price quantity Hwf) as Hsides.
    apply wf_engine_insert.
    + intros s' b' Hne Hb'. eapply wf_sides_frame; [|by apply Hwf].
      intros p Hp'.
      assert (p < length (mem me))%nat
        by (eapply wf_sides_lt; [by apply Hwf|done]).
      rewrite <-(alloc_old env me symbol side typ price quantity p) by done.
      eapply minv_frame; [done|lia|]. by eapply wf_books_disjoint.
    + eapply wf_book_setOpposing; [done|].
      eapply wf_sides_matched; try done.
      * unfold alloc. rewrite length_app. simpl. lia.
      * apply alloc_lookup.
Qed.

(** ** [CancelOrder] and [GetOrderBook] on a well-formed engine *)

Lemma findOrder_Some bs orderID ks k book p :
  findOrder bs orderID ks = Some (k, book, p) →
  bs !! k = Some book ∧ BookOrders book !! orderID = Some p ∧ k ∈ ks.
Proof.
  induction ks as [|k0 ks IH]; simpl; [done|].
  destruct (bs !! k0) as [b0|] eqn:Hb0.
  - destruct (BookOrders b0 !! orderID) as [p0|] eqn:Hp0.
    + intros [= <- <- <-]. split_and!; [done|done|set_solver].
    + intros H. destruct (IH H) as (? & ? & ?). split_and!; [done|done|set_solver].
  - intros H. destruct (IH H) as (? & ? & ?). split_and!; [done|done|set_solver].
Qed.

Lemma findOrder_None bs orderID ks :
  findOrder bs orderID ks = None →
  ∀ k book, k ∈ ks → bs !! k = Some book → BookOrders book !! orderID = None.
Proof.
  induction ks as [|k0 ks IH]; simpl; intros H k book Hk Hb.
  { by apply elem_of_nil in Hk. }
  destruct (bs !! k0) as [b0|] eqn:Hb0.
  - destruct (BookOrders b0 !! orderID) as [p0|] eqn:Hp0; [done|].
    apply elem_of_cons in Hk as [->|Hk]; [by simplify_eq|by eapply IH].
  - apply elem_of_cons in Hk as [->|Hk]; [by simplify_eq|by eapply IH].
Qed.

Lemma wf_sides_setStatus side h s own opp st p :
  wf_sides side h s own opp →
  wf_sides side (alter (setStatus st) p h) s own opp.
Proof.
  intros [H1 H2 H3 H4 H5 H6].
  assert (∀ ls, wf_ladder h s ls → wf_ladder (alter (setStatus st) p h) s ls)
    as Hext.
  { intros ls. apply wf_ladder_ext. intros p' o _ Ho Hlive.
    destruct (decide (p = p')) as [<-|Hne].
    - rewrite list_lookup_alter_eq, Ho. simpl. by eexists.
    - rewrite list_lookup_alter_ne by done. by exists o. }
  split; auto.
Qed.

Lemma RemoveOrder_wf h s orderID book book' r :
  wf_book h s book → RemoveOrder h orderID book = Some (book', r) →
  wf_book h s book'.
Proof.
  intros Hwf H. unfold RemoveOrder in H.
  destruct (BookOrders book !! orderID) as [p|]; [|by simplify_eq].
  destruct (h !! p) as [o|]; [|done]. simpl in H.
  destruct (Side o).
  - unfold removeFromBids in H.
    destruct (removeFromLevels h o (Bids book)) as [bids|] eqn:Hrm; [|done].
    simpl in H. injection H as <- <-.
    destruct (removeFromLevels_shrinks _ _ _ _ Hrm) as (Hp & Hf & Hw).
    unfold wf_book in *. simpl.
    eapply wf_sides_shrink; try done. apply Hw. by destruct Hwf.
  - unfold removeFromAsks in H.
    destruct (removeFromLevels h o (Asks book)) as [asks|] eqn:Hrm; [|done].
    simpl in H. injection H as <- <-.
    destruct (removeFromLevels_shrinks _ _ _ _ Hrm) as (Hp & Hf & Hw).
    apply (wf_book_sides SELL). simpl.
    apply (wf_book_sides SELL) in Hwf. simpl in Hwf.
    eapply wf_sides_shrink; try done. apply Hw. by destruct Hwf.
Qed.

Theorem CancelOrder_wf ks me orderID me' r :
  wf_engine me → CancelOrder ks me orderID = Some (me', r) → wf_engine me'.
Proof.
  intros Hwf H. unfold CancelOrder in H.
  destruct (findOrder (books me) orderID ks) as [[[k book] p]|] eqn:Hfind;
    [|by simplify_eq].
  apply findOrder_Some in Hfind as (Hk & Hp & _).
  destruct (mem me !! p) as [order|]; [|done]. simpl in H.
  destruct (bool_decide (Status order = FILLED)); [by simplify_eq|].
  destruct (RemoveOrder _ orderID book) as [[book' r']|] eqn:Hrm; [|done].
  simpl in H. injection H as <- <-.
  apply wf_engine_insert.
  - intros s' b' _ Hb'. apply wf_sides_setStatus. by apply Hwf.
  - eapply RemoveOrder_wf; [|done]. apply wf_sides_setStatus. by apply Hwf.
Qed.

Theorem GetOrderBook_wf now me symbol depth me' snap :
  wf_engine me → GetOrderBook now me symbol depth = Some (me', snap) →
  wf_engine me'.
Proof.
  intros Hwf H. unfold GetOrderBook in H.
  destruct (GetOrCreateBook_spec (books me) symbol) as (bs & Hg & Hbs).
  unfold GetOrCreateBook in *.
  destruct (books me !! symbol) as [b|] eqn:Hb.
  - destruct (snapshotLevels (mem me) (take _ (Bids b))); [|done]. simpl in H.
    destruct (snapshotLevels (mem me) (take _ (Asks b))); [|done]. simpl in H.
    injection H as <- <-. by destruct me.
  - simpl in H. rewrite take_nil in H. simpl in H.
    injection H as <- <-. apply wf_engine_insert; [|apply wf_book_new].
    intros s' b' _ Hb'. by apply Hwf.
Qed.

(** ** Reachable engines

    What a program can get to from [NewMatchingEngine] through the exported
    methods of the engine, with arguments of type int64. *)
Inductive reachable : MatchingEngine → Prop :=
  | reach_new : reachable NewMatchingEngine
  | reach_submit me env symbol side typ price quantity me' r :
      reachable me → int64 price → int64 quantity →
      SubmitOrder env me symbol side typ price quantity = Some (me', r) →
      reachable me'
  | reach_cancel me ks orderID me' r :
      reachable me → visits me ks →
      CancelOrder ks me orderID = Some (me', r) →
      reachable me'
  | reach_snapshot me now symbol depth me' snap :
      reachable me →
      GetOrderBook now me symbol depth = Some (me', snap) →
      reachable me'.

Theorem reachable_wf me : reachable me → wf_engine me.
Proof.
  induction 1 as [|me env symbol side typ price quantity me' r _ IH _ Hq Hs
                 |me ks orderID me' r _ IH _ Hc
                 |me now symbol depth me' snap _ IH Hg].
  - intros s b Hb. simpl in Hb. by rewrite lookup_empty in Hb.
  - eapply submitted_wf; [done| |by apply SubmitOrder_submitted].
    unfold int64 in Hq. lia.
  - by eapply CancelOrder_wf.
  - by eapply GetOrderBook_wf.
Qed.

(** * The claims *)

(** ** C8: a limit order that cannot cross *)

Lemma matchLadder_no_cross env side x h ls trades xo :
  h !! x = Some xo → Typ xo = LIMIT →
  (∀ best rest, ls = best :: rest → priced side (LevelPrice best) (Price xo)) →
  matchLadder env side x h ls trades = Some (h, ls, trades).
Proof.
  intros Hx Ht Hno. destruct ls as [|best rest]; [done|].
  simpl. rewrite Hx. simpl.
  destruct (FilledQuantity xo <? Quantity xo); [|done].
  assert (stops side xo best = true) as ->; [|done].
  apply stops_spec. split; [done|]. by eapply Hno.
Qed.

(** C8.  A LIMIT order whose price does not cross the opposing best (a BUY
    strictly below the best ask, a SELL strictly above the best bid, or no
    opposing level at all) is accepted with exactly zero trades; the opposing
    ladder of its book is the same list of levels and queues afterwards, every
    order that existed before is the same record, and no other book
    changes. *)
Theorem limit_without_cross_is_noop env me symbol side price quantity :
  0 < quantity → 0 < price →
  (∀ best rest, opposing side (bookOf me symbol) = best :: rest →
                priced side (LevelPrice best) price) →
  ∃ me' r,
    SubmitOrder env me symbol side LIMIT price quantity = Some (me', Ok r) ∧
    Trades r = [] ∧ ResStatus r = ACCEPTED ∧
    (∃ b', books me' !! symbol = Some b' ∧
           opposing side b' = opposing side (bookOf me symbol)) ∧
    (∀ p o, mem me !! p = Some o → mem me' !! p = Some o) ∧
    (∀ s, s ≠ symbol → books me' !! s = books me !! s).
Proof.
  intros Hq Hp Hno. unfold SubmitOrder.
  destruct (Z.leb_spec quantity 0) as [?|_]; [lia|].
  rewrite bool_decide_eq_true_2 by done.
  destruct (Z.leb_spec price 0) as [?|_]; [lia|]. simpl.
  destruct (GetOrCreateBook_spec (books me) symbol) as (bs & -> & Hbs).
  fold (bookOf me symbol). fold (alloc env me symbol side LIMIT price quantity).
  unfold matchOrder. rewrite alloc_lookup. simpl.
  unfold matchLimitOrder. rewrite alloc_lookup. simpl.
  pose proof (matchLadder_no_cross env side (length (mem me)) _
                (opposing side (bookOf me symbol)) []
                _ (alloc_lookup env me symbol side LIMIT price quantity)
                eq_refl Hno) as Hm.
  assert (∀ p o, mem me !! p = Some o →
                 alloc env me symbol side LIMIT price quantity !! p = Some o)
    as Hold.
  { intros p o Ho. unfold alloc. by apply lookup_app_l_Some. }
  destruct side; simpl in *; unfold matchBuyOrder, matchSellOrder;
    rewrite Hm; simpl; rewrite alloc_lookup; simpl;
    (destruct (Z.ltb_spec 0 quantity) as [_|?]; [|lia]); simpl;
    unfold AddOrder; rewrite alloc_lookup; simpl;
    eexists _, _; (split; [reflexivity|]); simpl; rewrite Hbs;
    (split_and!; [done|done| |done|by intros; apply lookup_insert_ne]);
    eexists; (split; [apply lookup_insert_eq|done]).
Qed.

(** ** C10: what is stored for an order that rests partially filled *)

Lemma findOrder_unique bs orderID ks s b p :
  s ∈ ks → bs !! s = Some b → BookOrders b !! orderID = Some p →
  (∀ k b', k ≠ s → bs !! k = Some b' → BookOrders b' !! orderID = None) →
  findOrder bs orderID ks = Some (s, b, p).
Proof.
  intros Hs Hb Hp Hothers. induction ks as [|k ks IH]; [by apply elem_of_nil in Hs|].
  simpl. destruct (decide (k = s)) as [->|Hne].
  - by rewrite Hb, Hp.
  - apply elem_of_cons in Hs as [->|Hs]; [done|].
    destruct (bs !! k) as [b'|] eqn:Hb'; [|by apply IH].
    rewrite (Hothers k b') by done. by apply IH.
Qed.

Lemma visits_elem me ks s b :
  visits me ks → books me !! s = Some b → s ∈ ks.
Proof.
  intros Hv Hb. unfold visits in Hv. rewrite Hv.
  apply list_elem_of_fmap. exists (s, b). split; [done|].
  by apply elem_of_map_to_list.
Qed.

(** C10.  When a submission to a reachable engine reports PARTIAL_FILL (its
    order id not known to any book before), the record that [GetOrder] then
    returns for that id, in whatever order the books are visited, has status
    ACCEPTED, the filled quantity of the result, which is positive and less
    than the order's size; the order was a LIMIT order. *)
Theorem partial_fill_is_stored_accepted env me symbol side typ price quantity
    me' r ks :
  reachable me → int64 quantity →
  SubmitOrder env me symbol side typ price quantity = Some (me', Ok r) →
  ResStatus r = PARTIAL_FILL →
  (∀ s b, books me !! s = Some b → BookOrders b !! OrderID r = None) →
  visits me' ks →
  ∃ o, GetOrder ks me' (OrderID r) = Some (Ok o) ∧
       ID o = OrderID r ∧ Status o = ACCEPTED ∧
       FilledQuantity o = ResFilledQuantity r ∧
       0 < FilledQuantity o < Quantity o ∧ typ = LIMIT.
Proof.
  intros Hreach Hq64 Hsub Hstat Hfresh Hvis.
  pose proof (reachable_wf me Hreach) as Hwf.
  apply SubmitOrder_submitted in Hsub.
  assert (quantity < 2 ^ 63) as Hq63 by (unfold int64 in Hq64; lia).
  inversion Hsub as [| |
    |h' opp' trades xo' book'' Hq Ht Hp Hm Hxo' Hshort Hadd
    |h' opp' trades xo' Hq Hp Hmk Hm Hxo' Hfull]; subst.
  - destruct (submit_aggressor _ _ _ _ _ _ _ _ _ _ Hwf (conj Hq Hq63) Hm)
      as (v & Hx & Hv & Hsum).
    rewrite Hx in Hxo'. injection Hxo' as <-. simpl in *.
    destruct (Z.ltb_spec 0 v) as [Hpos|?]; [|done].
    destruct (AddOrder_sides side _ _ _ _ _ Hx eq_refl Hadd) as (_ & _ & Hmap & _).
    exists (withFill v ACCEPTED (NewOrder env symbol side LIMIT price quantity)).
    unfold GetOrder. simpl.
    rewrite (findOrder_unique _ _ ks symbol book'' (length (mem me))).
    + rewrite Hx. simpl. split_and!; done.
    + eapply visits_elem; [done|]. simpl. apply lookup_insert_eq.
    + apply lookup_insert_eq.
    + rewrite Hmap. simpl. apply lookup_insert_eq.
    + intros k b' Hne Hb'. rewrite lookup_insert_ne in Hb' by done.
      by eapply Hfresh.
  - destruct (submit_aggressor _ _ _ _ _ _ _ _ _ _ Hwf (conj Hq Hq63) Hm)
      as (v & Hx & Hv & Hsum).
    rewrite Hx in Hxo'. injection Hxo' as <-. simpl in *.
    by destruct (v =? quantity).
Qed.

(** ** Scenarios

    The engine states of the package's tests, written out.  The environment
    [envNamed n] names the order of a call [n-0] and its trades [n-1],
    [n-2], ...; the clock stands still. *)

Definition envNamed (name : string) : Env :=
  mkEnv (λ n, name +:+ "-" +:+ pretty n) (λ _, 0).

(** One resting SELL LIMIT of [quantity] at [price], id [s-0]. *)
Definition oneAsk (symbol : string) (price quantity : Z) : MatchingEngine :=
  mkEngine
    {[ symbol := mkBook symbol [] [mkLevel price [0%nat]] {[ "s-0" := 0%nat ]} ]}
    [mkOrder "s-0" symbol SELL LIMIT price quantity 0 ACCEPTED 0].

Lemma oneAsk_submitted symbol price quantity :
  0 < quantity → 0 < price →
  SubmitOrder (envNamed "s") NewMatchingEngine symbol SELL LIMIT price quantity
  = Some (oneAsk symbol price quantity,
          Ok (mkResult "s-0" ACCEPTED 0 (sub64 quantity 0) [] "Order added to book")).
Proof.
  intros Hq Hp. unfold SubmitOrder.
  destruct (Z.leb_spec quantity 0); [lia|].
  destruct (Z.leb_spec price 0); [lia|]. simpl.
  unfold GetOrCreateBook, NewMatchingEngine. simpl. rewrite lookup_empty.
  unfold matchOrder, matchLimitOrder, matchSellOrder, AddOrder. simpl.
  destruct (Z.ltb_spec 0 quantity); [|lia]. simpl.
  by rewrite insert_insert_eq.
Qed.

Lemma oneAsk_reachable symbol price quantity :
  0 < quantity < 2 ^ 63 → 0 < price < 2 ^ 63 →
  reachable (oneAsk symbol price quantity).
Proof.
  intros Hq Hp.
  eapply (reach_submit NewMatchingEngine (envNamed "s") symbol SELL LIMIT
            price quantity).
  - apply reach_new.
  - unfold int64. lia.
  - unfold int64. lia.
  - apply oneAsk_submitted; lia.
Qed.

(** No book of the engine knows the id. *)
Definition unknown (me : MatchingEngine) (orderID : string) : Prop :=
  map_Forall (λ _ b, BookOrders b !! orderID = None) (books me).

#[global] Instance unknown_dec me orderID : Decision (unknown me orderID).
Proof. unfold unknown. apply _. Defined.

Lemma findOrder_unknown me orderID ks :
  unknown me orderID → findOrder (books me) orderID ks = None.
Proof.
  intros Hu. induction ks as [|k ks IH]; simpl; [done|].
  destruct (books me !! k) as [b|] eqn:Hb; [|done].
  by rewrite (Hu k b Hb).
Qed.

(** ** C1: an order filled on arrival cannot be queried *)

(** C1 (failing input).  TestSimpleMatch: SELL LIMIT 15050 x 100 rests, BUY
    LIMIT 15050 x 100 is reported FILLED under the id [b-0]; [GetOrder] on
    that id answers "order not found" in every visiting order: [SubmitOrder]
    registers an order in the id map only through [AddOrder], that is, only
    when it rests.  The same for a BUY MARKET of 100. *)
Theorem filled_on_arrival_is_not_found :
  (∃ me r,
     SubmitOrder (envNamed "b") (oneAsk "AAPL" 15050 100) "AAPL" BUY LIMIT
       15050 100 = Some (me, Ok r) ∧
     OrderID r = "b-0" ∧ ResStatus r = FILLED ∧
     ∀ ks, GetOrder ks me "b-0" = Some (Err ErrNotFound)) ∧
  (∃ me r,
     SubmitOrder (envNamed "b") (oneAsk "AAPL" 15050 100) "AAPL" BUY MARKET
       0 100 = Some (me, Ok r) ∧
     OrderID r = "b-0" ∧ ResStatus r = FILLED ∧
     ∀ ks, GetOrder ks me "b-0" = Some (Err ErrNotFound)).
Proof.
  split.
  - eexists _, _. split; [vm_compute; reflexivity|].
    split_and!; [done|done|]. intros ks. unfold GetOrder.
    rewrite findOrder_unknown; [done|].
    apply (bool_decide_unpack _). vm_compute. exact I.
  - eexists _, _. split; [vm_compute; reflexivity|].
    split_and!; [done|done|]. intros ks. unfold GetOrder.
    rewrite findOrder_unknown; [done|].
    apply (bool_decide_unpack _). vm_compute. exact I.
Qed.

(** ** C2: cancelling *)

(** An id no visited book knows: "order not found", nothing changes. *)
Lemma CancelOrder_unknown ks me orderID :
  unknown me orderID → CancelOrder ks me orderID = Some (me, Err ErrNotFound).
Proof. intros Hu. unfold CancelOrder. by rewrite findOrder_unknown. Qed.

(** An order whose status is FILLED: refused, nothing changes. *)
Lemma CancelOrder_filled ks me orderID k book p order :
  findOrder (books me) orderID ks = Some (k, book, p) →
  mem me !! p = Some order → Status order = FILLED →
  CancelOrder ks me orderID = Some (me, Err ErrAlreadyFilled).
Proof.
  intros Hf Hp Hs. unfold CancelOrder. rewrite Hf, Hp. simpl.
  by rewrite bool_decide_eq_true_2.
Qed.

(** One resting BUY LIMIT 15000 x 100 on AAPL, id [b-0], and the same engine
    once the order is cancelled. *)
Definition oneBid (status : OrderStatus) (bids : list PriceLevel) : MatchingEngine :=
  mkEngine
    {[ "AAPL" := mkBook "AAPL" bids [] {[ "b-0" := 0%nat ]} ]}
    [mkOrder "b-0" "AAPL" BUY LIMIT 15000 100 0 status 0].

Lemma visits_single (me : MatchingEngine) ks k :
  (map_to_list (books me)).*1 = [k] → visits me ks → ks = [k].
Proof.
  intros Hk Hv. unfold visits in Hv. rewrite Hk in Hv.
  by apply Permutation_singleton_r in Hv.
Qed.

(** C2 (failing input).  TestCancelOrder, then the same cancel again: BUY
    LIMIT 15000 x 100 rests as [b-0]; the first [CancelOrder] succeeds and
    leaves the order CANCELLED and off the ladder; the second, on the
    CANCELLED order, also returns no error, in every visiting order.
    [CancelOrder] refuses FILLED orders only. *)
Theorem cancel_of_cancelled_reports_success :
  SubmitOrder (envNamed "b") NewMatchingEngine "AAPL" BUY LIMIT 15000 100
  = Some (oneBid ACCEPTED [mkLevel 15000 [0%nat]],
          Ok (mkResult "b-0" ACCEPTED 0 100 [] "Order added to book")) ∧
  (∀ ks, visits (oneBid ACCEPTED [mkLevel 15000 [0%nat]]) ks →
         CancelOrder ks (oneBid ACCEPTED [mkLevel 15000 [0%nat]]) "b-0"
         = Some (oneBid CANCELLED [], Ok ())) ∧
  (∀ ks, visits (oneBid CANCELLED []) ks →
         GetOrder ks (oneBid CANCELLED []) "b-0"
         = Some (Ok (mkOrder "b-0" "AAPL" BUY LIMIT 15000 100 0 CANCELLED 0)) ∧
         CancelOrder ks (oneBid CANCELLED []) "b-0"
         = Some (oneBid CANCELLED [], Ok ())).
Proof.
  split_and!.
  - vm_compute. reflexivity.
  - intros ks Hv. apply (visits_single _ _ "AAPL") in Hv as ->; [|by vm_compute].
    vm_compute. reflexivity.
  - intros ks Hv. apply (visits_single _ _ "AAPL") in Hv as ->; [|by vm_compute].
    split; vm_compute; reflexivity.
Qed.

(** ** C4: the liquidity check of market orders *)

(** Two resting SELL LIMIT orders of 2^62 each at price 1. *)
Definition twoLargeAsks : MatchingEngine :=
  mkEngine
    {[ "X" := mkBook "X" [] [mkLevel 1 [0%nat; 1%nat]]
                {[ "s-0" := 0%nat; "t-0" := 1%nat ]} ]}
    [mkOrder "s-0" "X" SELL LIMIT 1 (2 ^ 62) 0 ACCEPTED 0;
     mkOrder "t-0" "X" SELL LIMIT 1 (2 ^ 62) 0 ACCEPTED 0].

Lemma twoLargeAsks_reachable : reachable twoLargeAsks.
Proof.
  eapply (reach_submit (oneAsk "X" 1 (2 ^ 62)) (envNamed "t") "X" SELL LIMIT
            1 (2 ^ 62)).
  - apply oneAsk_reachable; lia.
  - unfold int64. lia.
  - unfold int64. lia.
  - vm_compute. reflexivity.
Qed.

(** C4 (failing input).  With 2^62 + 2^62 = 2^63 units resting on the ask
    side, a BUY MARKET for 1 unit is rejected for insufficient liquidity: the
    int64 sum of the scan wraps to -2^63. *)
Theorem market_liquidity_sum_wraps :
  reachable twoLargeAsks ∧
  restingQty (mem twoLargeAsks) (Asks (bookOf twoLargeAsks "X")) = 2 ^ 63 ∧
  ∃ me, SubmitOrder (envNamed "m") twoLargeAsks "X" BUY MARKET 0 1
        = Some (me, Err (ErrInsufficientLiquidity (- 2 ^ 63) 1)).
Proof.
  split_and!.
  - apply twoLargeAsks_reachable.
  - vm_compute. reflexivity.
  - eexists. vm_compute. reflexivity.
Qed.

(** ** A successful submission, taken apart *)

Lemma submitted_ok env me symbol side typ price quantity me' r :
  wf_engine me → quantity < 2 ^ 63 →
  submitted env me symbol side typ price quantity me' (Ok r) →
  ∃ opp' v,
    0 < quantity ∧
    matchLadder env side (length (mem me))
      (alloc env me symbol side typ price quantity)
      (opposing side (bookOf me symbol)) [] = Some (mem me', opp', Trades r) ∧
    mem me' !! length (mem me)
    = Some (withFill v ACCEPTED (NewOrder env symbol side typ price quantity)) ∧
    0 ≤ v ≤ quantity ∧ v = sumQty (Trades r) ∧
    OrderID r = uuid_New env 0%nat ∧ ResFilledQuantity r = v ∧
    ((typ = LIMIT ∧ v < quantity ∧ RemainingQuantity r = quantity - v ∧
      ResStatus r = (if 0 <? v then PARTIAL_FILL else ACCEPTED) ∧
      ∃ b'', books me' = <[symbol := b'']> (books me) ∧
             ownSide side b'' =
               addTo side (withFill v ACCEPTED
                             (NewOrder env symbol side typ price quantity))
                     (length (mem me)) (ownSide side (bookOf me symbol)) ∧
             opposing side b'' = opp' ∧
             BookOrders b'' =
               <[uuid_New env 0%nat := length (mem me)]>
                 (BookOrders (bookOf me symbol)))
     ∨
     ((typ = LIMIT → v = quantity) ∧ RemainingQuantity r = 0 ∧
      ResStatus r = (if v =? quantity then FILLED else ACCEPTED) ∧
      books me' = <[symbol := setOpposing side opp' (bookOf me symbol)]> (books me))).
Proof.
  intros Hwf Hq63 Hsub.
  inversion Hsub as [| |
    |h' opp' trades xo' book'' Hq Ht Hp Hm Hxo' Hshort Hadd
    |h' opp' trades xo' Hq Hp Hmk Hm Hxo' Hfull]; subst.
  - destruct (submit_aggressor _ _ _ _ _ _ _ _ _ _ Hwf (conj Hq Hq63) Hm)
      as (v & Hx & Hv & Hsum).
    rewrite Hx in Hxo'. injection Hxo' as <-. simpl in *.
    exists opp', v. split_and!; try done; try lia.
    left. split_and!; try done.
    + unfold remaining. simpl. unfold sub64. apply wrap64_id. unfold int64. lia.
    + destruct (AddOrder_sides side _ _ _ _ _ Hx eq_refl Hadd) as (Hown & Hopp & Hmap & _).
      exists book''. split_and!; try done.
      * rewrite Hown. by destruct side.
      * rewrite Hopp. by destruct side.
      * rewrite Hmap. by destruct side.
  - destruct (submit_aggressor _ _ _ _ _ _ _ _ _ _ Hwf (conj Hq Hq63) Hm)
      as (v & Hx & Hv & Hsum).
    rewrite Hx in Hxo'. injection Hxo' as <-. simpl in *.
    exists opp', v. split_and!; try done; try lia.
    right. split_and!; try done. intros ->.
    destruct (decide (v < quantity)); [|lia]. by destruct Hfull.
Qed.

(** Orders the book queued before the call are where they were in the
    store the matcher starts from. *)
Lemma submit_old env me symbol side' side typ price quantity p :
  wf_engine me →
  p ∈ flat (ownSide side' (bookOf me symbol)) ++
      flat (opposing side' (bookOf me symbol)) →
  alloc env me symbol side typ price quantity !! p = mem me !! p.
Proof.
  intros Hwf Hp. apply alloc_old. eapply wf_sides_lt; [|done].
  apply wf_book_sides. by apply wf_bookOf.
Qed.

(** ** C5: the trade price *)

(** C5.  Every trade of a submission to a reachable engine is priced at the
    limit price of a resting order of the opposing ladder, which is its
    counterparty; the incoming order takes the other role.  For a LIMIT
    order that price is no worse than its limit: at most the limit for a BUY,
    at least the limit for a SELL. *)
Theorem trade_price_is_resting_price env me symbol side typ price quantity
    me' r t :
  reachable me → int64 quantity →
  SubmitOrder env me symbol side typ price quantity = Some (me', Ok r) →
  t ∈ Trades r →
  ∃ p ro,
    p ∈ flat (opposing side (bookOf me symbol)) ∧ mem me !! p = Some ro ∧
    TradePrice t = Price ro ∧
    match side with
    | BUY => BuyerID t = OrderID r ∧ SellerID t = ID ro
    | SELL => BuyerID t = ID ro ∧ SellerID t = OrderID r
    end ∧
    (typ = LIMIT →
     match side with
     | BUY => TradePrice t ≤ price
     | SELL => price ≤ TradePrice t
     end).
Proof.
  intros Hreach Hq64 Hsub Ht.
  pose proof (reachable_wf me Hreach) as Hwf.
  assert (quantity < 2 ^ 63) as Hq63 by (unfold int64 in Hq64; lia).
  apply SubmitOrder_submitted in Hsub.
  destruct (submitted_ok _ _ _ _ _ _ _ _ _ Hwf Hq63 Hsub)
    as (opp' & v & Hq & Hm & Hx & Hv & Hsum & Hid & _).
  pose proof (submit_minv _ _ _ _ _ _ _ _ Hwf (conj Hq Hq63) Hm) as Hinv.
  pose proof (submit_sides env me symbol side side typ price quantity Hwf)
    as [_ _ _ _ _ Hopp].
  apply list_elem_of_lookup in Ht as [k Hk].
  destruct (minv_trades _ _ _ _ _ _ _ Hopp _ _ _ (Trades r) k t Hinv eq_refl Hk)
    as (p & o0 & n & Hp & Ho0 & (Hprice & _ & Hstop & Hids) & _).
  apply list_elem_of_lookup_2 in Hp.
  exists p, o0. split_and!; try done.
  - rewrite <-Ho0. symmetry. eapply (submit_old _ _ _ side); [done|]. set_solver.
  - rewrite Hid. by destruct side.
  - intros ->. rewrite Hprice. unfold stops in Hstop. simpl in Hstop.
    destruct side; apply Z.ltb_ge in Hstop; lia.
Qed.

(** ** C6: price-time priority *)

Lemma flat_lookup_level ls l i p :
  l ∈ ls → LevelOrders l !! i = Some p →
  ∃ k0, ∀ j p', LevelOrders l !! j = Some p' → flat ls !! (k0 + j)%nat = Some p'.
Proof.
  intros Hl _. apply list_elem_of_split in Hl as (l1 & l2 & ->).
  exists (length (flat l1)). intros j p' Hj.
  rewrite flat_app, flat_cons.
  rewrite lookup_app_r by lia.
  replace (length (flat l1) + j - length (flat l1))%nat with j by lia.
  by apply lookup_app_l_Some.
Qed.

Lemma StronglySorted_lookup_lt (q : list nat) i j p1 p2 :
  StronglySorted lt q → q !! i = Some p1 → q !! j = Some p2 → (i < j)%nat →
  (p1 < p2)%nat.
Proof.
  intros Hs. revert i j. induction Hs as [|a q Hs IH Ha]; intros i j Hi Hj Hij.
  { by rewrite lookup_nil in Hi. }
  destruct j as [|j]; [lia|]. simpl in Hj.
  destruct i as [|i]; simpl in Hi.
  - injection Hi as <-. rewrite Forall_forall in Ha. apply Ha.
    by eapply list_elem_of_lookup_2.
  - eapply IH; [done|done|lia].
Qed.

(** C6.  Take a level of the opposing ladder of a reachable engine and two
    orders queued on it, [p1] ahead of [p2].  Then [p1] was created before
    [p2] (the queue is in arrival order), and whenever a submission leaves
    [p2] other than it was, it has filled [p1] completely, by a trade for all
    that was left of [p1] which it emitted before the trade with [p2]. *)
Theorem fifo_within_level env me symbol side typ price quantity me' r
    level i j p1 p2 :
  reachable me → int64 quantity →
  SubmitOrder env me symbol side typ price quantity = Some (me', Ok r) →
  level ∈ opposing side (bookOf me symbol) →
  LevelOrders level !! i = Some p1 → LevelOrders level !! j = Some p2 →
  (i < j)%nat →
  (p1 < p2)%nat ∧
  (mem me' !! p2 ≠ mem me !! p2 →
   ∃ o1 o2 k1 k2 t1 t2 n2,
     mem me !! p1 = Some o1 ∧ mem me !! p2 = Some o2 ∧
     mem me' !! p1 = Some (withFill (Quantity o1) FILLED o1) ∧
     (k1 < k2)%nat ∧ Trades r !! k1 = Some t1 ∧ Trades r !! k2 = Some t2 ∧
     trade_of side (NewOrder env symbol side typ price quantity) o1 t1
       (Quantity o1 - FilledQuantity o1) ∧
     trade_of side (NewOrder env symbol side typ price quantity) o2 t2 n2 ∧
     0 < n2 ≤ Quantity o2 - FilledQuantity o2).
Proof.
  intros Hreach Hq64 Hsub Hlevel Hi Hj Hij.
  pose proof (reachable_wf me Hreach) as Hwf.
  assert (quantity < 2 ^ 63) as Hq63 by (unfold int64 in Hq64; lia).
  pose proof (submit_sides env me symbol side side typ price quantity Hwf)
    as [_ _ _ _ _ Hopp].
  split.
  { unfold wf_ladder in Hopp. rewrite Forall_forall in Hopp.
    destruct (Hopp level Hlevel) as [_ Hs].
    by eapply StronglySorted_lookup_lt. }
  intros Htouched.
  apply SubmitOrder_submitted in Hsub.
  destruct (submitted_ok _ _ _ _ _ _ _ _ _ Hwf Hq63 Hsub)
    as (opp' & v & Hq & Hm & Hx & Hv & Hsum & Hid & _).
  pose proof (submit_minv _ _ _ _ _ _ _ _ Hwf (conj Hq Hq63) Hm) as Hinv.
  destruct (flat_lookup_level _ _ _ _ Hlevel Hi) as (k0 & Hk0).
  pose proof (Hk0 i p1 Hi) as Hf1. pose proof (Hk0 j p2 Hj) as Hf2.
  assert (∀ p, p ∈ flat (opposing side (bookOf me symbol)) →
               alloc env me symbol side typ price quantity !! p = mem me !! p)
    as Hold.
  { intros p Hp. eapply (submit_old _ _ _ side); [done|]. set_solver. }
  assert (k0 + j < length (Trades r))%nat as Hlen.
  { destruct (decide (k0 + j < length (Trades r))%nat) as [|Hge]; [done|].
    exfalso. apply Htouched.
    rewrite <-(Hold p2) by by eapply list_elem_of_lookup_2.
    eapply (minv_untouched _ _ _ _ _ _ _ _ _ _ (Trades r)); [done|done|done|lia]. }
  destruct (lookup_lt_is_Some_2 (Trades r) (k0 + j)%nat Hlen) as [t2 Ht2].
  destruct (lookup_lt_is_Some_2 (Trades r) (k0 + i)%nat) as [t1 Ht1]; [lia|].
  destruct (minv_trades _ _ _ _ _ _ _ Hopp _ _ _ (Trades r) _ t1 Hinv eq_refl Ht1)
    as (p1' & o1 & n1 & Hp1 & Ho1 & Htr1 & Hn1 & Hfull1 & Hh1).
  destruct (minv_trades _ _ _ _ _ _ _ Hopp _ _ _ (Trades r) _ t2 Hinv eq_refl Ht2)
    as (p2' & o2 & n2 & Hp2 & Ho2 & Htr2 & Hn2 & _ & _).
  rewrite Hf1 in Hp1. injection Hp1 as <-.
  rewrite Hf2 in Hp2. injection Hp2 as <-.
  rewrite Hold in Ho1 by by eapply list_elem_of_lookup_2.
  rewrite Hold in Ho2 by by eapply list_elem_of_lookup_2.
  specialize (Hfull1 ltac:(lia)). subst n1.
  rewrite decide_True in Hh1 by done.
  replace (FilledQuantity o1 + (Quantity o1 - FilledQuantity o1))
    with (Quantity o1) in Hh1 by lia.
  exists o1, o2, (k0 + i)%nat, (k0 + j)%nat, t1, t2, n2.
  split_and!; try done; lia.
Qed.

(** ** C3: conservation *)

(** Total remaining quantity resting on both ladders of a symbol's book. *)
Definition bookRemaining (me : MatchingEngine) (symbol : string) : Z :=
  restingQty (mem me) (Bids (bookOf me symbol)) +
  restingQty (mem me) (Asks (bookOf me symbol)).

Lemma bookRemaining_sides side me symbol :
  bookRemaining me symbol =
  restingQty (mem me) (ownSide side (bookOf me symbol)) +
  restingQty (mem me) (opposing side (bookOf me symbol)).
Proof. unfold bookRemaining. destruct side; simpl; lia. Qed.

(** The claim as the specification states it. *)
Definition conservation_as_stated (env : Env) (me : MatchingEngine)
    (symbol : string) (side : OrderSide) (typ : OrderType)
    (price quantity : Z) : Prop :=
  ∀ me' r,
    SubmitOrder env me symbol side typ price quantity = Some (me', Ok r) →
    Trades r ≠ [] →
    sumQty (Trades r) = bookRemaining me symbol - bookRemaining me' symbol.

(** C3 (counterexample).  TestPartialFill: against a resting SELL of 50 a BUY
    LIMIT of 100 trades 50 and rests with 50: the trades sum to 50 while the
    total remaining on the two ladders is 50 before and 50 after. *)
Lemma conservation_as_stated_fails :
  ¬ conservation_as_stated (envNamed "b") (oneAsk "AAPL" 15050 50) "AAPL"
      BUY LIMIT 15050 100.
Proof.
  intros H.
  destruct (SubmitOrder (envNamed "b") (oneAsk "AAPL" 15050 50) "AAPL"
              BUY LIMIT 15050 100) as [[me' [r|e]]|] eqn:Hs;
    vm_compute in Hs; try discriminate.
  injection Hs as <- <-.
  specialize (H _ _ eq_refl). vm_compute in H.
  specialize (H ltac:(discriminate)). discriminate.
Qed.

(** C3 (amended).  For a submission to a reachable engine, the quantities of
    its trades sum to the decrease of the total remaining quantity on the two
    ladders of its book plus the remainder with which the incoming order
    comes to rest itself (the result's remaining quantity: zero when the
    order is filled or is a MARKET order). *)
Theorem trades_account_for_remaining env me symbol side typ price quantity me' r :
  reachable me → int64 quantity →
  SubmitOrder env me symbol side typ price quantity = Some (me', Ok r) →
  sumQty (Trades r) =
  bookRemaining me symbol - bookRemaining me' symbol + RemainingQuantity r.
Proof.
  intros Hreach Hq64 Hsub.
  pose proof (reachable_wf me Hreach) as Hwf.
  assert (quantity < 2 ^ 63) as Hq63 by (unfold int64 in Hq64; lia).
  apply SubmitOrder_submitted in Hsub.
  destruct (submitted_ok _ _ _ _ _ _ _ _ _ Hwf Hq63 Hsub)
    as (opp' & v & Hq & Hm & Hx & Hv & Hsum & Hid & _ & Hcase).
  pose proof (submit_minv _ _ _ _ _ _ _ _ Hwf (conj Hq Hq63) Hm) as Hinv.
  pose proof (wf_bookOf me symbol Hwf) as Hb.
  apply (wf_book_sides side) in Hb. destruct Hb as [_ _ _ Hnd Hown Hopp].
  pose proof (minv_conserve _ _ _ _ _ _ _ _ _ _ (Trades r) Hinv eq_refl) as Hcons.
  assert (restingQty (alloc env me symbol side typ price quantity)
            (opposing side (bookOf me symbol))
          = restingQty (mem me) (opposing side (bookOf me symbol))) as Hopp0.
  { apply sumLeft_ext. intros p Hp. eapply (submit_old _ _ _ side); [done|].
    set_solver. }
  assert (restingQty (mem me') (ownSide side (bookOf me symbol))
          = restingQty (mem me) (ownSide side (bookOf me symbol))) as Hown0.
  { apply sumLeft_ext. intros p Hp.
    rewrite <-(submit_old env me symbol side side typ price quantity p Hwf)
      by set_solver.
    eapply minv_frame; [done| |].
    - assert (p < length (mem me))%nat
        by by apply (wf_ladder_lt _ symbol (ownSide side (bookOf me symbol))).
      lia.
    - apply NoDup_app in Hnd as (_ & Hnd & _). by apply Hnd. }
  rewrite Hopp0 in Hcons.
  rewrite (bookRemaining_sides side me), (bookRemaining_sides side me').
  destruct Hcase as [(Ht & Hlt & -> & _ & b'' & Hbooks & Hown'' & Hopp'' & _)
                    |(_ & -> & _ & Hbooks)].
  - unfold bookOf at 3 4. rewrite Hbooks, lookup_insert_eq. simpl.
    rewrite Hown'', Hopp''.
    assert (sorted_for side (ownSide side (bookOf me symbol))) as Hs.
    { pose proof (wf_bookOf me symbol Hwf) as Hb.
      apply (wf_book_sides side) in Hb. by destruct Hb. }
    destruct (addTo_spec side
                (withFill v ACCEPTED (NewOrder env symbol side typ price quantity))
                (length (mem me)) _ Hs) as (_ & q & rest & Hperm & Hold).
    assert (flat (addTo side
                    (withFill v ACCEPTED
                       (NewOrder env symbol side typ price quantity))
                    (length (mem me)) (ownSide side (bookOf me symbol)))
            ≡ₚ length (mem me) :: flat (ownSide side (bookOf me symbol)))
      as Hflat.
    { rewrite (flat_perm _ _ Hperm), flat_cons. simpl.
      destruct Hold as [Hold|[-> ->]].
      - rewrite (flat_perm _ _ Hold), flat_cons. simpl.
        rewrite <-app_assoc. simpl. by rewrite <-Permutation_middle.
      - done. }
    unfold restingQty at 3. rewrite (sumLeft_perm _ _ _ Hflat). simpl.
    fold (restingQty (mem me') (ownSide side (bookOf me symbol))).
    rewrite Hown0. unfold leftAt. rewrite Hx. simpl. lia.
  - unfold bookOf at 3 4. rewrite Hbooks, lookup_insert_eq. simpl.
    replace (ownSide side (setOpposing side opp' (bookOf me symbol)))
      with (ownSide side (bookOf me symbol)) by by destruct side.
    replace (opposing side (setOpposing side opp' (bookOf me symbol)))
      with opp' by by destruct side.
    rewrite Hown0. lia.
Qed.

(** ** C7: the shape of a book *)

(** Bids strictly falling, asks strictly rising, best bid below best ask. *)
Definition shaped (b : OrderBook) : Prop :=
  StronglySorted (λ p q, q < p) (LevelPrice <$> Bids b) ∧
  StronglySorted (λ p q, p < q) (LevelPrice <$> Asks b) ∧
  (∀ lb rb la ra, Bids b = lb :: rb → Asks b = la :: ra →
                  LevelPrice lb < LevelPrice la).

(** The same, seen from one side. *)
Definition fits (side : OrderSide) (own opp : list PriceLevel) : Prop :=
  sorted_for side own ∧ sorted_for (flipSide side) opp ∧ apart side own opp.

Lemma fits_flip side own opp : fits side own opp → fits (flipSide side) opp own.
Proof.
  intros (H1 & H2 & H3). split_and!; [done|by destruct side|].
  intros lo lp Hlo Hlp. specialize (H3 lp lo Hlp Hlo). by destruct side.
Qed.

Lemma shaped_fits side b :
  shaped b ↔ fits side (ownSide side b) (opposing side b).
Proof.
  assert (shaped b ↔ fits BUY (Bids b) (Asks b)) as Hbuy.
  { unfold shaped, fits, sorted_for, apart. simpl. split.
    - intros (Hb & Ha & Hx). split_and!; [done|done|].
      intros lo lp Hlo Hlp.
      destruct (Bids b) as [|lb rb] eqn:Hbids; [by apply elem_of_nil in Hlo|].
      destruct (Asks b) as [|la ra] eqn:Hasks; [by apply elem_of_nil in Hlp|].
      specialize (Hx lb rb la ra eq_refl eq_refl).
      rewrite fmap_cons in Hb, Ha.
      apply StronglySorted_inv in Hb as [_ Hb].
      apply StronglySorted_inv in Ha as [_ Ha].
      rewrite Forall_forall in Hb, Ha.
      assert (LevelPrice lo ≤ LevelPrice lb).
      { apply elem_of_cons in Hlo as [->|Hlo]; [lia|].
        apply Z.lt_le_incl, Hb. by apply list_elem_of_fmap_2. }
      assert (LevelPrice la ≤ LevelPrice lp).
      { apply elem_of_cons in Hlp as [->|Hlp]; [lia|].
        apply Z.lt_le_incl, Ha. by apply list_elem_of_fmap_2. }
      lia.
    - intros (Hb & Ha & Hx). split_and!; [done|done|].
      intros lb rb la ra Hbids Hasks. apply Hx.
      + rewrite Hbids. set_solver.
      + rewrite Hasks. set_solver. }
  destruct side; simpl; [done|].
  rewrite Hbuy. split; intros H; by apply fits_flip in H.
Qed.

Lemma fits_shrink side own own' opp :
  (LevelPrice <$> own') `sublist_of` (LevelPrice <$> own) →
  fits side own opp → fits side own' opp.
Proof.
  intros Hsub (H1 & H2 & H3). split_and!; [|done|].
  - unfold sorted_for in *. by eapply StronglySorted_sublist.
  - intros lo lp Hlo Hlp.
    assert (LevelPrice lo ∈ LevelPrice <$> own) as Hin.
    { eapply elem_of_sublist; [|done]. by apply list_elem_of_fmap_2. }
    apply list_elem_of_fmap in Hin as (lo' & -> & Hlo'). by apply H3.
Qed.

Lemma fits_added side own opp o x :
  fits side own opp →
  (∀ lp, lp ∈ opp → priced side (LevelPrice lp) (Price o)) →
  fits side (addTo side o x own) opp.
Proof.
  intros (H1 & H2 & H3) Hap.
  destruct (addTo_spec side o x own H1) as (Hs & q & rest & Hperm & Hold).
  split_and!; [done|done|].
  intros lo lp Hlo Hlp. rewrite Hperm in Hlo.
  apply elem_of_cons in Hlo as [->|Hlo]; simpl; [by apply Hap|].
  apply H3; [|done]. destruct Hold as [Hold|[_ ->]]; [|done].
  rewrite Hold. set_solver.
Qed.

(** The walk only ever drops levels from the front of the ladder. *)
Lemma matchLadder_prices env side x levels : ∀ h trades h' levels' trades',
  matchLadder env side x h levels trades = Some (h', levels', trades') →
  (LevelPrice <$> levels') `suffix_of` (LevelPrice <$> levels).
Proof.
  induction levels as [|[pr q] rest IH]; intros h trades h' levels' trades' Hm.
  - simpl in Hm. by simplify_eq.
  - simpl in Hm.
    destruct (h !! x) as [xo|]; [|done]. simpl in Hm.
    destruct (FilledQuantity xo <? Quantity xo); [|by simplify_eq].
    destruct (stops side xo (mkLevel pr q)); [by simplify_eq|].
    destruct (matchQueue env side x h q trades) as [[[h1 q1] trades1]|];
      [|done]. simpl in Hm.
    destruct q1 as [|r1 q1].
    + rewrite fmap_cons. apply suffix_cons_r. by eapply IH.
    + destruct (h1 !! x) as [xo1|]; [|done]. simpl in Hm.
      destruct (FilledQuantity xo1 <? Quantity xo1); [done|].
      by simplify_eq.
Qed.

(** The matcher writes fills and statuses only: side, type and price of
    every order stay. *)
Definition same_terms (o o' : Order) : Prop :=
  Side o' = Side o ∧ Typ o' = Typ o ∧ Price o' = Price o.

Definition keeps_terms (h h' : list Order) : Prop :=
  ∀ p o, h !! p = Some o → ∃ o', h' !! p = Some o' ∧ same_terms o o'.

Lemma keeps_terms_refl h : keeps_terms h h.
Proof. intros p o Ho. by exists o. Qed.

Lemma keeps_terms_trans h1 h2 h3 :
  keeps_terms h1 h2 → keeps_terms h2 h3 → keeps_terms h1 h3.
Proof.
  intros H12 H23 p o Ho.
  destruct (H12 p o Ho) as (o2 & Ho2 & ? & ? & ?).
  destruct (H23 p o2 Ho2) as (o3 & Ho3 & ? & ? & ?).
  exists o3. unfold same_terms. split; [done|]. split_and!; congruence.
Qed.

Lemma keeps_terms_alter f h p :
  (∀ o, same_terms o (f o)) → keeps_terms h (alter f p h).
Proof.
  intros Hf p' o Ho. destruct (decide (p = p')) as [<-|Hne].
  - rewrite list_lookup_alter_eq, Ho. simpl. eauto.
  - rewrite list_lookup_alter_ne by done. by exists o.
Qed.

Lemma matchQueue_keeps env side x q : ∀ h trades h' q' trades',
  matchQueue env side x h q trades = Some (h', q', trades') →
  keeps_terms h h'.
Proof.
  induction q as [|r q IH]; intros h trades h' q' trades' Hm; simpl in Hm.
  { simplify_eq. apply keeps_terms_refl. }
  destruct (h !! x) as [xo|]; [|done]. simpl in Hm.
  destruct (FilledQuantity xo <? Quantity xo);
    [|simplify_eq; apply keeps_terms_refl].
  destruct (h !! r) as [ro|]; [|done]. simpl in Hm.
  set (t := min (remaining xo) (remaining ro)) in *.
  assert (keeps_terms h (alter (addFilled t) r (alter (addFilled t) x h))) as H2.
  { eapply keeps_terms_trans; by apply keeps_terms_alter. }
  destruct (alter (addFilled t) r (alter (addFilled t) x h) !! r) as [ro'|];
    [|done]. simpl in Hm.
  destruct (FilledQuantity ro' =? Quantity ro').
  - eapply keeps_terms_trans; [done|].
    eapply keeps_terms_trans; [|by eapply IH]. by apply keeps_terms_alter.
  - destruct (alter (setStatus PARTIAL_FILL) r _ !! x) as [xo'|]; [|done].
    simpl in Hm. destruct (FilledQuantity xo' <? Quantity xo'); [done|].
    simplify_eq. eapply keeps_terms_trans; [done|]. by apply keeps_terms_alter.
Qed.

Lemma matchLadder_keeps env side x levels : ∀ h trades h' levels' trades',
  matchLadder env side x h levels trades = Some (h', levels', trades') →
  keeps_terms h h'.
Proof.
  induction levels as [|[pr q] rest IH]; intros h trades h' levels' trades' Hm;
    simpl in Hm.
  { simplify_eq. apply keeps_terms_refl. }
  destruct (h !! x) as [xo|]; [|done]. simpl in Hm.
  destruct (FilledQuantity xo <? Quantity xo);
    [|simplify_eq; apply keeps_terms_refl].
  destruct (stops side xo (mkLevel pr q)); [simplify_eq; apply keeps_terms_refl|].
  destruct (matchQueue env side x h q trades) as [[[h1 q1] trades1]|] eqn:Hq;
    [|done]. simpl in Hm.
  apply matchQueue_keeps in Hq.
  destruct q1 as [|r1 q1].
  - eapply keeps_terms_trans; [done|]. by eapply IH.
  - destruct (h1 !! x) as [xo1|]; [|done]. simpl in Hm.
    destruct (FilledQuantity xo1 <? Quantity xo1); [done|].
    by simplify_eq.
Qed.

Lemma shaped_new symbol : shaped (NewOrderBook symbol).
Proof. split_and!; simpl; [constructor|constructor|done]. Qed.

Lemma flipSide_flipSide side : flipSide (flipSide side) = side.
Proof. by destruct side. Qed.

Lemma fits_matched env side x h own opp trades h' opp' trades' :
  fits side own opp →
  matchLadder env side x h opp trades = Some (h', opp', trades') →
  fits side own opp'.
Proof.
  intros Hfits Hm. apply matchLadder_prices in Hm. apply suffix_sublist in Hm.
  apply fits_flip in Hfits. apply (fits_shrink _ _ _ _ Hm) in Hfits.
  apply fits_flip in Hfits. by rewrite flipSide_flipSide in Hfits.
Qed.

Lemma shaped_setOpposing side b opp' :
  fits side (ownSide side b) opp' → shaped (setOpposing side opp' b).
Proof. intros H. apply (shaped_fits side). by destruct side. Qed.

Lemma matchOrder_book env x h b h' b' r :
  matchOrder env x h b = Some (h', b', r) →
  b' = b ∨
  ∃ side opp' trades,
    matchLadder env side x h (opposing side b) [] = Some (h', opp', trades) ∧
    b' = setOpposing side opp' b.
Proof.
  unfold matchOrder, matchLimitOrder, matchMarketOrder. intros H.
  destruct (h !! x) as [o|]; [|done]. simpl in H.
  assert (∀ h1 b1 t1,
            match Side o with
            | BUY => matchBuyOrder env x h b
            | SELL => matchSellOrder env x h b
            end = Some (h1, b1, t1) →
            ∃ opp', matchLadder env (Side o) x h (opposing (Side o) b) []
                    = Some (h1, opp', t1) ∧
                    b1 = setOpposing (Side o) opp' b) as Hside.
  { intros h1 b1 t1 Hres. unfold matchBuyOrder, matchSellOrder in Hres.
    destruct (Side o); simpl in *;
      destruct (matchLadder _ _ _ _ _ _) as [[[h2 l2] t2]|]; simplify_eq/=;
      by eexists. }
  destruct (Typ o).
  - destruct (match Side o with BUY => _ | SELL => _ end)
      as [[[h1 b1] t1]|] eqn:Hres; [|done].
    simpl in H. injection H as <- <- <-.
    destruct (Hside _ _ _ eq_refl) as (opp' & Hm & ->). right. by eexists _, _, _.
  - destruct (availableLiquidity _ _ _) as [avail|]; [|done]. simpl in H.
    destruct (avail <? Quantity o); [simplify_eq; by left|].
    destruct (match Side o with BUY => _ | SELL => _ end)
      as [[[h1 b1] t1]|] eqn:Hres; [|done].
    simpl in H. injection H as <- <- <-.
    destruct (Hside _ _ _ eq_refl) as (opp' & Hm & ->). right. by eexists _, _, _.
Qed.

Lemma RemoveOrder_shaped h orderID b b' r :
  shaped b → RemoveOrder h orderID b = Some (b', r) → shaped b'.
Proof.
  intros Hs H. unfold RemoveOrder in H.
  destruct (BookOrders b !! orderID) as [p|]; [|by simplify_eq].
  destruct (h !! p) as [o|]; [|done]. simpl in H.
  destruct (Side o).
  - destruct (removeFromBids h o (Bids b)) as [bids|] eqn:Hrm; [|done].
    simpl in H. injection H as <- <-.
    destruct (removeFromLevels_shrinks _ _ _ _ Hrm) as (Hp & _).
    apply (shaped_fits BUY). apply (shaped_fits BUY) in Hs. simpl in *.
    by eapply fits_shrink.
  - destruct (removeFromAsks h o (Asks b)) as [asks|] eqn:Hrm; [|done].
    simpl in H. injection H as <- <-.
    destruct (removeFromLevels_shrinks _ _ _ _ Hrm) as (Hp & _).
    apply (shaped_fits SELL). apply (shaped_fits SELL) in Hs. simpl in *.
    by eapply fits_shrink.
Qed.

(** Insertion keeps the shape when the order's price does not cross. *)
Lemma AddOrder_shaped h x o b b' :
  shaped b → h !! x = Some o →
  (∀ lp, lp ∈ opposing (Side o) b → priced (Side o) (LevelPrice lp) (Price o)) →
  AddOrder h x b = Some b' → shaped b'.
Proof.
  intros Hs Hx Hap Hadd.
  destruct (AddOrder_sides (Side o) _ _ _ _ _ Hx eq_refl Hadd) as (Hown & Hopp & _).
  apply (shaped_fits (Side o)). rewrite Hown, Hopp.
  apply fits_added; [|done]. by apply shaped_fits.
Qed.

Definition all_shaped (me : MatchingEngine) : Prop :=
  ∀ s b, books me !! s = Some b → shaped b.

Lemma all_shaped_insert me s b h' :
  all_shaped me → shaped b → all_shaped (mkEngine (<[s := b]> (books me)) h').
Proof.
  intros Hall Hb s' b' Hl. simpl in Hl.
  destruct (decide (s = s')) as [<-|Hne].
  - rewrite lookup_insert_eq in Hl. by simplify_eq.
  - rewrite lookup_insert_ne in Hl by done. by eapply Hall.
Qed.

Lemma shaped_bookOf me symbol : all_shaped me → shaped (bookOf me symbol).
Proof.
  intros Hall. unfold bookOf.
  destruct (books me !! symbol) as [b|] eqn:Hb; simpl; [by eapply Hall|].
  apply shaped_new.
Qed.

Lemma submitted_shaped env me symbol side typ price quantity me' r :
  all_shaped me →
  submitted env me symbol side typ price quantity me' r →
  all_shaped me'.
Proof.
  intros Hall Hsub.
  pose proof (shaped_bookOf me symbol Hall) as Hb.
  destruct Hsub as [?|?|avail Hq Ht Hav Hlow
                   |h' opp' trades xo' book'' Hq Ht Hp Hm Hxo' Hshort Hadd
                   |h' opp' trades xo' Hq Hp Hmk Hm Hxo' Hfull]; try done.
  - by apply all_shaped_insert.
  - apply all_shaped_insert; [done|].
    apply (shaped_fits side) in Hb.
    pose proof (fits_matched _ _ _ _ _ _ _ _ _ _ Hb Hm) as Hfits.
    destruct (matchLadder_keeps _ _ _ _ _ _ _ _ _ Hm _ _
                (alloc_lookup env me symbol side typ price quantity))
      as (o' & Ho' & Hside & Htyp & Hprice).
    rewrite Hxo' in Ho'. injection Ho' as <-. simpl in Hside.
    destruct (AddOrder_sides side _ _ _ _ _ Hxo' Hside Hadd) as (Hown & Hopp & _).
    apply (shaped_fits side). rewrite Hown, Hopp.
    replace (ownSide side (setOpposing side opp' (bookOf me symbol)))
      with (ownSide side (bookOf me symbol)) by by destruct side.
    replace (opposing side (setOpposing side opp' (bookOf me symbol)))
      with opp' by by destruct side.
    apply fits_added; [done|]. intros lp Hlp.
    eapply (matchLadder_short_apart _ _ _ _ _ _ _ _ _ _ Hm Hxo'); try done.
    by destruct Hfits as (_ & ? & _).
  - apply all_shaped_insert; [done|].
    apply shaped_setOpposing. eapply fits_matched; [|done].
    by apply shaped_fits.
Qed.

(** Engines obtained from the empty one by the operations of the package:
    the methods of the engine, and the operations of a book called on their
    own, with [AddOrder] restricted to prices that do not cross. *)
Inductive operated : MatchingEngine → Prop :=
  | op_new : operated NewMatchingEngine
  | op_submit me env symbol side typ price quantity me' r :
      operated me →
      SubmitOrder env me symbol side typ price quantity = Some (me', r) →
      operated me'
  | op_cancel me ks orderID me' r :
      operated me → CancelOrder ks me orderID = Some (me', r) → operated me'
  | op_snapshot me now symbol depth me' snap :
      operated me → GetOrderBook now me symbol depth = Some (me', snap) →
      operated me'
  | op_book me symbol :
      operated me →
      operated (mkEngine (GetOrCreateBook (books me) symbol).1 (mem me))
  | op_order me o :
      operated me → operated (mkEngine (books me) (mem me ++ [o]))
  | op_insert me s b x o b' :
      operated me → books me !! s = Some b → mem me !! x = Some o →
      (∀ lp, lp ∈ opposing (Side o) b →
             priced (Side o) (LevelPrice lp) (Price o)) →
      AddOrder (mem me) x b = Some b' →
      operated (mkEngine (<[s := b']> (books me)) (mem me))
  | op_remove me s b orderID b' r :
      operated me → books me !! s = Some b →
      RemoveOrder (mem me) orderID b = Some (b', r) →
      operated (mkEngine (<[s := b']> (books me)) (mem me))
  | op_match me env s b x h' b' r :
      operated me → books me !! s = Some b →
      matchOrder env x (mem me) b = Some (h', b', r) →
      operated (mkEngine (<[s := b']> (books me)) h').

Lemma reachable_operated me : reachable me → operated me.
Proof.
  induction 1; [apply op_new|by eapply op_submit|by eapply op_cancel
               |by eapply op_snapshot].
Qed.

Lemma GetOrCreateBook_shaped me symbol :
  all_shaped me →
  all_shaped (mkEngine (GetOrCreateBook (books me) symbol).1 (mem me)).
Proof.
  intros Hall. unfold GetOrCreateBook.
  destruct (books me !! symbol) as [b|] eqn:Hb; simpl.
  - intros s b'. apply Hall.
  - apply all_shaped_insert; [done|apply shaped_new].
Qed.

(** The claim as the specification states it, for insertion. *)
Definition insert_keeps_shape_as_stated (h : list Order) (x : ptr)
    (b : OrderBook) : Prop :=
  ∀ b', shaped b → AddOrder h x b = Some b' → shaped b'.

(** C7 (counterexample).  On the book with one ask at 15050, [AddOrder] of a
    new BUY LIMIT at 15100 leaves best bid 15100 above best ask 15050:
    [AddOrder] does not match. *)
Lemma insert_keeps_shape_as_stated_fails :
  ¬ insert_keeps_shape_as_stated
      (mem (oneAsk "AAPL" 15050 100) ++
       [NewOrder (envNamed "b") "AAPL" BUY LIMIT 15100 100])
      1%nat (bookOf (oneAsk "AAPL" 15050 100) "AAPL").
Proof.
  intros H.
  destruct (AddOrder
              (mem (oneAsk "AAPL" 15050 100) ++
               [NewOrder (envNamed "b") "AAPL" BUY LIMIT 15100 100])
              1%nat (bookOf (oneAsk "AAPL" 15050 100) "AAPL"))
    as [b'|] eqn:Hadd; vm_compute in Hadd; [|discriminate].
  injection Hadd as <-.
  assert (shaped (bookOf (oneAsk "AAPL" 15050 100) "AAPL")) as Hs.
  { vm_compute. split_and!; [constructor|repeat constructor|done]. }
  destruct (H _ Hs eq_refl) as (_ & _ & Hx).
  specialize (Hx _ _ _ _ eq_refl eq_refl). simpl in Hx. lia.
Qed.

(** C7 (amended).  From the empty engine, every book stays in shape (bids
    strictly falling, asks strictly rising, best bid strictly below best ask
    when both ladders are non-empty) under submit, cancel, snapshot, match,
    removal, and under insertion of an order whose price does not cross the
    opposing ladder (which is how [SubmitOrder] inserts). *)
Theorem book_shape_invariant me s b :
  operated me → books me !! s = Some b → shaped b.
Proof.
  intros Hop. revert s b. change (all_shaped me).
  induction Hop as [|me env symbol side typ price quantity me' r _ IH Hs
                   |me ks orderID me' r _ IH Hc
                   |me now symbol depth me' snap _ IH Hg
                   |me symbol _ IH
                   |me o _ IH
                   |me s b x o b' _ IH Hb Hx Hap Hadd
                   |me s b orderID b' r _ IH Hb Hrm
                   |me env s b x h' b' r _ IH Hb Hm].
  - intros s b Hb. simpl in Hb. by rewrite lookup_empty in Hb.
  - eapply submitted_shaped; [done|]. by apply SubmitOrder_submitted.
  - unfold CancelOrder in Hc.
    destruct (findOrder (books me) orderID ks) as [[[k book] p]|] eqn:Hfind;
      [|by simplify_eq].
    apply findOrder_Some in Hfind as (Hk & Hp & _).
    destruct (mem me !! p) as [order|]; [|done]. simpl in Hc.
    destruct (bool_decide (Status order = FILLED)); [by simplify_eq|].
    destruct (RemoveOrder _ orderID book) as [[book' r']|] eqn:Hrm; [|done].
    simpl in Hc. injection Hc as <- <-.
    apply all_shaped_insert; [done|].
    eapply RemoveOrder_shaped; [|done]. by eapply IH.
  - unfold GetOrderBook in Hg.
    pose proof (GetOrCreateBook_shaped me symbol IH) as Hnew.
    destruct (GetOrCreateBook (books me) symbol) as [bs book].
    destruct (snapshotLevels (mem me) (take _ (Bids book))); [|done].
    simpl in Hg.
    destruct (snapshotLevels (mem me) (take _ (Asks book))); [|done].
    simpl in Hg. by injection Hg as <- <-.
  - by apply GetOrCreateBook_shaped.
  - done.
  - apply all_shaped_insert; [done|].
    eapply AddOrder_shaped; [by eapply IH|done|done|done].
  - apply all_shaped_insert; [done|].
    eapply RemoveOrder_shaped; [by eapply IH|done].
  - apply all_shaped_insert; [done|].
    destruct (matchOrder_book _ _ _ _ _ _ _ Hm)
      as [->|(side & opp' & trades & Hl & ->)]; [by eapply IH|].
    apply shaped_setOpposing. eapply fits_matched; [|done].
    apply shaped_fits. by eapply IH.
Qed.

(** ** The theorems at work on the scenarios *)

(** TestPartialFill: against the resting SELL of 50, BUY LIMIT 15050 x 100. *)
Definition afterPartialFill : MatchingEngine :=
  mkEngine
    {[ "AAPL" := mkBook "AAPL" [mkLevel 15050 [1%nat]] []
                   {[ "s-0" := 0%nat; "b-0" := 1%nat ]} ]}
    [mkOrder "s-0" "AAPL" SELL LIMIT 15050 50 50 FILLED 0;
     mkOrder "b-0" "AAPL" BUY LIMIT 15050 100 50 ACCEPTED 0].

Definition partialFillResult : OrderResult :=
  mkResult "b-0" PARTIAL_FILL 50 50 [mkTrade "b-1" 15050 50 0 "b-0" "s-0"]
           "Order partially filled and added to book".

Lemma partialFill_submitted :
  SubmitOrder (envNamed "b") (oneAsk "AAPL" 15050 50) "AAPL" BUY LIMIT 15050 100
  = Some (afterPartialFill, Ok partialFillResult).
Proof. vm_compute. reflexivity. Qed.

(** TestFIFOPriority: three resting SELLs of 100 at 15050, then BUY LIMIT
    15050 x 150. *)
Definition asksAt15050 (queue : list ptr) (ids : gmap string ptr)
    (store : list Order) : MatchingEngine :=
  mkEngine {[ "AAPL" := mkBook "AAPL" [] [mkLevel 15050 queue] ids ]} store.

Definition ask15050 (id : string) (filled : Z) (status : OrderStatus) : Order :=
  mkOrder id "AAPL" SELL LIMIT 15050 100 filled status 0.

Definition threeAsks : MatchingEngine :=
  asksAt15050 [0%nat; 1%nat; 2%nat]
    {[ "s-0" := 0%nat; "t-0" := 1%nat; "u-0" := 2%nat ]}
    [ask15050 "s-0" 0 ACCEPTED; ask15050 "t-0" 0 ACCEPTED;
     ask15050 "u-0" 0 ACCEPTED].

Definition afterFifo : MatchingEngine :=
  asksAt15050 [1%nat; 2%nat]
    {[ "s-0" := 0%nat; "t-0" := 1%nat; "u-0" := 2%nat ]}
    [ask15050 "s-0" 100 FILLED; ask15050 "t-0" 50 PARTIAL_FILL;
     ask15050 "u-0" 0 ACCEPTED;
     mkOrder "b-0" "AAPL" BUY LIMIT 15050 150 150 ACCEPTED 0].

Definition fifoResult : OrderResult :=
  mkResult "b-0" FILLED 150 0
           [mkTrade "b-1" 15050 100 0 "b-0" "s-0";
            mkTrade "b-2" 15050 50 0 "b-0" "t-0"]
           "Order fully filled".

Lemma threeAsks_reachable : reachable threeAsks.
Proof.
  eapply (reach_submit _ (envNamed "u") "AAPL" SELL LIMIT 15050 100).
  - eapply (reach_submit (oneAsk "AAPL" 15050 100) (envNamed "t") "AAPL"
              SELL LIMIT 15050 100).
    + apply oneAsk_reachable; lia.
    + unfold int64. lia.
    + unfold int64. lia.
    + vm_compute. reflexivity.
  - unfold int64. lia.
  - unfold int64. lia.
  - vm_compute. reflexivity.
Qed.

Lemma fifo_submitted :
  SubmitOrder (envNamed "b") threeAsks "AAPL" BUY LIMIT 15050 150
  = Some (afterFifo, Ok fifoResult).
Proof. vm_compute. reflexivity. Qed.

Lemma limit_without_cross_is_noop_witness :
  ∃ me' r,
    SubmitOrder (envNamed "b") (oneAsk "AAPL" 15100 100) "AAPL" BUY LIMIT
      15000 100 = Some (me', Ok r) ∧
    Trades r = [] ∧ ResStatus r = ACCEPTED ∧
    (∃ b', books me' !! "AAPL" = Some b' ∧
           opposing BUY b' = opposing BUY (bookOf (oneAsk "AAPL" 15100 100) "AAPL")) ∧
    (∀ p o, mem (oneAsk "AAPL" 15100 100) !! p = Some o → mem me' !! p = Some o) ∧
    (∀ s, s ≠ "AAPL" → books me' !! s = books (oneAsk "AAPL" 15100 100) !! s).
Proof.
  apply (limit_without_cross_is_noop (envNamed "b") (oneAsk "AAPL" 15100 100)
           "AAPL" BUY 15000 100); [lia|lia|].
  intros best rest H. vm_compute in H. injection H as <- <-. simpl. lia.
Defined.

Lemma partial_fill_is_stored_accepted_witness :
  ∃ o, GetOrder ["AAPL"] afterPartialFill "b-0" = Some (Ok o) ∧
       ID o = "b-0" ∧ Status o = ACCEPTED ∧ FilledQuantity o = 50 ∧
       0 < FilledQuantity o < Quantity o ∧ LIMIT = LIMIT.
Proof.
  apply (partial_fill_is_stored_accepted (envNamed "b") (oneAsk "AAPL" 15050 50)
           "AAPL" BUY LIMIT 15050 100 afterPartialFill partialFillResult
           ["AAPL"]).
  - apply oneAsk_reachable; lia.
  - unfold int64. lia.
  - apply partialFill_submitted.
  - reflexivity.
  - change (unknown (oneAsk "AAPL" 15050 50) "b-0").
    apply (bool_decide_unpack _). vm_compute. exact I.
  - unfold visits. vm_compute. reflexivity.
Defined.

Lemma trade_price_is_resting_price_witness :
  ∃ p ro,
    p ∈ flat (opposing BUY (bookOf (oneAsk "AAPL" 15050 50) "AAPL")) ∧
    mem (oneAsk "AAPL" 15050 50) !! p = Some ro ∧
    TradePrice (mkTrade "b-1" 15050 50 0 "b-0" "s-0") = Price ro ∧
    (BuyerID (mkTrade "b-1" 15050 50 0 "b-0" "s-0") = OrderID partialFillResult ∧
     SellerID (mkTrade "b-1" 15050 50 0 "b-0" "s-0") = ID ro) ∧
    (LIMIT = LIMIT → TradePrice (mkTrade "b-1" 15050 50 0 "b-0" "s-0") ≤ 15050).
Proof.
  apply (trade_price_is_resting_price (envNamed "b") (oneAsk "AAPL" 15050 50)
           "AAPL" BUY LIMIT 15050 100 afterPartialFill partialFillResult).
  - apply oneAsk_reachable; lia.
  - unfold int64. lia.
  - apply partialFill_submitted.
  - simpl. apply list_elem_of_here.
Defined.

Lemma fifo_within_level_witness :
  (0 < 1)%nat ∧
  (mem afterFifo !! 1%nat ≠ mem threeAsks !! 1%nat →
   ∃ o1 o2 k1 k2 t1 t2 n2,
     mem threeAsks !! 0%nat = Some o1 ∧ mem threeAsks !! 1%nat = Some o2 ∧
     mem afterFifo !! 0%nat = Some (withFill (Quantity o1) FILLED o1) ∧
     (k1 < k2)%nat ∧ Trades fifoResult !! k1 = Some t1 ∧
     Trades fifoResult !! k2 = Some t2 ∧
     trade_of BUY (NewOrder (envNamed "b") "AAPL" BUY LIMIT 15050 150) o1 t1
       (Quantity o1 - FilledQuantity o1) ∧
     trade_of BUY (NewOrder (envNamed "b") "AAPL" BUY LIMIT 15050 150) o2 t2 n2 ∧
     0 < n2 ≤ Quantity o2 - FilledQuantity o2).
Proof.
  apply (fifo_within_level (envNamed "b") threeAsks "AAPL" BUY LIMIT 15050 150
           afterFifo fifoResult (mkLevel 15050 [0%nat; 1%nat; 2%nat])
           0%nat 1%nat 0%nat 1%nat).
  - apply threeAsks_reachable.
  - unfold int64. lia.
  - apply fifo_submitted.
  - vm_compute. apply list_elem_of_here.
  - reflexivity.
  - reflexivity.
  - lia.
Defined.

Lemma trades_account_for_remaining_witness :
  sumQty (Trades partialFillResult) =
  bookRemaining (oneAsk "AAPL" 15050 50) "AAPL" -
  bookRemaining afterPartialFill "AAPL" + RemainingQuantity partialFillResult.
Proof.
  apply (trades_account_for_remaining (envNamed "b") (oneAsk "AAPL" 15050 50) "AAPL" BUY LIMIT
           15050 100 afterPartialFill partialFillResult).
  - apply oneAsk_reachable; lia.
  - unfold int64. lia.
  - apply partialFill_submitted.
Defined.

(** A book with both sides and two ask levels, reached by three
    submissions; then a BUY LIMIT at 15050, between best bid 15000 and best
    ask 15100, is created and put on the book by [AddOrder] itself. *)
Definition twoAskLevels : MatchingEngine :=
  mkEngine
    {[ "AAPL" := mkBook "AAPL" []
                   [mkLevel 15100 [0%nat]; mkLevel 15200 [1%nat]]
                   {[ "s-0" := 0%nat; "t-0" := 1%nat ]} ]}
    [mkOrder "s-0" "AAPL" SELL LIMIT 15100 100 0 ACCEPTED 0;
     mkOrder "t-0" "AAPL" SELL LIMIT 15200 100 0 ACCEPTED 0].

Definition twoSidedBook : OrderBook :=
  mkBook "AAPL" [mkLevel 15000 [2%nat]]
         [mkLevel 15100 [0%nat]; mkLevel 15200 [1%nat]]
         {[ "s-0" := 0%nat; "t-0" := 1%nat; "b-0" := 2%nat ]}.

Definition twoSided : MatchingEngine :=
  mkEngine {[ "AAPL" := twoSidedBook ]}
    [mkOrder "s-0" "AAPL" SELL LIMIT 15100 100 0 ACCEPTED 0;
     mkOrder "t-0" "AAPL" SELL LIMIT 15200 100 0 ACCEPTED 0;
     mkOrder "b-0" "AAPL" BUY LIMIT 15000 100 0 ACCEPTED 0].

Definition insertedBid : Order :=
  NewOrder (envNamed "c") "AAPL" BUY LIMIT 15050 100.

Definition insertedBook : OrderBook :=
  mkBook "AAPL" [mkLevel 15050 [3%nat]; mkLevel 15000 [2%nat]]
         [mkLevel 15100 [0%nat]; mkLevel 15200 [1%nat]]
         {[ "s-0" := 0%nat; "t-0" := 1%nat; "b-0" := 2%nat; "c-0" := 3%nat ]}.

Definition afterInsert : MatchingEngine :=
  mkEngine (<["AAPL" := insertedBook]> (books twoSided))
           (mem twoSided ++ [insertedBid]).

Lemma twoAskLevels_submitted :
  SubmitOrder (envNamed "t") (oneAsk "AAPL" 15100 100) "AAPL" SELL LIMIT
    15200 100
  = Some (twoAskLevels,
          Ok (mkResult "t-0" ACCEPTED 0 100 [] "Order added to book")).
Proof. vm_compute. reflexivity. Qed.

Lemma twoSided_submitted :
  SubmitOrder (envNamed "b") twoAskLevels "AAPL" BUY LIMIT 15000 100
  = Some (twoSided,
          Ok (mkResult "b-0" ACCEPTED 0 100 [] "Order added to book")).
Proof. vm_compute. reflexivity. Qed.

Lemma twoSided_reachable : reachable twoSided.
Proof.
  eapply reach_submit; [| | |exact twoSided_submitted];
    [|unfold int64; lia|unfold int64; lia].
  eapply reach_submit; [| | |exact twoAskLevels_submitted];
    [|unfold int64; lia|unfold int64; lia].
  apply oneAsk_reachable; lia.
Qed.

(** The insertion goes through [op_insert]: 15050 is below both ask prices. *)
Lemma afterInsert_operated : operated afterInsert.
Proof.
  apply (op_insert (mkEngine (books twoSided) (mem twoSided ++ [insertedBid]))
           "AAPL" twoSidedBook 3%nat insertedBid insertedBook).
  - apply op_order, reachable_operated, twoSided_reachable.
  - vm_compute. reflexivity.
  - vm_compute. reflexivity.
  - intros lp Hlp. simpl in Hlp.
    apply elem_of_cons in Hlp as [->|Hlp]; [simpl; lia|].
    apply list_elem_of_singleton in Hlp as ->. simpl. lia.
  - vm_compute. reflexivity.
Qed.

Lemma book_shape_invariant_witness :
  operated afterInsert ∧ books afterInsert !! "AAPL" = Some insertedBook ∧
  shaped insertedBook.
Proof.
  split_and!.
  - apply afterInsert_operated.
  - vm_compute. reflexivity.
  - apply (book_shape_invariant afterInsert "AAPL").
    + apply afterInsert_operated.
    + vm_compute. reflexivity.
Defined.

(** ** The model covers every submission to a reachable engine *)

Definition sound_order (h : list Order) (x : ptr) : Prop :=
  ∃ xo, h !! x = Some xo ∧
        0 ≤ FilledQuantity xo ≤ Quantity xo ∧ Quantity xo < 2 ^ 63.

Lemma matchQueue_total env side x q : ∀ h trades,
  sound_order h x → x ∉ q → NoDup q →
  (∀ p, p ∈ q → ∃ o, h !! p = Some o ∧ live o) →
  ∃ h' q' trades' xo',
    matchQueue env side x h q trades = Some (h', q', trades') ∧
    sound_order h' x ∧ h' !! x = Some xo' ∧
    (q' = [] ∨ Quantity xo' ≤ FilledQuantity xo') ∧
    ∀ p, p ≠ x → p ∉ q → h' !! p = h !! p.
Proof.
  induction q as [|r q IH]; intros h trades Hx Hxq Hnd Hq.
  { pose proof Hx as (xo & Hxo & _). exists h, [], trades, xo.
    split_and!; eauto. }
  apply not_elem_of_cons in Hxq as [Hxr Hxq].
  apply NoDup_cons in Hnd as [Hrq Hnd].
  pose proof Hx as (xo & Hxo & Hxf & Hx63).
  destruct (Hq r) as (ro & Hro & Hr0 & Hrf & Hr63); [set_solver|].
  simpl. rewrite Hxo. simpl.
  destruct (Z.ltb_spec (FilledQuantity xo) (Quantity xo)) as [Hlt|Hge]; cycle 1.
  { exists h, (r :: q), trades, xo. split_and!; eauto. }
  rewrite Hro. simpl.
  rewrite (remaining_live xo), (remaining_live ro), min_spec by lia.
  set (t := Z.min (Quantity xo - FilledQuantity xo)
                  (Quantity ro - FilledQuantity ro)).
  assert (x < length h)%nat as Hxlen by by eapply lookup_lt_Some.
  assert (r < length h)%nat as Hrlen by by eapply lookup_lt_Some.
  rewrite (alter_insert _ h x xo) by done.
  rewrite (alter_insert (addFilled t) _ r ro) by by rewrite list_lookup_insert_ne.
  rewrite list_lookup_insert_eq by by rewrite length_insert. simpl.
  assert (add64 (FilledQuantity ro) t = FilledQuantity ro + t) as ->
    by (apply wrap64_id; unfold int64; lia).
  assert (FilledQuantity (addFilled t xo) = FilledQuantity xo + t) as Hfx.
  { simpl. apply wrap64_id. unfold int64. lia. }
  assert (sound_order (<[x:=addFilled t xo]> h) x) as Hx'.
  { exists (addFilled t xo). rewrite list_lookup_insert_eq by done.
    split; [done|]. rewrite Hfx. simpl. lia. }
  destruct (Z.eqb_spec (FilledQuantity ro + t) (Quantity ro)) as [Heq|Hne].
  - rewrite (alter_insert _ _ r (addFilled t ro))
      by (rewrite list_lookup_insert_eq; [done|by rewrite !length_insert]).
    rewrite list_insert_insert_eq.
    destruct (IH (<[r:=setStatus FILLED (addFilled t ro)]>
                    (<[x:=addFilled t xo]> h))
                 (trades ++ [newTrade env (length trades) side xo ro t]))
      as (h' & q' & trades' & xo' & Hm & Hx'' & Hxo' & Hex & Hframe); try done.
    + destruct Hx' as (xo1 & Hxo1 & ?). exists xo1.
      by rewrite list_lookup_insert_ne.
    + intros p Hp. destruct (Hq p) as (o & Ho & Hlive); [set_solver|].
      exists o. split; [|done].
      rewrite !list_lookup_insert_ne; [done| |]; set_solver.
    + exists h', q', trades', xo'. split_and!; try done.
      intros p Hpx Hp. apply not_elem_of_cons in Hp as [Hpr Hp].
      rewrite Hframe by done. by rewrite !list_lookup_insert_ne.
  - rewrite (alter_insert _ _ r (addFilled t ro))
      by (rewrite list_lookup_insert_eq; [done|by rewrite !length_insert]).
    rewrite list_insert_insert_eq.
    rewrite list_lookup_insert_ne by done.
    rewrite list_lookup_insert_eq by done. simpl.
    simpl in Hfx. rewrite Hfx.
    destruct (Z.ltb_spec (FilledQuantity xo + t) (Quantity xo)); [lia|].
    eexists _, _, _, (addFilled t xo). split; [done|]. split_and!.
    + destruct Hx' as (xo1 & Hxo1 & ?). exists xo1.
      by rewrite list_lookup_insert_ne.
    + rewrite list_lookup_insert_ne by done. by rewrite list_lookup_insert_eq.
    + right. simpl. rewrite Hfx. lia.
    + intros p Hpx Hp. apply not_elem_of_cons in Hp as [Hpr Hp].
      by rewrite !list_lookup_insert_ne.
Qed.

Lemma matchLadder_total env side x ls : ∀ h trades,
  sound_order h x → x ∉ flat ls → NoDup (flat ls) →
  (∀ p, p ∈ flat ls → ∃ o, h !! p = Some o ∧ live o) →
  ∃ res, matchLadder env side x h ls trades = Some res.
Proof.
  induction ls as [|[pr q] rest IH]; intros h trades Hx Hxls Hnd Hls.
  { by eexists. }
  rewrite flat_cons in Hxls, Hnd, Hls. simpl in *.
  apply not_elem_of_app in Hxls as [Hxq Hxrest].
  apply NoDup_app in Hnd as (Hndq & Hdisj & Hndrest).
  pose proof Hx as (xo & Hxo & _). rewrite Hxo. simpl.
  destruct (FilledQuantity xo <? Quantity xo); [|by eexists].
  destruct (stops side xo (mkLevel pr q)); [by eexists|].
  destruct (matchQueue_total env side x q h trades)
    as (h1 & q1 & trades1 & xo1 & -> & Hx1 & Hxo1 & Hex & Hframe); try done.
  { intros p Hp. apply Hls. set_solver. }
  simpl. destruct q1 as [|r1 q1].
  - apply IH; try done. intros p Hp.
    rewrite Hframe; [apply Hls; set_solver|set_solver|].
    intros Hpq. by apply (Hdisj p).
  - rewrite Hxo1. simpl. destruct Hex as [?|Hfull]; [done|].
    destruct (Z.ltb_spec (FilledQuantity xo1) (Quantity xo1)); [lia|].
    by eexists.
Qed.

Lemma queueLiquidity_total h q : ∀ acc,
  (∀ p, p ∈ q → is_Some (h !! p)) → is_Some (queueLiquidity h q acc).
Proof.
  induction q as [|p q IH]; intros acc Hq; simpl; [done|].
  destruct (Hq p) as [o ->]; [set_solver|]. simpl.
  apply IH. intros p' Hp'. apply Hq. set_solver.
Qed.

Lemma availableLiquidity_total h ls : ∀ acc,
  (∀ p, p ∈ flat ls → is_Some (h !! p)) → is_Some (availableLiquidity h ls acc).
Proof.
  induction ls as [|l ls IH]; intros acc Hls; simpl; [done|].
  rewrite flat_cons in Hls.
  destruct (queueLiquidity_total h (LevelOrders l) acc) as [acc' ->].
  { intros p Hp. apply Hls. set_solver. }
  simpl. apply IH. intros p Hp. apply Hls. set_solver.
Qed.

Lemma submit_matchLadder_total env me symbol side typ price quantity :
  wf_engine me → 0 < quantity < 2 ^ 63 →
  ∃ h' opp' trades,
    matchLadder env side (length (mem me))
      (alloc env me symbol side typ price quantity)
      (opposing side (bookOf me symbol)) [] = Some (h', opp', trades).
Proof.
  intros Hwf Hq.
  pose proof (submit_sides env me symbol side side typ price quantity Hwf)
    as Hsides.
  pose proof (wf_bookOf me symbol Hwf) as Hb.
  apply (wf_book_sides side) in Hb.
  destruct (matchLadder_total env side (length (mem me))
              (opposing side (bookOf me symbol))
              (alloc env me symbol side typ price quantity) [])
    as [[[h' opp'] trades] Hm].
  - exists (NewOrder env symbol side typ price quantity).
    split; [apply alloc_lookup|]. simpl. lia.
  - intros Hin. assert (length (mem me) < length (mem me))%nat; [|lia].
    eapply wf_sides_lt; [done|]. set_solver.
  - destruct Hsides as [_ _ _ Hnd _ _]. by apply NoDup_app in Hnd as (_ & _ & ?).
  - intros p Hp. destruct Hsides as [_ _ _ _ _ Hopp].
    pose proof (wf_ladder_lt _ _ _ _ Hopp Hp) as Hlt.
    apply lookup_lt_is_Some_2 in Hlt as [o Ho]. exists o. split; [done|].
    by destruct (wf_ladder_symbol _ _ _ _ _ Hopp Hp Ho).
  - by exists h', opp', trades.
Qed.

(** Every submission with an int64 quantity to a well-formed engine gets
    its answer in the model. *)
Theorem SubmitOrder_total env me symbol side typ price quantity :
  wf_engine me → quantity < 2 ^ 63 →
  ∃ me' r, SubmitOrder env me symbol side typ price quantity = Some (me', r).
Proof.
  intros Hwf Hq63. unfold SubmitOrder.
  destruct (Z.leb_spec quantity 0) as [?|Hq]; [by eexists _, _|].
  destruct (bool_decide (typ = LIMIT) && (price <=? 0)); [by eexists _, _|].
  destruct (GetOrCreateBook_spec (books me) symbol) as (bs & -> & Hbs).
  fold (bookOf me symbol). fold (alloc env me symbol side typ price quantity).
  destruct (submit_matchLadder_total env me symbol side typ price quantity Hwf
              (conj Hq Hq63)) as (h' & opp' & trades & Hm).
  destruct (submit_aggressor _ _ _ _ _ _ _ _ _ _ Hwf (conj Hq Hq63) Hm)
    as (v & Hx & _).
  assert (∀ A (k : _ → option A),
            (match side with
             | BUY => matchBuyOrder env (length (mem me))
                        (alloc env me symbol side typ price quantity)
                        (bookOf me symbol)
             | SELL => matchSellOrder env (length (mem me))
                         (alloc env me symbol side typ price quantity)
                         (bookOf me symbol)
             end ≫= k) = k (h', setOpposing side opp' (bookOf me symbol), trades))
    as Hk.
  { intros A k. destruct side; simpl in *; unfold matchBuyOrder, matchSellOrder;
      by rewrite Hm. }
  unfold matchOrder. rewrite alloc_lookup. simpl.
  destruct typ.
  - unfold matchLimitOrder. rewrite alloc_lookup. simpl.
    rewrite option_bind_assoc, Hk. simpl. rewrite Hx. simpl.
    destruct (v <? quantity); simpl.
    + unfold AddOrder. rewrite Hx. simpl. by eexists _, _.
    + destruct (v =? quantity); by eexists _, _.
  - unfold matchMarketOrder. rewrite alloc_lookup. simpl.
    fold (opposing side (bookOf me symbol)).
    destruct (availableLiquidity_total
                (alloc env me symbol side MARKET price quantity)
                (opposing side (bookOf me symbol)) 0) as [avail ->].
    { intros p Hp. apply lookup_lt_is_Some_2.
      pose proof (submit_sides env me symbol side side MARKET price quantity Hwf)
        as [_ _ _ _ _ Hopp].
      by eapply wf_ladder_lt. }
    simpl. destruct (avail <? quantity); simpl; [by eexists _, _|].
    rewrite Hk. simpl. rewrite Hx. simpl. rewrite andb_false_r.
    destruct (v =? quantity); by eexists _, _.
Qed.

(** ** C4, away from overflow *)

Lemma leftAt_live h s ls p :
  wf_ladder h s ls → p ∈ flat ls → 0 < leftAt h p < 2 ^ 63 ∧
  ∃ o, h !! p = Some o ∧ remaining o = leftAt h p.
Proof.
  intros Hwf Hp.
  pose proof (wf_ladder_lt _ _ _ _ Hwf Hp) as Hlt.
  apply lookup_lt_is_Some_2 in Hlt as [o Ho].
  destruct (wf_ladder_symbol _ _ _ _ _ Hwf Hp Ho) as [_ (H0 & Hf & H63)].
  unfold leftAt. rewrite Ho. split; [lia|]. exists o. split; [done|].
  apply remaining_live; lia.
Qed.

Lemma sumLeft_nonneg h s ls q :
  wf_ladder h s ls → q ⊆ flat ls → 0 ≤ sumLeft h q.
Proof.
  intros Hwf. induction q as [|p q IH]; intros Hq; simpl; [done|].
  destruct (leftAt_live h s ls p Hwf) as [? _]; [set_solver|].
  assert (0 ≤ sumLeft h q) by (apply IH; set_solver). lia.
Qed.

Lemma queueLiquidity_exact h s ls q : ∀ acc,
  wf_ladder h s ls → q ⊆ flat ls →
  0 ≤ acc → acc + sumLeft h q < 2 ^ 63 →
  queueLiquidity h q acc = Some (acc + sumLeft h q).
Proof.
  induction q as [|p q IH]; intros acc Hwf Hq Hacc Hsum; simpl in *.
  { f_equal. lia. }
  destruct (leftAt_live h s ls p Hwf) as [Hp (o & -> & Hrem)]; [set_solver|].
  simpl. rewrite Hrem.
  assert (0 ≤ sumLeft h q) by (eapply sumLeft_nonneg; [done|set_solver]).
  unfold add64. rewrite wrap64_id by (unfold int64; lia).
  rewrite IH; [f_equal; lia|done|set_solver|lia|lia].
Qed.

Lemma availableLiquidity_exact h s ls0 ls : ∀ acc,
  wf_ladder h s ls0 → flat ls ⊆ flat ls0 →
  0 ≤ acc → acc + restingQty h ls < 2 ^ 63 →
  availableLiquidity h ls acc = Some (acc + restingQty h ls).
Proof.
  unfold restingQty.
  induction ls as [|l ls IH]; intros acc Hwf Hls Hacc Hsum; simpl in *.
  { f_equal. lia. }
  rewrite sumLeft_app in *.
  assert (0 ≤ sumLeft h (LevelOrders l))
    by (eapply sumLeft_nonneg; [done|set_solver]).
  assert (0 ≤ sumLeft h (flat ls))
    by (eapply sumLeft_nonneg; [done|set_solver]).
  rewrite (queueLiquidity_exact h s ls0) by (try done; try lia; set_solver).
  simpl. rewrite IH; [f_equal; lia|done|set_solver|lia|lia].
Qed.

(** What C4 says holds whenever the quantity resting on the opposing ladder
    fits int64: a MARKET order for more than rests there is rejected and
    leaves every order and the book as they were; any other MARKET order is
    filled for exactly its quantity and does not rest. *)
Theorem market_order_without_overflow env me symbol side price quantity :
  reachable me → 0 < quantity < 2 ^ 63 →
  restingQty (mem me) (opposing side (bookOf me symbol)) < 2 ^ 63 →
  (restingQty (mem me) (opposing side (bookOf me symbol)) < quantity →
   ∃ me', SubmitOrder env me symbol side MARKET price quantity
          = Some (me', Err (ErrInsufficientLiquidity
                              (restingQty (mem me)
                                 (opposing side (bookOf me symbol)))
                              quantity)) ∧
          books me' !! symbol = Some (bookOf me symbol) ∧
          (∀ s, s ≠ symbol → books me' !! s = books me !! s) ∧
          (∀ p o, mem me !! p = Some o → mem me' !! p = Some o)) ∧
  (quantity ≤ restingQty (mem me) (opposing side (bookOf me symbol)) →
   ∃ me' r, SubmitOrder env me symbol side MARKET price quantity
            = Some (me', Ok r) ∧
            ResStatus r = FILLED ∧ ResFilledQuantity r = quantity ∧
            sumQty (Trades r) = quantity ∧ RemainingQuantity r = 0 ∧
            ownSide side (bookOf me' symbol) = ownSide side (bookOf me symbol) ∧
            length (mem me) ∉ flat (opposing side (bookOf me' symbol))).
Proof.
  intros Hreach Hq Hfit.
  pose proof (reachable_wf me Hreach) as Hwf.
  pose proof (submit_sides env me symbol side side MARKET price quantity Hwf)
    as [_ _ _ _ _ Hopp].
  assert (restingQty (alloc env me symbol side MARKET price quantity)
            (opposing side (bookOf me symbol))
          = restingQty (mem me) (opposing side (bookOf me symbol))) as Hopp0.
  { apply sumLeft_ext. intros p Hp. eapply (submit_old _ _ _ side); [done|].
    set_solver. }
  assert (availableLiquidity (alloc env me symbol side MARKET price quantity)
            (opposing side (bookOf me symbol)) 0
          = Some (restingQty (mem me) (opposing side (bookOf me symbol))))
    as Hav.
  { rewrite (availableLiquidity_exact _ symbol (opposing side (bookOf me symbol)));
      [by rewrite Hopp0|done|done|lia|]. rewrite Hopp0. lia. }
  destruct (SubmitOrder_total env me symbol side MARKET price quantity Hwf)
    as (me' & r & Hsub); [lia|].
  pose proof (SubmitOrder_submitted _ _ _ _ _ _ _ _ _ Hsub) as Hs.
  split.
  - intros Hless. inversion Hs as [| |avail _ _ Hav' Hlow| |
      h' opp' trades xo' _ _ Hmk _ _ _]; subst; try lia; try done.
    + rewrite Hav in Hav'. injection Hav' as <-.
      eexists. split; [done|]. simpl. split_and!.
      * apply lookup_insert_eq.
      * intros s Hne. by apply lookup_insert_ne.
      * intros p o Ho. unfold alloc. by apply lookup_app_l_Some.
    + destruct (Hmk eq_refl) as (avail & Hav' & Hge).
      rewrite Hav in Hav'. injection Hav' as <-. lia.
  - intros Hge. inversion Hs as [| |avail _ _ Hav' Hlow| |
      h' opp' trades xo' _ _ Hmk Hm Hxo' _]; subst; try lia; try done.
    { rewrite Hav in Hav'. injection Hav' as <-. lia. }
    pose proof (submit_minv _ _ _ _ _ _ _ _ Hwf Hq Hm) as Hinv.
    destruct (submit_aggressor _ _ _ _ _ _ _ _ _ _ Hwf Hq Hm)
      as (v & Hx & Hv & Hsum).
    rewrite Hx in Hxo'. injection Hxo' as <-. simpl in *.
    pose proof (minv_conserve _ _ _ _ _ _ _ _ _ _ trades Hinv eq_refl) as Hcons.
    rewrite Hopp0 in Hcons.
    assert (v = quantity) as Hfull.
    { destruct (matchLadder_exit _ _ _ _ _ _ _ _ _ Hm) as [->|(xo & Hxo & Hex)].
      - unfold restingQty in Hcons at 2. simpl in Hcons. lia.
      - rewrite Hx in Hxo. injection Hxo as <-. simpl in Hex.
        destruct Hex as [?|(best & rest & _ & Hstop)]; [lia|done]. }
    eexists _, _. split; [exact Hsub|]. simpl.
    rewrite Hfull, Z.eqb_refl. split_and!; try done; try lia.
    + unfold bookOf at 1. simpl. rewrite lookup_insert_eq. simpl.
      by destruct side.
    + unfold bookOf at 1. simpl. rewrite lookup_insert_eq. simpl.
      replace (opposing side (setOpposing side opp' (bookOf me symbol)))
        with opp' by by destruct side.
      intros Hin.
      destruct (minv_shape _ _ _ _ _ _ _ _ _ _ Hinv) as (_ & [k Hk] & _).
      assert (length (mem me) < length (mem me))%nat; [|lia].
      eapply (wf_ladder_lt _ symbol (opposing side (bookOf me symbol))).
      * pose proof (wf_bookOf me symbol Hwf) as Hb.
        apply (wf_book_sides side) in Hb. by destruct Hb.
      * rewrite Hk. set_solver.
Qed.

(** ** C9: determinism

    Two runs differ in what the environment hands out: order ids, trade ids,
    timestamps.  Stores of two runs are alike when the orders at the same
    address agree on everything else; trades are alike when they agree on
    price and quantity and their buyers (and their sellers) are the orders at
    one and the same address, that is, the orders created by the same
    submission. *)

Definition sim_order (o1 o2 : Order) : Prop :=
  Symbol o1 = Symbol o2 ∧ Side o1 = Side o2 ∧ Typ o1 = Typ o2 ∧
  Price o1 = Price o2 ∧ Quantity o1 = Quantity o2 ∧
  FilledQuantity o1 = FilledQuantity o2 ∧ Status o1 = Status o2.

Definition sim_store (h1 h2 : list Order) : Prop := Forall2 sim_order h1 h2.

Definition ids (h : list Order) : list string := ID <$> h.

Definition sim_trade (ids1 ids2 : list string) (t1 t2 : Trade) : Prop :=
  TradePrice t1 = TradePrice t2 ∧ TradeQuantity t1 = TradeQuantity t2 ∧
  ∃ pb ps : nat,
    ids1 !! pb = Some (BuyerID t1) ∧ ids2 !! pb = Some (BuyerID t2) ∧
    ids1 !! ps = Some (SellerID t1) ∧ ids2 !! ps = Some (SellerID t2).

Lemma ids_alter f p h :
  (∀ o, ID (f o) = ID o) → ids (alter f p h) = ids h.
Proof.
  intros Hf. unfold ids. apply list_eq. intros i.
  rewrite !list_lookup_fmap. destruct (decide (p = i)) as [<-|Hne].
  - rewrite list_lookup_alter_eq. destruct (h !! p); simpl; [|done].
    by rewrite Hf.
  - by rewrite list_lookup_alter_ne.
Qed.

Lemma ids_lookup h p o : h !! p = Some o → ids h !! p = Some (ID o).
Proof. intros Ho. unfold ids. by rewrite list_lookup_fmap, Ho. Qed.

Lemma sim_store_alter f p h1 h2 :
  (∀ o1 o2, sim_order o1 o2 → sim_order (f o1) (f o2)) →
  sim_store h1 h2 → sim_store (alter f p h1) (alter f p h2).
Proof. intros Hf Hs. apply Forall2_alter; [done|]. intros ????. apply Hf. Qed.

Lemma sim_order_addFilled t o1 o2 :
  sim_order o1 o2 → sim_order (addFilled t o1) (addFilled t o2).
Proof.
  intros (?&?&?&?&?&Hf&?). unfold sim_order. simpl. rewrite Hf. done.
Qed.

Lemma sim_order_setStatus st o1 o2 :
  sim_order o1 o2 → sim_order (setStatus st o1) (setStatus st o2).
Proof. intros (?&?&?&?&?&?&?). unfold sim_order. simpl. done. Qed.

Lemma sim_store_lookup h1 h2 p o1 o2 :
  sim_store h1 h2 → h1 !! p = Some o1 → h2 !! p = Some o2 → sim_order o1 o2.
Proof. intros Hs H1 H2. by eapply Forall2_lookup_lr. Qed.

Lemma sim_order_remaining o1 o2 :
  sim_order o1 o2 → remaining o1 = remaining o2.
Proof. intros (?&?&?&?&Hq&Hf&?). unfold remaining. by rewrite Hq, Hf. Qed.

Lemma sim_order_stops side o1 o2 l :
  sim_order o1 o2 → stops side o1 l = stops side o2 l.
Proof. intros (?&?&Ht&Hp&?). unfold stops. by rewrite Ht, Hp. Qed.

Lemma matchQueue_sim env1 env2 side x q :
  ∀ h1 h2 tr1 tr2 h1' q1' tr1' h2' q2' tr2' i1 i2,
  sim_store h1 h2 → ids h1 = i1 → ids h2 = i2 →
  Forall2 (sim_trade i1 i2) tr1 tr2 →
  matchQueue env1 side x h1 q tr1 = Some (h1', q1', tr1') →
  matchQueue env2 side x h2 q tr2 = Some (h2', q2', tr2') →
  sim_store h1' h2' ∧ q1' = q2' ∧ ids h1' = i1 ∧ ids h2' = i2 ∧
  Forall2 (sim_trade i1 i2) tr1' tr2'.
Proof.
  induction q as [|r q IH];
    intros h1 h2 tr1 tr2 h1' q1' tr1' h2' q2' tr2' i1 i2 Hsim Hi1 Hi2 Htr Hm1 Hm2;
    simpl in Hm1, Hm2.
  { by simplify_eq. }
  destruct (h1 !! x) as [xo1|] eqn:Hx1; [|done].
  destruct (h2 !! x) as [xo2|] eqn:Hx2; [|done]. simpl in Hm1, Hm2.
  pose proof (sim_store_lookup _ _ _ _ _ Hsim Hx1 Hx2) as Hxo.
  pose proof Hxo as (_&_&_&_&Hxq&Hxf&_).
  rewrite <-Hxq, <-Hxf in Hm2.
  destruct (FilledQuantity xo1 <? Quantity xo1); [|by simplify_eq].
  destruct (h1 !! r) as [ro1|] eqn:Hr1; [|done].
  destruct (h2 !! r) as [ro2|] eqn:Hr2; [|done]. simpl in Hm1, Hm2.
  pose proof (sim_store_lookup _ _ _ _ _ Hsim Hr1 Hr2) as Hro.
  rewrite <-(sim_order_remaining _ _ Hxo), <-(sim_order_remaining _ _ Hro) in Hm2.
  set (t := min (remaining xo1) (remaining ro1)) in *.
  assert (sim_store (alter (addFilled t) r (alter (addFilled t) x h1))
                    (alter (addFilled t) r (alter (addFilled t) x h2))) as Hsim2.
  { do 2 (apply sim_store_alter; [apply sim_order_addFilled|]). done. }
  assert (Forall2 (sim_trade i1 i2)
            (tr1 ++ [newTrade env1 (length tr1) side xo1 ro1 t])
            (tr2 ++ [newTrade env2 (length tr2) side xo2 ro2 t])) as Htr'.
  { apply Forall2_app; [done|]. constructor; [|constructor].
    pose proof Hro as (_&_&_&Hp&_).
    subst i1 i2. unfold sim_trade, newTrade.
    destruct side; simpl; (split_and!; [done|done|]).
    - exists x, r. split_and!; by apply ids_lookup.
    - exists r, x. split_and!; by apply ids_lookup. }
  destruct (alter (addFilled t) r (alter (addFilled t) x h1) !! r)
    as [ro1'|] eqn:Hr1'; [|done].
  destruct (alter (addFilled t) r (alter (addFilled t) x h2) !! r)
    as [ro2'|] eqn:Hr2'; [|done]. simpl in Hm1, Hm2.
  pose proof (sim_store_lookup _ _ _ _ _ Hsim2 Hr1' Hr2') as (_&_&_&_&Hrq&Hrf&_).
  rewrite <-Hrq, <-Hrf in Hm2.
  destruct (FilledQuantity ro1' =? Quantity ro1').
  - eapply (IH _ _ _ _ _ _ _ _ _ _ i1 i2); [| | |done|done|done].
    + by apply sim_store_alter; [apply sim_order_setStatus|].
    + by rewrite !ids_alter.
    + by rewrite !ids_alter.
  - assert (sim_store
              (alter (setStatus PARTIAL_FILL) r
                 (alter (addFilled t) r (alter (addFilled t) x h1)))
              (alter (setStatus PARTIAL_FILL) r
                 (alter (addFilled t) r (alter (addFilled t) x h2)))) as Hsim3
      by by apply sim_store_alter; [apply sim_order_setStatus|].
    destruct (alter (setStatus PARTIAL_FILL) r
                (alter (addFilled t) r (alter (addFilled t) x h1)) !! x)
      as [xo1'|]; [|done].
    destruct (alter (setStatus PARTIAL_FILL) r
                (alter (addFilled t) r (alter (addFilled t) x h2)) !! x)
      as [xo2'|]; [|done]. simpl in Hm1, Hm2.
    destruct (FilledQuantity xo1' <? Quantity xo1'); [done|].
    destruct (FilledQuantity xo2' <? Quantity xo2'); [done|].
    simplify_eq. split_and!; try done; by rewrite !ids_alter.
Qed.

Lemma matchLadder_sim env1 env2 side x ls :
  ∀ h1 h2 tr1 tr2 h1' ls1' tr1' h2' ls2' tr2' i1 i2,
  sim_store h1 h2 → ids h1 = i1 → ids h2 = i2 →
  Forall2 (sim_trade i1 i2) tr1 tr2 →
  matchLadder env1 side x h1 ls tr1 = Some (h1', ls1', tr1') →
  matchLadder env2 side x h2 ls tr2 = Some (h2', ls2', tr2') →
  sim_store h1' h2' ∧ ls1' = ls2' ∧ ids h1' = i1 ∧ ids h2' = i2 ∧
  Forall2 (sim_trade i1 i2) tr1' tr2'.
Proof.
  induction ls as [|[pr q] rest IH];
    intros h1 h2 tr1 tr2 h1' ls1' tr1' h2' ls2' tr2' i1 i2 Hsim Hi1 Hi2 Htr Hm1 Hm2;
    simpl in Hm1, Hm2.
  { by simplify_eq. }
  destruct (h1 !! x) as [xo1|] eqn:Hx1; [|done].
  destruct (h2 !! x) as [xo2|] eqn:Hx2; [|done]. simpl in Hm1, Hm2.
  pose proof (sim_store_lookup _ _ _ _ _ Hsim Hx1 Hx2) as Hxo.
  pose proof Hxo as (_&_&_&_&Hxq&Hxf&_).
  rewrite <-Hxq, <-Hxf, <-(sim_order_stops _ _ _ _ Hxo) in Hm2.
  destruct (FilledQuantity xo1 <? Quantity xo1); [|by simplify_eq].
  destruct (stops side xo1 (mkLevel pr q)); [by simplify_eq|].
  destruct (matchQueue env1 side x h1 q tr1) as [[[h1a q1a] tr1a]|] eqn:Hq1;
    [|done].
  destruct (matchQueue env2 side x h2 q tr2) as [[[h2a q2a] tr2a]|] eqn:Hq2;
    [|done]. simpl in Hm1, Hm2.
  destruct (matchQueue_sim _ _ _ _ _ _ _ _ _ _ _ _ _ _ _ _ _ Hsim Hi1 Hi2 Htr Hq1 Hq2)
    as (Hsima & <- & Hi1a & Hi2a & Htra).
  destruct q1a as [|r1 q1a].
  - by eapply (IH _ _ _ _ _ _ _ _ _ _ i1 i2).
  - destruct (h1a !! x) as [xo1a|]; [|done].
    destruct (h2a !! x) as [xo2a|]; [|done]. simpl in Hm1, Hm2.
    destruct (FilledQuantity xo1a <? Quantity xo1a); [done|].
    destruct (FilledQuantity xo2a <? Quantity xo2a); [done|].
    by simplify_eq.
Qed.

Lemma queueLiquidity_sim h1 h2 q : ∀ acc,
  sim_store h1 h2 → queueLiquidity h1 q acc = queueLiquidity h2 q acc.
Proof.
  induction q as [|p q IH]; intros acc Hsim; simpl; [done|].
  pose proof (proj1 (Forall2_lookup _ _ _) Hsim p) as Hp.
  destruct Hp as [o1 o2 Ho|]; simpl; [|done].
  rewrite (sim_order_remaining _ _ Ho). by apply IH.
Qed.

Lemma availableLiquidity_sim h1 h2 ls : ∀ acc,
  sim_store h1 h2 → availableLiquidity h1 ls acc = availableLiquidity h2 ls acc.
Proof.
  induction ls as [|l ls IH]; intros acc Hsim; simpl; [done|].
  rewrite (queueLiquidity_sim h1 h2) by done.
  destruct (queueLiquidity h2 (LevelOrders l) acc); simpl; [|done].
  by apply IH.
Qed.

Definition sim_book (b1 b2 : OrderBook) : Prop :=
  Bids b1 = Bids b2 ∧ Asks b1 = Asks b2.

Definition sim_engine (me1 me2 : MatchingEngine) : Prop :=
  sim_store (mem me1) (mem me2) ∧
  ∀ s, option_Forall2 sim_book (books me1 !! s) (books me2 !! s).

Definition sim_result (ids1 ids2 : list string)
    (r1 r2 : result OrderResult) : Prop :=
  match r1, r2 with
  | Err e1, Err e2 => e1 = e2
  | Ok a1, Ok a2 =>
      ResStatus a1 = ResStatus a2 ∧
      ResFilledQuantity a1 = ResFilledQuantity a2 ∧
      RemainingQuantity a1 = RemainingQuantity a2 ∧
      Message a1 = Message a2 ∧
      Forall2 (sim_trade ids1 ids2) (Trades a1) (Trades a2)
  | _, _ => False
  end.

Lemma sim_bookOf me1 me2 s :
  sim_engine me1 me2 → sim_book (bookOf me1 s) (bookOf me2 s).
Proof.
  intros [_ Hb]. unfold bookOf. by destruct (Hb s).
Qed.

Lemma sim_engine_insert me1 me2 s b1 b2 h1 h2 :
  sim_engine me1 me2 → sim_store h1 h2 → sim_book b1 b2 →
  sim_engine (mkEngine (<[s := b1]> (books me1)) h1)
             (mkEngine (<[s := b2]> (books me2)) h2).
Proof.
  intros [_ Hb] Hs Hbk. split; [done|]. intros s'. simpl.
  destruct (decide (s = s')) as [<-|Hne].
  - rewrite !lookup_insert_eq. by constructor.
  - rewrite !lookup_insert_ne by done. apply Hb.
Qed.

Lemma sim_opposing side b1 b2 :
  sim_book b1 b2 → opposing side b1 = opposing side b2.
Proof. intros [??]. by destruct side. Qed.

Lemma sim_ownSide side b1 b2 :
  sim_book b1 b2 → ownSide side b1 = ownSide side b2.
Proof. intros [??]. by destruct side. Qed.

Lemma sim_book_sides side b1 b2 :
  ownSide side b1 = ownSide side b2 → opposing side b1 = opposing side b2 →
  sim_book b1 b2.
Proof. intros ??. by destruct side. Qed.

Lemma sim_store_alloc env1 env2 me1 me2 symbol side typ price quantity :
  sim_store (mem me1) (mem me2) →
  sim_store (alloc env1 me1 symbol side typ price quantity)
            (alloc env2 me2 symbol side typ price quantity).
Proof.
  intros Hs. apply Forall2_app; [done|]. by repeat constructor.
Qed.

Lemma ids_alloc env me symbol side typ price quantity :
  ids (alloc env me symbol side typ price quantity)
  = ids (mem me) ++ [uuid_New env 0%nat].
Proof. unfold ids, alloc. by rewrite fmap_app. Qed.

Lemma addTo_price side o1 o2 x ls :
  Price o1 = Price o2 → addTo side o1 x ls = addTo side o2 x ls.
Proof. intros Hp. by rewrite !addTo_unfold, Hp. Qed.

Lemma sim_trade_mono i1 i2 k1 k2 t1 t2 :
  sim_trade i1 i2 t1 t2 → sim_trade (i1 ++ k1) (i2 ++ k2) t1 t2.
Proof.
  intros (? & ? & pb & ps & ? & ? & ? & ?). split_and!; [done|done|].
  exists pb, ps. split_and!; by apply lookup_app_l_Some.
Qed.

Lemma sim_result_mono i1 i2 k1 k2 r1 r2 :
  sim_result i1 i2 r1 r2 → sim_result (i1 ++ k1) (i2 ++ k2) r1 r2.
Proof.
  destruct r1, r2; simpl; try done.
  intros (? & ? & ? & ? & Htr). split_and!; try done.
  eapply Forall2_impl; [done|]. intros. by apply sim_trade_mono.
Qed.

(** The same submission to two like engines of two runs. *)
Lemma submitted_sim env1 env2 me1 me2 symbol side typ price quantity
    me1' r1 me2' r2 :
  sim_engine me1 me2 →
  submitted env1 me1 symbol side typ price quantity me1' r1 →
  submitted env2 me2 symbol side typ price quantity me2' r2 →
  sim_engine me1' me2' ∧
  sim_result (ids (mem me1')) (ids (mem me2')) r1 r2 ∧
  ∃ k1 k2, ids (mem me1') = ids (mem me1) ++ k1 ∧
           ids (mem me2') = ids (mem me2) ++ k2 ∧
           (uuid_New env1 0%nat = uuid_New env2 0%nat → k1 = k2).
Proof.
  intros Hsim Hs1 Hs2.
  pose proof Hsim as [Hstore Hbooks].
  pose proof (sim_bookOf me1 me2 symbol Hsim) as Hbook.
  pose proof (Forall2_length _ _ _ Hstore) as Hlen.
  pose proof (sim_store_alloc env1 env2 me1 me2 symbol side typ price quantity
                Hstore) as Halloc.
  pose proof (availableLiquidity_sim _ _ (opposing side (bookOf me1 symbol)) 0
                Halloc) as Hav.
  assert (∀ i1 i2, Forall2 (sim_trade i1 i2) [] []) as Hnil by constructor.
  inversion Hs1 as [| |avail1 ? ? Hav1 ?
                   |h1' opp1' tr1 xo1' b1'' ? ? ? Hm1 Hx1 Hshort1 Hadd1
                   |h1' opp1' tr1 xo1' ? Hp1 Hmk1 Hm1 Hx1 Hfull1];
    inversion Hs2 as [| |avail2 ? ? Hav2 ?
                     |h2' opp2' tr2 xo2' b2'' ? ? ? Hm2 Hx2 Hshort2 Hadd2
                     |h2' opp2' tr2 xo2' ? Hp2 Hmk2 Hm2 Hx2 Hfull2];
    subst; try lia; try done;
    try (specialize (Hp1 eq_refl); lia); try (specialize (Hp2 eq_refl); lia);
    rewrite <-?(sim_opposing side _ _ Hbook), <-?Hlen in *.
  all: try (destruct (Hmk1 eq_refl) as (a1 & Ha1 & Hge1)).
  all: try (destruct (Hmk2 eq_refl) as (a2 & Ha2 & Hge2)).
  all: try (rewrite Hav in *; simplify_eq; lia).
  all: try (rewrite Hav in *; simplify_eq).
  all: try (destruct (matchLadder_sim _ _ _ _ _ _ _ _ _ _ _ _ _ _ _ _ _
                        Halloc eq_refl eq_refl (Hnil _ _) Hm1 Hm2)
              as (Hstore' & <- & Hi1 & Hi2 & Htr);
            pose proof (sim_store_lookup _ _ _ _ _ Hstore' Hx1 Hx2) as Hxo';
            pose proof Hxo' as (_&_&_&Hprice'&Hq'&Hf'&Hst')).
  - (* both rejected: quantity *)
    split_and!; [done|done|]. exists [], []. by rewrite !app_nil_r.
  - (* both rejected: price *)
    split_and!; [done|done|]. exists [], []. by rewrite !app_nil_r.
  - (* both rejected: liquidity *)
    split_and!.
    + by apply sim_engine_insert.
    + done.
    + simpl. rewrite !ids_alloc. eexists _, _. split_and!; [done|done|].
      by intros ->.
  - (* both rest *)
    destruct (matchLadder_keeps _ _ _ _ _ _ _ _ _ Hm1 _ _
                (alloc_lookup env1 me1 symbol side LIMIT price quantity))
      as (o1 & Ho1 & Hside1 & _).
    rewrite Hx1 in Ho1. injection Ho1 as <-. simpl in Hside1.
    destruct (matchLadder_keeps _ _ _ _ _ _ _ _ _ Hm2 _ _
                (alloc_lookup env2 me2 symbol side LIMIT price quantity))
      as (o2 & Ho2 & Hside2 & _).
    rewrite <-Hlen, Hx2 in Ho2. injection Ho2 as <-. simpl in Hside2.
    destruct (AddOrder_sides side _ _ _ _ _ Hx1 Hside1 Hadd1) as (Hown1 & Hopp1 & _).
    destruct (AddOrder_sides side _ _ _ _ _ Hx2 Hside2 Hadd2) as (Hown2 & Hopp2 & _).
    split_and!.
    + apply sim_engine_insert; [done|done|].
      apply (sim_book_sides side).
      * rewrite Hown1, Hown2, Hlen.
        replace (ownSide side (setOpposing side opp1' (bookOf me1 symbol)))
          with (ownSide side (bookOf me1 symbol)) by by destruct side.
        replace (ownSide side (setOpposing side opp1' (bookOf me2 symbol)))
          with (ownSide side (bookOf me2 symbol)) by by destruct side.
        rewrite (sim_ownSide side _ _ Hbook). by apply addTo_price.
      * rewrite Hopp1, Hopp2. by destruct side.
    + simpl. rewrite Hi1, Hi2, <-Hf'.
      unfold remaining. rewrite <-Hq', <-Hf'.
      by destruct (0 <? FilledQuantity xo1').
    + simpl. rewrite Hi1, Hi2, !ids_alloc. eexists _, _.
      split_and!; [done|done|]. by intros ->.
  - (* one rests, the other does not *)
    destruct Hfull2. split; [lia|done].
  - destruct Hfull1. split; [lia|done].
  - (* both done *)
    split_and!.
    + apply sim_engine_insert; [done|done|].
      destruct Hbook as [??]. by destruct side; split.
    + simpl. rewrite Hi1, Hi2, <-Hf', <-Hq', <-Hst'.
      by destruct (FilledQuantity xo1' =? Quantity xo1').
    + simpl. rewrite Hi1, Hi2, !ids_alloc. eexists _, _.
      split_and!; [done|done|]. by intros ->.
Qed.

(** A sequence of submissions, each with what the environment hands it. *)
Record Submission := mkSubmission {
  subSymbol : string;
  subSide : OrderSide;
  subType : OrderType;
  subPrice : Z;
  subQuantity : Z
}.

Definition submit (env : Env) (me : MatchingEngine) (s : Submission)
    : option (MatchingEngine * result OrderResult) :=
  SubmitOrder env me (subSymbol s) (subSide s) (subType s) (subPrice s)
              (subQuantity s).

Fixpoint run (me : MatchingEngine) (calls : list (Env * Submission))
    : option (MatchingEngine * list (result OrderResult)) :=
  match calls with
  | [] => Some (me, [])
  | (env, s) :: rest =>
      '(me', r) ← submit env me s;
      '(me'', rs) ← run me' rest;
      Some (me'', r :: rs)
  end.

(** A trade without its id and timestamp. *)
Definition tradeView (t : Trade) : Z * Z * string * string :=
  (TradePrice t, TradeQuantity t, BuyerID t, SellerID t).

Definition tradesOf (r : result OrderResult) : list (Z * Z * string * string) :=
  match r with
  | Ok a => tradeView <$> Trades a
  | Err _ => []
  end.

Lemma sim_trade_same_ids i t1 t2 :
  sim_trade i i t1 t2 → tradeView t1 = tradeView t2.
Proof.
  intros (Hp & Hq & pb & ps & Hb1 & Hb2 & Hs1 & Hs2).
  assert (BuyerID t1 = BuyerID t2) as Hb by congruence.
  assert (SellerID t1 = SellerID t2) as Hs by congruence.
  unfold tradeView. by rewrite Hp, Hq, Hb, Hs.
Qed.

Lemma sim_result_same_ids i r1 r2 :
  sim_result i i r1 r2 → tradesOf r1 = tradesOf r2.
Proof.
  destruct r1 as [a1|e1], r2 as [a2|e2]; simpl; try done.
  intros (_ & _ & _ & _ & Htr).
  induction Htr as [|t1 t2 l1 l2 Ht _ IH]; [done|].
  rewrite !fmap_cons, IH. f_equal. by eapply sim_trade_same_ids.
Qed.

Lemma run_sim subs : ∀ envs1 envs2 me1 me2,
  wf_engine me1 → wf_engine me2 → sim_engine me1 me2 →
  length envs1 = length subs → length envs2 = length subs →
  Forall (λ s, int64 (subQuantity s)) subs →
  ∃ me1' outs1 me2' outs2,
    run me1 (zip envs1 subs) = Some (me1', outs1) ∧
    run me2 (zip envs2 subs) = Some (me2', outs2) ∧
    Forall2 (sim_result (ids (mem me1')) (ids (mem me2'))) outs1 outs2 ∧
    ∃ k1 k2, ids (mem me1') = ids (mem me1) ++ k1 ∧
             ids (mem me2') = ids (mem me2) ++ k2 ∧
             (Forall2 (λ e1 e2, uuid_New e1 0%nat = uuid_New e2 0%nat)
                      envs1 envs2 → k1 = k2).
Proof.
  induction subs as [|s subs IH];
    intros envs1 envs2 me1 me2 Hwf1 Hwf2 Hsim Hl1 Hl2 Hq.
  { destruct envs1, envs2; try done. simpl.
    exists me1, [], me2, []. split_and!; [done|done|constructor|].
    exists [], []. by rewrite !app_nil_r. }
  destruct envs1 as [|e1 envs1], envs2 as [|e2 envs2]; try done.
  simpl in Hl1, Hl2. apply Forall_cons in Hq as [Hq Hqs].
  assert (subQuantity s < 2 ^ 63) as Hq63 by (unfold int64 in Hq; lia).
  simpl. unfold submit.
  destruct (SubmitOrder_total e1 me1 (subSymbol s) (subSide s) (subType s)
              (subPrice s) (subQuantity s) Hwf1 Hq63) as (me1a & r1 & Hs1).
  destruct (SubmitOrder_total e2 me2 (subSymbol s) (subSide s) (subType s)
              (subPrice s) (subQuantity s) Hwf2 Hq63) as (me2a & r2 & Hs2).
  rewrite Hs1, Hs2. simpl.
  apply SubmitOrder_submitted in Hs1, Hs2.
  destruct (submitted_sim _ _ _ _ _ _ _ _ _ _ _ _ _ Hsim Hs1 Hs2)
    as (Hsima & Hr & k1 & k2 & Hk1 & Hk2 & Hsame).
  destruct (IH envs1 envs2 me1a me2a) as
    (me1' & outs1 & me2' & outs2 & -> & -> & Houts & j1 & j2 & Hj1 & Hj2 & Hsame');
    try done; try lia.
  { eapply submitted_wf; [exact Hwf1|exact Hq63|exact Hs1]. }
  { eapply submitted_wf; [exact Hwf2|exact Hq63|exact Hs2]. }
  simpl. exists me1', (r1 :: outs1), me2', (r2 :: outs2).
  split_and!; [done|done| |].
  - constructor; [|done]. rewrite Hj1, Hj2. by apply sim_result_mono.
  - exists (k1 ++ j1), (k2 ++ j2). rewrite Hj1, Hj2, Hk1, Hk2, !app_assoc.
    split_and!; [done|done|]. intros Henvs.
    apply Forall2_cons in Henvs as [He Henvs].
    by rewrite Hsame, Hsame'.
Qed.

(** C9.  Apply one sequence of submissions (int64 quantities) to the empty
    engine twice, under any two environments.  Both runs answer every
    submission, with the same errors, statuses and filled and remaining
    quantities, and their trades agree one by one, in emission order, on price
    and quantity, the buyers (and the sellers) of corresponding trades being
    the orders created at the same place in the two runs.  If moreover the two
    environments hand out the same order ids, the trades are identical up to
    trade id and timestamp. *)
Theorem submissions_are_deterministic subs envs1 envs2 :
  length envs1 = length subs → length envs2 = length subs →
  Forall (λ s, int64 (subQuantity s)) subs →
  ∃ me1 outs1 me2 outs2,
    run NewMatchingEngine (zip envs1 subs) = Some (me1, outs1) ∧
    run NewMatchingEngine (zip envs2 subs) = Some (me2, outs2) ∧
    Forall2 (sim_result (ids (mem me1)) (ids (mem me2))) outs1 outs2 ∧
    (Forall2 (λ e1 e2, uuid_New e1 0%nat = uuid_New e2 0%nat) envs1 envs2 →
     tradesOf <$> outs1 = tradesOf <$> outs2).
Proof.
  intros Hl1 Hl2 Hq.
  destruct (run_sim subs envs1 envs2 NewMatchingEngine NewMatchingEngine)
    as (me1 & outs1 & me2 & outs2 & Hr1 & Hr2 & Houts & k1 & k2 & Hk1 & Hk2 & Hsame);
    try done.
  { split; [constructor|]. intros s. simpl. rewrite lookup_empty. constructor. }
  exists me1, outs1, me2, outs2. split_and!; try done.
  intros Henvs. specialize (Hsame Henvs). simpl in Hk1, Hk2.
  rewrite Hk1, Hk2, Hsame in Houts. clear Hr1 Hr2.
  induction Houts as [|r1 r2 l1 l2 Hr _ IH]; [done|].
  rewrite !fmap_cons, IH. f_equal. by eapply sim_result_same_ids.
Qed.

Lemma submissions_are_deterministic_witness :
  ∃ me1 outs1 me2 outs2,
    run NewMatchingEngine
      (zip [envNamed "s"; envNamed "b"]
           [mkSubmission "AAPL" SELL LIMIT 15050 50;
            mkSubmission "AAPL" BUY LIMIT 15050 100]) = Some (me1, outs1) ∧
    run NewMatchingEngine
      (zip [envNamed "x"; envNamed "y"]
           [mkSubmission "AAPL" SELL LIMIT 15050 50;
            mkSubmission "AAPL" BUY LIMIT 15050 100]) = Some (me2, outs2) ∧
    Forall2 (sim_result (ids (mem me1)) (ids (mem me2))) outs1 outs2 ∧
    (Forall2 (λ e1 e2, uuid_New e1 0%nat = uuid_New e2 0%nat)
       [envNamed "s"; envNamed "b"] [envNamed "x"; envNamed "y"] →
     tradesOf <$> outs1 = tradesOf <$> outs2).
Proof.
  apply (submissions_are_deterministic
           [mkSubmission "AAPL" SELL LIMIT 15050 50;
            mkSubmission "AAPL" BUY LIMIT 15050 100]
           [envNamed "s"; envNamed "b"] [envNamed "x"; envNamed "y"]).
  - reflexivity.
  - reflexivity.
  - repeat constructor; simpl; lia.
Defined.

(** * What the engine keeps true

    ** What one run of the match loop leaves in the store *)

(** An order other than the incoming one is, after the loop, as it was, or
    filled up and off the ladder, or the head of the ladder with a part of
    it taken. *)
Lemma minv_store side s x h0 ls0 tr0 xo0 h ls tr p o0 :
  NoDup (flat ls0) →
  minv side s x h0 ls0 tr0 xo0 (h, ls, tr) →
  p ≠ x → h0 !! p = Some o0 →
  (h !! p = Some o0 ∧ (p ∈ flat ls0 → p ∈ flat ls)) ∨
  (p ∈ flat ls0 ∧ (p ∉ flat ls) ∧
   h !! p = Some (withFill (Quantity o0) FILLED o0)) ∨
  (p ∈ flat ls ∧ p ∈ flat ls0 ∧
   ∃ n, 0 < n < Quantity o0 - FilledQuantity o0 ∧
        h !! p = Some (withFill (FilledQuantity o0 + n) PARTIAL_FILL o0)).
Proof.
  intros Hnd Hinv Hpx Ho0. unfold minv in Hinv.
  destruct Hinv as (v & done & full & part & _ & _ & _ & _ & Hflat & _ & _ & _
                    & _ & Hdone & Hframe & Hphase).
  destruct (decide (p ∈ flat ls0)) as [Hin|Hout]; cycle 1.
  { left. split; [|done]. rewrite <-Ho0. by apply Hframe. }
  rewrite Hflat in Hnd. pose proof Hin as Hin0.
  rewrite Hflat in Hin. apply elem_of_app in Hin as [Hin|Hin].
  - right. left. split_and!; [done| |by apply Hdone].
    apply NoDup_app in Hnd as (_ & Hnd & _). by apply Hnd.
  - destruct Hphase as [[_ Hsame]|Hnib].
    { left. split; [|done]. rewrite <-Ho0. by apply Hsame. }
    destruct Hnib as (t & pr & r & q & rest & o1 & n & _ & -> & _ & Ho1 & Hn & Hr
                      & _ & Hsame).
    rewrite flat_cons in Hin. simpl in Hin.
    apply elem_of_cons in Hin as [->|Hin].
    + right. right. rewrite Ho0 in Ho1. injection Ho1 as <-.
      split_and!; [rewrite flat_cons; simpl; set_solver|done|]. by exists n.
    + left. split; [|rewrite flat_cons; simpl; set_solver].
      rewrite <-Ho0. by apply Hsame.
Qed.

(** ** How a stored order changes

    Between two states an order stays as it is, gains fills (FILLED exactly
    when they reach its size, PARTIAL_FILL otherwise), or is cancelled. *)
Inductive advances (o : Order) : Order → Prop :=
  | adv_same : advances o o
  | adv_fill v st :
      0 ≤ FilledQuantity o → FilledQuantity o < v → v ≤ Quantity o →
      Quantity o < 2 ^ 63 →
      st = (if decide (v = Quantity o) then FILLED else PARTIAL_FILL) →
      advances o (withFill v st o)
  | adv_cancel :
      FilledQuantity o < Quantity o → Status o ≠ FILLED →
      advances o (setStatus CANCELLED o).

Definition store_advances (h h' : list Order) : Prop :=
  ∀ p o, h !! p = Some o → ∃ o', h' !! p = Some o' ∧ advances o o'.

(** What every stored order satisfies. *)
Definition order_ok (o : Order) : Prop :=
  0 < Quantity o < 2 ^ 63 ∧
  0 ≤ FilledQuantity o ≤ Quantity o ∧
  (Status o = FILLED → FilledQuantity o = Quantity o) ∧
  (Status o = PARTIAL_FILL → 0 < FilledQuantity o < Quantity o) ∧
  (Status o = CANCELLED → FilledQuantity o < Quantity o) ∧
  (Typ o = LIMIT → 0 < Price o).

(** An order that can still trade or has traded away: not yet filled up, or
    marked FILLED. *)
Definition settled (o : Order) : Prop :=
  FilledQuantity o < Quantity o ∨ Status o = FILLED.

Lemma advances_order_ok o o' : advances o o' → order_ok o → order_ok o'.
Proof.
  intros Hadv (Hq & Hf & Hfilled & Hpart & Hcanc & Hprice).
  destruct Hadv as [|v st H0 Hv Hvq Hq63 ->|Hlt Hst]; [done| |].
  - unfold order_ok. simpl. case_decide; split_and!; try done; try lia.
  - unfold order_ok. simpl. split_and!; try done; lia.
Qed.

Lemma advances_settled o o' : advances o o' → settled o → settled o'.
Proof.
  intros Hadv Hs. destruct Hadv as [|v st H0 Hv Hvq Hq63 ->|Hlt Hst]; [done| |].
  - unfold settled. simpl. case_decide; [by right|left; lia].
  - by left.
Qed.

Lemma advances_terms o o' :
  advances o o' →
  ID o' = ID o ∧ Symbol o' = Symbol o ∧ Side o' = Side o ∧ Typ o' = Typ o ∧
  Price o' = Price o ∧ Quantity o' = Quantity o ∧ Timestamp o' = Timestamp o ∧
  FilledQuantity o ≤ FilledQuantity o'.
Proof.
  intros [|v st H0 Hv Hvq Hq63 ->|Hlt Hst]; simpl; split_and!; try done; lia.
Qed.

Lemma store_advances_refl h : store_advances h h.
Proof. intros p o Ho. exists o. split; [done|constructor]. Qed.

(** The store after the match loop of a submission, order by order. *)
Lemma submit_store env me symbol side typ price quantity h' opp' trades :
  wf_engine me → 0 < quantity < 2 ^ 63 →
  matchLadder env side (length (mem me))
    (alloc env me symbol side typ price quantity)
    (opposing side (bookOf me symbol)) [] = Some (h', opp', trades) →
  length h' = S (length (mem me)) ∧
  flat opp' `suffix_of` flat (opposing side (bookOf me symbol)) ∧
  ∀ p o0, mem me !! p = Some o0 →
    (h' !! p = Some o0 ∧
     (p ∈ flat (opposing side (bookOf me symbol)) → p ∈ flat opp')) ∨
    (p ∈ flat (opposing side (bookOf me symbol)) ∧ (p ∉ flat opp') ∧ live o0 ∧
     h' !! p = Some (withFill (Quantity o0) FILLED o0)) ∨
    (p ∈ flat opp' ∧ p ∈ flat (opposing side (bookOf me symbol)) ∧ live o0 ∧
     ∃ n, 0 < n < Quantity o0 - FilledQuantity o0 ∧
          h' !! p = Some (withFill (FilledQuantity o0 + n) PARTIAL_FILL o0)).
Proof.
  intros Hwf Hq Hm.
  pose proof (submit_minv _ _ _ _ _ _ _ _ Hwf Hq Hm) as Hinv.
  pose proof (submit_sides env me symbol side side typ price quantity Hwf)
    as [_ _ _ Hnd _ Hopp].
  apply NoDup_app in Hnd as (_ & _ & Hnd).
  destruct (minv_shape _ _ _ _ _ _ _ _ _ _ Hinv) as (_ & Hsuf & Hlen).
  split_and!; [|done|].
  { rewrite Hlen. unfold alloc. rewrite length_app. simpl. lia. }
  intros p o0 Ho0.
  assert (p < length (mem me))%nat as Hlt by by eapply lookup_lt_Some.
  assert (alloc env me symbol side typ price quantity !! p = Some o0) as Ha
    by by rewrite alloc_old.
  destruct (minv_store _ _ _ _ _ _ _ _ _ _ p o0 Hnd Hinv) as [H|[H|H]];
    [lia|done|by left| |].
  - destruct H as (Hin & Hout & Hp). right. left. split_and!; try done.
    by destruct (wf_ladder_symbol _ _ _ _ _ Hopp Hin Ha).
  - destruct H as (Hin & Hin0 & Hn). right. right. split_and!; try done.
    by destruct (wf_ladder_symbol _ _ _ _ _ Hopp Hin0 Ha).
Qed.

Lemma submit_advances env me symbol side typ price quantity h' opp' trades :
  wf_engine me → 0 < quantity < 2 ^ 63 →
  matchLadder env side (length (mem me))
    (alloc env me symbol side typ price quantity)
    (opposing side (bookOf me symbol)) [] = Some (h', opp', trades) →
  store_advances (mem me) h'.
Proof.
  intros Hwf Hq Hm p o0 Ho0.
  destruct (submit_store _ _ _ _ _ _ _ _ _ _ Hwf Hq Hm) as (_ & _ & Hst).
  destruct (Hst p o0 Ho0) as [[Hp _]|[(_ & _ & Hl & Hp)|(_ & _ & Hl & n & Hn & Hp)]].
  - exists o0. split; [done|constructor].
  - eexists. split; [done|]. destruct Hl as (? & ? & ?).
    apply adv_fill; try done; try lia. by rewrite decide_True.
  - eexists. split; [done|]. destruct Hl as (? & ? & ?).
    apply adv_fill; try done; try lia. rewrite decide_False; [done|lia].
Qed.

(** ** Consistent engines

    What holds of every book however the orders' ids fall: levels are never
    empty, bids queue BUY LIMIT orders and asks SELL LIMIT orders, and an id
    of the book's map leads to a LIMIT order of the book's symbol with that
    id, one that rested. *)
Definition queued (h : list Order) (side : OrderSide) (p : ptr) : Prop :=
  ∃ o, h !! p = Some o ∧ Side o = side ∧ Typ o = LIMIT.

Definition registered (h : list Order) (s id : string) (p : ptr) : Prop :=
  ∃ o, h !! p = Some o ∧ ID o = id ∧ Symbol o = s ∧ Typ o = LIMIT ∧ settled o.

Record book_sound (h : list Order) (s : string) (b : OrderBook) : Prop :=
  mkBookSound {
  bs_symbol : BookSymbol b = s;
  bs_levels : ∀ side l, l ∈ ownSide side b → LevelOrders l ≠ [];
  bs_queued : ∀ side p, p ∈ flat (ownSide side b) → queued h side p;
  bs_registered : ∀ id p, BookOrders b !! id = Some p → registered h s id p
}.

Definition consistent (me : MatchingEngine) : Prop :=
  (∀ p o, mem me !! p = Some o → order_ok o) ∧
  ∀ s b, books me !! s = Some b → book_sound (mem me) s b.

Lemma book_sound_new h s : book_sound h s (NewOrderBook s).
Proof.
  split; [done| | |].
  - intros side l Hl. destruct side; by apply elem_of_nil in Hl.
  - intros side p Hp. destruct side; by apply elem_of_nil in Hp.
  - intros id p Hp. simpl in Hp. by rewrite lookup_empty in Hp.
Qed.

Lemma queued_advances h h' side p :
  store_advances h h' → queued h side p → queued h' side p.
Proof.
  intros Hadv (o & Ho & Hs & Ht). destruct (Hadv p o Ho) as (o' & Ho' & Ha).
  destruct (advances_terms _ _ Ha) as (_ & _ & Hs' & Ht' & _).
  exists o'. split_and!; congruence.
Qed.

Lemma registered_advances h h' s id p :
  store_advances h h' → registered h s id p → registered h' s id p.
Proof.
  intros Hadv (o & Ho & Hi & Hs & Ht & Hset).
  destruct (Hadv p o Ho) as (o' & Ho' & Ha).
  destruct (advances_terms _ _ Ha) as (Hi' & Hs' & _ & Ht' & _).
  exists o'. split_and!; try congruence. by eapply advances_settled.
Qed.

Lemma book_sound_advances h h' s b :
  store_advances h h' → book_sound h s b → book_sound h' s b.
Proof.
  intros Hadv [H1 H2 H3 H4]. split; [done|done| |].
  - intros side p Hp. eapply queued_advances; [done|]. by apply H3.
  - intros id p Hp. eapply registered_advances; [done|]. by apply H4.
Qed.

Lemma consistent_bookOf me symbol :
  consistent me → book_sound (mem me) symbol (bookOf me symbol).
Proof.
  intros [_ Hb]. unfold bookOf.
  destruct (books me !! symbol) as [b|] eqn:Hbk; simpl; [by apply Hb|].
  apply book_sound_new.
Qed.

Definition no_empty_level (ls : list PriceLevel) : Prop :=
  Forall (λ l, LevelOrders l ≠ []) ls.

Lemma matchLadder_nonempty env side x levels : ∀ h trades h' levels' trades',
  no_empty_level levels →
  matchLadder env side x h levels trades = Some (h', levels', trades') →
  no_empty_level levels'.
Proof.
  induction levels as [|[pr q] rest IH]; intros h trades h' levels' trades' Hne Hm;
    simpl in Hm.
  { by simplify_eq. }
  destruct (h !! x) as [xo|]; [|done]. simpl in Hm.
  destruct (FilledQuantity xo <? Quantity xo); [|by simplify_eq].
  destruct (stops side xo (mkLevel pr q)); [by simplify_eq|].
  destruct (matchQueue env side x h q trades) as [[[h1 q1] trades1]|]; [|done].
  simpl in Hm. apply Forall_cons in Hne as [_ Hne].
  destruct q1 as [|r1 q1]; [by eapply IH|].
  destruct (h1 !! x) as [xo1|]; [|done]. simpl in Hm.
  destruct (FilledQuantity xo1 <? Quantity xo1); [done|].
  simplify_eq. by constructor.
Qed.

Lemma no_empty_level_perm ls ls' :
  ls ≡ₚ ls' → no_empty_level ls → no_empty_level ls'.
Proof. intros Hp. unfold no_empty_level. by rewrite Hp. Qed.

Lemma addTo_nonempty side o x ls :
  sorted_for side ls → no_empty_level ls → no_empty_level (addTo side o x ls).
Proof.
  intros Hs Hne. destruct (addTo_spec side o x ls Hs) as (_ & q & rest & Hp & Hold).
  eapply no_empty_level_perm; [symmetry; exact Hp|].
  constructor; [simpl; by destruct q|].
  destruct Hold as [Hold|[_ <-]]; [|done].
  eapply no_empty_level_perm in Hne; [|exact Hold].
  by apply Forall_cons in Hne as [_ ?].
Qed.

Lemma elem_of_flat_addTo side o x ls p :
  sorted_for side ls →
  p ∈ flat (addTo side o x ls) ↔ p = x ∨ p ∈ flat ls.
Proof.
  intros Hs. destruct (addTo_spec side o x ls Hs) as (_ & q & rest & Hp & Hold).
  rewrite (flat_perm _ _ Hp), flat_cons. simpl.
  destruct Hold as [Hold|[-> <-]].
  - rewrite (flat_perm _ _ Hold), flat_cons. simpl. set_solver.
  - set_solver.
Qed.

Lemma removeFromLevels_nonempty h o ls ls' :
  no_empty_level ls → removeFromLevels h o ls = Some ls' → no_empty_level ls'.
Proof.
  revert ls'. induction ls as [|[pr q] ls IH]; intros ls' Hne H; simpl in H.
  { by simplify_eq. }
  apply Forall_cons in Hne as [Hq Hne].
  destruct (pr =? Price o).
  - destruct (removeById h (ID o) q) as [q'|]; [|done]. simpl in H.
    injection H as <-. destruct q' as [|r q']; [done|].
    by constructor.
  - destruct (removeFromLevels h o ls) as [ls1|]; [|done]. simpl in H.
    injection H as <-. constructor; [done|]. by apply IH.
Qed.

Lemma ownSide_cases side side0 b :
  (side0 = side ∧ ownSide side0 b = ownSide side b) ∨
  (side0 = flipSide side ∧ ownSide side0 b = opposing side b).
Proof. destruct side, side0; simpl; auto. Qed.

Lemma NewOrder_ok env symbol side typ price quantity v :
  0 < quantity < 2 ^ 63 → 0 ≤ v ≤ quantity → (typ = LIMIT → 0 < price) →
  order_ok (withFill v ACCEPTED (NewOrder env symbol side typ price quantity)).
Proof.
  intros Hq Hv Hp. unfold order_ok. simpl. split_and!; try done; lia.
Qed.

Lemma consistent_insert me s b h' :
  (∀ p o, h' !! p = Some o → order_ok o) →
  (∀ s' b', books me !! s' = Some b' → book_sound h' s' b') →
  book_sound h' s b →
  consistent (mkEngine (<[s := b]> (books me)) h').
Proof.
  intros Hord Hold Hb. split; [done|]. simpl. intros s' b' Hb'.
  destruct (decide (s = s')) as [<-|Hne].
  - rewrite lookup_insert_eq in Hb'. by injection Hb' as <-.
  - rewrite lookup_insert_ne in Hb' by done. by apply Hold.
Qed.

Lemma alloc_advances env me symbol side typ price quantity :
  store_advances (mem me) (alloc env me symbol side typ price quantity).
Proof.
  intros p o Ho. exists o. split; [|constructor].
  rewrite alloc_old; [done|]. by eapply lookup_lt_Some.
Qed.

Lemma submit_orders_ok env me symbol side typ price quantity h' opp' trades :
  wf_engine me → consistent me → 0 < quantity < 2 ^ 63 →
  (typ = LIMIT → 0 < price) →
  matchLadder env side (length (mem me))
    (alloc env me symbol side typ price quantity)
    (opposing side (bookOf me symbol)) [] = Some (h', opp', trades) →
  ∀ p o, h' !! p = Some o → order_ok o.
Proof.
  intros Hwf [Hord _] Hq Hprice Hm p o Ho.
  destruct (submit_store _ _ _ _ _ _ _ _ _ _ Hwf Hq Hm) as (Hlen & _ & _).
  pose proof (submit_advances _ _ _ _ _ _ _ _ _ _ Hwf Hq Hm) as Hadv.
  destruct (submit_aggressor _ _ _ _ _ _ _ _ _ _ Hwf Hq Hm) as (v & Hx & Hv & _).
  assert (p < length h')%nat as Hlt by by eapply lookup_lt_Some.
  destruct (decide (p = length (mem me))) as [->|Hne].
  - rewrite Hx in Ho. injection Ho as <-. by apply NewOrder_ok.
  - destruct (lookup_lt_is_Some_2 (mem me) p) as [o0 Ho0]; [lia|].
    destruct (Hadv p o0 Ho0) as (o' & Ho' & Ha).
    rewrite Ho in Ho'. injection Ho' as <-.
    eapply advances_order_ok; [done|]. by eapply Hord.
Qed.

Lemma wf_bookOf_sorted me symbol side :
  wf_engine me → sorted_for side (ownSide side (bookOf me symbol)).
Proof.
  intros Hwf. pose proof (wf_bookOf me symbol Hwf) as Hb.
  apply (wf_book_sides side) in Hb. by destruct Hb.
Qed.

Theorem submitted_consistent env me symbol side typ price quantity me' r :
  wf_engine me → consistent me → quantity < 2 ^ 63 →
  submitted env me symbol side typ price quantity me' r →
  consistent me'.
Proof.
  intros Hwf Hcons Hq63 Hsub.
  pose proof (consistent_bookOf me symbol Hcons) as Hb0.
  destruct Hsub as [?|?|avail Hq Ht Hav Hlow
                   |h' opp' trades xo' book'' Hq Ht Hp Hm Hxo' Hshort Hadd
                   |h' opp' trades xo' Hq Hp Hmk Hm Hxo' Hfull]; try done.
  - (* rejected for liquidity *)
    pose proof (alloc_advances env me symbol side typ price quantity) as Hadv.
    apply consistent_insert.
    + intros p o Ho. unfold alloc in Ho.
      apply lookup_app_Some in Ho as [Ho|[_ Ho]].
      * destruct Hcons as [Hord _]. by eapply Hord.
      * apply list_lookup_singleton_Some in Ho as [_ <-].
        apply (NewOrder_ok env symbol side typ price quantity 0); [lia|lia|].
        by rewrite Ht.
    + intros s' b' Hb'. eapply book_sound_advances; [done|].
      destruct Hcons as [_ Hbk]. by apply Hbk.
    + by eapply book_sound_advances.
  - (* a limit order that rests *)
    pose proof (submit_advances _ _ _ _ _ _ _ _ _ _ Hwf (conj Hq Hq63) Hm) as Hadv.
    destruct (submit_store _ _ _ _ _ _ _ _ _ _ Hwf (conj Hq Hq63) Hm)
      as (Hlen & Hsuf & _).
    destruct (submit_aggressor _ _ _ _ _ _ _ _ _ _ Hwf (conj Hq Hq63) Hm)
      as (v & Hx & Hv & Hsum).
    rewrite Hx in Hxo'. injection Hxo' as <-. simpl in Hshort.
    apply consistent_insert.
    + eapply submit_orders_ok; try done; lia.
    + intros s' b' Hb'. eapply book_sound_advances; [done|].
      destruct Hcons as [_ Hbk]. by apply Hbk.
    + apply (book_sound_advances _ h') in Hb0; [|done].
      destruct Hb0 as [H1 H2 H3 H4].
      destruct (AddOrder_sides side _ _ _ _ _ Hx eq_refl Hadd)
        as (Hown & Hopp & Hmap & Hsym).
      replace (ownSide side (setOpposing side opp' (bookOf me symbol)))
        with (ownSide side (bookOf me symbol)) in Hown by by destruct side.
      replace (opposing side (setOpposing side opp' (bookOf me symbol)))
        with opp' in Hopp by by destruct side.
      replace (BookOrders (setOpposing side opp' (bookOf me symbol)))
        with (BookOrders (bookOf me symbol)) in Hmap by by destruct side.
      replace (BookSymbol (setOpposing side opp' (bookOf me symbol)))
        with (BookSymbol (bookOf me symbol)) in Hsym by by destruct side.
      pose proof (wf_bookOf_sorted me symbol side Hwf) as Hsorted.
      split.
      * congruence.
      * intros side0 l Hl.
        assert (no_empty_level (ownSide side0 book'')) as Hne; cycle 1.
        { unfold no_empty_level in Hne. rewrite Forall_forall in Hne.
          by apply Hne. }
        destruct (ownSide_cases side side0 book'') as [[-> _]|[-> ->]].
        -- rewrite Hown. apply addTo_nonempty; [done|].
           apply Forall_forall. intros l' Hl'. by eapply H2.
        -- rewrite Hopp. eapply matchLadder_nonempty; [|exact Hm].
           apply Forall_forall. intros l' Hl'.
           apply (H2 (flipSide side)). by destruct side.
      * intros side0 p Hp0.
        destruct (ownSide_cases side side0 book'') as [[-> _]|[-> Heq]];
          [|rewrite Heq in Hp0].
        -- rewrite Hown in Hp0. apply elem_of_flat_addTo in Hp0 as [->|Hp0];
             [|by apply H3|done].
           eexists. split; [exact Hx|]. done.
        -- rewrite Hopp in Hp0. apply (H3 (flipSide side)).
           replace (ownSide (flipSide side) (bookOf me symbol))
             with (opposing side (bookOf me symbol)) by by destruct side.
           destruct Hsuf as [k ->]. set_solver.
      * intros id p Hid. rewrite Hmap in Hid. simpl in Hid.
        destruct (decide (uuid_New env 0%nat = id)) as [<-|Hne].
        -- rewrite lookup_insert_eq in Hid. injection Hid as <-.
           eexists. split; [exact Hx|]. simpl. split_and!; try done. by left.
        -- rewrite lookup_insert_ne in Hid by done. by apply H4.
  - (* the order is filled, or a market order is through *)
    pose proof (submit_advances _ _ _ _ _ _ _ _ _ _ Hwf (conj Hq Hq63) Hm) as Hadv.
    destruct (submit_store _ _ _ _ _ _ _ _ _ _ Hwf (conj Hq Hq63) Hm)
      as (Hlen & Hsuf & _).
    apply consistent_insert.
    + eapply submit_orders_ok; try done; lia.
    + intros s' b' Hb'. eapply book_sound_advances; [done|].
      destruct Hcons as [_ Hbk]. by apply Hbk.
    + apply (book_sound_advances _ h') in Hb0; [|done].
      destruct Hb0 as [H1 H2 H3 H4].
      split.
      * by destruct side.
      * intros side0 l Hl.
        destruct (ownSide_cases side side0 (setOpposing side opp' (bookOf me symbol)))
          as [[-> _]|[-> Heq]]; [|rewrite Heq in Hl].
        -- apply (H2 side). by destruct side.
        -- assert (no_empty_level opp') as Hne.
           { eapply matchLadder_nonempty; [|exact Hm].
             apply Forall_forall. intros l' Hl'.
             apply (H2 (flipSide side)). by destruct side. }
           unfold no_empty_level in Hne. rewrite Forall_forall in Hne.
           apply Hne. by destruct side.
      * intros side0 p Hp0.
        destruct (ownSide_cases side side0 (setOpposing side opp' (bookOf me symbol)))
          as [[-> _]|[-> Heq]]; [|rewrite Heq in Hp0].
        -- apply H3. by destruct side.
        -- apply (H3 (flipSide side)).
           replace (ownSide (flipSide side) (bookOf me symbol))
             with (opposing side (bookOf me symbol)) by by destruct side.
           destruct Hsuf as [k ->].
           replace (opposing side (setOpposing side opp' (bookOf me symbol)))
             with opp' in Hp0 by by destruct side.
           set_solver.
      * intros id p Hid. apply H4. by destruct side.
Qed.

Lemma RemoveOrder_sound h s orderID book book' r :
  book_sound h s book → RemoveOrder h orderID book = Some (book', r) →
  book_sound h s book'.
Proof.
  intros [H1 H2 H3 H4] H. unfold RemoveOrder in H.
  destruct (BookOrders book !! orderID) as [p|]; [|by simplify_eq].
  destruct (h !! p) as [o|]; [|done]. simpl in H.
  destruct (Side o).
  - unfold removeFromBids in H.
    destruct (removeFromLevels h o (Bids book)) as [bids|] eqn:Hrm; [|done].
    simpl in H. injection H as <- <-.
    destruct (removeFromLevels_shrinks _ _ _ _ Hrm) as (_ & Hf & _).
    split; [done| | |done].
    + intros [] l Hl; simpl in Hl; [|by apply (H2 SELL)].
      assert (no_empty_level bids) as Hne.
      { eapply removeFromLevels_nonempty; [|done].
        apply Forall_forall. intros l' Hl'. by apply (H2 BUY). }
      unfold no_empty_level in Hne. rewrite Forall_forall in Hne. by apply Hne.
    + intros [] p' Hp'; simpl in Hp'; [|by apply (H3 SELL)].
      apply (H3 BUY). by eapply elem_of_sublist.
  - unfold removeFromAsks in H.
    destruct (removeFromLevels h o (Asks book)) as [asks|] eqn:Hrm; [|done].
    simpl in H. injection H as <- <-.
    destruct (removeFromLevels_shrinks _ _ _ _ Hrm) as (_ & Hf & _).
    split; [done| | |done].
    + intros [] l Hl; simpl in Hl; [by apply (H2 BUY)|].
      assert (no_empty_level asks) as Hne.
      { eapply removeFromLevels_nonempty; [|done].
        apply Forall_forall. intros l' Hl'. by apply (H2 SELL). }
      unfold no_empty_level in Hne. rewrite Forall_forall in Hne. by apply Hne.
    + intros [] p' Hp'; simpl in Hp'; [by apply (H3 BUY)|].
      apply (H3 SELL). by eapply elem_of_sublist.
Qed.

(** What [CancelOrder] does once it has found the order. *)
Lemma CancelOrder_found ks me orderID k book p order me' r :
  findOrder (books me) orderID ks = Some (k, book, p) →
  mem me !! p = Some order → Status order ≠ FILLED →
  CancelOrder ks me orderID = Some (me', r) →
  ∃ book',
    RemoveOrder (alter (setStatus CANCELLED) p (mem me)) orderID book
      = Some (book', r) ∧
    me' = mkEngine (<[k := book']> (books me))
                   (alter (setStatus CANCELLED) p (mem me)).
Proof.
  intros Hfind Ho Hst H. unfold CancelOrder in H. rewrite Hfind, Ho in H.
  simpl in H. rewrite bool_decide_eq_false_2 in H by done.
  destruct (RemoveOrder _ orderID book) as [[book' r']|]; [|done].
  simpl in H. injection H as <- <-. by exists book'.
Qed.

Lemma cancel_advances h p o :
  h !! p = Some o → settled o → Status o ≠ FILLED →
  store_advances h (alter (setStatus CANCELLED) p h).
Proof.
  intros Ho Hset Hst p' o' Ho'. destruct (decide (p = p')) as [<-|Hne].
  - rewrite list_lookup_alter_eq, Ho. simpl. eexists. split; [done|].
    rewrite Ho in Ho'. injection Ho' as <-.
    apply adv_cancel; [|done]. by destruct Hset.
  - rewrite list_lookup_alter_ne by done. exists o'. split; [done|constructor].
Qed.

Theorem CancelOrder_consistent ks me orderID me' r :
  consistent me → CancelOrder ks me orderID = Some (me', r) → consistent me'.
Proof.
  intros Hcons H.
  destruct (findOrder (books me) orderID ks) as [[[k book] p]|] eqn:Hfind;
    cycle 1.
  { unfold CancelOrder in H. rewrite Hfind in H. by simplify_eq. }
  pose proof Hfind as Hfind'.
  apply findOrder_Some in Hfind' as (Hk & Hp & _).
  destruct Hcons as [Hord Hbk].
  destruct (bs_registered _ _ _ (Hbk k book Hk) _ _ Hp)
    as (o & Ho & _ & _ & _ & Hset).
  destruct (decide (Status o = FILLED)) as [Hst|Hst].
  { rewrite (CancelOrder_filled _ _ _ _ _ _ _ Hfind Ho Hst) in H.
    by simplify_eq. }
  destruct (CancelOrder_found _ _ _ _ _ _ _ _ _ Hfind Ho Hst H)
    as (book' & Hrm & ->).
  pose proof (cancel_advances _ _ _ Ho Hset Hst) as Hadv.
  apply consistent_insert.
  - intros p' o' Ho'.
    assert (p' < length (mem me))%nat as Hlt.
    { apply lookup_lt_Some in Ho'. by rewrite length_alter in Ho'. }
    destruct (lookup_lt_is_Some_2 (mem me) p' Hlt) as [o0 Ho0].
    destruct (Hadv p' o0 Ho0) as (o1 & Ho1 & Ha).
    rewrite Ho' in Ho1. injection Ho1 as <-.
    eapply advances_order_ok; [done|]. by eapply Hord.
  - intros s' b' Hb'. eapply book_sound_advances; [done|]. by apply Hbk.
  - eapply RemoveOrder_sound; [|done].
    eapply book_sound_advances; [done|]. by apply Hbk.
Qed.

Theorem GetOrderBook_consistent now me symbol depth me' snap :
  consistent me → GetOrderBook now me symbol depth = Some (me', snap) →
  consistent me'.
Proof.
  intros Hcons H. unfold GetOrderBook, GetOrCreateBook in H.
  destruct (books me !! symbol) as [b|] eqn:Hb.
  - destruct (snapshotLevels (mem me) (take _ (Bids b))); [|done]. simpl in H.
    destruct (snapshotLevels (mem me) (take _ (Asks b))); [|done]. simpl in H.
    injection H as <- <-. by destruct me.
  - simpl in H. rewrite take_nil in H. simpl in H.
    injection H as <- <-. destruct Hcons as [Hord Hbk].
    apply consistent_insert; [done|done|apply book_sound_new].
Qed.

Theorem reachable_consistent me : reachable me → consistent me.
Proof.
  induction 1 as [|me env symbol side typ price quantity me' r Hr IH _ Hq Hs
                 |me ks orderID me' r _ IH _ Hc
                 |me now symbol depth me' snap _ IH Hg].
  - split; [intros p o Hp; simpl in Hp; by rewrite lookup_nil in Hp|].
    intros s b Hb. simpl in Hb. by rewrite lookup_empty in Hb.
  - eapply submitted_consistent; [by apply reachable_wf|done|
                                  |by apply SubmitOrder_submitted].
    unfold int64 in Hq. lia.
  - by eapply CancelOrder_consistent.
  - by eapply GetOrderBook_consistent.
Qed.

(** ** Engines whose order ids are pairwise distinct

    [uuid.New] is taken never to repeat: [NoDup (ids (mem me))].  Then every
    queued order is ACCEPTED or PARTIAL_FILL and the book's map leads from
    its id to it. *)
Definition open_status (o : Order) : Prop :=
  Status o = ACCEPTED ∨ Status o = PARTIAL_FILL.

Definition book_tidy (h : list Order) (b : OrderBook) : Prop :=
  ∀ side p, p ∈ flat (ownSide side b) →
    ∃ o, h !! p = Some o ∧ open_status o ∧ BookOrders b !! ID o = Some p.

Definition tidy (me : MatchingEngine) : Prop :=
  ∀ s b, books me !! s = Some b → book_tidy (mem me) b.

Lemma ids_inj h p p' o o' :
  NoDup (ids h) → h !! p = Some o → h !! p' = Some o' → ID o = ID o' → p = p'.
Proof.
  intros Hnd Ho Ho' Hid. apply ids_lookup in Ho, Ho'. rewrite <-Hid in Ho'.
  by eapply NoDup_lookup.
Qed.

Lemma filter_other (p : ptr) (l : list ptr) :
  p ∉ l → filter (λ p', p' ≠ p) l = l.
Proof.
  induction l as [|a l IH]; intros Hp; [done|].
  apply not_elem_of_cons in Hp as [Hne Hp].
  rewrite filter_cons_True by done. by rewrite IH.
Qed.

(** The inner loop of removal takes the order itself out of the queue. *)
Lemma removeById_exact h p o q q' :
  NoDup (ids h) → h !! p = Some o → NoDup q →
  removeById h (ID o) q = Some q' → q' = filter (λ p', p' ≠ p) q.
Proof.
  intros Hids Ho. revert q'. induction q as [|p0 q IH]; intros q' Hnd H;
    simpl in H.
  { by simplify_eq. }
  apply NoDup_cons in Hnd as [Hp0 Hnd].
  destruct (h !! p0) as [o0|] eqn:Ho0; [|done]. simpl in H.
  destruct (String.eqb_spec (ID o0) (ID o)) as [Hid|Hid].
  - injection H as <-.
    assert (p0 = p) as -> by by eapply ids_inj.
    rewrite filter_cons_False by naive_solver. by rewrite filter_other.
  - destruct (removeById h (ID o) q) as [q1|]; [|done]. simpl in H.
    injection H as <-.
    rewrite filter_cons_True by (intros ->; by simplify_eq).
    f_equal. by apply IH.
Qed.

Lemma removeFromLevels_exact h s p o ls ls' :
  NoDup (ids h) → h !! p = Some o → wf_ladder h s ls →
  NoDup (flat ls) → NoDup (LevelPrice <$> ls) →
  removeFromLevels h o ls = Some ls' →
  flat ls' = filter (λ p', p' ≠ p) (flat ls).
Proof.
  intros Hids Ho. revert ls'.
  induction ls as [|[pr q] ls IH]; intros ls' Hwf Hnd Hpr H; simpl in H.
  { by simplify_eq. }
  rewrite flat_cons in Hnd. simpl in Hnd.
  apply NoDup_app in Hnd as (Hq & Hdisj & Hrest).
  rewrite fmap_cons in Hpr. apply NoDup_cons in Hpr as [Hpr0 Hpr]. simpl in Hpr0.
  pose proof Hwf as Hwf0. apply Forall_cons in Hwf0 as [[Hlvl _] Hwfr].
  simpl in Hlvl. rewrite flat_cons, filter_app. simpl.
  destruct (Z.eqb_spec pr (Price o)) as [->|Hne].
  - destruct (removeById h (ID o) q) as [q'|] eqn:Hrm; [|done]. simpl in H.
    apply removeById_exact with (p := p) in Hrm; [|done..].
    assert (p ∉ flat ls) as Hout.
    { intros Hin. apply elem_of_flat in Hin as (l & Hl & Hin).
      unfold wf_ladder in Hwfr. rewrite Forall_forall in Hwfr.
      destruct (Hwfr l Hl) as [Hr _]. rewrite Forall_forall in Hr.
      destruct (Hr p Hin) as (o1 & Ho1 & _ & Hp1 & _).
      rewrite Ho in Ho1. injection Ho1 as <-.
      apply Hpr0. rewrite Hp1. apply list_elem_of_fmap. by exists l. }
    rewrite (filter_other p (flat ls)) by done.
    injection H as <-. rewrite <-Hrm.
    destruct q' as [|r q']; [done|]. by rewrite flat_cons.
  - destruct (removeFromLevels h o ls) as [ls1|] eqn:Hrm; [|done]. simpl in H.
    injection H as <-. rewrite flat_cons. simpl.
    assert (p ∉ q) as Hout.
    { intros Hin. rewrite Forall_forall in Hlvl.
      destruct (Hlvl p Hin) as (o1 & Ho1 & _ & Hp1 & _).
      rewrite Ho in Ho1. injection Ho1 as <-. done. }
    rewrite (filter_other p q) by done. f_equal. by apply IH.
Qed.

Lemma tidy_bookOf me symbol : tidy me → book_tidy (mem me) (bookOf me symbol).
Proof.
  intros Ht. unfold bookOf.
  destruct (books me !! symbol) as [b|] eqn:Hb; simpl; [by eapply Ht|].
  intros side p Hp. destruct side; by apply elem_of_nil in Hp.
Qed.

Lemma book_tidy_frame h h' b :
  (∀ p o, h !! p = Some o → h' !! p = Some o) →
  book_tidy h b → book_tidy h' b.
Proof.
  intros Hsame Ht side p Hp. destruct (Ht side p Hp) as (o & Ho & Hst & Hreg).
  exists o. split_and!; [by apply Hsame|done|done].
Qed.

Lemma tidy_insert me s b h' :
  (∀ s' b', s' ≠ s → books me !! s' = Some b' → book_tidy h' b') →
  book_tidy h' b →
  tidy (mkEngine (<[s := b]> (books me)) h').
Proof.
  intros Hold Hb s' b' Hb'. simpl in *.
  destruct (decide (s = s')) as [<-|Hne].
  - rewrite lookup_insert_eq in Hb'. by injection Hb' as <-.
  - rewrite lookup_insert_ne in Hb' by done. by eapply Hold.
Qed.

(** An order that stays queued through a submission keeps its id and stays
    open. *)
Lemma submit_kept env me symbol side typ price quantity h' opp' trades p o0 :
  wf_engine me → 0 < quantity < 2 ^ 63 →
  matchLadder env side (length (mem me))
    (alloc env me symbol side typ price quantity)
    (opposing side (bookOf me symbol)) [] = Some (h', opp', trades) →
  mem me !! p = Some o0 → open_status o0 →
  (p ∈ flat (opposing side (bookOf me symbol)) → p ∈ flat opp') →
  ∃ o', h' !! p = Some o' ∧ ID o' = ID o0 ∧ open_status o'.
Proof.
  intros Hwf Hq Hm Ho0 Hst Hkeep.
  destruct (submit_store _ _ _ _ _ _ _ _ _ _ Hwf Hq Hm) as (_ & _ & Hstore).
  destruct (Hstore p o0 Ho0)
    as [[Hp _]|[(Hin & Hout & _)|(_ & _ & _ & n & _ & Hp)]].
  - by exists o0.
  - destruct Hout. by apply Hkeep.
  - eexists. split; [done|]. split; [done|]. by right.
Qed.

Lemma submit_ids env me symbol side typ price quantity h' opp' trades :
  wf_engine me → 0 < quantity < 2 ^ 63 →
  matchLadder env side (length (mem me))
    (alloc env me symbol side typ price quantity)
    (opposing side (bookOf me symbol)) [] = Some (h', opp', trades) →
  ids h' = ids (mem me) ++ [uuid_New env 0%nat].
Proof.
  intros Hwf Hq Hm.
  destruct (submit_store _ _ _ _ _ _ _ _ _ _ Hwf Hq Hm) as (Hlen & _ & _).
  pose proof (submit_advances _ _ _ _ _ _ _ _ _ _ Hwf Hq Hm) as Hadv.
  destruct (submit_aggressor _ _ _ _ _ _ _ _ _ _ Hwf Hq Hm) as (v & Hx & _).
  apply list_eq. intros p. unfold ids.
  destruct (decide (p < length (mem me))%nat) as [Hlt|Hge].
  - rewrite lookup_app_l by by rewrite length_fmap.
    destruct (lookup_lt_is_Some_2 (mem me) p Hlt) as [o0 Ho0].
    destruct (Hadv p o0 Ho0) as (o' & Ho' & Ha).
    destruct (advances_terms _ _ Ha) as (Hid & _).
    rewrite !list_lookup_fmap, Ho0, Ho'. simpl. by rewrite Hid.
  - destruct (decide (p = length (mem me))) as [->|Hne].
    + rewrite list_lookup_fmap, Hx. simpl.
      rewrite lookup_app_r by by rewrite length_fmap.
      rewrite length_fmap. by replace (_ - _)%nat with 0%nat by lia.
    + rewrite !lookup_ge_None_2; [done| |].
      * rewrite length_app, length_fmap. simpl. lia.
      * rewrite length_fmap. lia.
Qed.

(** The ids of the store only grow, at the end. *)
Lemma submitted_ids env me symbol side typ price quantity me' r :
  wf_engine me → quantity < 2 ^ 63 →
  submitted env me symbol side typ price quantity me' r →
  ∃ k, ids (mem me') = ids (mem me) ++ k.
Proof.
  intros Hwf Hq63 Hsub.
  destruct Hsub as [?|?|avail Hq Ht Hav Hlow
                   |h' opp' trades xo' book'' Hq Ht Hp Hm Hxo' Hshort Hadd
                   |h' opp' trades xo' Hq Hp Hmk Hm Hxo' Hfull].
  - exists []. by rewrite app_nil_r.
  - exists []. by rewrite app_nil_r.
  - eexists. apply ids_alloc.
  - eexists. simpl. eapply submit_ids; [done| |done]. lia.
  - eexists. simpl. eapply submit_ids; [done| |done]. lia.
Qed.

Lemma CancelOrder_ids ks me orderID me' r :
  CancelOrder ks me orderID = Some (me', r) → ids (mem me') = ids (mem me).
Proof.
  intros H. unfold CancelOrder in H.
  destruct (findOrder (books me) orderID ks) as [[[k book] p]|];
    [|by simplify_eq].
  destruct (mem me !! p) as [order|]; [|done]. simpl in H.
  destruct (bool_decide (Status order = FILLED)); [by simplify_eq|].
  destruct (RemoveOrder _ orderID book) as [[book' r']|]; [|done].
  simpl in H. injection H as <- <-. simpl. by apply ids_alter.
Qed.

Lemma GetOrderBook_mem now me symbol depth me' snap :
  GetOrderBook now me symbol depth = Some (me', snap) → mem me' = mem me.
Proof.
  intros H. unfold GetOrderBook in H.
  destruct (GetOrCreateBook (books me) symbol) as [bs book].
  destruct (snapshotLevels (mem me) (take _ (Bids book))); [|done]. simpl in H.
  destruct (snapshotLevels (mem me) (take _ (Asks book))); [|done]. simpl in H.
  by injection H as <- <-.
Qed.

Lemma submit_tidy_old env me symbol side typ price quantity h' opp' trades
    b0 side0 p :
  wf_engine me → 0 < quantity < 2 ^ 63 →
  matchLadder env side (length (mem me))
    (alloc env me symbol side typ price quantity)
    (opposing side (bookOf me symbol)) [] = Some (h', opp', trades) →
  NoDup (ids h') →
  book_tidy (mem me) b0 → p ∈ flat (ownSide side0 b0) →
  (p ∈ flat (opposing side (bookOf me symbol)) → p ∈ flat opp') →
  ∃ o', h' !! p = Some o' ∧ open_status o' ∧ BookOrders b0 !! ID o' = Some p ∧
        ID o' ≠ uuid_New env 0%nat.
Proof.
  intros Hwf Hq Hm Hnd Ht Hp Hkeep.
  destruct (Ht side0 p Hp) as (o0 & Ho0 & Hst & Hreg).
  destruct (submit_kept _ _ _ _ _ _ _ _ _ _ _ _ Hwf Hq Hm Ho0 Hst Hkeep)
    as (o' & Ho' & Hid & Hst').
  destruct (submit_aggressor _ _ _ _ _ _ _ _ _ _ Hwf Hq Hm) as (v & Hx & _).
  exists o'. rewrite Hid. split_and!; try done.
  intros Heq. rewrite <-Hid in Heq.
  assert (p = length (mem me)) as -> by by eapply (ids_inj h').
  apply lookup_lt_Some in Ho0. lia.
Qed.

Theorem submitted_tidy env me symbol side typ price quantity me' r :
  wf_engine me → tidy me → quantity < 2 ^ 63 →
  NoDup (ids (mem me')) →
  submitted env me symbol side typ price quantity me' r →
  tidy me'.
Proof.
  intros Hwf Htidy Hq63 Hnd Hsub.
  pose proof (tidy_bookOf me symbol Htidy) as Hb0.
  pose proof (submit_sides env me symbol side side typ price quantity Hwf)
    as [_ _ _ Hdisj _ _].
  destruct Hsub as [?|?|avail Hq Ht Hav Hlow
                   |h' opp' trades xo' book'' Hq Ht Hp Hm Hxo' Hshort Hadd
                   |h' opp' trades xo' Hq Hp Hmk Hm Hxo' Hfull]; try done.
  - (* rejected for liquidity *)
    assert (∀ p o, mem me !! p = Some o →
                   alloc env me symbol side typ price quantity !! p = Some o)
      as Hsame.
    { intros p o Ho. rewrite alloc_old; [done|]. by eapply lookup_lt_Some. }
    apply tidy_insert.
    + intros s' b' _ Hb'. eapply book_tidy_frame; [done|]. by eapply Htidy.
    + by eapply book_tidy_frame.
  - (* a limit order that rests *)
    simpl in Hnd.
    destruct (submit_store _ _ _ _ _ _ _ _ _ _ Hwf (conj Hq Hq63) Hm)
      as (Hlen & Hsuf & _).
    destruct (submit_aggressor _ _ _ _ _ _ _ _ _ _ Hwf (conj Hq Hq63) Hm)
      as (v & Hx & Hv & Hsum).
    destruct (AddOrder_sides side _ _ _ _ _ Hx eq_refl Hadd)
      as (Hown & Hopp & Hmap & _).
    replace (ownSide side (setOpposing side opp' (bookOf me symbol)))
      with (ownSide side (bookOf me symbol)) in Hown by by destruct side.
    replace (opposing side (setOpposing side opp' (bookOf me symbol)))
      with opp' in Hopp by by destruct side.
    replace (BookOrders (setOpposing side opp' (bookOf me symbol)))
      with (BookOrders (bookOf me symbol)) in Hmap by by destruct side.
    pose proof (wf_bookOf_sorted me symbol side Hwf) as Hsorted.
    apply tidy_insert.
    + intros s' b' Hne Hb' side0 p Hp0.
      destruct (submit_tidy_old _ _ _ _ _ _ _ _ _ _ b' side0 p Hwf (conj Hq Hq63)
                  Hm Hnd (Htidy s' b' Hb') Hp0) as (o' & Ho' & Hst & Hreg & _).
      { intros Hin. exfalso.
        eapply (wf_books_disjoint me symbol s' b' side p); try done.
        destruct side0; set_solver. }
      by exists o'.
    + intros side0 p Hp0.
      destruct (ownSide_cases side side0 book'') as [[-> _]|[-> Heq]];
        [|rewrite Heq in Hp0].
      * rewrite Hown in Hp0. apply elem_of_flat_addTo in Hp0 as [->|Hp0];
          [| |done].
        { eexists. split; [exact Hx|]. split; [by left|].
          rewrite Hmap. simpl. apply lookup_insert_eq. }
        destruct (submit_tidy_old _ _ _ _ _ _ _ _ _ _ _ side p Hwf (conj Hq Hq63)
                    Hm Hnd Hb0 Hp0) as (o' & Ho' & Hst & Hreg & Hid).
        { intros Hin. exfalso. apply NoDup_app in Hdisj as (_ & Hdisj & _).
          by apply (Hdisj p). }
        exists o'. split_and!; try done. rewrite Hmap. simpl.
        by rewrite lookup_insert_ne.
      * rewrite Hopp in Hp0.
        assert (p ∈ flat (ownSide (flipSide side) (bookOf me symbol))) as Hp1.
        { replace (ownSide (flipSide side) (bookOf me symbol))
            with (opposing side (bookOf me symbol)) by by destruct side.
          destruct Hsuf as [k ->]. set_solver. }
        destruct (submit_tidy_old _ _ _ _ _ _ _ _ _ _ _ _ p Hwf (conj Hq Hq63)
                    Hm Hnd Hb0 Hp1) as (o' & Ho' & Hst & Hreg & Hid); [done|].
        exists o'. split_and!; try done. rewrite Hmap. simpl.
        by rewrite lookup_insert_ne.
  - (* the order is filled, or a market order is through *)
    simpl in Hnd.
    destruct (submit_store _ _ _ _ _ _ _ _ _ _ Hwf (conj Hq Hq63) Hm)
      as (Hlen & Hsuf & _).
    apply tidy_insert.
    + intros s' b' Hne Hb' side0 p Hp0.
      destruct (submit_tidy_old _ _ _ _ _ _ _ _ _ _ b' side0 p Hwf (conj Hq Hq63)
                  Hm Hnd (Htidy s' b' Hb') Hp0) as (o' & Ho' & Hst & Hreg & _).
      { intros Hin. exfalso.
        eapply (wf_books_disjoint me symbol s' b' side p); try done.
        destruct side0; set_solver. }
      by exists o'.
    + intros side0 p Hp0.
      replace (BookOrders (setOpposing side opp' (bookOf me symbol)))
        with (BookOrders (bookOf me symbol)) by by destruct side.
      destruct (ownSide_cases side side0 (setOpposing side opp' (bookOf me symbol)))
        as [[-> _]|[-> Heq]]; [|rewrite Heq in Hp0].
      * replace (ownSide side (setOpposing side opp' (bookOf me symbol)))
          with (ownSide side (bookOf me symbol)) in Hp0 by by destruct side.
        destruct (submit_tidy_old _ _ _ _ _ _ _ _ _ _ _ side p Hwf (conj Hq Hq63)
                    Hm Hnd Hb0 Hp0) as (o' & Ho' & Hst & Hreg & Hid).
        { intros Hin. exfalso. apply NoDup_app in Hdisj as (_ & Hdisj & _).
          by apply (Hdisj p). }
        by exists o'.
      * replace (opposing side (setOpposing side opp' (bookOf me symbol)))
          with opp' in Hp0 by by destruct side.
        assert (p ∈ flat (ownSide (flipSide side) (bookOf me symbol))) as Hp1.
        { replace (ownSide (flipSide side) (bookOf me symbol))
            with (opposing side (bookOf me symbol)) by by destruct side.
          destruct Hsuf as [k ->]. set_solver. }
        destruct (submit_tidy_old _ _ _ _ _ _ _ _ _ _ _ _ p Hwf (conj Hq Hq63)
                    Hm Hnd Hb0 Hp1) as (o' & Ho' & Hst & Hreg & Hid); [done|].
        by exists o'.
Qed.

(** What a successful cancel does to the engine: the order is marked
    CANCELLED and taken out of its ladder; nothing else moves. *)
Lemma cancel_effect ks me orderID k book p o me' r :
  wf_engine me → consistent me → NoDup (ids (mem me)) →
  findOrder (books me) orderID ks = Some (k, book, p) →
  mem me !! p = Some o → Status o ≠ FILLED →
  CancelOrder ks me orderID = Some (me', r) →
  r = Ok () ∧
  ∃ book',
    me' = mkEngine (<[k := book']> (books me))
                   (alter (setStatus CANCELLED) p (mem me)) ∧
    BookOrders book' = BookOrders book ∧ BookSymbol book' = BookSymbol book ∧
    ∀ side0,
      flat (ownSide side0 book') =
        filter (λ p', p' ≠ p) (flat (ownSide side0 book)) ∧
      (LevelPrice <$> ownSide side0 book') `sublist_of`
        (LevelPrice <$> ownSide side0 book).
Proof.
  intros Hwf Hcons Hnd Hfind Ho Hst H.
  destruct (CancelOrder_found _ _ _ _ _ _ _ _ _ Hfind Ho Hst H)
    as (book' & Hrm & ->).
  apply findOrder_Some in Hfind as (Hk & Hp & _).
  set (h := alter (setStatus CANCELLED) p (mem me)) in *.
  assert (h !! p = Some (setStatus CANCELLED o)) as Hoc.
  { unfold h. by rewrite list_lookup_alter_eq, Ho. }
  assert (NoDup (ids h)) as Hndh by (unfold h; by rewrite ids_alter).
  pose proof (Hwf k book Hk) as Hwfb.
  apply (wf_sides_setStatus _ _ _ _ _ CANCELLED p) in Hwfb. fold h in Hwfb.
  destruct Hcons as [_ Hbk]. pose proof (Hbk k book Hk) as [_ _ Hqueued _].
  assert (∀ side0, side0 ≠ Side o →
            flat (ownSide side0 book) =
            filter (λ p', p' ≠ p) (flat (ownSide side0 book))) as Hother.
  { intros side0 Hne. rewrite filter_other; [done|]. intros Hin.
    destruct (Hqueued side0 p Hin) as (o1 & Ho1 & Hs1 & _).
    rewrite Ho in Ho1. injection Ho1 as <-. done. }
  unfold RemoveOrder in Hrm. rewrite Hp, Hoc in Hrm. simpl in Hrm.
  destruct (Side o) eqn:Hside.
  - unfold removeFromBids in Hrm.
    destruct (removeFromLevels h _ (Bids book)) as [bids|] eqn:Hls; [|done].
    simpl in Hrm. injection Hrm as <- <-. split; [done|].
    eexists. split_and!; [done..|].
    destruct (removeFromLevels_shrinks _ _ _ _ Hls) as (Hsub & _).
    intros [|]; simpl.
    + split; [|done].
      eapply (removeFromLevels_exact h k p); try done.
      * by destruct Hwfb.
      * destruct Hwfb as [_ _ _ Hn _ _]. by apply NoDup_app in Hn as (? & _).
      * destruct Hwfb as [Hs _ _ _ _ _]. by eapply sorted_for_NoDup.
    + split; [by apply (Hother SELL)|done].
  - unfold removeFromAsks in Hrm.
    destruct (removeFromLevels h _ (Asks book)) as [asks|] eqn:Hls; [|done].
    simpl in Hrm. injection Hrm as <- <-. split; [done|].
    eexists. split_and!; [done..|].
    destruct (removeFromLevels_shrinks _ _ _ _ Hls) as (Hsub & _).
    intros [|]; simpl.
    + split; [by apply (Hother BUY)|done].
    + split; [|done].
      eapply (removeFromLevels_exact h k p); try done.
      * by destruct Hwfb.
      * destruct Hwfb as [_ _ _ Hn _ _]. by apply NoDup_app in Hn as (_ & _ & ?).
      * destruct Hwfb as [_ Hs _ _ _ _]. by eapply sorted_for_NoDup.
Qed.

Theorem CancelOrder_tidy ks me orderID me' r :
  wf_engine me → consistent me → tidy me → NoDup (ids (mem me)) →
  CancelOrder ks me orderID = Some (me', r) → tidy me'.
Proof.
  intros Hwf Hcons Htidy Hnd H.
  destruct (findOrder (books me) orderID ks) as [[[k book] p]|] eqn:Hfind;
    cycle 1.
  { unfold CancelOrder in H. rewrite Hfind in H. by simplify_eq. }
  pose proof Hfind as Hfind'.
  apply findOrder_Some in Hfind' as (Hk & Hp & _).
  pose proof Hcons as [_ Hbk].
  destruct (bs_registered _ _ _ (Hbk k book Hk) _ _ Hp)
    as (o & Ho & _ & Hsym & _ & _).
  destruct (decide (Status o = FILLED)) as [Hst|Hst].
  { rewrite (CancelOrder_filled _ _ _ _ _ _ _ Hfind Ho Hst) in H.
    by simplify_eq. }
  destruct (cancel_effect _ _ _ _ _ _ _ _ _ Hwf Hcons Hnd Hfind Ho Hst H)
    as (_ & book' & -> & Hmap & _ & Hflat).
  apply tidy_insert.
  - intros s' b' Hne Hb' side0 p' Hp'.
    destruct (Htidy s' b' Hb' side0 p' Hp') as (o' & Ho' & Hopen & Hreg).
    exists o'. split_and!; try done.
    rewrite list_lookup_alter_ne; [done|]. intros <-.
    rewrite Ho in Ho'. injection Ho' as <-.
    assert (p ∈ flat (Bids b') ++ flat (Asks b')) as Hin
      by (destruct side0; set_solver).
    pose proof (Hwf s' b' Hb') as [_ _ _ _ Hw1 Hw2].
    apply elem_of_app in Hin as [Hin|Hin].
    + destruct (wf_ladder_symbol _ _ _ _ _ Hw1 Hin Ho) as [Hs _]. congruence.
    + destruct (wf_ladder_symbol _ _ _ _ _ Hw2 Hin Ho) as [Hs _]. congruence.
  - intros side0 p' Hp'. destruct (Hflat side0) as [Hf _].
    rewrite Hf in Hp'. apply list_elem_of_filter in Hp' as [Hne Hp'].
    destruct (Htidy k book Hk side0 p' Hp') as (o' & Ho' & Hopen & Hreg).
    exists o'. rewrite Hmap. split_and!; try done.
    by rewrite list_lookup_alter_ne.
Qed.

Theorem reachable_tidy me :
  reachable me → NoDup (ids (mem me)) → tidy me.
Proof.
  induction 1 as [|me env symbol side typ price quantity me' r Hr IH _ Hq Hs
                 |me ks orderID me' r Hr IH _ Hc
                 |me now symbol depth me' snap Hr IH Hg]; intros Hnd.
  - intros s b Hb. simpl in Hb. by rewrite lookup_empty in Hb.
  - assert (quantity < 2 ^ 63) as Hq63 by (unfold int64 in Hq; lia).
    pose proof (reachable_wf me Hr) as Hwf.
    apply SubmitOrder_submitted in Hs.
    destruct (submitted_ids _ _ _ _ _ _ _ _ _ Hwf Hq63 Hs) as [k Hk].
    eapply submitted_tidy; try done. apply IH.
    rewrite Hk in Hnd. by apply NoDup_app in Hnd as (? & _).
  - rewrite (CancelOrder_ids _ _ _ _ _ Hc) in Hnd.
    eapply CancelOrder_tidy; try done.
    + by apply reachable_wf.
    + by apply reachable_consistent.
    + by apply IH.
  - pose proof (GetOrderBook_mem _ _ _ _ _ _ Hg) as Hmem.
    rewrite Hmem in Hnd. specialize (IH Hnd).
    unfold GetOrderBook, GetOrCreateBook in Hg.
    destruct (books me !! symbol) as [b|] eqn:Hb.
    + destruct (snapshotLevels (mem me) (take _ (Bids b))); [|done]. simpl in Hg.
      destruct (snapshotLevels (mem me) (take _ (Asks b))); [|done]. simpl in Hg.
      injection Hg as <- <-. by destruct me.
    + simpl in Hg. rewrite take_nil in Hg. simpl in Hg.
      injection Hg as <- <-. apply tidy_insert; [by intros; eapply IH|].
      intros side p Hp. destruct side; by apply elem_of_nil in Hp.
Qed.

(** ** Sequences of calls *)

(** One call of an exported method of the engine. *)
Inductive step : MatchingEngine → MatchingEngine → Prop :=
  | step_submit me env symbol side typ price quantity me' r :
      int64 price → int64 quantity →
      SubmitOrder env me symbol side typ price quantity = Some (me', r) →
      step me me'
  | step_cancel me ks orderID me' r :
      visits me ks → CancelOrder ks me orderID = Some (me', r) → step me me'
  | step_snapshot me now symbol depth me' snap :
      GetOrderBook now me symbol depth = Some (me', snap) → step me me'.

Lemma step_reachable me me' : reachable me → step me me' → reachable me'.
Proof.
  intros Hr Hstep.
  inversion Hstep as [me0 env symbol side typ price quantity me1 r Hp Hq Hs
                     |me0 ks orderID me1 r Hv Hc
                     |me0 now symbol depth me1 snap Hg]; subst.
  - eapply reach_submit; [exact Hr|exact Hp|exact Hq|exact Hs].
  - eapply reach_cancel; [exact Hr|exact Hv|exact Hc].
  - eapply reach_snapshot; [exact Hr|exact Hg].
Qed.

Lemma steps_reachable me me' : reachable me → rtc step me me' → reachable me'.
Proof. intros Hr Hs. induction Hs; eauto using step_reachable. Qed.

Lemma step_ids me me' :
  reachable me → step me me' → ∃ k, ids (mem me') = ids (mem me) ++ k.
Proof.
  intros Hr Hstep.
  inversion Hstep as [me0 env symbol side typ price quantity me1 r Hp Hq Hs
                     |me0 ks orderID me1 r Hv Hc
                     |me0 now symbol depth me1 snap Hg]; subst.
  - eapply submitted_ids; [by apply reachable_wf| |by apply SubmitOrder_submitted].
    unfold int64 in Hq. lia.
  - exists []. rewrite app_nil_r. by eapply CancelOrder_ids.
  - exists []. rewrite app_nil_r. f_equal. by eapply GetOrderBook_mem.
Qed.

Lemma steps_ids me me' :
  reachable me → rtc step me me' → ∃ k, ids (mem me') = ids (mem me) ++ k.
Proof.
  intros Hr Hs. induction Hs as [me|me me1 me2 H1 H2 IH].
  - exists []. by rewrite app_nil_r.
  - destruct (step_ids _ _ Hr H1) as [k1 Hk1].
    destruct (IH (step_reachable _ _ Hr H1)) as [k2 Hk2].
    exists (k1 ++ k2). by rewrite Hk2, Hk1, app_assoc.
Qed.

Lemma step_advances me me' :
  reachable me → step me me' → store_advances (mem me) (mem me').
Proof.
  intros Hr Hstep. pose proof (reachable_wf me Hr) as Hwf.
  inversion Hstep as [me0 env symbol side typ price quantity me1 r Hp Hq Hs
                     |me0 ks orderID me1 r Hv Hc
                     |me0 now symbol depth me1 snap Hg]; subst.
  - assert (quantity < 2 ^ 63) as Hq63 by (unfold int64 in Hq; lia).
    apply SubmitOrder_submitted in Hs.
    destruct Hs as [?|?|avail Hq0 Ht Hav Hlow
                   |h' opp' trades xo' book'' Hq0 Ht Hp0 Hm Hxo' Hshort Hadd
                   |h' opp' trades xo' Hq0 Hp0 Hmk Hm Hxo' Hfull].
    + apply store_advances_refl.
    + apply store_advances_refl.
    + apply alloc_advances.
    + simpl. eapply submit_advances; [done| |done]. lia.
    + simpl. eapply submit_advances; [done| |done]. lia.
  - destruct (findOrder (books me) orderID ks) as [[[k book] p]|] eqn:Hfind;
      cycle 1.
    { unfold CancelOrder in Hc. rewrite Hfind in Hc. simplify_eq.
      apply store_advances_refl. }
    pose proof Hfind as Hfind'.
    apply findOrder_Some in Hfind' as (Hk & Hpp & _).
    destruct (reachable_consistent me Hr) as [_ Hbk].
    destruct (bs_registered _ _ _ (Hbk k book Hk) _ _ Hpp)
      as (o & Ho & _ & _ & _ & Hset).
    destruct (decide (Status o = FILLED)) as [Hst|Hst].
    { rewrite (CancelOrder_filled _ _ _ _ _ _ _ Hfind Ho Hst) in Hc.
      simplify_eq. apply store_advances_refl. }
    destruct (CancelOrder_found _ _ _ _ _ _ _ _ _ Hfind Ho Hst Hc)
      as (book' & _ & ->).
    simpl. by eapply cancel_advances.
  - rewrite (GetOrderBook_mem _ _ _ _ _ _ Hg). apply store_advances_refl.
Qed.

(** The engines of the tests are reachable. *)
Lemma afterPartialFill_reachable : reachable afterPartialFill.
Proof.
  eapply (reach_submit (oneAsk "AAPL" 15050 50) (envNamed "b") "AAPL" BUY
            LIMIT 15050 100).
  - apply oneAsk_reachable; lia.
  - unfold int64. lia.
  - unfold int64. lia.
  - apply partialFill_submitted.
Qed.

Lemma afterFifo_reachable : reachable afterFifo.
Proof.
  eapply (reach_submit threeAsks (envNamed "b") "AAPL" BUY LIMIT 15050 150).
  - apply threeAsks_reachable.
  - unfold int64. lia.
  - unfold int64. lia.
  - apply fifo_submitted.
Qed.

(** A second SELL LIMIT 15050 x 100 behind the first. *)
Definition twoAsks : MatchingEngine :=
  asksAt15050 [0%nat; 1%nat] {[ "s-0" := 0%nat; "t-0" := 1%nat ]}
    [ask15050 "s-0" 0 ACCEPTED; ask15050 "t-0" 0 ACCEPTED].

Definition twoAsksResult : OrderResult :=
  mkResult "t-0" ACCEPTED 0 100 [] "Order added to book".

Lemma twoAsks_submitted :
  SubmitOrder (envNamed "t") (oneAsk "AAPL" 15050 100) "AAPL" SELL LIMIT
    15050 100 = Some (twoAsks, Ok twoAsksResult).
Proof. vm_compute. reflexivity. Qed.

(** TestMultipleSymbols, two of its books: an ask on AAPL, then one on
    TSLA. *)
Definition twoBooks : MatchingEngine :=
  mkEngine
    {[ "AAPL" := mkBook "AAPL" [] [mkLevel 15050 [0%nat]] {[ "s-0" := 0%nat ]};
       "TSLA" := mkBook "TSLA" [] [mkLevel 20000 [1%nat]] {[ "t-0" := 1%nat ]} ]}
    [mkOrder "s-0" "AAPL" SELL LIMIT 15050 100 0 ACCEPTED 0;
     mkOrder "t-0" "TSLA" SELL LIMIT 20000 100 0 ACCEPTED 0].

Definition twoBooksResult : OrderResult :=
  mkResult "t-0" ACCEPTED 0 100 [] "Order added to book".

Lemma twoBooks_submitted :
  SubmitOrder (envNamed "t") (oneAsk "AAPL" 15050 100) "TSLA" SELL LIMIT
    20000 100 = Some (twoBooks, Ok twoBooksResult).
Proof. vm_compute. reflexivity. Qed.

Lemma twoBooks_reachable : reachable twoBooks.
Proof.
  eapply (reach_submit (oneAsk "AAPL" 15050 100) (envNamed "t") "TSLA"
            SELL LIMIT 20000 100).
  - apply oneAsk_reachable; lia.
  - unfold int64. lia.
  - unfold int64. lia.
  - apply twoBooks_submitted.
Qed.

Lemma twoBooks_distinct : NoDup (ids (mem twoBooks)).
Proof. apply (bool_decide_unpack _). vm_compute. exact I. Qed.

Lemma twoBooks_visits_1 : visits twoBooks ["AAPL"; "TSLA"].
Proof. unfold visits. vm_compute. first [reflexivity|apply perm_swap]. Qed.

Lemma twoBooks_visits_2 : visits twoBooks ["TSLA"; "AAPL"].
Proof. unfold visits. vm_compute. first [reflexivity|apply perm_swap]. Qed.

(** TestNoMatch: SELL LIMIT 15100 x 100 rests, BUY LIMIT 15000 x 100 rests
    opposite it. *)
Definition noMatchBook : OrderBook :=
  mkBook "AAPL" [mkLevel 15000 [1%nat]] [mkLevel 15100 [0%nat]]
         {[ "s-0" := 0%nat; "b-0" := 1%nat ]}.

Definition noMatch : MatchingEngine :=
  mkEngine {[ "AAPL" := noMatchBook ]}
    [mkOrder "s-0" "AAPL" SELL LIMIT 15100 100 0 ACCEPTED 0;
     mkOrder "b-0" "AAPL" BUY LIMIT 15000 100 0 ACCEPTED 0].

Lemma noMatch_submitted :
  SubmitOrder (envNamed "b") (oneAsk "AAPL" 15100 100) "AAPL" BUY LIMIT
    15000 100
  = Some (noMatch, Ok (mkResult "b-0" ACCEPTED 0 100 [] "Order added to book")).
Proof. vm_compute. reflexivity. Qed.

Lemma noMatch_reachable : reachable noMatch.
Proof.
  eapply (reach_submit (oneAsk "AAPL" 15100 100) (envNamed "b") "AAPL" BUY
            LIMIT 15000 100).
  - apply oneAsk_reachable; lia.
  - unfold int64. lia.
  - unfold int64. lia.
  - apply noMatch_submitted.
Qed.

(** TestMarketOrder: SELL LIMIT 20000 x 100 and 20050 x 200 rest on TSLA;
    BUY MARKET 150 takes the first and 50 of the second. *)
Definition tslaAsks : MatchingEngine :=
  mkEngine
    {[ "TSLA" := mkBook "TSLA" []
                   [mkLevel 20000 [0%nat]; mkLevel 20050 [1%nat]]
                   {[ "s-0" := 0%nat; "t-0" := 1%nat ]} ]}
    [mkOrder "s-0" "TSLA" SELL LIMIT 20000 100 0 ACCEPTED 0;
     mkOrder "t-0" "TSLA" SELL LIMIT 20050 200 0 ACCEPTED 0].

Definition afterMarket : MatchingEngine :=
  mkEngine
    {[ "TSLA" := mkBook "TSLA" [] [mkLevel 20050 [1%nat]]
                   {[ "s-0" := 0%nat; "t-0" := 1%nat ]} ]}
    [mkOrder "s-0" "TSLA" SELL LIMIT 20000 100 100 FILLED 0;
     mkOrder "t-0" "TSLA" SELL LIMIT 20050 200 50 PARTIAL_FILL 0;
     mkOrder "m-0" "TSLA" BUY MARKET 0 150 150 ACCEPTED 0].

Definition marketResult : OrderResult :=
  mkResult "m-0" FILLED 150 0
           [mkTrade "m-1" 20000 100 0 "m-0" "s-0";
            mkTrade "m-2" 20050 50 0 "m-0" "t-0"]
           "Order fully filled".

Lemma tslaAsks_reachable : reachable tslaAsks.
Proof.
  eapply (reach_submit (oneAsk "TSLA" 20000 100) (envNamed "t") "TSLA"
            SELL LIMIT 20050 200).
  - apply oneAsk_reachable; lia.
  - unfold int64. lia.
  - unfold int64. lia.
  - vm_compute. reflexivity.
Qed.

Lemma market_submitted :
  SubmitOrder (envNamed "m") tslaAsks "TSLA" BUY MARKET 0 150
  = Some (afterMarket, Ok marketResult).
Proof. vm_compute. reflexivity. Qed.

Lemma afterMarket_reachable : reachable afterMarket.
Proof.
  eapply (reach_submit tslaAsks (envNamed "m") "TSLA" BUY MARKET 0 150).
  - apply tslaAsks_reachable.
  - unfold int64. lia.
  - unfold int64. lia.
  - apply market_submitted.
Qed.

(** The second cancel of TestFIFOPriority's book: [t-0], half filled, is
    cancelled. *)
Definition afterCancel : MatchingEngine :=
  asksAt15050 [2%nat]
    {[ "s-0" := 0%nat; "t-0" := 1%nat; "u-0" := 2%nat ]}
    [ask15050 "s-0" 100 FILLED; ask15050 "t-0" 50 CANCELLED;
     ask15050 "u-0" 0 ACCEPTED;
     mkOrder "b-0" "AAPL" BUY LIMIT 15050 150 150 ACCEPTED 0].

Lemma afterFifo_visits : visits afterFifo ["AAPL"].
Proof. unfold visits. vm_compute. reflexivity. Qed.

Lemma afterCancel_visits : visits afterCancel ["AAPL"].
Proof. unfold visits. vm_compute. reflexivity. Qed.

Lemma afterFifo_cancelled :
  CancelOrder ["AAPL"] afterFifo "t-0" = Some (afterCancel, Ok ()).
Proof. vm_compute. reflexivity. Qed.

Lemma afterFifo_distinct : NoDup (ids (mem afterFifo)).
Proof. apply (bool_decide_unpack _). vm_compute. exact I. Qed.

Lemma afterCancel_distinct : NoDup (ids (mem afterCancel)).
Proof. apply (bool_decide_unpack _). vm_compute. exact I. Qed.

(** * Further properties *)

(** ** Order records *)

(** X1.  Every order record of a reachable engine is sound: its size is
    positive and fits int64; it is never filled beyond its size; it is FILLED
    only when filled up, PARTIAL_FILL only when filled in part, CANCELLED only
    short of its size; a LIMIT order has a positive price. *)
Theorem stored_orders_are_sound me p o :
  reachable me → mem me !! p = Some o →
  0 < Quantity o < 2 ^ 63 ∧
  0 ≤ FilledQuantity o ≤ Quantity o ∧
  (Status o = FILLED → FilledQuantity o = Quantity o) ∧
  (Status o = PARTIAL_FILL → 0 < FilledQuantity o < Quantity o) ∧
  (Status o = CANCELLED → FilledQuantity o < Quantity o) ∧
  (Typ o = LIMIT → 0 < Price o).
Proof.
  intros Hr Ho. destruct (reachable_consistent me Hr) as [Hord _].
  by apply (Hord p o).
Qed.

Lemma stored_orders_are_sound_witness :
  0 < Quantity (ask15050 "t-0" 50 PARTIAL_FILL) < 2 ^ 63 ∧
  0 ≤ FilledQuantity (ask15050 "t-0" 50 PARTIAL_FILL)
    ≤ Quantity (ask15050 "t-0" 50 PARTIAL_FILL) ∧
  (Status (ask15050 "t-0" 50 PARTIAL_FILL) = FILLED →
   FilledQuantity (ask15050 "t-0" 50 PARTIAL_FILL)
   = Quantity (ask15050 "t-0" 50 PARTIAL_FILL)) ∧
  (Status (ask15050 "t-0" 50 PARTIAL_FILL) = PARTIAL_FILL →
   0 < FilledQuantity (ask15050 "t-0" 50 PARTIAL_FILL)
     < Quantity (ask15050 "t-0" 50 PARTIAL_FILL)) ∧
  (Status (ask15050 "t-0" 50 PARTIAL_FILL) = CANCELLED →
   FilledQuantity (ask15050 "t-0" 50 PARTIAL_FILL)
   < Quantity (ask15050 "t-0" 50 PARTIAL_FILL)) ∧
  (Typ (ask15050 "t-0" 50 PARTIAL_FILL) = LIMIT →
   0 < Price (ask15050 "t-0" 50 PARTIAL_FILL)).
Proof.
  apply (stored_orders_are_sound afterFifo 1%nat).
  - apply afterFifo_reachable.
  - reflexivity.
Defined.

(** X2.  Through any sequence of calls an order record keeps its id, symbol,
    side, type, price, size and timestamp; its filled quantity never goes
    down and never passes its size. *)
Theorem orders_only_gain_fills me me' p o :
  reachable me → rtc step me me' → mem me !! p = Some o →
  ∃ o', mem me' !! p = Some o' ∧
        ID o' = ID o ∧ Symbol o' = Symbol o ∧ Side o' = Side o ∧
        Typ o' = Typ o ∧ Price o' = Price o ∧ Quantity o' = Quantity o ∧
        Timestamp o' = Timestamp o ∧
        FilledQuantity o ≤ FilledQuantity o' ≤ Quantity o.
Proof.
  intros Hr Hs. revert o. induction Hs as [me|me me1 me2 H1 H2 IH]; intros o Ho.
  - destruct (reachable_consistent me Hr) as [Hord _].
    destruct (Hord p o Ho) as (_ & ? & _).
    exists o. split_and!; try done; lia.
  - destruct (step_advances _ _ Hr H1 p o Ho) as (o1 & Ho1 & Ha).
    destruct (advances_terms _ _ Ha) as (?&?&?&?&?&?&?&?).
    destruct (IH (step_reachable _ _ Hr H1) o1 Ho1)
      as (o2 & Ho2 & ?&?&?&?&?&?&?&?&?).
    exists o2. split_and!; try congruence; try lia.
Qed.

Lemma orders_only_gain_fills_witness :
  ∃ o', mem afterFifo !! 1%nat = Some o' ∧
        ID o' = ID (ask15050 "t-0" 0 ACCEPTED) ∧
        Symbol o' = Symbol (ask15050 "t-0" 0 ACCEPTED) ∧
        Side o' = Side (ask15050 "t-0" 0 ACCEPTED) ∧
        Typ o' = Typ (ask15050 "t-0" 0 ACCEPTED) ∧
        Price o' = Price (ask15050 "t-0" 0 ACCEPTED) ∧
        Quantity o' = Quantity (ask15050 "t-0" 0 ACCEPTED) ∧
        Timestamp o' = Timestamp (ask15050 "t-0" 0 ACCEPTED) ∧
        FilledQuantity (ask15050 "t-0" 0 ACCEPTED) ≤ FilledQuantity o'
          ≤ Quantity (ask15050 "t-0" 0 ACCEPTED).
Proof.
  apply (orders_only_gain_fills threeAsks afterFifo 1%nat).
  - apply threeAsks_reachable.
  - apply rtc_once.
    apply (step_submit threeAsks (envNamed "b") "AAPL" BUY LIMIT 15050 150
             afterFifo (Ok fifoResult)).
    + unfold int64. lia.
    + unfold int64. lia.
    + apply fifo_submitted.
  - reflexivity.
Defined.

Lemma setStatus_same o : setStatus (Status o) o = o.
Proof. by destruct o. Qed.

Lemma step_final me me' p o :
  reachable me → NoDup (ids (mem me)) → step me me' →
  mem me !! p = Some o → Status o = FILLED ∨ Status o = CANCELLED →
  mem me' !! p = Some o.
Proof.
  intros Hr Hnd Hstep Ho Hterm.
  pose proof (reachable_wf me Hr) as Hwf.
  pose proof (reachable_consistent me Hr) as Hcons.
  pose proof (reachable_tidy me Hr Hnd) as Htidy.
  inversion Hstep as [me0 env symbol side typ price quantity me1 r Hp Hq Hs
                     |me0 ks orderID me1 r Hv Hc
                     |me0 now symbol depth me1 snap Hg]; subst.
  - assert (quantity < 2 ^ 63) as Hq63 by (unfold int64 in Hq; lia).
    assert (p < length (mem me))%nat as Hlt by by eapply lookup_lt_Some.
    assert (p ∉ flat (opposing side (bookOf me symbol))) as Hout.
    { intros Hin.
      pose proof (tidy_bookOf me symbol Htidy (flipSide side) p) as Hopen.
      replace (ownSide (flipSide side) (bookOf me symbol))
        with (opposing side (bookOf me symbol)) in Hopen by by destruct side.
      destruct (Hopen Hin) as (o1 & Ho1 & [Hst|Hst] & _);
        rewrite Ho in Ho1; injection Ho1 as <-; destruct Hterm; congruence. }
    apply SubmitOrder_submitted in Hs.
    assert (∀ h' opp' trades,
              matchLadder env side (length (mem me))
                (alloc env me symbol side typ price quantity)
                (opposing side (bookOf me symbol)) [] = Some (h', opp', trades) →
              0 < quantity → h' !! p = Some o) as Hmatch.
    { intros h' opp' trades Hm Hq0.
      destruct (submit_store _ _ _ _ _ _ _ _ _ _ Hwf (conj Hq0 Hq63) Hm)
        as (_ & _ & Hst).
      by destruct (Hst p o Ho) as [[? _]|[(? & _)|(_ & ? & _)]]. }
    destruct Hs as [?|?|avail Hq0 Ht Hav Hlow
                   |h' opp' trades xo' book'' Hq0 Ht Hp0 Hm Hxo' Hshort Hadd
                   |h' opp' trades xo' Hq0 Hp0 Hmk Hm Hxo' Hfull]; simpl.
    + done.
    + done.
    + by rewrite alloc_old.
    + by eapply Hmatch.
    + by eapply Hmatch.
  - destruct (findOrder (books me) orderID ks) as [[[k book] p1]|] eqn:Hfind;
      cycle 1.
    { unfold CancelOrder in Hc. rewrite Hfind in Hc. by simplify_eq. }
    pose proof Hfind as Hfind'.
    apply findOrder_Some in Hfind' as (Hk & Hpp & _).
    destruct Hcons as [_ Hbk].
    destruct (bs_registered _ _ _ (Hbk k book Hk) _ _ Hpp)
      as (o1 & Ho1 & _).
    destruct (decide (Status o1 = FILLED)) as [Hst|Hst].
    { rewrite (CancelOrder_filled _ _ _ _ _ _ _ Hfind Ho1 Hst) in Hc.
      by simplify_eq. }
    destruct (CancelOrder_found _ _ _ _ _ _ _ _ _ Hfind Ho1 Hst Hc)
      as (book' & _ & ->).
    simpl. destruct (decide (p1 = p)) as [->|Hne].
    + rewrite list_lookup_alter_eq, Ho. simpl. f_equal.
      rewrite Ho in Ho1. injection Ho1 as <-.
      destruct Hterm as [?|Hcanc]; [done|].
      rewrite <-Hcanc. apply setStatus_same.
    + by rewrite list_lookup_alter_ne.
  - by rewrite (GetOrderBook_mem _ _ _ _ _ _ Hg).
Qed.

(** X3.  FILLED and CANCELLED are final: with order ids that never repeat, a
    record in either status is never written again, whatever is called. *)
Theorem filled_and_cancelled_are_final me me' p o :
  reachable me → rtc step me me' → NoDup (ids (mem me')) →
  mem me !! p = Some o → Status o = FILLED ∨ Status o = CANCELLED →
  mem me' !! p = Some o.
Proof.
  intros Hr Hs. induction Hs as [me|me me1 me2 H1 H2 IH]; intros Hnd Ho Hterm.
  - done.
  - pose proof (step_reachable _ _ Hr H1) as Hr1.
    destruct (steps_ids _ _ Hr1 H2) as [k2 Hk2].
    destruct (step_ids _ _ Hr H1) as [k1 Hk1].
    assert (NoDup (ids (mem me1))) as Hnd1.
    { rewrite Hk2 in Hnd. by apply NoDup_app in Hnd as (? & _). }
    assert (NoDup (ids (mem me))) as Hnd0.
    { rewrite Hk1 in Hnd1. by apply NoDup_app in Hnd1 as (? & _). }
    apply IH; [done|done| |done].
    exact (step_final me me1 p o Hr Hnd0 H1 Ho Hterm).
Qed.

Lemma filled_and_cancelled_are_final_witness :
  mem afterCancel !! 0%nat = Some (ask15050 "s-0" 100 FILLED).
Proof.
  apply (filled_and_cancelled_are_final afterFifo afterCancel 0%nat).
  - apply afterFifo_reachable.
  - apply rtc_once.
    apply (step_cancel afterFifo ["AAPL"] "t-0" afterCancel (Ok ())).
    + apply afterFifo_visits.
    + apply afterFifo_cancelled.
  - apply afterCancel_distinct.
  - reflexivity.
  - left. reflexivity.
Defined.

(** ** Submissions *)

Lemma restingQty_alloc env me symbol side typ price quantity :
  wf_engine me →
  restingQty (alloc env me symbol side typ price quantity)
    (opposing side (bookOf me symbol))
  = restingQty (mem me) (opposing side (bookOf me symbol)).
Proof.
  intros Hwf. apply sumLeft_ext. intros p Hp.
  eapply (submit_old _ _ _ side); [done|]. set_solver.
Qed.

(** The liquidity scan wraps only when more than any int64 rests. *)
Lemma availableLiquidity_bound env me symbol side typ price quantity avail :
  wf_engine me →
  availableLiquidity (alloc env me symbol side typ price quantity)
    (opposing side (bookOf me symbol)) 0 = Some avail →
  avail = restingQty (mem me) (opposing side (bookOf me symbol)) ∨
  2 ^ 63 ≤ restingQty (mem me) (opposing side (bookOf me symbol)).
Proof.
  intros Hwf Hav.
  destruct (decide (restingQty (mem me) (opposing side (bookOf me symbol))
                    < 2 ^ 63)) as [Hfit|Hbig]; [left|right; lia].
  pose proof (submit_sides env me symbol side side typ price quantity Hwf)
    as [_ _ _ _ _ Hopp].
  rewrite (availableLiquidity_exact _ symbol (opposing side (bookOf me symbol)))
    in Hav; try done.
  - rewrite restingQty_alloc in Hav by done. injection Hav as <-. lia.
  - rewrite restingQty_alloc by done. lia.
Qed.

(** A MARKET order that passes the liquidity test is filled up. *)
Lemma market_filled env me symbol side price quantity avail h' opp' trades :
  wf_engine me → 0 < quantity < 2 ^ 63 →
  availableLiquidity (alloc env me symbol side MARKET price quantity)
    (opposing side (bookOf me symbol)) 0 = Some avail →
  quantity ≤ avail →
  matchLadder env side (length (mem me))
    (alloc env me symbol side MARKET price quantity)
    (opposing side (bookOf me symbol)) [] = Some (h', opp', trades) →
  sumQty trades = quantity.
Proof.
  intros Hwf Hq Hav Hge Hm.
  pose proof (submit_minv _ _ _ _ _ _ _ _ Hwf Hq Hm) as Hinv.
  destruct (submit_aggressor _ _ _ _ _ _ _ _ _ _ Hwf Hq Hm)
    as (v & Hx & Hv & Hsum).
  pose proof (minv_conserve _ _ _ _ _ _ _ _ _ _ trades Hinv eq_refl) as Hcons.
  rewrite restingQty_alloc in Hcons by done.
  destruct (matchLadder_exit _ _ _ _ _ _ _ _ _ Hm) as [->|(xo & Hxo & Hex)].
  - unfold restingQty in Hcons at 2. simpl in Hcons.
    destruct (availableLiquidity_bound _ _ _ _ _ _ _ _ Hwf Hav); lia.
  - rewrite Hx in Hxo. injection Hxo as <-. simpl in Hex.
    destruct Hex as [?|(best & rest & _ & Hstop)]; [lia|done].
Qed.

Lemma sumQty_positive trades :
  Forall (λ t, 0 < TradeQuantity t) trades → trades ≠ [] → 0 < sumQty trades.
Proof.
  induction 1 as [|t trades Ht Hall IH]; intros Hne; [done|]. simpl.
  destruct trades as [|t' trades]; [simpl; lia|].
  assert (0 < sumQty (t' :: trades)) by by apply IH. lia.
Qed.

(** Every trade of a submission, with the resting order it is against. *)
Lemma submit_trade env me symbol side typ price quantity h' opp' trades k t :
  wf_engine me → 0 < quantity < 2 ^ 63 →
  matchLadder env side (length (mem me))
    (alloc env me symbol side typ price quantity)
    (opposing side (bookOf me symbol)) [] = Some (h', opp', trades) →
  trades !! k = Some t →
  ∃ p ro n,
    flat (opposing side (bookOf me symbol)) !! k = Some p ∧
    mem me !! p = Some ro ∧
    trade_of side (NewOrder env symbol side typ price quantity) ro t n ∧
    0 < n ≤ Quantity ro - FilledQuantity ro.
Proof.
  intros Hwf Hq Hm Hk.
  pose proof (submit_minv _ _ _ _ _ _ _ _ Hwf Hq Hm) as Hinv.
  pose proof (submit_sides env me symbol side side typ price quantity Hwf)
    as [_ _ _ _ _ Hopp].
  destruct (minv_trades _ _ _ _ _ _ _ Hopp _ _ _ trades k t Hinv eq_refl Hk)
    as (p & o0 & n & Hp & Ho0 & Ht & Hn & _).
  exists p, o0, n. split_and!; try done; try lia.
  rewrite <-Ho0. symmetry. eapply (submit_old _ _ _ side); [done|].
  apply list_elem_of_lookup_2 in Hp. set_solver.
Qed.

(** The status a successful submission reports goes with its trades. *)
Lemma submit_status env me symbol side typ price quantity me' r :
  reachable me → int64 quantity →
  SubmitOrder env me symbol side typ price quantity = Some (me', Ok r) →
  Forall (λ t, 0 < TradeQuantity t) (Trades r) ∧
  ((ResStatus r = ACCEPTED ∧ Trades r = [] ∧ typ = LIMIT) ∨
   (ResStatus r = PARTIAL_FILL ∧ 0 < sumQty (Trades r) < quantity ∧
    typ = LIMIT) ∨
   (ResStatus r = FILLED ∧ sumQty (Trades r) = quantity)).
Proof.
  intros Hr Hq64 Hsub.
  pose proof (reachable_wf me Hr) as Hwf.
  assert (quantity < 2 ^ 63) as Hq63 by (unfold int64 in Hq64; lia).
  apply SubmitOrder_submitted in Hsub.
  destruct (submitted_ok _ _ _ _ _ _ _ _ _ Hwf Hq63 Hsub)
    as (opp' & v & Hq & Hm & Hx & Hv & Hsum & _ & Hfilled & Hcase).
  assert (Forall (λ t, 0 < TradeQuantity t) (Trades r)) as Hpos.
  { apply Forall_lookup. intros k t Hk.
    destruct (submit_trade _ _ _ _ _ _ _ _ _ _ _ _ Hwf (conj Hq Hq63) Hm Hk)
      as (p & ro & n & _ & _ & (_ & -> & _) & Hn). lia. }
  assert (v = 0 → Trades r = []) as Hnone.
  { intros Hv0. destruct (Trades r) as [|t l] eqn:Htr; [done|].
    assert (0 < sumQty (t :: l)); [|lia]. by apply sumQty_positive. }
  assert (typ = MARKET → v = quantity) as Hmkt.
  { intros ->.
    inversion Hsub as [| | |? ? ? ? ? ? Ht|h' opp'' trades xo' _ _ Hmk _ _ _];
      subst; [done|].
    destruct (Hmk eq_refl) as (avail & Hav & Hge).
    pose proof (market_filled _ _ _ _ _ _ _ _ _ _ Hwf (conj Hq Hq63) Hav Hge Hm).
    lia. }
  split; [done|]. rewrite <-Hsum.
  destruct Hcase as [(Hlim & Hlt & _ & -> & _)|(Hlim & _ & -> & _)].
  - destruct (Z.ltb_spec 0 v); [right; left|left].
    + split_and!; try done; lia.
    + split_and!; try done. apply Hnone. lia.
  - right. right.
    assert (v = quantity) as Heq by (destruct typ; auto).
    by rewrite Heq, Z.eqb_refl.
Qed.

(** X4.  What a successful submission reports adds up: the filled quantity
    is the sum of the trades, each for a positive quantity; filled and
    remaining quantity make up the order's size; the status is ACCEPTED with
    no trade, PARTIAL_FILL with some but not all of a LIMIT order filled, or
    FILLED with all of it filled.  A MARKET order that is not rejected is
    always FILLED. *)
Theorem result_adds_up env me symbol side typ price quantity me' r :
  reachable me → int64 quantity →
  SubmitOrder env me symbol side typ price quantity = Some (me', Ok r) →
  ResFilledQuantity r = sumQty (Trades r) ∧
  Forall (λ t, 0 < TradeQuantity t) (Trades r) ∧
  ResFilledQuantity r + RemainingQuantity r = quantity ∧
  ((ResStatus r = ACCEPTED ∧ Trades r = [] ∧ typ = LIMIT) ∨
   (ResStatus r = PARTIAL_FILL ∧ 0 < ResFilledQuantity r < quantity ∧
    typ = LIMIT) ∨
   (ResStatus r = FILLED ∧ ResFilledQuantity r = quantity)).
Proof.
  intros Hr Hq64 Hsub.
  destruct (submit_status _ _ _ _ _ _ _ _ _ Hr Hq64 Hsub) as [Hpos Hstatus].
  pose proof (reachable_wf me Hr) as Hwf.
  assert (quantity < 2 ^ 63) as Hq63 by (unfold int64 in Hq64; lia).
  apply SubmitOrder_submitted in Hsub.
  destruct (submitted_ok _ _ _ _ _ _ _ _ _ Hwf Hq63 Hsub)
    as (opp' & v & Hq & Hm & Hx & Hv & Hsum & _ & Hfilled & Hcase).
  rewrite Hfilled, <-Hsum in *.
  split_and!; [done|done| |done].
  destruct Hcase as [(_ & _ & -> & _)|(Hlim & -> & _)]; [lia|].
  assert (v = quantity) as Heq; [|lia].
  destruct Hstatus as [(_ & _ & Ht)|[(_ & _ & Ht)|(_ & Hfull)]]; auto.
Qed.

Lemma result_adds_up_witness :
  ResFilledQuantity partialFillResult = sumQty (Trades partialFillResult) ∧
  Forall (λ t, 0 < TradeQuantity t) (Trades partialFillResult) ∧
  ResFilledQuantity partialFillResult + RemainingQuantity partialFillResult
    = 100 ∧
  ((ResStatus partialFillResult = ACCEPTED ∧ Trades partialFillResult = [] ∧
    LIMIT = LIMIT) ∨
   (ResStatus partialFillResult = PARTIAL_FILL ∧
    0 < ResFilledQuantity partialFillResult < 100 ∧ LIMIT = LIMIT) ∨
   (ResStatus partialFillResult = FILLED ∧
    ResFilledQuantity partialFillResult = 100)).
Proof.
  apply (result_adds_up (envNamed "b") (oneAsk "AAPL" 15050 50) "AAPL" BUY
           LIMIT 15050 100 afterPartialFill partialFillResult).
  - apply oneAsk_reachable; lia.
  - unfold int64. lia.
  - apply partialFill_submitted.
Defined.

(** X5.  Every submission to a reachable engine is answered, and it is
    rejected only for cause: a quantity that is not positive; a LIMIT price
    that is not positive; a MARKET order for more than the liquidity scan
    found.  An order that is taken had a positive quantity, a positive price
    if LIMIT, and, if MARKET, no more than rested on the opposing ladder. *)
Theorem submission_is_rejected_only_for_cause env me symbol side typ price
    quantity :
  reachable me → int64 quantity →
  ∃ me' r,
    SubmitOrder env me symbol side typ price quantity = Some (me', r) ∧
    match r with
    | Ok _ =>
        0 < quantity ∧ (typ = LIMIT → 0 < price) ∧
        (typ = MARKET →
         quantity ≤ restingQty (mem me) (opposing side (bookOf me symbol)))
    | Err ErrQuantity => quantity ≤ 0
    | Err ErrPrice => 0 < quantity ∧ typ = LIMIT ∧ price ≤ 0
    | Err (ErrInsufficientLiquidity available requested) =>
        0 < quantity ∧ typ = MARKET ∧ requested = quantity ∧
        available < quantity ∧
        (available = restingQty (mem me) (opposing side (bookOf me symbol)) ∨
         2 ^ 63 ≤ restingQty (mem me) (opposing side (bookOf me symbol)))
    | Err _ => False
    end.
Proof.
  intros Hr Hq64.
  pose proof (reachable_wf me Hr) as Hwf.
  assert (quantity < 2 ^ 63) as Hq63 by (unfold int64 in Hq64; lia).
  destruct (SubmitOrder_total env me symbol side typ price quantity Hwf Hq63)
    as (me' & r & Hsub).
  exists me', r. split; [done|].
  apply SubmitOrder_submitted in Hsub.
  destruct Hsub as [?|?|avail Hq Ht Hav Hlow
                   |h' opp' trades xo' book'' Hq Ht Hp Hm Hxo' Hshort Hadd
                   |h' opp' trades xo' Hq Hp Hmk Hm Hxo' Hfull]; try done.
  - split_and!; try done.
    by eapply availableLiquidity_bound.
  - split_and!; try done. by intros ->.
  - split_and!; try done. intros ->.
    destruct (Hmk eq_refl) as (avail & Hav & Hge).
    destruct (availableLiquidity_bound _ _ _ _ _ _ _ _ Hwf Hav); lia.
Qed.

Lemma submission_is_rejected_only_for_cause_witness :
  ∃ me' r,
    SubmitOrder (envNamed "m") (oneAsk "GOOGL" 14000 50) "GOOGL" BUY MARKET 0
      100 = Some (me', r) ∧
    match r with
    | Ok _ =>
        0 < 100 ∧ (MARKET = LIMIT → 0 < 0) ∧
        (MARKET = MARKET →
         100 ≤ restingQty (mem (oneAsk "GOOGL" 14000 50))
                 (opposing BUY (bookOf (oneAsk "GOOGL" 14000 50) "GOOGL")))
    | Err ErrQuantity => 100 ≤ 0
    | Err ErrPrice => 0 < 100 ∧ MARKET = LIMIT ∧ 0 ≤ 0
    | Err (ErrInsufficientLiquidity available requested) =>
        0 < 100 ∧ MARKET = MARKET ∧ requested = 100 ∧ available < 100 ∧
        (available = restingQty (mem (oneAsk "GOOGL" 14000 50))
                       (opposing BUY (bookOf (oneAsk "GOOGL" 14000 50) "GOOGL")) ∨
         2 ^ 63 ≤ restingQty (mem (oneAsk "GOOGL" 14000 50))
                    (opposing BUY (bookOf (oneAsk "GOOGL" 14000 50) "GOOGL")))
    | Err _ => False
    end.
Proof.
  apply (submission_is_rejected_only_for_cause (envNamed "m")
           (oneAsk "GOOGL" 14000 50) "GOOGL" BUY MARKET 0 100).
  - apply oneAsk_reachable; lia.
  - unfold int64. lia.
Defined.

(** The records and the books after a rejection. *)
Lemma rejected_frame env me symbol side typ price quantity me' e :
  SubmitOrder env me symbol side typ price quantity = Some (me', Err e) →
  (∀ p o, mem me !! p = Some o → mem me' !! p = Some o) ∧
  (∀ s, bookOf me' s = bookOf me s).
Proof.
  intros Hsub. apply SubmitOrder_submitted in Hsub.
  inversion Hsub as [?|?|avail Hq Ht Hav Hlow| |]; subst; [done|done|].
  simpl. split.
  - intros p o Ho. rewrite alloc_old; [done|]. by eapply lookup_lt_Some.
  - intros s. unfold bookOf at 1. simpl.
    destruct (decide (symbol = s)) as [<-|Hne].
    + by rewrite lookup_insert_eq.
    + by rewrite lookup_insert_ne.
Qed.

(** X6.  A rejected submission changes no order and no ladder: every order
    record is as it was and every symbol has the book it had (an empty book
    where it had none).  The books of the other symbols are untouched, and a
    rejection by the validation leaves the engine as a whole as it was. *)
Theorem rejected_submission_changes_nothing env me symbol side typ price
    quantity me' e :
  SubmitOrder env me symbol side typ price quantity = Some (me', Err e) →
  (∀ p o, mem me !! p = Some o → mem me' !! p = Some o) ∧
  (∀ s, bookOf me' s = bookOf me s) ∧
  (∀ s, s ≠ symbol → books me' !! s = books me !! s) ∧
  (e = ErrQuantity ∨ e = ErrPrice → me' = me).
Proof.
  intros Hsub.
  destruct (rejected_frame _ _ _ _ _ _ _ _ _ Hsub) as [Hmem Hbooks].
  split_and!; [done|done|..];
    apply SubmitOrder_submitted in Hsub;
    inversion Hsub as [?|?|avail Hq Ht Hav Hlow| |]; subst; try done.
  - intros s Hne. simpl. by rewrite lookup_insert_ne.
  - by intros [|].
Qed.

Lemma rejected_submission_changes_nothing_witness :
  (∀ p o, mem twoLargeAsks !! p = Some o →
          mem (mkEngine (books twoLargeAsks)
                 (mem twoLargeAsks ++
                  [NewOrder (envNamed "m") "X" BUY MARKET 0 1])) !! p
          = Some o) ∧
  (∀ s, bookOf (mkEngine (books twoLargeAsks)
                  (mem twoLargeAsks ++
                   [NewOrder (envNamed "m") "X" BUY MARKET 0 1])) s
        = bookOf twoLargeAsks s) ∧
  (∀ s, s ≠ "X" →
        books (mkEngine (books twoLargeAsks)
                 (mem twoLargeAsks ++
                  [NewOrder (envNamed "m") "X" BUY MARKET 0 1])) !! s
        = books twoLargeAsks !! s) ∧
  (ErrInsufficientLiquidity (- 2 ^ 63) 1 = ErrQuantity ∨
   ErrInsufficientLiquidity (- 2 ^ 63) 1 = ErrPrice →
   mkEngine (books twoLargeAsks)
     (mem twoLargeAsks ++ [NewOrder (envNamed "m") "X" BUY MARKET 0 1])
   = twoLargeAsks).
Proof.
  apply (rejected_submission_changes_nothing (envNamed "m") twoLargeAsks "X"
           BUY MARKET 0 1).
  vm_compute. reflexivity.
Defined.

(** X7.  A submission stays within its symbol: the books of all other
    symbols, and every order record of another symbol, are as they were. *)
Theorem submission_stays_within_its_symbol env me symbol side typ price
    quantity me' r :
  reachable me → int64 quantity →
  SubmitOrder env me symbol side typ price quantity = Some (me', r) →
  (∀ s, s ≠ symbol → books me' !! s = books me !! s) ∧
  (∀ p o, mem me !! p = Some o → Symbol o ≠ symbol → mem me' !! p = Some o).
Proof.
  intros Hr Hq64 Hsub.
  pose proof (reachable_wf me Hr) as Hwf.
  assert (quantity < 2 ^ 63) as Hq63 by (unfold int64 in Hq64; lia).
  apply SubmitOrder_submitted in Hsub.
  assert (∀ h' opp' trades,
            matchLadder env side (length (mem me))
              (alloc env me symbol side typ price quantity)
              (opposing side (bookOf me symbol)) [] = Some (h', opp', trades) →
            0 < quantity →
            ∀ p o, mem me !! p = Some o → Symbol o ≠ symbol → h' !! p = Some o)
    as Hmatch.
  { intros h' opp' trades Hm Hq p o Ho Hsym.
    destruct (submit_store _ _ _ _ _ _ _ _ _ _ Hwf (conj Hq Hq63) Hm)
      as (_ & _ & Hst).
    pose proof (wf_bookOf me symbol Hwf) as Hb.
    apply (wf_book_sides side) in Hb. destruct Hb as [_ _ _ _ _ Hopp].
    destruct (Hst p o Ho) as [[? _]|[(Hin & _)|(_ & Hin & _)]]; [done| |];
      by destruct (wf_ladder_symbol _ _ _ _ _ Hopp Hin Ho). }
  destruct Hsub as [?|?|avail Hq Ht Hav Hlow
                   |h' opp' trades xo' book'' Hq Ht Hp Hm Hxo' Hshort Hadd
                   |h' opp' trades xo' Hq Hp Hmk Hm Hxo' Hfull]; simpl;
    try done.
  - split; [intros s Hne; by rewrite lookup_insert_ne|].
    intros p o Ho _. rewrite alloc_old; [done|]. by eapply lookup_lt_Some.
  - split; [intros s Hne; by rewrite lookup_insert_ne|]. by eapply Hmatch.
  - split; [intros s Hne; by rewrite lookup_insert_ne|]. by eapply Hmatch.
Qed.

Lemma submission_stays_within_its_symbol_witness :
  (∀ s, s ≠ "TSLA" →
        books twoBooks !! s = books (oneAsk "AAPL" 15050 100) !! s) ∧
  (∀ p o, mem (oneAsk "AAPL" 15050 100) !! p = Some o → Symbol o ≠ "TSLA" →
          mem twoBooks !! p = Some o).
Proof.
  apply (submission_stays_within_its_symbol (envNamed "t")
           (oneAsk "AAPL" 15050 100) "TSLA" SELL LIMIT 20000 100 twoBooks
           (Ok twoBooksResult)).
  - apply oneAsk_reachable; lia.
  - unfold int64. lia.
  - apply twoBooks_submitted.
Defined.

Lemma sumQty_member trades t :
  Forall (λ t, 0 < TradeQuantity t) trades → t ∈ trades →
  TradeQuantity t ≤ sumQty trades.
Proof.
  induction 1 as [|t' trades Ht Hall IH]; intros Hin.
  { by apply elem_of_nil in Hin. }
  assert (0 ≤ sumQty trades).
  { clear IH Hin. induction Hall as [|? ? ? ? IH']; simpl; lia. }
  simpl. apply elem_of_cons in Hin as [->|Hin]; [lia|].
  specialize (IH Hin). lia.
Qed.

(** X8.  A trade pairs the incoming order with a resting LIMIT order of the
    same symbol and the other side, for a positive quantity that is no more
    than the resting order had left and no more than the incoming order
    asked for. *)
Theorem trade_pairs_the_two_sides env me symbol side typ price quantity
    me' r t :
  reachable me → int64 quantity →
  SubmitOrder env me symbol side typ price quantity = Some (me', Ok r) →
  t ∈ Trades r →
  ∃ p ro,
    p ∈ flat (opposing side (bookOf me symbol)) ∧ mem me !! p = Some ro ∧
    Symbol ro = symbol ∧ Side ro = flipSide side ∧ Typ ro = LIMIT ∧
    match side with
    | BUY => BuyerID t = OrderID r ∧ SellerID t = ID ro
    | SELL => BuyerID t = ID ro ∧ SellerID t = OrderID r
    end ∧
    0 < TradeQuantity t ≤ Quantity ro - FilledQuantity ro ∧
    TradeQuantity t ≤ quantity.
Proof.
  intros Hr Hq64 Hsub Ht.
  pose proof (reachable_wf me Hr) as Hwf.
  pose proof (reachable_consistent me Hr) as Hcons.
  assert (quantity < 2 ^ 63) as Hq63 by (unfold int64 in Hq64; lia).
  apply SubmitOrder_submitted in Hsub.
  destruct (submitted_ok _ _ _ _ _ _ _ _ _ Hwf Hq63 Hsub)
    as (opp' & v & Hq & Hm & Hx & Hv & Hsum & Hid & _).
  assert (Forall (λ t, 0 < TradeQuantity t) (Trades r)) as Hpos.
  { apply Forall_lookup. intros k t' Hk.
    destruct (submit_trade _ _ _ _ _ _ _ _ _ _ _ _ Hwf (conj Hq Hq63) Hm Hk)
      as (p & ro & n & _ & _ & (_ & -> & _) & Hn). lia. }
  pose proof (sumQty_member _ _ Hpos Ht) as Hle.
  apply list_elem_of_lookup in Ht as [k Hk].
  destruct (submit_trade _ _ _ _ _ _ _ _ _ _ _ _ Hwf (conj Hq Hq63) Hm Hk)
    as (p & ro & n & Hp & Hro & (_ & Hn & _ & Hparty) & Hbound).
  apply list_elem_of_lookup_2 in Hp.
  pose proof (wf_bookOf me symbol Hwf) as Hb.
  apply (wf_book_sides side) in Hb. destruct Hb as [_ _ _ _ _ Hopp].
  destruct (wf_ladder_symbol _ _ _ _ _ Hopp Hp Hro) as [Hsym _].
  destruct (bs_queued _ _ _ (consistent_bookOf me symbol Hcons)
              (flipSide side) p) as (o1 & Ho1 & Hside & Htyp).
  { by destruct side. }
  rewrite Hro in Ho1. injection Ho1 as <-.
  exists p, ro. split_and!; try done; try lia.
  rewrite Hid. by destruct side.
Qed.

Lemma trade_pairs_the_two_sides_witness :
  ∃ p ro,
    p ∈ flat (opposing BUY (bookOf threeAsks "AAPL")) ∧
    mem threeAsks !! p = Some ro ∧
    Symbol ro = "AAPL" ∧ Side ro = flipSide BUY ∧ Typ ro = LIMIT ∧
    (BuyerID (mkTrade "b-2" 15050 50 0 "b-0" "t-0") = OrderID fifoResult ∧
     SellerID (mkTrade "b-2" 15050 50 0 "b-0" "t-0") = ID ro) ∧
    0 < TradeQuantity (mkTrade "b-2" 15050 50 0 "b-0" "t-0")
      ≤ Quantity ro - FilledQuantity ro ∧
    TradeQuantity (mkTrade "b-2" 15050 50 0 "b-0" "t-0") ≤ 150.
Proof.
  apply (trade_pairs_the_two_sides (envNamed "b") threeAsks "AAPL" BUY LIMIT
           15050 150 afterFifo fifoResult).
  - apply threeAsks_reachable.
  - unfold int64. lia.
  - apply fifo_submitted.
  - simpl. apply list_elem_of_further, list_elem_of_here.
Defined.

(** Along a ladder the queued orders' prices never improve. *)
Lemma flat_prices sd h s ls : ∀ k1 k2 p1 p2 o1 o2,
  sorted_for sd ls → wf_ladder h s ls →
  flat ls !! k1 = Some p1 → flat ls !! k2 = Some p2 → (k1 < k2)%nat →
  h !! p1 = Some o1 → h !! p2 = Some o2 →
  Price o1 = Price o2 ∨ priced sd (Price o1) (Price o2).
Proof.
  induction ls as [|l ls IH]; intros k1 k2 p1 p2 o1 o2 Hs Hwf H1 H2 Hlt Ho1 Ho2.
  { simpl in H1. by rewrite lookup_nil in H1. }
  unfold sorted_for in Hs. rewrite fmap_cons in Hs.
  apply StronglySorted_inv in Hs as [Hs Hall].
  pose proof Hwf as Hwf0. apply Forall_cons in Hwf0 as [[Hlvl _] Hwfr].
  rewrite Forall_forall in Hlvl.
  rewrite flat_cons in H1, H2.
  apply lookup_app_Some in H1 as [H1|[Hge1 H1]];
    apply lookup_app_Some in H2 as [H2|[Hge2 H2]].
  - left. apply list_elem_of_lookup_2 in H1, H2.
    destruct (Hlvl p1 H1) as (o1' & Ho1' & _ & Hp1 & _).
    destruct (Hlvl p2 H2) as (o2' & Ho2' & _ & Hp2 & _).
    simplify_eq. congruence.
  - right. apply list_elem_of_lookup_2 in H1, H2.
    destruct (Hlvl p1 H1) as (o1' & Ho1' & _ & Hp1 & _).
    apply elem_of_flat in H2 as (l2 & Hl2 & H2).
    unfold wf_ladder in Hwfr. rewrite Forall_forall in Hwfr.
    destruct (Hwfr l2 Hl2) as [Hr2 _]. rewrite Forall_forall in Hr2.
    destruct (Hr2 p2 H2) as (o2' & Ho2' & _ & Hp2 & _).
    simplify_eq. rewrite Hp1, Hp2.
    rewrite Forall_forall in Hall. apply Hall.
    apply list_elem_of_fmap. by exists l2.
  - apply lookup_lt_Some in H2. lia.
  - eapply (IH (k1 - length (LevelOrders l))%nat
               (k2 - length (LevelOrders l))%nat); try done. lia.
Qed.

(** X9.  Price priority: the trades of a submission come in the order of
    the book, best price first; for a BUY their prices never fall from one
    trade to the next, for a SELL they never rise. *)
Theorem trades_go_from_the_best_price env me symbol side typ price quantity
    me' r i j t1 t2 :
  reachable me → int64 quantity →
  SubmitOrder env me symbol side typ price quantity = Some (me', Ok r) →
  Trades r !! i = Some t1 → Trades r !! j = Some t2 → (i < j)%nat →
  match side with
  | BUY => TradePrice t1 ≤ TradePrice t2
  | SELL => TradePrice t2 ≤ TradePrice t1
  end.
Proof.
  intros Hr Hq64 Hsub H1 H2 Hlt.
  pose proof (reachable_wf me Hr) as Hwf.
  assert (quantity < 2 ^ 63) as Hq63 by (unfold int64 in Hq64; lia).
  apply SubmitOrder_submitted in Hsub.
  destruct (submitted_ok _ _ _ _ _ _ _ _ _ Hwf Hq63 Hsub)
    as (opp' & v & Hq & Hm & _).
  destruct (submit_trade _ _ _ _ _ _ _ _ _ _ _ _ Hwf (conj Hq Hq63) Hm H1)
    as (p1 & o1 & n1 & Hp1 & Ho1 & (Hpr1 & _) & _).
  destruct (submit_trade _ _ _ _ _ _ _ _ _ _ _ _ Hwf (conj Hq Hq63) Hm H2)
    as (p2 & o2 & n2 & Hp2 & Ho2 & (Hpr2 & _) & _).
  pose proof (wf_bookOf me symbol Hwf) as Hb.
  apply (wf_book_sides side) in Hb. destruct Hb as [_ Hs _ _ _ Hopp].
  destruct (flat_prices _ _ _ _ _ _ _ _ _ _ Hs Hopp Hp1 Hp2 Hlt Ho1 Ho2)
    as [Heq|Hpriced]; rewrite Hpr1, Hpr2.
  - rewrite Heq. destruct side; lia.
  - destruct side; simpl in Hpriced; lia.
Qed.

Lemma trades_go_from_the_best_price_witness :
  TradePrice (mkTrade "m-1" 20000 100 0 "m-0" "s-0")
  ≤ TradePrice (mkTrade "m-2" 20050 50 0 "m-0" "t-0").
Proof.
  apply (trades_go_from_the_best_price (envNamed "m") tslaAsks "TSLA" BUY
           MARKET 0 150 afterMarket marketResult 0%nat 1%nat).
  - apply tslaAsks_reachable.
  - unfold int64. lia.
  - apply market_submitted.
  - reflexivity.
  - reflexivity.
  - lia.
Defined.

(** X10.  Priority by time, at insertion: a LIMIT order that comes to rest
    joins the back of the queue of the level at its price, behind every order
    already there, or opens that level if there was none; the other levels
    of its ladder are the ones there were. *)
Theorem resting_order_queues_last env me symbol side typ price quantity
    me' r :
  reachable me → int64 quantity →
  SubmitOrder env me symbol side typ price quantity = Some (me', Ok r) →
  0 < RemainingQuantity r →
  ∃ xo q,
    mem me' !! length (mem me) = Some xo ∧ ID xo = OrderID r ∧
    mkLevel price (q ++ [length (mem me)]) ∈ ownSide side (bookOf me' symbol) ∧
    (mkLevel price q ∈ ownSide side (bookOf me symbol) ∨
     (q = [] ∧ price ∉ LevelPrice <$> ownSide side (bookOf me symbol))) ∧
    ∀ l, LevelPrice l ≠ price →
         l ∈ ownSide side (bookOf me' symbol) ↔
         l ∈ ownSide side (bookOf me symbol).
Proof.
  intros Hr Hq64 Hsub Hrem.
  pose proof (reachable_wf me Hr) as Hwf.
  assert (quantity < 2 ^ 63) as Hq63 by (unfold int64 in Hq64; lia).
  apply SubmitOrder_submitted in Hsub.
  destruct (submitted_ok _ _ _ _ _ _ _ _ _ Hwf Hq63 Hsub)
    as (opp' & v & Hq & Hm & Hx & Hv & Hsum & Hid & _ & Hcase).
  destruct Hcase as [(_ & _ & _ & _ & b'' & Hbooks & Hown & _)|(_ & Hz & _)];
    [|lia].
  assert (bookOf me' symbol = b'') as ->.
  { unfold bookOf. by rewrite Hbooks, lookup_insert_eq. }
  rewrite Hown, addTo_unfold. simpl.
  exists (withFill v ACCEPTED (NewOrder env symbol side typ price quantity)).
  destruct (appendAtPrice price (length (mem me))
              (ownSide side (bookOf me symbol))) as [ls'|] eqn:Happ.
  - apply appendAtPrice_Some in Happ as (l1 & q & l2 & Hls & ->).
    exists q. rewrite Hls. split_and!; [done|done|set_solver|left; set_solver|].
    intros l Hl. rewrite !elem_of_app, !elem_of_cons.
    split; (intros [?|[->|?]]; [by left|done|by right; right]).
  - apply appendAtPrice_None in Happ.
    exists []. split_and!; [done|done| |by right|].
    + rewrite sortSlice_perm. set_solver.
    + intros l Hl. rewrite sortSlice_perm. rewrite elem_of_app.
      split; [|by left].
      intros [?|Hin]; [done|]. apply list_elem_of_singleton in Hin as ->. done.
Qed.

Lemma resting_order_queues_last_witness :
  ∃ xo q,
    mem twoAsks !! length (mem (oneAsk "AAPL" 15050 100)) = Some xo ∧
    ID xo = OrderID twoAsksResult ∧
    mkLevel 15050 (q ++ [length (mem (oneAsk "AAPL" 15050 100))])
      ∈ ownSide SELL (bookOf twoAsks "AAPL") ∧
    (mkLevel 15050 q ∈ ownSide SELL (bookOf (oneAsk "AAPL" 15050 100) "AAPL") ∨
     (q = [] ∧
      15050 ∉ LevelPrice <$>
                ownSide SELL (bookOf (oneAsk "AAPL" 15050 100) "AAPL"))) ∧
    ∀ l, LevelPrice l ≠ 15050 →
         l ∈ ownSide SELL (bookOf twoAsks "AAPL") ↔
         l ∈ ownSide SELL (bookOf (oneAsk "AAPL" 15050 100) "AAPL").
Proof.
  apply (resting_order_queues_last (envNamed "t") (oneAsk "AAPL" 15050 100)
           "AAPL" SELL LIMIT 15050 100 twoAsks twoAsksResult).
  - apply oneAsk_reachable; lia.
  - unfold int64. lia.
  - apply twoAsks_submitted.
  - simpl. lia.
Defined.

(** ** Looking orders up *)

(** With distinct ids, an id is in the map of one book at most. *)
Lemma registered_once me s b id p :
  consistent me → NoDup (ids (mem me)) →
  books me !! s = Some b → BookOrders b !! id = Some p →
  ∀ s' b', s' ≠ s → books me !! s' = Some b' → BookOrders b' !! id = None.
Proof.
  intros [_ Hbk] Hnd Hb Hp s' b' Hne Hb'.
  destruct (BookOrders b' !! id) as [p'|] eqn:Hp'; [|done].
  destruct (bs_registered _ _ _ (Hbk s b Hb) _ _ Hp) as (o & Ho & Hid & Hs & _).
  destruct (bs_registered _ _ _ (Hbk s' b' Hb') _ _ Hp')
    as (o' & Ho' & Hid' & Hs' & _).
  assert (p = p') as <- by (eapply ids_inj; [done..|congruence]).
  congruence.
Qed.

Lemma findOrder_visits me ks ks' id :
  consistent me → NoDup (ids (mem me)) → visits me ks → visits me ks' →
  findOrder (books me) id ks = findOrder (books me) id ks'.
Proof.
  intros Hcons Hnd Hv Hv'.
  destruct (findOrder (books me) id ks) as [[[k book] p]|] eqn:Hfind.
  - apply findOrder_Some in Hfind as (Hk & Hp & _). symmetry.
    apply findOrder_unique; try done.
    + by eapply visits_elem.
    + by eapply registered_once.
  - destruct (findOrder (books me) id ks') as [[[k' book'] p']|] eqn:Hfind';
      [|done].
    apply findOrder_Some in Hfind' as (Hk' & Hp' & _).
    pose proof (visits_elem _ _ _ _ Hv Hk') as Hin.
    by rewrite (findOrder_None _ _ _ Hfind k' book' Hin Hk') in Hp'.
Qed.

(** X11.  [GetOrder] either reports "order not found" or returns a record
    with the id asked for, and that record is a LIMIT order that came to
    rest: MARKET orders and orders filled on arrival are never returned. *)
Theorem GetOrder_returns_orders_that_rested ks me id :
  reachable me →
  GetOrder ks me id = Some (Err ErrNotFound) ∨
  ∃ o s, GetOrder ks me id = Some (Ok o) ∧
         ID o = id ∧ Symbol o = s ∧ is_Some (books me !! s) ∧ Typ o = LIMIT ∧
         (FilledQuantity o < Quantity o ∨ Status o = FILLED).
Proof.
  intros Hr. destruct (reachable_consistent me Hr) as [_ Hbk].
  unfold GetOrder.
  destruct (findOrder (books me) id ks) as [[[k book] p]|] eqn:Hfind;
    [|by left].
  apply findOrder_Some in Hfind as (Hk & Hp & _).
  destruct (bs_registered _ _ _ (Hbk k book Hk) _ _ Hp)
    as (o & Ho & Hid & Hs & Ht & Hset).
  right. exists o, k. rewrite Ho. by split_and!.
Qed.

Lemma GetOrder_returns_orders_that_rested_witness :
  GetOrder ["TSLA"] afterMarket "m-0" = Some (Err ErrNotFound) ∨
  ∃ o s, GetOrder ["TSLA"] afterMarket "m-0" = Some (Ok o) ∧
         ID o = "m-0" ∧ Symbol o = s ∧ is_Some (books afterMarket !! s) ∧
         Typ o = LIMIT ∧ (FilledQuantity o < Quantity o ∨ Status o = FILLED).
Proof.
  apply (GetOrder_returns_orders_that_rested ["TSLA"] afterMarket "m-0").
  apply afterMarket_reachable.
Defined.

(** X12.  With order ids that never repeat, the order in which Go's [range]
    visits the books does not matter: [GetOrder] and [CancelOrder] give the
    same answer, and the same engine, in every visiting order. *)
Theorem lookup_ignores_map_order ks ks' me id :
  reachable me → NoDup (ids (mem me)) → visits me ks → visits me ks' →
  GetOrder ks me id = GetOrder ks' me id ∧
  CancelOrder ks me id = CancelOrder ks' me id.
Proof.
  intros Hr Hnd Hv Hv'.
  pose proof (findOrder_visits me ks ks' id (reachable_consistent me Hr)
                Hnd Hv Hv') as Heq.
  unfold GetOrder, CancelOrder. by rewrite Heq.
Qed.

Lemma lookup_ignores_map_order_witness :
  GetOrder ["AAPL"; "TSLA"] twoBooks "t-0"
  = GetOrder ["TSLA"; "AAPL"] twoBooks "t-0" ∧
  CancelOrder ["AAPL"; "TSLA"] twoBooks "t-0"
  = CancelOrder ["TSLA"; "AAPL"] twoBooks "t-0".
Proof.
  apply (lookup_ignores_map_order ["AAPL"; "TSLA"] ["TSLA"; "AAPL"] twoBooks
           "t-0").
  - apply twoBooks_reachable.
  - apply twoBooks_distinct.
  - apply twoBooks_visits_1.
  - apply twoBooks_visits_2.
Defined.

(** ** What the ladders hold *)

(** X13.  With order ids that never repeat, everything queued on a ladder of
    a reachable engine is an open LIMIT order of the book's symbol, of the
    ladder's side and of the level's price, with quantity left, and the
    book's map leads from its id to it; no level is empty and every level
    has a positive price. *)
Theorem ladders_hold_open_limit_orders me s b side l :
  reachable me → NoDup (ids (mem me)) →
  books me !! s = Some b → l ∈ ownSide side b →
  0 < LevelPrice l ∧ LevelOrders l ≠ [] ∧
  ∀ p, p ∈ LevelOrders l →
    ∃ o, mem me !! p = Some o ∧
         Symbol o = s ∧ Side o = side ∧ Typ o = LIMIT ∧
         Price o = LevelPrice l ∧
         0 ≤ FilledQuantity o < Quantity o ∧
         (Status o = ACCEPTED ∨ Status o = PARTIAL_FILL) ∧
         BookOrders b !! ID o = Some p.
Proof.
  intros Hr Hnd Hb Hl.
  pose proof (reachable_wf me Hr s b Hb) as Hwf.
  apply (wf_book_sides side) in Hwf. destruct Hwf as [_ _ _ _ Hown _].
  destruct (reachable_consistent me Hr) as [Hord Hbk].
  destruct (Hbk s b Hb) as [_ Hne Hqueued _].
  pose proof (reachable_tidy me Hr Hnd s b Hb) as Htidy.
  assert (∀ p, p ∈ LevelOrders l →
    ∃ o, mem me !! p = Some o ∧
         Symbol o = s ∧ Side o = side ∧ Typ o = LIMIT ∧
         Price o = LevelPrice l ∧
         0 ≤ FilledQuantity o < Quantity o ∧
         (Status o = ACCEPTED ∨ Status o = PARTIAL_FILL) ∧
         BookOrders b !! ID o = Some p) as Hall.
  { intros p Hp.
    assert (p ∈ flat (ownSide side b)) as Hin by (apply elem_of_flat; eauto).
    unfold wf_ladder in Hown. rewrite Forall_forall in Hown.
    destruct (Hown l Hl) as [Hrests _]. rewrite Forall_forall in Hrests.
    destruct (Hrests p Hp) as (o & Ho & Hsym & Hpr & H0 & Hlt & _).
    destruct (Hqueued side p Hin) as (o1 & Ho1 & Hside & Htyp).
    destruct (Htidy side p Hin) as (o2 & Ho2 & Hopen & Hreg).
    simplify_eq. exists o. split_and!; done. }
  split_and!; [|by eapply Hne|done].
  destruct (LevelOrders l) as [|p q] eqn:Hq; [by destruct (Hne side l Hl)|].
  destruct (Hall p) as (o & Ho & _ & _ & Htyp & Hpr & _); [set_solver|].
  destruct (Hord p o Ho) as (_ & _ & _ & _ & _ & Hpos).
  rewrite <-Hpr. by apply Hpos.
Qed.

Lemma ladders_hold_open_limit_orders_witness :
  0 < LevelPrice (mkLevel 15050 [1%nat; 2%nat]) ∧
  LevelOrders (mkLevel 15050 [1%nat; 2%nat]) ≠ [] ∧
  ∀ p, p ∈ LevelOrders (mkLevel 15050 [1%nat; 2%nat]) →
    ∃ o, mem afterFifo !! p = Some o ∧
         Symbol o = "AAPL" ∧ Side o = SELL ∧ Typ o = LIMIT ∧
         Price o = LevelPrice (mkLevel 15050 [1%nat; 2%nat]) ∧
         0 ≤ FilledQuantity o < Quantity o ∧
         (Status o = ACCEPTED ∨ Status o = PARTIAL_FILL) ∧
         BookOrders (mkBook "AAPL" [] [mkLevel 15050 [1%nat; 2%nat]]
                       {[ "s-0" := 0%nat; "t-0" := 1%nat; "u-0" := 2%nat ]})
           !! ID o = Some p.
Proof.
  apply (ladders_hold_open_limit_orders afterFifo "AAPL"
           (mkBook "AAPL" [] [mkLevel 15050 [1%nat; 2%nat]]
              {[ "s-0" := 0%nat; "t-0" := 1%nat; "u-0" := 2%nat ]}) SELL).
  - apply afterFifo_reachable.
  - apply afterFifo_distinct.
  - vm_compute. reflexivity.
  - simpl. apply list_elem_of_here.
Defined.

(** ** Cancelling *)

Lemma removeById_total h id q :
  (∀ p, p ∈ q → is_Some (h !! p)) → is_Some (removeById h id q).
Proof.
  induction q as [|p q IH]; intros Hq; simpl; [done|].
  destruct (Hq p) as [o Ho]; [set_solver|]. rewrite Ho. simpl.
  destruct (String.eqb (ID o) id); [done|].
  destruct IH as [q' ->]; [intros; apply Hq; set_solver|]. done.
Qed.

Lemma removeFromLevels_total h o ls :
  (∀ p, p ∈ flat ls → is_Some (h !! p)) → is_Some (removeFromLevels h o ls).
Proof.
  induction ls as [|[pr q] ls IH]; intros Hls; simpl; [done|].
  rewrite flat_cons in Hls. simpl in Hls.
  destruct (pr =? Price o).
  - destruct (removeById_total h (ID o) q) as [q' ->];
      [intros; apply Hls; set_solver|]. done.
  - destruct IH as [ls' ->]; [intros; apply Hls; set_solver|]. done.
Qed.

Lemma CancelOrder_total ks me id :
  wf_engine me → consistent me → is_Some (CancelOrder ks me id).
Proof.
  intros Hwf [_ Hbk]. unfold CancelOrder.
  destruct (findOrder (books me) id ks) as [[[k book] p]|] eqn:Hfind; [|done].
  apply findOrder_Some in Hfind as (Hk & Hp & _).
  destruct (bs_registered _ _ _ (Hbk k book Hk) _ _ Hp) as (o & Ho & _).
  rewrite Ho. simpl. destruct (bool_decide (Status o = FILLED)); [done|].
  set (h := alter (setStatus CANCELLED) p (mem me)).
  assert (∀ side p', p' ∈ flat (ownSide side book) → is_Some (h !! p')) as Hval.
  { intros side p' Hp'. apply lookup_lt_is_Some_2. unfold h.
    rewrite length_alter. eapply wf_sides_lt; [exact (Hwf k book Hk)|].
    destruct side; set_solver. }
  unfold RemoveOrder. rewrite Hp.
  assert (h !! p = Some (setStatus CANCELLED o)) as ->.
  { unfold h. by rewrite list_lookup_alter_eq, Ho. }
  simpl. destruct (Side o).
  - destruct (removeFromLevels_total h (setStatus CANCELLED o) (Bids book))
      as [ls Hls]; [apply (Hval BUY)|].
    unfold removeFromBids. by rewrite Hls.
  - destruct (removeFromLevels_total h (setStatus CANCELLED o) (Asks book))
      as [ls Hls]; [apply (Hval SELL)|].
    unfold removeFromAsks. by rewrite Hls.
Qed.

(** X14.  Cancelling an order that [GetOrder] shows and that is not FILLED
    succeeds (ids never repeating): the record is marked CANCELLED, and
    [GetOrder] shows it so; the order is off every ladder, which are
    otherwise as they were, queue by queue; the id maps are as they were. *)
Theorem cancel_takes_the_order_off_the_book ks me id o :
  reachable me → NoDup (ids (mem me)) → visits me ks →
  GetOrder ks me id = Some (Ok o) → Status o ≠ FILLED →
  ∃ me' p,
    CancelOrder ks me id = Some (me', Ok ()) ∧
    mem me !! p = Some o ∧
    mem me' = <[p := setStatus CANCELLED o]> (mem me) ∧
    (∀ s side, flat (ownSide side (bookOf me' s))
               = filter (λ q, q ≠ p) (flat (ownSide side (bookOf me s)))) ∧
    (∀ s, BookOrders (bookOf me' s) = BookOrders (bookOf me s)) ∧
    ∀ ks', visits me' ks' →
           GetOrder ks' me' id = Some (Ok (setStatus CANCELLED o)).
Proof.
  intros Hr Hnd Hv Hget Hst.
  pose proof (reachable_wf me Hr) as Hwf.
  pose proof (reachable_consistent me Hr) as Hcons.
  unfold GetOrder in Hget.
  destruct (findOrder (books me) id ks) as [[[k book] p]|] eqn:Hfind;
    [|by simplify_eq].
  destruct (mem me !! p) as [o'|] eqn:Ho; [|done]. simpl in Hget.
  injection Hget as ->.
  destruct (CancelOrder_total ks me id Hwf Hcons) as [[me' r] Hc].
  destruct (cancel_effect _ _ _ _ _ _ _ _ _ Hwf Hcons Hnd Hfind Ho Hst Hc)
    as (-> & book' & -> & Hmap & _ & Hflat).
  apply findOrder_Some in Hfind as (Hk & Hp & _).
  destruct Hcons as [Hord Hbk].
  destruct (bs_registered _ _ _ (Hbk k book Hk) _ _ Hp)
    as (o1 & Ho1 & _ & Hsym & _).
  rewrite Ho in Ho1. injection Ho1 as <-.
  exists (mkEngine (<[k := book']> (books me))
                   (alter (setStatus CANCELLED) p (mem me))), p.
  simpl. split_and!; [done|done|by apply alter_insert| | |].
  - intros s side. unfold bookOf. simpl.
    destruct (decide (k = s)) as [<-|Hne].
    + rewrite lookup_insert_eq, Hk. simpl. apply Hflat.
    + rewrite lookup_insert_ne by done. rewrite filter_other; [done|].
      destruct (books me !! s) as [b|] eqn:Hb; simpl; cycle 1.
      { destruct side; apply not_elem_of_nil. }
      intros Hin. pose proof (Hwf s b Hb) as Hwfb.
      apply (wf_book_sides side) in Hwfb. destruct Hwfb as [_ _ _ _ Hown _].
      destruct (wf_ladder_symbol _ _ _ _ _ Hown Hin Ho). congruence.
  - intros s. unfold bookOf. simpl.
    destruct (decide (k = s)) as [<-|Hne].
    + by rewrite lookup_insert_eq, Hk.
    + by rewrite lookup_insert_ne.
  - intros ks' Hv'. unfold GetOrder. simpl.
    rewrite (findOrder_unique _ id ks' k book' p).
    + by rewrite list_lookup_alter_eq, Ho.
    + eapply visits_elem; [done|]. simpl. apply lookup_insert_eq.
    + apply lookup_insert_eq.
    + by rewrite Hmap.
    + intros s' b' Hne Hb'. rewrite lookup_insert_ne in Hb' by done.
      eapply (registered_once me k book id p); try done.
Qed.

Lemma cancel_takes_the_order_off_the_book_witness :
  ∃ me' p,
    CancelOrder ["AAPL"] afterFifo "t-0" = Some (me', Ok ()) ∧
    mem afterFifo !! p = Some (ask15050 "t-0" 50 PARTIAL_FILL) ∧
    mem me' = <[p := setStatus CANCELLED (ask15050 "t-0" 50 PARTIAL_FILL)]>
                (mem afterFifo) ∧
    (∀ s side, flat (ownSide side (bookOf me' s))
               = filter (λ q, q ≠ p) (flat (ownSide side (bookOf afterFifo s)))) ∧
    (∀ s, BookOrders (bookOf me' s) = BookOrders (bookOf afterFifo s)) ∧
    ∀ ks', visits me' ks' →
           GetOrder ks' me' "t-0"
           = Some (Ok (setStatus CANCELLED (ask15050 "t-0" 50 PARTIAL_FILL))).
Proof.
  apply (cancel_takes_the_order_off_the_book ["AAPL"] afterFifo "t-0"
           (ask15050 "t-0" 50 PARTIAL_FILL)).
  - apply afterFifo_reachable.
  - apply afterFifo_distinct.
  - apply afterFifo_visits.
  - vm_compute. reflexivity.
  - simpl. discriminate.
Defined.

(** [RemoveOrder] succeeds on an id the book knows. *)
Lemma RemoveOrder_known h id book p book' r :
  BookOrders book !! id = Some p →
  RemoveOrder h id book = Some (book', r) → r = Ok ().
Proof.
  intros Hp H. unfold RemoveOrder in H. rewrite Hp in H.
  destruct (h !! p) as [o|]; [|done]. simpl in H. destruct (Side o).
  - destruct (removeFromBids _ _ _); [|done]. simpl in H. by simplify_eq.
  - destruct (removeFromAsks _ _ _); [|done]. simpl in H. by simplify_eq.
Qed.

(** X15.  [CancelOrder] fails in two cases only, and then changes nothing:
    no visited book knows the id ("order not found"), or the order found is
    FILLED ("cannot cancel: order already filled"). *)
Theorem cancel_error_changes_nothing ks me id me' e :
  CancelOrder ks me id = Some (me', Err e) →
  me' = me ∧
  ((e = ErrNotFound ∧ findOrder (books me) id ks = None) ∨
   (e = ErrAlreadyFilled ∧
    ∃ k book p o, findOrder (books me) id ks = Some (k, book, p) ∧
                  mem me !! p = Some o ∧ Status o = FILLED)).
Proof.
  intros H. unfold CancelOrder in H.
  destruct (findOrder (books me) id ks) as [[[k book] p]|] eqn:Hfind; cycle 1.
  { injection H as <- <-. split; [done|]. by left. }
  destruct (mem me !! p) as [o|] eqn:Ho; [|done]. simpl in H.
  destruct (decide (Status o = FILLED)) as [Hst|Hst].
  - rewrite bool_decide_eq_true_2 in H by done. injection H as <- <-.
    split; [done|]. right. split; [done|]. by exists k, book, p, o.
  - rewrite bool_decide_eq_false_2 in H by done. exfalso.
    apply findOrder_Some in Hfind as (_ & Hp & _).
    destruct (RemoveOrder _ id book) as [[book' r]|] eqn:Hrm; [|done].
    simpl in H. injection H as _ Hr.
    by rewrite (RemoveOrder_known _ _ _ _ _ _ Hp Hrm) in Hr.
Qed.

Lemma cancel_error_changes_nothing_witness :
  afterFifo = afterFifo ∧
  ((ErrAlreadyFilled = ErrNotFound ∧
    findOrder (books afterFifo) "s-0" ["AAPL"] = None) ∨
   (ErrAlreadyFilled = ErrAlreadyFilled ∧
    ∃ k book p o,
      findOrder (books afterFifo) "s-0" ["AAPL"] = Some (k, book, p) ∧
      mem afterFifo !! p = Some o ∧ Status o = FILLED)).
Proof.
  apply (cancel_error_changes_nothing ["AAPL"] afterFifo "s-0" afterFifo
           ErrAlreadyFilled).
  vm_compute. reflexivity.
Defined.

(** ** The order book on its own: [AddOrder], [RemoveOrder],
    [RemoveFromPriceLevels], [GetBestBid], [GetBestAsk] *)

(** [RemoveFromPriceLevels]: as [RemoveOrder], from the order itself
    instead of its id. *)
Definition RemoveFromPriceLevels (h : list Order) (x : ptr) (ob : OrderBook)
    : option OrderBook :=
  o ← h !! x;
  match Side o with
  | BUY => bids ← removeFromBids h o (Bids ob); Some (setBids bids ob)
  | SELL => asks ← removeFromAsks h o (Asks ob); Some (setAsks asks ob)
  end.

Lemma removeById_last h x o q :
  h !! x = Some o →
  (∀ p, p ∈ q → ∃ o', h !! p = Some o' ∧ ID o' ≠ ID o) →
  removeById h (ID o) (q ++ [x]) = Some q.
Proof.
  intros Hx. induction q as [|p q IH]; intros Hq; simpl.
  - rewrite Hx. simpl. by rewrite String.eqb_refl.
  - destruct (Hq p) as (o' & Ho' & Hne); [set_solver|]. rewrite Ho'. simpl.
    destruct (String.eqb_spec (ID o') (ID o)); [done|].
    rewrite IH; [done|]. intros; apply Hq; set_solver.
Qed.

Lemma removeFromLevels_append h o x ls : ∀ ls',
  h !! x = Some o → no_empty_level ls →
  (∀ p, p ∈ flat ls → ∃ o', h !! p = Some o' ∧ ID o' ≠ ID o) →
  appendAtPrice (Price o) x ls = Some ls' →
  removeFromLevels h o ls' = Some ls.
Proof.
  induction ls as [|[pr q] ls IH]; intros ls' Hx Hne Hids Happ; simpl in Happ;
    [done|].
  apply Forall_cons in Hne as [Hq Hne]. simpl in Hq.
  rewrite flat_cons in Hids. simpl in Hids.
  destruct (Z.eqb_spec pr (Price o)) as [->|Hpr].
  - injection Happ as <-. simpl. rewrite Z.eqb_refl.
    rewrite (removeById_last h x o q); [|done|intros; apply Hids; set_solver].
    simpl. by destruct q.
  - destruct (appendAtPrice (Price o) x ls) as [ls1|] eqn:Hls; [|done].
    injection Happ as <-. simpl.
    destruct (Z.eqb_spec pr (Price o)); [done|].
    rewrite (IH ls1); [done|done|done| |done].
    intros; apply Hids; set_solver.
Qed.

Lemma removeFromLevels_single h o x l1 l2 :
  h !! x = Some o → Price o ∉ LevelPrice <$> l1 →
  removeFromLevels h o (l1 ++ mkLevel (Price o) [x] :: l2) = Some (l1 ++ l2).
Proof.
  intros Hx. induction l1 as [|[pr q] l1 IH]; intros Hpr; simpl.
  - rewrite Z.eqb_refl, Hx. simpl. by rewrite String.eqb_refl.
  - rewrite fmap_cons in Hpr. apply not_elem_of_cons in Hpr as [Hne Hpr].
    simpl in Hne. destruct (Z.eqb_spec pr (Price o)); [done|].
    by rewrite IH.
Qed.

Lemma sorted_for_unique side ls ls' :
  sorted_for side ls → sorted_for side ls' → ls' ≡ₚ ls → ls' = ls.
Proof.
  intros Hs Hs' Hp.
  pose proof (sorted_for_NoDup _ _ Hs) as Hnd.
  rewrite (sortSlice_unique side ls ls' Hnd Hp Hs').
  symmetry. by apply sortSlice_unique.
Qed.

Lemma removeFromLevels_addTo side h o x ls :
  sorted_for side ls → no_empty_level ls → h !! x = Some o →
  (∀ p, p ∈ flat ls → ∃ o', h !! p = Some o' ∧ ID o' ≠ ID o) →
  removeFromLevels h o (addTo side o x ls) = Some ls.
Proof.
  intros Hs Hne Hx Hids. rewrite addTo_unfold.
  destruct (appendAtPrice (Price o) x ls) as [ls'|] eqn:Happ.
  { by eapply removeFromLevels_append. }
  apply appendAtPrice_None in Happ.
  set (new := mkLevel (Price o) [x]).
  set (L := sortSlice (lessFor side) (ls ++ [new])).
  assert (NoDup (LevelPrice <$> ls ++ [new])) as Hnd.
  { rewrite fmap_app. simpl. apply NoDup_app. split_and!.
    - by eapply sorted_for_NoDup.
    - intros p Hp Hin. apply list_elem_of_singleton in Hin as ->. done.
    - apply NoDup_singleton. }
  assert (sorted_for side L) as HL by by apply sortSlice_sorted.
  assert (L ≡ₚ new :: ls) as Hperm.
  { unfold L. rewrite sortSlice_perm. by rewrite <-Permutation_cons_append. }
  assert (new ∈ L) as Hin by (rewrite Hperm; set_solver).
  apply list_elem_of_split in Hin as (l1 & l2 & HLeq).
  rewrite HLeq in *.
  assert (l1 ++ l2 ≡ₚ ls) as Hp12.
  { apply (Permutation_cons_inv (a := new)). by rewrite Permutation_middle. }
  pose proof (sorted_for_NoDup _ _ HL) as HndL.
  rewrite fmap_app, fmap_cons in HndL.
  apply NoDup_app in HndL as (_ & Hdisj & _).
  unfold new. rewrite removeFromLevels_single; [|done|].
  - f_equal. apply (sorted_for_unique side); [done| |done].
    unfold sorted_for in *. eapply StronglySorted_sublist; [|exact HL].
    rewrite !fmap_app, fmap_cons. apply sublist_app; [done|].
    by apply sublist_cons.
  - intros Hin. apply (Hdisj _ Hin). simpl. set_solver.
Qed.

(** X16.  Removing undoes adding: on a well-formed book without empty
    levels, [AddOrder] of an order whose id no queued order has, followed by
    [RemoveOrder] of that id, or by [RemoveFromPriceLevels] of that order,
    gives back both ladders exactly; the id stays in the book's map. *)
Theorem remove_undoes_add h s x o b b' :
  wf_book h s b → no_empty_level (Bids b) → no_empty_level (Asks b) →
  h !! x = Some o →
  (∀ p o', p ∈ flat (Bids b) ++ flat (Asks b) → h !! p = Some o' →
           ID o' ≠ ID o) →
  AddOrder h x b = Some b' →
  ∃ b'', RemoveOrder h (ID o) b' = Some (b'', Ok ()) ∧
         RemoveFromPriceLevels h x b' = Some b'' ∧
         Bids b'' = Bids b ∧ Asks b'' = Asks b ∧
         BookOrders b'' = <[ID o := x]> (BookOrders b).
Proof.
  intros Hwf Hnb Hna Hx Hids Hadd.
  destruct (AddOrder_sides (Side o) _ _ _ _ _ Hx eq_refl Hadd)
    as (Hown & Hopp & Hmap & _).
  assert (∀ side, ∀ p, p ∈ flat (ownSide side b) →
            ∃ o', h !! p = Some o' ∧ ID o' ≠ ID o) as Hids'.
  { intros side p Hp.
    assert (p ∈ flat (Bids b) ++ flat (Asks b)) as Hin
      by (destruct side; set_solver).
    destruct (lookup_lt_is_Some_2 h p) as [o' Ho'].
    { eapply wf_sides_lt; [exact Hwf|done]. }
    exists o'. split; [done|]. by eapply Hids. }
  assert (removeFromLevels h o (ownSide (Side o) b')
          = Some (ownSide (Side o) b)) as Hrm.
  { rewrite Hown. apply removeFromLevels_addTo; try done.
    - apply (wf_book_sides (Side o)) in Hwf. by destruct Hwf.
    - by destruct (Side o).
    - apply Hids'. }
  unfold RemoveOrder, RemoveFromPriceLevels.
  rewrite Hmap, lookup_insert_eq, Hx. simpl.
  unfold removeFromBids, removeFromAsks.
  destruct (Side o); simpl in *; rewrite Hrm; simpl.
  - exists (setBids (Bids b) b'). by split_and!.
  - exists (setAsks (Asks b) b'). by split_and!.
Qed.

Lemma remove_undoes_add_witness :
  ∃ b'',
    RemoveOrder
      (mem (oneAsk "AAPL" 15050 100) ++
       [NewOrder (envNamed "b") "AAPL" BUY LIMIT 15000 100])
      (ID (NewOrder (envNamed "b") "AAPL" BUY LIMIT 15000 100))
      (mkBook "AAPL" [mkLevel 15000 [1%nat]] [mkLevel 15050 [0%nat]]
         {[ "s-0" := 0%nat; "b-0" := 1%nat ]}) = Some (b'', Ok ()) ∧
    RemoveFromPriceLevels
      (mem (oneAsk "AAPL" 15050 100) ++
       [NewOrder (envNamed "b") "AAPL" BUY LIMIT 15000 100])
      1%nat
      (mkBook "AAPL" [mkLevel 15000 [1%nat]] [mkLevel 15050 [0%nat]]
         {[ "s-0" := 0%nat; "b-0" := 1%nat ]}) = Some b'' ∧
    Bids b'' = Bids (bookOf (oneAsk "AAPL" 15050 100) "AAPL") ∧
    Asks b'' = Asks (bookOf (oneAsk "AAPL" 15050 100) "AAPL") ∧
    BookOrders b'' =
      <[ID (NewOrder (envNamed "b") "AAPL" BUY LIMIT 15000 100) := 1%nat]>
        (BookOrders (bookOf (oneAsk "AAPL" 15050 100) "AAPL")).
Proof.
  apply (remove_undoes_add
           (mem (oneAsk "AAPL" 15050 100) ++
            [NewOrder (envNamed "b") "AAPL" BUY LIMIT 15000 100])
           "AAPL" 1%nat
           (NewOrder (envNamed "b") "AAPL" BUY LIMIT 15000 100)
           (bookOf (oneAsk "AAPL" 15050 100) "AAPL")).
  - apply (submit_sides (envNamed "b") (oneAsk "AAPL" 15050 100) "AAPL" BUY
             BUY LIMIT 15000 100).
    apply reachable_wf, oneAsk_reachable; lia.
  - vm_compute. constructor.
  - vm_compute. repeat constructor. discriminate.
  - reflexivity.
  - intros p o' Hp Ho'. vm_compute in Hp.
    apply list_elem_of_singleton in Hp as ->.
    vm_compute in Ho'. injection Ho' as <-. discriminate.
  - vm_compute. reflexivity.
Defined.

Lemma level_price_positive me s b side l :
  reachable me → books me !! s = Some b → l ∈ ownSide side b →
  0 < LevelPrice l.
Proof.
  intros Hr Hb Hl.
  pose proof (reachable_wf me Hr s b Hb) as Hwf.
  apply (wf_book_sides side) in Hwf. destruct Hwf as [_ _ _ _ Hown _].
  destruct (reachable_consistent me Hr) as [Hord Hbk].
  destruct (Hbk s b Hb) as [_ Hne Hqueued _].
  destruct (LevelOrders l) as [|p q] eqn:Hq; [by destruct (Hne side l Hl)|].
  assert (p ∈ LevelOrders l) as Hp by (rewrite Hq; set_solver).
  assert (p ∈ flat (ownSide side b)) as Hin by (apply elem_of_flat; eauto).
  unfold wf_ladder in Hown. rewrite Forall_forall in Hown.
  destruct (Hown l Hl) as [Hrests _]. rewrite Forall_forall in Hrests.
  destruct (Hrests p Hp) as (o & Ho & _ & Hpr & _).
  destruct (Hqueued side p Hin) as (o1 & Ho1 & _ & Htyp).
  simplify_eq. destruct (Hord p o Ho) as (_ & _ & _ & _ & _ & Hpos).
  rewrite <-Hpr. by apply Hpos.
Qed.

(** X17.  On a book of a reachable engine [GetBestBid] is the highest bid
    and [GetBestAsk] the lowest ask; either is 0 exactly when its ladder is
    empty (no level is priced 0 or below); and with orders on both sides the
    best bid is strictly below the best ask. *)
Theorem best_prices_bound_the_ladders me s b :
  reachable me → books me !! s = Some b →
  (GetBestBid b = 0 ↔ Bids b = []) ∧
  (GetBestAsk b = 0 ↔ Asks b = []) ∧
  (∀ l, l ∈ Bids b → 0 < LevelPrice l ≤ GetBestBid b) ∧
  (∀ l, l ∈ Asks b → 0 < GetBestAsk b ≤ LevelPrice l) ∧
  (Bids b ≠ [] → Asks b ≠ [] → GetBestBid b < GetBestAsk b).
Proof.
  intros Hr Hb.
  pose proof (reachable_wf me Hr s b Hb) as [Hbids Hasks Hapart _ _ _].
  assert (∀ side l, l ∈ ownSide side b → 0 < LevelPrice l) as Hpos.
  { intros side l Hl. by eapply level_price_positive. }
  unfold GetBestBid, GetBestAsk, sorted_for in *.
  destruct (Bids b) as [|bb bids] eqn:Hbb; destruct (Asks b) as [|ba asks] eqn:Hba.
  - split_and!; try done; intros l Hl; by apply elem_of_nil in Hl.
  - pose proof (Hpos SELL ba) as Hp. simpl in Hp. rewrite Hba in Hp.
    specialize (Hp ltac:(set_solver)).
    rewrite fmap_cons in Hasks. apply StronglySorted_inv in Hasks as [_ Hall].
    rewrite Forall_forall in Hall.
    split_and!; try done; [split; [lia|done]|by intros l Hl%elem_of_nil|].
    intros l Hl. apply elem_of_cons in Hl as [->|Hl]; [lia|].
    assert (priced SELL (LevelPrice ba) (LevelPrice l)) as Hlt.
    { apply Hall. apply list_elem_of_fmap. by exists l. }
    simpl in Hlt. lia.
  - pose proof (Hpos BUY bb) as Hp. simpl in Hp. rewrite Hbb in Hp.
    specialize (Hp ltac:(set_solver)).
    rewrite fmap_cons in Hbids. apply StronglySorted_inv in Hbids as [_ Hall].
    rewrite Forall_forall in Hall.
    split_and!; try done; [split; [lia|done]| |by intros l Hl%elem_of_nil].
    intros l Hl. apply elem_of_cons in Hl as [->|Hl]; [lia|].
    assert (priced BUY (LevelPrice bb) (LevelPrice l)) as Hlt.
    { apply Hall. apply list_elem_of_fmap. by exists l. }
    simpl in Hlt. pose proof (Hpos BUY l) as Hpl. simpl in Hpl.
    rewrite Hbb in Hpl. specialize (Hpl ltac:(set_solver)). lia.
  - pose proof (Hpos BUY bb) as Hp. simpl in Hp. rewrite Hbb in Hp.
    specialize (Hp ltac:(set_solver)).
    pose proof (Hpos SELL ba) as Hp'. simpl in Hp'. rewrite Hba in Hp'.
    specialize (Hp' ltac:(set_solver)).
    rewrite fmap_cons in Hbids. apply StronglySorted_inv in Hbids as [_ Hallb].
    rewrite fmap_cons in Hasks. apply StronglySorted_inv in Hasks as [_ Halla].
    rewrite Forall_forall in Hallb, Halla.
    split_and!; try done; try (split; [lia|done]).
    + intros l Hl. apply elem_of_cons in Hl as [->|Hl]; [lia|].
      assert (priced BUY (LevelPrice bb) (LevelPrice l)) as Hlt.
      { apply Hallb. apply list_elem_of_fmap. by exists l. }
      simpl in Hlt. pose proof (Hpos BUY l) as Hpl. simpl in Hpl.
      rewrite Hbb in Hpl. specialize (Hpl ltac:(set_solver)). lia.
    + intros l Hl. apply elem_of_cons in Hl as [->|Hl]; [lia|].
      assert (priced SELL (LevelPrice ba) (LevelPrice l)) as Hlt.
      { apply Halla. apply list_elem_of_fmap. by exists l. }
      simpl in Hlt. lia.
    + intros _ _. specialize (Hapart bb ba ltac:(set_solver) ltac:(set_solver)).
      simpl in Hapart. lia.
Qed.

Lemma best_prices_bound_the_ladders_witness :
  (GetBestBid noMatchBook = 0 ↔ Bids noMatchBook = []) ∧
  (GetBestAsk noMatchBook = 0 ↔ Asks noMatchBook = []) ∧
  (∀ l, l ∈ Bids noMatchBook → 0 < LevelPrice l ≤ GetBestBid noMatchBook) ∧
  (∀ l, l ∈ Asks noMatchBook → 0 < GetBestAsk noMatchBook ≤ LevelPrice l) ∧
  (Bids noMatchBook ≠ [] → Asks noMatchBook ≠ [] →
   GetBestBid noMatchBook < GetBestAsk noMatchBook).
Proof.
  apply (best_prices_bound_the_ladders noMatch "AAPL").
  - apply noMatch_reachable.
  - vm_compute. reflexivity.
Defined.

(** ** [GetOrderBook] *)

(** A level as the snapshot shows it: its price and what its queue has
    left. *)
Definition levelView (h : list Order) (l : PriceLevel) : PriceLevelSnapshot :=
  mkLevelSnapshot (LevelPrice l) (sumLeft h (LevelOrders l)).

Lemma sumLeft_positive h s ls q :
  wf_ladder h s ls → q ⊆ flat ls → q ≠ [] → 0 < sumLeft h q.
Proof.
  intros Hwf Hq Hne. destruct q as [|p q]; [done|]. simpl.
  destruct (leftAt_live h s ls p Hwf) as [? _]; [set_solver|].
  assert (0 ≤ sumLeft h q) by (eapply sumLeft_nonneg; [done|set_solver]).
  lia.
Qed.

(** The int64 sum of a queue is its true sum, wrapped. *)
Lemma wrap64_add_l a b : wrap64 (wrap64 a + b) = wrap64 (a + b).
Proof.
  unfold wrap64. f_equal.
  replace ((a + 2 ^ 63) `mod` 2 ^ 64 - 2 ^ 63 + b + 2 ^ 63)
    with ((a + 2 ^ 63) `mod` 2 ^ 64 + b) by lia.
  rewrite Zplus_mod_idemp_l. f_equal. lia.
Qed.

Lemma queueLiquidity_wrap h s ls q : ∀ acc,
  wf_ladder h s ls → q ⊆ flat ls →
  queueLiquidity h q (wrap64 acc) = Some (wrap64 (acc + sumLeft h q)).
Proof.
  induction q as [|p q IH]; intros acc Hwf Hq; simpl.
  { by rewrite Z.add_0_r. }
  destruct (leftAt_live h s ls p Hwf) as [Hp (o & -> & Hrem)]; [set_solver|].
  simpl. rewrite Hrem. unfold add64. rewrite wrap64_add_l.
  rewrite IH; [|done|set_solver]. do 2 f_equal. lia.
Qed.

(** A level as [GetOrderBook] computes it: its price and the int64 sum of
    what its queue has left. *)
Definition levelTotal (h : list Order) (l : PriceLevel) : PriceLevelSnapshot :=
  mkLevelSnapshot (LevelPrice l) (wrap64 (sumLeft h (LevelOrders l))).

(** The levels a snapshot shows: those whose int64 sum is positive. *)
Definition shown (h : list Order) (ls : list PriceLevel)
    : list PriceLevelSnapshot :=
  filter (λ v, 0 < SnapQuantity v) (levelTotal h <$> ls).

Lemma snapshotLevels_shown h s ls0 ls :
  wf_ladder h s ls0 → ls ⊆ ls0 →
  snapshotLevels h ls = Some (shown h ls).
Proof.
  intros Hwf. induction ls as [|l ls IH]; intros Hsub; simpl; [done|].
  assert (LevelOrders l ⊆ flat ls0) as Hq.
  { intros p Hp. apply elem_of_flat. exists l. split; [set_solver|done]. }
  pose proof (queueLiquidity_wrap h s ls0 _ 0 Hwf Hq) as Hsum.
  rewrite (wrap64_id 0) in Hsum by (unfold int64; lia).
  rewrite Hsum. simpl. rewrite IH by set_solver. simpl. rewrite Z.add_0_l.
  unfold shown. rewrite fmap_cons, filter_cons. simpl.
  destruct (Z.ltb_spec 0 (wrap64 (sumLeft h (LevelOrders l)))).
  - by rewrite decide_True.
  - by rewrite decide_False by lia.
Qed.

Lemma shown_exact h s ls0 ls :
  wf_ladder h s ls0 → ls ⊆ ls0 → no_empty_level ls →
  (∀ l, l ∈ ls → sumLeft h (LevelOrders l) < 2 ^ 63) →
  shown h ls = levelView h <$> ls.
Proof.
  intros Hwf. induction ls as [|l ls IH]; intros Hsub Hne Hfit; [done|].
  apply Forall_cons in Hne as [Hl Hne].
  assert (LevelOrders l ⊆ flat ls0) as Hq.
  { intros p Hp. apply elem_of_flat. exists l. split; [set_solver|done]. }
  pose proof (sumLeft_positive h s ls0 _ Hwf Hq Hl) as Hpos.
  assert (sumLeft h (LevelOrders l) < 2 ^ 63) as Hlt by (apply Hfit; set_solver).
  assert (levelTotal h l = levelView h l) as Heq.
  { unfold levelTotal, levelView. by rewrite wrap64_id by (unfold int64; lia). }
  unfold shown in *. rewrite !fmap_cons, filter_cons, Heq.
  rewrite decide_True by done. f_equal.
  apply IH; [set_solver|done|intros; apply Hfit; set_solver].
Qed.

(** X18.  [GetOrderBook] on a reachable engine always returns.  For each
    side it looks at the first [depth] levels of the ladder, best first (none
    for a [depth] of 0 or below), sums what each queue has left as an int64,
    and shows the levels whose sum is positive, each with its price and that
    sum.  On a side where the true total of each of these levels fits int64,
    it skips none of them and every total is exact.  It changes no order and
    no ladder: the symbol has the book it had, an empty one if it had
    none. *)
Theorem snapshot_shows_the_best_levels now me symbol depth :
  reachable me →
  GetOrderBook now me symbol depth
  = Some (mkEngine (<[symbol := bookOf me symbol]> (books me)) (mem me),
          mkSnapshot symbol now
            (shown (mem me) (take (Z.to_nat depth) (Bids (bookOf me symbol))))
            (shown (mem me) (take (Z.to_nat depth) (Asks (bookOf me symbol)))))
  ∧ ∀ side,
      (∀ l, l ∈ take (Z.to_nat depth) (ownSide side (bookOf me symbol)) →
            sumLeft (mem me) (LevelOrders l) < 2 ^ 63) →
      shown (mem me) (take (Z.to_nat depth) (ownSide side (bookOf me symbol)))
      = levelView (mem me) <$>
          take (Z.to_nat depth) (ownSide side (bookOf me symbol)).
Proof.
  intros Hr.
  pose proof (reachable_wf me Hr) as Hwf.
  pose proof (reachable_consistent me Hr) as Hcons.
  pose proof (wf_bookOf me symbol Hwf) as [_ _ _ _ Hbids Hasks].
  pose proof (consistent_bookOf me symbol Hcons) as [_ Hne _ _].
  assert (∀ side, wf_ladder (mem me) symbol (ownSide side (bookOf me symbol)))
    as Hlad by (by intros []).
  assert (∀ side, take (Z.to_nat depth) (ownSide side (bookOf me symbol))
                  ⊆ ownSide side (bookOf me symbol)) as Hsub.
  { intros side l Hl. apply elem_of_take in Hl as (i & Hi & _).
    by eapply list_elem_of_lookup_2. }
  split.
  - pose proof (snapshotLevels_shown _ _ _ _ (Hlad BUY) (Hsub BUY)) as Hb.
    pose proof (snapshotLevels_shown _ _ _ _ (Hlad SELL) (Hsub SELL)) as Ha.
    simpl in Hb, Ha.
    unfold GetOrderBook, GetOrCreateBook, bookOf in *.
    destruct (books me !! symbol) as [b|] eqn:Hbk; simpl in *.
    + rewrite Hb, Ha. simpl. by rewrite insert_id.
    + by rewrite take_nil.
  - intros side Hfit.
    apply (shown_exact _ symbol (ownSide side (bookOf me symbol)));
      [done|done| |done].
    apply Forall_forall. intros l Hl. apply (Hne side). by apply Hsub.
Qed.

(** The level of [twoLargeAsks] holds 2^62 + 2^62: its int64 sum is negative
    and the snapshot leaves it out. *)
Lemma snapshot_skips_wrapped_level :
  GetOrderBook 0 twoLargeAsks "X" 10
  = Some (twoLargeAsks, mkSnapshot "X" 0 [] []).
Proof. vm_compute. reflexivity. Qed.

Lemma snapshot_shows_the_best_levels_witness :
  GetOrderBook 0 twoSided "AAPL" 1
  = Some (mkEngine (<["AAPL" := bookOf twoSided "AAPL"]> (books twoSided))
                   (mem twoSided),
          mkSnapshot "AAPL" 0
            (shown (mem twoSided)
               (take (Z.to_nat 1) (Bids (bookOf twoSided "AAPL"))))
            (shown (mem twoSided)
               (take (Z.to_nat 1) (Asks (bookOf twoSided "AAPL")))))
  ∧ ∀ side,
      (∀ l, l ∈ take (Z.to_nat 1) (ownSide side (bookOf twoSided "AAPL")) →
            sumLeft (mem twoSided) (LevelOrders l) < 2 ^ 63) →
      shown (mem twoSided)
        (take (Z.to_nat 1) (ownSide side (bookOf twoSided "AAPL")))
      = levelView (mem twoSided) <$>
          take (Z.to_nat 1) (ownSide side (bookOf twoSided "AAPL")).
Proof.
  apply (snapshot_shows_the_best_levels 0 twoSided "AAPL" 1).
  apply twoSided_reachable.
Defined.

(** * The HTTP layer: [internal/api]

    The handlers, from the decoded request to the status code and body they
    pass to [respondJSON].  What [json.Decode] made of the request body and
    what the router took from the path are inputs. *)

Record Server := mkServer {
  engine : MatchingEngine;
  ordersReceived : Z;
  ordersMatched : Z;
  ordersCancelled : Z;
  tradesExecuted : Z
}.

Record SubmitOrderRequest := mkRequest {
  ReqSymbol : string;
  ReqSide : string;
  ReqType : string;
  ReqPrice : Z;
  ReqQuantity : Z
}.

(** The value handed to [respondJSON]. *)
Inductive Body :=
  | ErrorBody (message : string)
  | ResultBody (result : OrderResult)
  | CancelledBody (order_id : string).

Record Response := mkResponse {
  StatusCode : Z;
  ResponseBody : Body
}.

Definition StatusOK : Z := 200.
Definition StatusCreated : Z := 201.
Definition StatusAccepted : Z := 202.
Definition StatusBadRequest : Z := 400.
Definition StatusNotFound : Z := 404.

Definition respondError (statusCode : Z) (message : string) : Response :=
  mkResponse statusCode (ErrorBody message).

(** [err.Error()] for the errors of the engine. *)
Definition errorText (e : EngineError) : string :=
  match e with
  | ErrQuantity => "quantity must be positive"
  | ErrPrice => "price must be positive for limit orders"
  | ErrInsufficientLiquidity available requested =>
      "insufficient liquidity: only " +:+ pretty available +:+
      " shares available, requested " +:+ pretty requested
  | ErrAlreadyFilled => "cannot cancel: order already filled"
  | ErrNotFound => "order not found"
  end.

(** [engine.OrderSide(req.Side)] and [engine.OrderType(req.Type)], for the
    strings the handler lets through. *)
Definition toSide (s : string) : OrderSide :=
  if String.eqb s "BUY" then BUY else SELL.

Definition toType (s : string) : OrderType :=
  if String.eqb s "LIMIT" then LIMIT else MARKET.

Definition setEngine (me : MatchingEngine) (s : Server) : Server :=
  mkServer me (ordersReceived s) (ordersMatched s) (ordersCancelled s)
           (tradesExecuted s).

(** [handleSubmitOrder]; [decoded] is the outcome of [Decode]: the error's
    text or the request. *)
Definition handleSubmitOrder (env : Env) (s : Server)
    (decoded : string + SubmitOrderRequest) : option (Server * Response) :=
  match decoded with
  | inl err => Some (s, respondError StatusBadRequest ("Invalid JSON: " +:+ err))
  | inr req =>
      if String.eqb (ReqSymbol req) "" then
        Some (s, respondError StatusBadRequest "symbol is required")
      else if negb (String.eqb (ReqSide req) "BUY") &&
              negb (String.eqb (ReqSide req) "SELL") then
        Some (s, respondError StatusBadRequest "side must be BUY or SELL")
      else if negb (String.eqb (ReqType req) "LIMIT") &&
              negb (String.eqb (ReqType req) "MARKET") then
        Some (s, respondError StatusBadRequest "type must be LIMIT or MARKET")
      else if ReqQuantity req <=? 0 then
        Some (s, respondError StatusBadRequest "quantity must be positive")
      else if String.eqb (ReqType req) "LIMIT" && (ReqPrice req <=? 0) then
        Some (s, respondError StatusBadRequest
                   "price must be positive for LIMIT orders")
      else
        '(me, r) ← SubmitOrder env (engine s) (ReqSymbol req)
                     (toSide (ReqSide req)) (toType (ReqType req))
                     (ReqPrice req) (ReqQuantity req);
        match r with
        | Err e => Some (setEngine me s, respondError StatusBadRequest (errorText e))
        | Ok result =>
            let received := add64 (ordersReceived s) 1 in
            let matched :=
              bool_decide (ResStatus result = FILLED) ||
              bool_decide (ResStatus result = PARTIAL_FILL) in
            let statusCode :=
              if bool_decide (ResStatus result = FILLED) then StatusOK
              else if bool_decide (ResStatus result = PARTIAL_FILL)
                   then StatusAccepted
              else if bool_decide (ResStatus result = ACCEPTED)
                   then StatusCreated
              else StatusOK in
            Some (mkServer me received
                    (if matched then add64 (ordersMatched s) 1
                     else ordersMatched s)
                    (ordersCancelled s)
                    (if matched
                     then add64 (tradesExecuted s)
                            (Z.of_nat (length (Trades result)))
                     else tradesExecuted s),
                  mkResponse statusCode (ResultBody result))
        end
  end.

(** [handleCancelOrder]; [ks] is the order in which the engine's [range]
    visits the books. *)
Definition handleCancelOrder (ks : list string) (s : Server) (orderID : string)
    : option (Server * Response) :=
  if String.eqb orderID "" then
    Some (s, respondError StatusBadRequest "order_id is required")
  else
    '(me, r) ← CancelOrder ks (engine s) orderID;
    match r with
    | Err e =>
        Some (setEngine me s,
              respondError (if String.eqb (errorText e) "order not found"
                            then StatusNotFound else StatusBadRequest)
                           (errorText e))
    | Ok _ =>
        Some (mkServer me (ordersReceived s) (ordersMatched s)
                (add64 (ordersCancelled s) 1) (tradesExecuted s),
              mkResponse StatusOK (CancelledBody orderID))
    end.

Lemma setEngine_same s : setEngine (engine s) s = s.
Proof. by destruct s. Qed.

(** X19.  [handleSubmitOrder] answers every decoded request (the engine
    reachable, the quantity an int64).  A body with a result comes with 201
    and no trade (ACCEPTED), 202 (PARTIAL_FILL) or 200 (FILLED), either of
    these with trades; the request counts as received, and as matched when
    it traded, and every one of its trades is counted.  A body with an error
    comes with 400; then no counter, order or ladder has changed. *)
Theorem submit_handler_answers env s req :
  reachable (engine s) → int64 (ReqQuantity req) →
  ∃ s' resp,
    handleSubmitOrder env s (inr req) = Some (s', resp) ∧
    match ResponseBody resp with
    | ResultBody r =>
        SubmitOrder env (engine s) (ReqSymbol req) (toSide (ReqSide req))
          (toType (ReqType req)) (ReqPrice req) (ReqQuantity req)
        = Some (engine s', Ok r) ∧
        ((StatusCode resp = 201 ∧ ResStatus r = ACCEPTED ∧ Trades r = []) ∨
         (StatusCode resp = 202 ∧ ResStatus r = PARTIAL_FILL ∧ Trades r ≠ []) ∨
         (StatusCode resp = 200 ∧ ResStatus r = FILLED ∧ Trades r ≠ [])) ∧
        ordersReceived s' = add64 (ordersReceived s) 1 ∧
        ordersCancelled s' = ordersCancelled s ∧
        (Trades r = [] →
         ordersMatched s' = ordersMatched s ∧
         tradesExecuted s' = tradesExecuted s) ∧
        (Trades r ≠ [] →
         ordersMatched s' = add64 (ordersMatched s) 1 ∧
         tradesExecuted s' =
           add64 (tradesExecuted s) (Z.of_nat (length (Trades r))))
    | ErrorBody _ =>
        StatusCode resp = 400 ∧
        ordersReceived s' = ordersReceived s ∧
        ordersMatched s' = ordersMatched s ∧
        ordersCancelled s' = ordersCancelled s ∧
        tradesExecuted s' = tradesExecuted s ∧
        (∀ p o, mem (engine s) !! p = Some o → mem (engine s') !! p = Some o) ∧
        (∀ sym, bookOf (engine s') sym = bookOf (engine s) sym)
    | _ => False
    end.
Proof.
  intros Hr Hq64. unfold handleSubmitOrder.
  destruct (String.eqb (ReqSymbol req) ""); [by eexists _, _|].
  destruct (negb (String.eqb (ReqSide req) "BUY") &&
            negb (String.eqb (ReqSide req) "SELL")); [by eexists _, _|].
  destruct (negb (String.eqb (ReqType req) "LIMIT") &&
            negb (String.eqb (ReqType req) "MARKET")); [by eexists _, _|].
  destruct (ReqQuantity req <=? 0); [by eexists _, _|].
  destruct (String.eqb (ReqType req) "LIMIT" && (ReqPrice req <=? 0));
    [by eexists _, _|].
  pose proof (reachable_wf _ Hr) as Hwf.
  assert (ReqQuantity req < 2 ^ 63) as Hq63 by (unfold int64 in Hq64; lia).
  destruct (SubmitOrder_total env (engine s) (ReqSymbol req)
              (toSide (ReqSide req)) (toType (ReqType req)) (ReqPrice req)
              (ReqQuantity req) Hwf Hq63) as (me' & r & Hsub).
  rewrite Hsub. simpl. destruct r as [result|e].
  - eexists _, _. split; [done|]. simpl.
    destruct (submit_status _ _ _ _ _ _ _ _ _ Hr Hq64 Hsub) as (Hpos & Hcase).
    destruct Hcase as [(Hst & Htr & _)|[(Hst & Hfill & _)|(Hst & Hfill)]];
      rewrite Hst; simpl.
    + split_and!; first [done|by left|by intros ?].
    + assert (Trades result ≠ []) as Hne.
      { intros Hnil. rewrite Hnil in Hfill. simpl in Hfill. lia. }
      split_and!; first [done|by (right; left)|by intros ?].
    + assert (Trades result ≠ []) as Hne.
      { intros Hnil. rewrite Hnil in Hfill. simpl in Hfill.
        apply SubmitOrder_submitted in Hsub.
        destruct (submitted_ok _ _ _ _ _ _ _ _ _ Hwf Hq63 Hsub)
          as (_ & _ & Hq & _). lia. }
      split_and!; first [done|by (right; right)|by intros ?].
  - eexists _, _. split; [done|]. simpl.
    destruct (rejected_frame _ _ _ _ _ _ _ _ _ Hsub) as (Hmem & Hbooks).
    by split_and!.
Qed.

(** A server that has taken the resting SELL of TestPartialFill, and the
    request for the BUY. *)
Definition oneAskServer : Server := mkServer (oneAsk "AAPL" 15050 50) 1 0 0 0.

Definition buyRequest : SubmitOrderRequest :=
  mkRequest "AAPL" "BUY" "LIMIT" 15050 100.

Lemma submit_handler_answers_witness :
  ∃ s' resp,
    handleSubmitOrder (envNamed "b") oneAskServer (inr buyRequest)
    = Some (s', resp) ∧
    match ResponseBody resp with
    | ResultBody r =>
        SubmitOrder (envNamed "b") (engine oneAskServer) (ReqSymbol buyRequest)
          (toSide (ReqSide buyRequest)) (toType (ReqType buyRequest))
          (ReqPrice buyRequest) (ReqQuantity buyRequest)
        = Some (engine s', Ok r) ∧
        ((StatusCode resp = 201 ∧ ResStatus r = ACCEPTED ∧ Trades r = []) ∨
         (StatusCode resp = 202 ∧ ResStatus r = PARTIAL_FILL ∧ Trades r ≠ []) ∨
         (StatusCode resp = 200 ∧ ResStatus r = FILLED ∧ Trades r ≠ [])) ∧
        ordersReceived s' = add64 (ordersReceived oneAskServer) 1 ∧
        ordersCancelled s' = ordersCancelled oneAskServer ∧
        (Trades r = [] →
         ordersMatched s' = ordersMatched oneAskServer ∧
         tradesExecuted s' = tradesExecuted oneAskServer) ∧
        (Trades r ≠ [] →
         ordersMatched s' = add64 (ordersMatched oneAskServer) 1 ∧
         tradesExecuted s' =
           add64 (tradesExecuted oneAskServer) (Z.of_nat (length (Trades r))))
    | ErrorBody _ =>
        StatusCode resp = 400 ∧
        ordersReceived s' = ordersReceived oneAskServer ∧
        ordersMatched s' = ordersMatched oneAskServer ∧
        ordersCancelled s' = ordersCancelled oneAskServer ∧
        tradesExecuted s' = tradesExecuted oneAskServer ∧
        (∀ p o, mem (engine oneAskServer) !! p = Some o →
                mem (engine s') !! p = Some o) ∧
        (∀ sym, bookOf (engine s') sym = bookOf (engine oneAskServer) sym)
    | _ => False
    end.
Proof.
  apply (submit_handler_answers (envNamed "b") oneAskServer buyRequest).
  - apply oneAsk_reachable; lia.
  - unfold int64. simpl. lia.
Defined.

(** X20.  [handleCancelOrder] answers every request on a reachable engine:
    200 when the engine cancelled the order, which it then counts; 404 when
    no book knows the id; 400 for an empty id or a FILLED order.  With 404
    and 400 the server is as it was. *)
Theorem cancel_handler_answers ks s id :
  reachable (engine s) →
  ∃ s' resp,
    handleCancelOrder ks s id = Some (s', resp) ∧
    ((StatusCode resp = 200 ∧ ResponseBody resp = CancelledBody id ∧
      CancelOrder ks (engine s) id = Some (engine s', Ok ()) ∧
      ordersCancelled s' = add64 (ordersCancelled s) 1 ∧
      ordersReceived s' = ordersReceived s ∧
      ordersMatched s' = ordersMatched s ∧
      tradesExecuted s' = tradesExecuted s) ∨
     (StatusCode resp = 404 ∧ s' = s ∧
      findOrder (books (engine s)) id ks = None) ∨
     (StatusCode resp = 400 ∧ s' = s ∧
      (id = "" ∨
       ∃ k book p o,
         findOrder (books (engine s)) id ks = Some (k, book, p) ∧
         mem (engine s) !! p = Some o ∧ Status o = FILLED))).
Proof.
  intros Hr. unfold handleCancelOrder.
  destruct (String.eqb_spec id "") as [->|Hid].
  { eexists _, _. split; [done|]. right. right. split_and!; try done. by left. }
  destruct (findOrder (books (engine s)) id ks) as [[[k book] p]|] eqn:Hfind;
    cycle 1.
  { unfold CancelOrder. rewrite Hfind. simpl. rewrite setEngine_same.
    eexists _, _. split; [done|]. right. left. by split_and!. }
  destruct (reachable_consistent _ Hr) as [_ Hbk].
  destruct (findOrder_Some _ _ _ _ _ _ Hfind) as (Hk & Hp & _).
  destruct (bs_registered _ _ _ (Hbk k book Hk) _ _ Hp) as (o & Ho & _).
  destruct (decide (Status o = FILLED)) as [Hst|Hst].
  { rewrite (CancelOrder_filled _ _ _ _ _ _ _ Hfind Ho Hst). simpl.
    rewrite setEngine_same. eexists _, _. split; [done|]. right. right.
    split_and!; try done. right. by exists k, book, p, o. }
  destruct (CancelOrder_total ks (engine s) id (reachable_wf _ Hr)
              (reachable_consistent _ Hr)) as [[me' r] Hc].
  destruct (CancelOrder_found _ _ _ _ _ _ _ _ _ Hfind Ho Hst Hc)
    as (book' & Hrm & _).
  rewrite (RemoveOrder_known _ _ _ _ _ _ Hp Hrm) in Hc. rewrite Hc. simpl.
  eexists _, _. split; [done|]. left. by split_and!.
Qed.

Lemma cancel_handler_answers_witness :
  ∃ s' resp,
    handleCancelOrder ["AAPL"] (mkServer afterFifo 4 1 0 2) "t-0"
    = Some (s', resp) ∧
    ((StatusCode resp = 200 ∧ ResponseBody resp = CancelledBody "t-0" ∧
      CancelOrder ["AAPL"] (engine (mkServer afterFifo 4 1 0 2)) "t-0"
      = Some (engine s', Ok ()) ∧
      ordersCancelled s'
      = add64 (ordersCancelled (mkServer afterFifo 4 1 0 2)) 1 ∧
      ordersReceived s' = ordersReceived (mkServer afterFifo 4 1 0 2) ∧
      ordersMatched s' = ordersMatched (mkServer afterFifo 4 1 0 2) ∧
      tradesExecuted s' = tradesExecuted (mkServer afterFifo 4 1 0 2)) ∨
     (StatusCode resp = 404 ∧ s' = mkServer afterFifo 4 1 0 2 ∧
      findOrder (books (engine (mkServer afterFifo 4 1 0 2))) "t-0" ["AAPL"]
      = None) ∨
     (StatusCode resp = 400 ∧ s' = mkServer afterFifo 4 1 0 2 ∧
      ("t-0" = "" ∨
       ∃ k book p o,
         findOrder (books (engine (mkServer afterFifo 4 1 0 2))) "t-0" ["AAPL"]
         = Some (k, book, p) ∧
         mem (engine (mkServer afterFifo 4 1 0 2)) !! p = Some o ∧
         Status o = FILLED))).
Proof.
  apply (cancel_handler_answers ["AAPL"] (mkServer afterFifo 4 1 0 2) "t-0").
  apply afterFifo_reachable.
Defined.

(** * Fills and trades balance *)

(** The filled quantities of all order records, summed (integers, not
    int64). *)
Definition totalFilled (h : list Order) : Z :=
  foldr (λ o acc, FilledQuantity o + acc) 0 h.

Definition filledAt (h : list Order) (p : ptr) : Z :=
  match h !! p with
  | Some o => FilledQuantity o
  | None => 0
  end.

Definition sumFilled (h : list Order) (ps : list ptr) : Z :=
  foldr (λ p acc, filledAt h p + acc) 0 ps.

Lemma sumFilled_app h ps1 ps2 :
  sumFilled h (ps1 ++ ps2) = sumFilled h ps1 + sumFilled h ps2.
Proof. induction ps1 as [|p ps1 IH]; simpl; [done|]. rewrite IH. lia. Qed.

Lemma sumFilled_perm h ps1 ps2 :
  ps1 ≡ₚ ps2 → sumFilled h ps1 = sumFilled h ps2.
Proof. induction 1; simpl; lia. Qed.

Lemma sumFilled_ext h h' ps :
  (∀ p, p ∈ ps → filledAt h' p = filledAt h p) →
  sumFilled h' ps = sumFilled h ps.
Proof.
  induction ps as [|p ps IH]; intros Hps; simpl; [done|].
  rewrite IH by (intros; apply Hps; set_solver).
  rewrite Hps by set_solver. done.
Qed.

Lemma totalFilled_seq_from h0 h :
  sumFilled (h0 ++ h) (seq (length h0) (length h)) = totalFilled h.
Proof.
  revert h0. induction h as [|o h IH]; intros h0; simpl; [done|].
  unfold filledAt at 1. rewrite list_lookup_middle by done.
  rewrite cons_middle, app_assoc.
  specialize (IH (h0 ++ [o])). rewrite length_app in IH. simpl in IH.
  replace (length h0 + 1)%nat with (S (length h0)) in IH by lia.
  by rewrite IH.
Qed.

Lemma totalFilled_seq h : totalFilled h = sumFilled h (seq 0 (length h)).
Proof. symmetry. apply (totalFilled_seq_from [] h). Qed.

Lemma sumFilled_left h h' ps :
  (∀ p, p ∈ ps → ∃ o o', h !! p = Some o ∧ h' !! p = Some o' ∧
                         Quantity o' = Quantity o) →
  sumFilled h' ps - sumFilled h ps = sumLeft h ps - sumLeft h' ps.
Proof.
  induction ps as [|p ps IH]; intros Hps; simpl; [done|].
  destruct (Hps p) as (o & o' & Ho & Ho' & Hq); [set_solver|].
  unfold filledAt, leftAt. rewrite Ho, Ho'.
  assert (sumFilled h' ps - sumFilled h ps = sumLeft h ps - sumLeft h' ps)
    by (apply IH; intros; apply Hps; set_solver).
  lia.
Qed.

Lemma submit_balance env me symbol side typ price quantity h' opp' trades :
  wf_engine me → 0 < quantity < 2 ^ 63 →
  matchLadder env side (length (mem me))
    (alloc env me symbol side typ price quantity)
    (opposing side (bookOf me symbol)) [] = Some (h', opp', trades) →
  totalFilled h' = totalFilled (mem me) + 2 * sumQty trades.
Proof.
  intros Hwf Hq Hm.
  destruct (submit_store _ _ _ _ _ _ _ _ _ _ Hwf Hq Hm)
    as (Hlen & [done Hdone] & Hstore).
  destruct (submit_aggressor _ _ _ _ _ _ _ _ _ _ Hwf Hq Hm)
    as (v & Hx & Hv & Hsum).
  pose proof (submit_minv _ _ _ _ _ _ _ _ Hwf Hq Hm) as Hinv.
  pose proof (minv_conserve _ _ _ _ _ _ _ _ _ _ trades Hinv eq_refl) as Hcons.
  rewrite restingQty_alloc in Hcons by done.
  pose proof (wf_bookOf me symbol Hwf) as Hb.
  apply (wf_book_sides side) in Hb. destruct Hb as [_ _ _ Hnd _ Hopp].
  apply NoDup_app in Hnd as (_ & _ & Hnd).
  set (opp := opposing side (bookOf me symbol)) in *.
  set (n := length (mem me)) in *.
  assert (∀ p, p ∈ flat opp → (p < n)%nat) as Hlt
    by (intros p Hp; by eapply wf_ladder_lt).
  (* the old addresses: the queued ones and the others *)
  destruct (submseteq_Permutation (flat opp) (seq 0 n)) as [k Hk].
  { apply NoDup_submseteq; [done|]. intros p Hp. apply elem_of_seq.
    specialize (Hlt p Hp). lia. }
  assert (NoDup (flat opp ++ k)) as Hndk by (rewrite <-Hk; apply NoDup_seq).
  apply NoDup_app in Hndk as (_ & Hdisj & _).
  assert (∀ p, p ∈ k → (p < n)%nat) as Hltk.
  { intros p Hp. assert (p ∈ seq 0 n) as Hin by (rewrite Hk; set_solver).
    apply elem_of_seq in Hin. lia. }
  rewrite (totalFilled_seq h'), (totalFilled_seq (mem me)), Hlen.
  fold n. rewrite seq_S. simpl.
  assert (filledAt h' n = v) as Hfx by (unfold filledAt; by rewrite Hx).
  rewrite sumFilled_app. simpl. rewrite Hfx.
  rewrite !(sumFilled_perm _ _ _ Hk), !sumFilled_app.
  (* the others are as they were *)
  assert (sumFilled h' k = sumFilled (mem me) k) as ->.
  { apply sumFilled_ext. intros p Hp. unfold filledAt.
    destruct (lookup_lt_is_Some_2 (mem me) p (Hltk p Hp)) as [o Ho].
    destruct (Hstore p o Ho) as [[Hp' _]|[(Hin & _)|(_ & Hin & _)]].
    - by rewrite Ho, Hp'.
    - by destruct (Hdisj p Hin).
    - by destruct (Hdisj p Hin). }
  (* the queued ones gained what the ladder lost *)
  assert (sumFilled h' (flat opp) - sumFilled (mem me) (flat opp)
          = sumLeft (mem me) (flat opp) - sumLeft h' (flat opp)) as Hgain.
  { apply sumFilled_left. intros p Hp.
    destruct (lookup_lt_is_Some_2 (mem me) p (Hlt p Hp)) as [o Ho].
    destruct (Hstore p o Ho)
      as [[Hp' _]|[(_ & _ & _ & Hp')|(_ & _ & _ & m & _ & Hp')]];
      eexists _, _; by split_and!. }
  assert (sumLeft h' (flat opp) = restingQty h' opp') as Hleft.
  { unfold restingQty. rewrite Hdone, sumLeft_app.
    assert (sumLeft h' done = 0) as ->; [|lia].
    assert (∀ p, p ∈ done → leftAt h' p = 0) as Hzero.
    { intros p Hp.
      assert (p ∈ flat opp) as Hin by (rewrite Hdone; set_solver).
      assert (p ∉ flat opp') as Hout.
      { rewrite Hdone in Hnd. apply NoDup_app in Hnd as (_ & Hd & _).
        by apply Hd. }
      destruct (lookup_lt_is_Some_2 (mem me) p (Hlt p Hin)) as [o Ho].
      unfold leftAt.
      destruct (Hstore p o Ho)
        as [[_ Hkeep]|[(_ & _ & _ & ->)|(Hin' & _)]];
        [by destruct Hout; apply Hkeep| |done].
      simpl. lia. }
    clear -Hzero. induction done as [|p done IH]; simpl; [done|].
    rewrite Hzero by set_solver. rewrite IH; [done|].
    intros; apply Hzero; set_solver. }
  unfold restingQty in Hcons at 1. lia.
Qed.

(** X21.  Fills and trades balance: over a submission the filled quantities
    of all order records grow, in sum, by twice the quantity of the trades it
    emits (each trade fills a buyer and a seller), and by nothing when it is
    rejected. *)
Theorem every_trade_fills_two_orders env me symbol side typ price quantity
    me' r :
  reachable me → int64 quantity →
  SubmitOrder env me symbol side typ price quantity = Some (me', r) →
  totalFilled (mem me')
  = totalFilled (mem me) +
    2 * sumQty (match r with Ok a => Trades a | Err _ => [] end).
Proof.
  intros Hr Hq64 Hsub.
  pose proof (reachable_wf me Hr) as Hwf.
  assert (quantity < 2 ^ 63) as Hq63 by (unfold int64 in Hq64; lia).
  apply SubmitOrder_submitted in Hsub.
  destruct Hsub as [?|?|avail Hq Ht Hav Hlow
                   |h' opp' trades xo' book'' Hq Ht Hp Hm Hxo' Hshort Hadd
                   |h' opp' trades xo' Hq Hp Hmk Hm Hxo' Hfull]; simpl.
  - lia.
  - lia.
  - rewrite (totalFilled_seq (alloc _ _ _ _ _ _ _)), (totalFilled_seq (mem me)).
    unfold alloc. rewrite length_app. simpl.
    replace (length (mem me) + 1)%nat with (S (length (mem me))) by lia.
    rewrite seq_S, sumFilled_app. simpl.
    assert (filledAt (mem me ++ [NewOrder env symbol side typ price quantity])
              (length (mem me)) = 0) as ->.
    { unfold filledAt. by rewrite list_lookup_middle. }
    rewrite (sumFilled_ext (mem me)); [lia|].
    intros p Hp. apply elem_of_seq in Hp. unfold filledAt.
    by rewrite lookup_app_l by lia.
  - eapply submit_balance; [done| |done]. lia.
  - eapply submit_balance; [done| |done]. lia.
Qed.

Lemma every_trade_fills_two_orders_witness :
  totalFilled (mem afterMarket)
  = totalFilled (mem tslaAsks) +
    2 * sumQty (match Ok marketResult with
                | Ok a => Trades a
                | Err _ => []
                end).
Proof.
  apply (every_trade_fills_two_orders (envNamed "m") tslaAsks "TSLA" BUY
           MARKET 0 150 afterMarket (Ok marketResult)).
  - apply tslaAsks_reachable.
  - unfold int64. lia.
  - apply market_submitted.
Defined.
